(** * NOFX: market-data multiplexer and trade-performance analysis

    A shallow embedding of
    - [market/combined_streams.go]: the combined-stream WebSocket client
      (batching, subscription bookkeeping, dispatch, reconnect, shutdown);
    - [api/server.go], [analyzePerformanceFromBinance]: reconstruction of
      closed trades from exchange fills and the derived statistics
      (win rate, profit factor, Sharpe ratio).

    Go's [float64] is Rocq's primitive binary64 [float]; Go's [int] and
    [int64] are [Z] with the two's-complement wrap-around written out. *)

From Stdlib Require Import ZArith List Ascii String Bool Lia Floats.
From stdpp Require Import gmap strings list.
Import ListNotations.

#[local] Set Warnings "-inexact-float,-clear-no-such-hyp".
#[local] Open Scope Z_scope.

(* ===================================================================== *)
(** * Part I: definitions *)
(* ===================================================================== *)

(** ** Go runtime conventions *)

Module go.

(** Signed 64-bit wrap-around of [int] and [int64] arithmetic. *)
Definition wrap64 (z : Z) : Z := (z + 2 ^ 63) mod 2 ^ 64 - 2 ^ 63.

Definition int_range (z : Z) : Prop := - 2 ^ 63 <= z < 2 ^ 63.

(** The result of running a piece of Go code that may panic. *)
Inductive run (A : Type) : Type :=
| Done (a : A)
| Panic (msg : string).
Arguments Done {A} a.
Arguments Panic {A} msg.

(** [len(s)] as an [int]. *)
Definition len {A : Type} (s : list A) : Z := Z.of_nat (length s).

(** The slice expression [s[i:j]] on a slice whose capacity equals its
    length; the bounds check [0 <= i <= j <= len(s)] is the caller's. *)
Definition slice {A : Type} (s : list A) (i j : Z) : list A :=
  take (Z.to_nat (j - i)) (drop (Z.to_nat i) s).

(** [float64(n)] for an [int] [n]. *)
Definition float64_of_int (n : Z) : float :=
  if n =? - 2 ^ 63 then (- PrimFloat.of_uint63 (Uint63.of_Z (2 ^ 62)) * 2)%float
  else if n <? 0 then (- PrimFloat.of_uint63 (Uint63.of_Z (- n)))%float
  else PrimFloat.of_uint63 (Uint63.of_Z n).

End go.

(** ** [package market]: the combined-streams client *)

Module market.
Import go.

(** A buffered [chan []byte]: queued payloads, capacity, closed flag. *)
Record chanState : Type := mkChan {
  buf : list string;
  cap : nat;
  closed : bool;
}.

(** [CombinedStreamsClient]. Channels and sockets are references: the
    registry holds channel addresses, [conn] a socket handle ([None] is
    [nil]); [done] is the closed flag of the [done] channel. *)
Record CombinedStreamsClient : Type := mkClient {
  conn : option nat;
  subscribers : gmap string nat;
  reconnect : bool;
  done : bool;
  batchSize : Z;
  subscribedStreams : list string;
}.

(** What the client can do to the outside: log lines, control frames
    written to a socket, sockets closed. *)
Inductive event : Type :=
| Log (line : string)
| WriteJSON (sock : nat) (method : string) (params : list string)
| CloseConn (sock : nat)
| Dial (sock : nat).

(** The client together with the channel heap and the event trace. *)
Record world : Type := mkWorld {
  client : CombinedStreamsClient;
  chans : gmap nat chanState;
  nextChan : nat;
  nextSock : nat;
  trace : list event;
}.

Definition set_client (f : CombinedStreamsClient -> CombinedStreamsClient)
  (w : world) : world :=
  mkWorld (f (client w)) (chans w) (nextChan w) (nextSock w) (trace w).

Definition emit (e : event) (w : world) : world :=
  mkWorld (client w) (chans w) (nextChan w) (nextSock w) (trace w ++ [e]).

(** [NewCombinedStreamsClient]. *)
Definition NewCombinedStreamsClient (batchSize : Z) : world :=
  mkWorld (mkClient None ∅ true false batchSize []) ∅ 0%nat 0%nat [].

(** [Connect], for a dial that succeeded ([dialOk]) or failed. *)
Definition Connect (dialOk : bool) (w : world) : world * bool :=
  if dialOk then
    let s := nextSock w in
    let c := client w in
    let w1 := mkWorld (mkClient (Some s) (subscribers c) (reconnect c) (done c)
                         (batchSize c) (subscribedStreams c))
                (chans w) (nextChan w) (S s) (trace w) in
    (emit (Log "connected") (emit (Dial s) w1), true)
  else (w, false).

(** The loop of [splitIntoBatches], with [fuel] bounding the number of
    iterations: [None] is a loop still running when the fuel is spent. *)
Fixpoint splitLoop (fuel : nat) (symbols : list string) (batchSize i : Z)
  (batches : list (list string)) : option (run (list (list string))) :=
  match fuel with
  | O => None
  | S fuel' =>
    if i <? len symbols then
      let end0 := wrap64 (i + batchSize) in
      let end1 := if end0 >? len symbols then len symbols else end0 in
      if (0 <=? i) && (i <=? end1) then
        splitLoop fuel' symbols batchSize (wrap64 (i + batchSize))
          (batches ++ [slice symbols i end1])
      else Some (Panic "slice bounds out of range")
    else Some (Done batches)
  end.

Definition splitIntoBatches (fuel : nat) (symbols : list string)
  (batchSize : Z) : option (run (list (list string))) :=
  splitLoop fuel symbols batchSize 0 [].

(** [subscribeStreams]: refuse when not connected; otherwise record the
    streams for replay and write the SUBSCRIBE frame. [writeOk] is the
    outcome of the socket write. *)
Definition subscribeStreams (writeOk : bool) (streams : list string)
  (w : world) : world * bool :=
  let c := client w in
  match conn c with
  | None => (w, false)
  | Some s =>
    let w1 := set_client (fun c =>
                mkClient (conn c) (subscribers c) (reconnect c) (done c)
                  (batchSize c) (subscribedStreams c ++ streams)) w in
    (emit (WriteJSON s "SUBSCRIBE" streams) (emit (Log "subscribe") w1), writeOk)
  end.

(** [AddSubscriber]: a fresh channel replaces whatever the key held. *)
Definition AddSubscriber (stream : string) (bufferSize : nat) (w : world)
  : world * nat :=
  let ch := nextChan w in
  let c := client w in
  (mkWorld (mkClient (conn c) (<[stream := ch]> (subscribers c)) (reconnect c)
              (done c) (batchSize c) (subscribedStreams c))
     (<[ch := mkChan [] bufferSize false]> (chans w)) (S ch) (nextSock w)
     (trace w), ch).

(** The non-blocking send [select { case ch <- data: default: }]. With no
    receiver modelled, the send goes through exactly when the buffer has a
    free slot; sending on a closed channel panics. *)
Definition trySend (ch : nat) (data : string) (w : world)
  : run (world * bool) :=
  match chans w !! ch with
  | None => Done (w, false)
  | Some cs =>
    if closed cs then Panic "send on closed channel"
    else if (length (buf cs) <? cap cs)%nat then
      Done (mkWorld (client w)
              (<[ch := mkChan (buf cs ++ [data]) (cap cs) false]> (chans w))
              (nextChan w) (nextSock w) (trace w), true)
    else Done (w, false)
  end.

(** [handleCombinedMessage]. [Unmarshal] stands for [json.Unmarshal] into
    the struct [{Stream; Data}]. *)
Definition handleCombinedMessage
  (Unmarshal : string -> option (string * string)) (message : string)
  (w : world) : run world :=
  match Unmarshal message with
  | None => Done (emit (Log "parse failed") w)
  | Some (stream, data) =>
    match subscribers (client w) !! stream with
    | Some ch =>
      match trySend ch data w with
      | Done (w', true) => Done w'
      | Done (w', false) => Done (emit (Log ("channel full: " ++ stream)) w')
      | Panic msg => Panic msg
      end
    | None => Done w
    end
  end.

(** Go visits the keys of a map once each, in an order it does not
    specify: any duplicate-free enumeration of the key set. *)
Definition mapRange (keys : gset string) (order : list string) : Prop :=
  NoDup order /\ forall k, k ∈ order <-> k ∈ keys.


(** The resubscription loop of [handleReconnect] over [uniqueStreams];
    [writes] lists the outcomes of the successive socket writes (a
    missing entry counts as a success). *)
Fixpoint resubscribeLoop (fuel : nat) (uniqueStreams : list string)
  (writes : list bool) (i : Z) (w : world) : option (run world) :=
  match fuel with
  | O => None
  | S fuel' =>
    let bs := batchSize (client w) in
    if i <? len uniqueStreams then
      let end0 := wrap64 (i + bs) in
      let end1 := if end0 >? len uniqueStreams then len uniqueStreams else end0 in
      if (0 <=? i) && (i <=? end1) then
        let batch := slice uniqueStreams i end1 in
        let w1 :=
          match conn (client w) with
          | Some s =>
            let w' := emit (WriteJSON s "SUBSCRIBE" batch) w in
            if hd true writes then emit (Log "resubscribed batch") w'
            else emit (Log "resubscribe failed") w'
          | None => w
          end in
        resubscribeLoop fuel' uniqueStreams (tl writes) (wrap64 (i + bs)) w1
      else Some (Panic "slice bounds out of range")
    else Some (Done w)
  end.

(** [handleReconnect] for one dial attempt. [uniqueStreams] is the order
    in which the runtime enumerated [streamSet]. A failed dial schedules
    another attempt and changes nothing else. *)
Definition handleReconnect (fuel : nat) (dialOk : bool)
  (uniqueStreams : list string) (writes : list bool) (w : world)
  : option (run world) :=
  if negb (reconnect (client w)) then Some (Done w)
  else
    let w0 := emit (Log "reconnecting") w in
    match Connect dialOk w0 with
    | (w1, false) => Some (Done (emit (Log "reconnect failed") w1))
    | (w1, true) =>
      if (0 <? len uniqueStreams) then
        match resubscribeLoop fuel uniqueStreams writes 0
                (emit (Log "resubscribing") w1) with
        | Some (Done w2) => Some (Done (emit (Log "resubscribed all") w2))
        | r => r
        end
      else Some (Done w1)
    end.

(** The SUBSCRIBE frames an event trace contains, in order. *)
Definition subscribeFrames (t : list event) : list (list string) :=
  omap (fun e => match e with
                 | WriteJSON _ _ params => Some params
                 | _ => None
                 end) t.

(** [close(ch)] on a subscriber channel. *)
Definition closeChan (ch : nat) (w : world) : run world :=
  match chans w !! ch with
  | None => Done w
  | Some cs =>
    if closed cs then Panic "close of closed channel"
    else Done (mkWorld (client w) (<[ch := mkChan (buf cs) (cap cs) true]> (chans w))
                 (nextChan w) (nextSock w) (trace w))
  end.

(** The loop [for stream, ch := range c.subscribers] of [Close] over the
    entries the runtime enumerates. *)
Fixpoint closeSubscribers (entries : list (string * nat)) (w : world)
  : run world :=
  match entries with
  | [] => Done w
  | (stream, ch) :: rest =>
    match closeChan ch w with
    | Done w1 =>
      closeSubscribers rest
        (set_client (fun c =>
           mkClient (conn c) (delete stream (subscribers c)) (reconnect c)
             (done c) (batchSize c) (subscribedStreams c)) w1)
    | Panic msg => Panic msg
    end
  end.

(** [Close]. *)
Definition Close (w : world) : run world :=
  let w1 := set_client (fun c =>
              mkClient (conn c) (subscribers c) false (done c)
                (batchSize c) (subscribedStreams c)) w in
  if done (client w1) then Panic "close of closed channel"
  else
    let w2 := set_client (fun c =>
                mkClient (conn c) (subscribers c) (reconnect c) true
                  (batchSize c) (subscribedStreams c)) w1 in
    let w3 :=
      match conn (client w2) with
      | Some s =>
        set_client (fun c =>
          mkClient None (subscribers c) (reconnect c) (done c)
            (batchSize c) (subscribedStreams c)) (emit (CloseConn s) w2)
      | None => w2
      end in
    closeSubscribers (map_to_list (subscribers (client w3))) w3.

End market.

(** ** [package trader]: an exchange fill *)

Module trader.

(** The fields of a fill that [analyzePerformanceFromBinance] reads. *)
Record Trade : Type := mkTrade {
  Side : string;
  PositionSide : string;
  Price : float;
  Qty : float;
  RealizedPnl : float;
  Commission : float;
  Time : Z;
}.

End trader.

(** ** [package logger]: the analysis result *)

Module TradeOutcome.

(** [Duration] is the [time.Duration] in nanoseconds (the source stores its
    printed form); [OpenTime] and [CloseTime] are Unix milliseconds. *)
Record t : Type := mk {
  Symbol : string;
  Side : string;
  Quantity : float;
  Leverage : Z;
  OpenPrice : float;
  ClosePrice : float;
  PositionValue : float;
  MarginUsed : float;
  PnL : float;
  PnLPct : float;
  Duration : Z;
  OpenTime : Z;
  CloseTime : Z;
}.

End TradeOutcome.

Module SymbolPerformance.

Record t : Type := mk {
  Symbol : string;
  TotalTrades : Z;
  WinningTrades : Z;
  LosingTrades : Z;
  WinRate : float;
  TotalPnL : float;
  AvgPnL : float;
}.

End SymbolPerformance.

Module PerformanceAnalysis.

Record t : Type := mk {
  TotalTrades : Z;
  WinningTrades : Z;
  LosingTrades : Z;
  WinRate : float;
  AvgWin : float;
  AvgLoss : float;
  ProfitFactor : float;
  SharpeRatio : float;
  RecentTrades : list TradeOutcome.t;
  SymbolStats : gmap string SymbolPerformance.t;
}.

End PerformanceAnalysis.

(** ** [package api]: [analyzePerformanceFromBinance] *)

Module api.
Import go trader.

#[local] Open Scope float_scope.

(** [strings.ToLower] on ASCII text. *)
Definition lowerAscii (c : ascii) : ascii :=
  let n := nat_of_ascii c in
  if ((65 <=? n) && (n <=? 90))%nat then ascii_of_nat (n + 32) else c.

Fixpoint ToLower (s : string) : string :=
  match s with
  | EmptyString => EmptyString
  | String c s' => String (lowerAscii c) (ToLower s')
  end.

(** The local [type Position struct] (lines 1794-1802). *)
Record Position : Type := mkPosition {
  openPrice : float;
  openTime : Z;
  totalQty : float;
  totalCost : float;
  realizedPnl : float;
  commission : float;
  tradeCount : Z;
}.

(** [&Position{}] and [Position{}]. *)
Definition zeroPosition : Position := mkPosition 0 0%Z 0 0 0 0 0%Z.

(** [&logger.PerformanceAnalysis{RecentTrades: ..., SymbolStats: ...}]. *)
Definition emptyAnalysis : PerformanceAnalysis.t :=
  PerformanceAnalysis.mk 0%Z 0%Z 0%Z 0 0 0 0 0 [] ∅.

(** The accumulator a fill is routed to: [pos = longPos], [pos = shortPos],
    or [continue]. *)
Inductive posSide : Type := Long | Short.

Definition selectPos (trade : Trade) : option posSide :=
  if String.eqb (PositionSide trade) "LONG" then Some Long
  else if String.eqb (PositionSide trade) "SHORT" then Some Short
  else None.

(** The test of line 1818: an opening fill. *)
Definition isOpening (trade : Trade) : bool :=
  String.eqb (Side trade) "BUY" && String.eqb (PositionSide trade) "LONG"
  || String.eqb (Side trade) "SELL" && String.eqb (PositionSide trade) "SHORT".

(** The default leverage of line 1842. *)
Definition leverage : Z := 5.

(** The closing threshold of line 1835. *)
Definition epsilon : float := 0.0001.

(** Lines 1821-1826: an opening fill. *)
Definition openFill (trade : Trade) (pos : Position) : Position :=
  let t0 := if totalQty pos =? 0 then Time trade else openTime pos in
  mkPosition (openPrice pos) t0 (totalQty pos + Qty trade)
    (totalCost pos + Price trade * Qty trade) (realizedPnl pos)
    (commission pos) (wrap64 (tradeCount pos + 1)).

(** Lines 1829-1832: a closing fill. *)
Definition closeFill (trade : Trade) (pos : Position) : Position :=
  mkPosition (openPrice pos) (openTime pos) (totalQty pos - Qty trade)
    (totalCost pos) (realizedPnl pos + RealizedPnl trade)
    (commission pos + Commission trade) (wrap64 (tradeCount pos + 1)).

(** The test of line 1835 on the accumulator after the closing fill. *)
Definition fullyClosed (pos : Position) : bool :=
  (totalQty pos <=? epsilon) && (0 <? tradeCount pos)%Z.

(** Lines 1836-1859: the outcome of a fully closed position; [pos] is the
    accumulator after the closing fill [trade]. *)
Definition makeOutcome (symbol : string) (trade : Trade) (pos : Position)
  : TradeOutcome.t :=
  let avgOpenPrice := totalCost pos / (totalQty pos + Qty trade) in
  let duration := wrap64 (wrap64 (Time trade - openTime pos) * 1000000) in
  let quantity := totalQty pos + Qty trade in
  let positionValue := avgOpenPrice * quantity in
  let marginUsed := positionValue / float64_of_int leverage in
  TradeOutcome.mk symbol (ToLower (PositionSide trade)) quantity leverage
    avgOpenPrice (Price trade) positionValue marginUsed
    (realizedPnl pos - commission pos)
    ((realizedPnl pos - commission pos) / marginUsed * 100)
    duration (openTime pos) (Time trade).

(** Lines 1873-1885: the per-symbol counters. *)
Definition updateSymbolStats (symbol : string) (outcome : TradeOutcome.t)
  (stats : gmap string SymbolPerformance.t) : gmap string SymbolPerformance.t :=
  let s0 := match stats !! symbol with
            | Some s => s
            | None => SymbolPerformance.mk symbol 0%Z 0%Z 0%Z 0 0 0
            end in
  let pnl := TradeOutcome.PnL outcome in
  let wins := if 0 <? pnl then wrap64 (SymbolPerformance.WinningTrades s0 + 1)
              else SymbolPerformance.WinningTrades s0 in
  let losses := if 0 <? pnl then SymbolPerformance.LosingTrades s0
                else if pnl <? 0 then wrap64 (SymbolPerformance.LosingTrades s0 + 1)
                else SymbolPerformance.LosingTrades s0 in
  <[symbol := SymbolPerformance.mk (SymbolPerformance.Symbol s0)
                (wrap64 (SymbolPerformance.TotalTrades s0 + 1)) wins losses
                (SymbolPerformance.WinRate s0)
                (SymbolPerformance.TotalPnL s0 + pnl)
                (SymbolPerformance.AvgPnL s0)]> stats.

(** Lines 1861-1885: append the outcome and update the running totals. *)
Definition recordOutcome (symbol : string) (outcome : TradeOutcome.t)
  (a : PerformanceAnalysis.t) : PerformanceAnalysis.t :=
  let pnl := TradeOutcome.PnL outcome in
  let win := 0 <? pnl in
  let loss := negb win && (pnl <? 0) in
  PerformanceAnalysis.mk
    (wrap64 (PerformanceAnalysis.TotalTrades a + 1))
    (if win then wrap64 (PerformanceAnalysis.WinningTrades a + 1)
     else PerformanceAnalysis.WinningTrades a)
    (if loss then wrap64 (PerformanceAnalysis.LosingTrades a + 1)
     else PerformanceAnalysis.LosingTrades a)
    (PerformanceAnalysis.WinRate a)
    (if win then PerformanceAnalysis.AvgWin a + pnl else PerformanceAnalysis.AvgWin a)
    (if loss then PerformanceAnalysis.AvgLoss a + pnl else PerformanceAnalysis.AvgLoss a)
    (PerformanceAnalysis.ProfitFactor a)
    (PerformanceAnalysis.SharpeRatio a)
    (PerformanceAnalysis.RecentTrades a ++ [outcome])
    (updateSymbolStats symbol outcome (PerformanceAnalysis.SymbolStats a)).

(** The state of the loop over one symbol's fills. *)
Record symbolState : Type := mkState {
  longPos : Position;
  shortPos : Position;
  analysis : PerformanceAnalysis.t;
}.

Definition getPos (side : posSide) (st : symbolState) : Position :=
  match side with Long => longPos st | Short => shortPos st end.

Definition setPos (side : posSide) (pos : Position) (st : symbolState)
  : symbolState :=
  match side with
  | Long => mkState pos (shortPos st) (analysis st)
  | Short => mkState (longPos st) pos (analysis st)
  end.

(** Lines 1807-1891: the body of [for _, trade := range trades]. *)
Definition processTrade (symbol : string) (st : symbolState) (trade : Trade)
  : symbolState :=
  match selectPos trade with
  | None => st
  | Some side =>
    let pos := getPos side st in
    if isOpening trade then setPos side (openFill trade pos) st
    else
      let pos' := closeFill trade pos in
      if fullyClosed pos' then
        setPos side zeroPosition
          (mkState (longPos st) (shortPos st)
             (recordOutcome symbol (makeOutcome symbol trade pos') (analysis st)))
      else setPos side pos' st
  end.

(** Lines 1788-1892: one iteration of [for symbol, trades := range
    tradeHistory]. *)
Definition processSymbol (a : PerformanceAnalysis.t)
  (entry : string * list Trade) : PerformanceAnalysis.t :=
  let (symbol, trades) := entry in
  if (len trades =? 0)%Z then a
  else analysis (fold_left (processTrade symbol) trades
                   (mkState zeroPosition zeroPosition a)).

(** The reconstruction loop over the trade history, given as the entries
    of the map in the order the runtime enumerates them. *)
Definition reconstruct (tradeHistory : list (string * list Trade))
  : PerformanceAnalysis.t :=
  fold_left processSymbol tradeHistory emptyAnalysis.

(** Lines 1894-1917: averages, win rate and profit factor. *)
Definition computeStatistics (a : PerformanceAnalysis.t) : PerformanceAnalysis.t :=
  let wins := PerformanceAnalysis.WinningTrades a in
  let losses := PerformanceAnalysis.LosingTrades a in
  let total := PerformanceAnalysis.TotalTrades a in
  let avgWin := if (0 <? wins)%Z then PerformanceAnalysis.AvgWin a / float64_of_int wins
                else PerformanceAnalysis.AvgWin a in
  let avgLoss := if (0 <? losses)%Z then PerformanceAnalysis.AvgLoss a / float64_of_int losses
                 else PerformanceAnalysis.AvgLoss a in
  let winRate := if (0 <? total)%Z then float64_of_int wins / float64_of_int total * 100
                 else PerformanceAnalysis.WinRate a in
  let profitFactor :=
    if negb (avgLoss =? 0) && (0 <? losses)%Z then
      let pf := avgWin / - avgLoss in
      if 100 <? pf then 100 else pf
    else if (0 <? wins)%Z && (losses =? 0)%Z then 100
    else 0 in
  PerformanceAnalysis.mk total wins losses winRate avgWin avgLoss profitFactor
    (PerformanceAnalysis.SharpeRatio a) (PerformanceAnalysis.RecentTrades a)
    (PerformanceAnalysis.SymbolStats a).

(** Lines 1928-1951: the return rate and base value of one trade. *)
Definition tradeReturn (trade : TradeOutcome.t) : float * float :=
  if 0 <? TradeOutcome.MarginUsed trade then
    (TradeOutcome.PnL trade / TradeOutcome.MarginUsed trade,
     TradeOutcome.MarginUsed trade)
  else if 0 <? TradeOutcome.PositionValue trade then
    (TradeOutcome.PnL trade / TradeOutcome.PositionValue trade,
     TradeOutcome.PositionValue trade)
  else if (0 <? TradeOutcome.OpenPrice trade) && (0 <? TradeOutcome.Quantity trade) then
    let base0 := TradeOutcome.OpenPrice trade * TradeOutcome.Quantity trade in
    let base1 := if (0 <? TradeOutcome.Leverage trade)%Z
                 then base0 / float64_of_int (TradeOutcome.Leverage trade)
                 else base0 in
    if 0 <? base1 then (TradeOutcome.PnL trade / base1, base1) else (0, base1)
  else (0, 0).

(** Lines 1927-1958: the loop collecting the valid returns. *)
Definition collectReturns (trades : list TradeOutcome.t) : list float :=
  fold_left (fun returns trade =>
               let (returnRate, baseValue) := tradeReturn trade in
               if 0 <? baseValue then returns ++ [returnRate] else returns)
    trades [].

(** Lines 1962-1994, for a sample [returns] of at least two. *)
Definition sharpeOfReturns (sharpe0 : float) (returns : list float) : float :=
  let sumReturns := fold_left (fun s r => s + r) returns 0 in
  let avgReturn := sumReturns / float64_of_int (len returns) in
  let sumSquaredDiff :=
    fold_left (fun s r => let diff := r - avgReturn in s + diff * diff) returns 0 in
  let stdDev := PrimFloat.sqrt (sumSquaredDiff / float64_of_int (len returns)) in
  if 0 <? stdDev then
    let sharpe := avgReturn / stdDev in
    if 3 <? sharpe then 3 else if sharpe <? -3 then -3 else sharpe
  else sharpe0.

(** Lines 1919-2000: the Sharpe ratio. *)
Definition computeSharpe (a : PerformanceAnalysis.t) : PerformanceAnalysis.t :=
  let trades := PerformanceAnalysis.RecentTrades a in
  let sharpe :=
    if (2 <=? len trades)%Z then
      let returns := collectReturns trades in
      if (2 <=? len returns)%Z
      then sharpeOfReturns (PerformanceAnalysis.SharpeRatio a) returns
      else PerformanceAnalysis.SharpeRatio a
    else PerformanceAnalysis.SharpeRatio a in
  PerformanceAnalysis.mk (PerformanceAnalysis.TotalTrades a)
    (PerformanceAnalysis.WinningTrades a) (PerformanceAnalysis.LosingTrades a)
    (PerformanceAnalysis.WinRate a) (PerformanceAnalysis.AvgWin a)
    (PerformanceAnalysis.AvgLoss a) (PerformanceAnalysis.ProfitFactor a)
    sharpe (PerformanceAnalysis.RecentTrades a) (PerformanceAnalysis.SymbolStats a).

(** Lines 2007-2012: one entry of the per-symbol statistics. *)
Definition finishSymbol (stats : SymbolPerformance.t) : SymbolPerformance.t :=
  if (0 <? SymbolPerformance.TotalTrades stats)%Z then
    SymbolPerformance.mk (SymbolPerformance.Symbol stats)
      (SymbolPerformance.TotalTrades stats) (SymbolPerformance.WinningTrades stats)
      (SymbolPerformance.LosingTrades stats)
      (float64_of_int (SymbolPerformance.WinningTrades stats)
       / float64_of_int (SymbolPerformance.TotalTrades stats) * 100)
      (SymbolPerformance.TotalPnL stats)
      (SymbolPerformance.TotalPnL stats
       / float64_of_int (SymbolPerformance.TotalTrades stats))
  else stats.

Definition computeSymbolStats (a : PerformanceAnalysis.t) : PerformanceAnalysis.t :=
  PerformanceAnalysis.mk (PerformanceAnalysis.TotalTrades a)
    (PerformanceAnalysis.WinningTrades a) (PerformanceAnalysis.LosingTrades a)
    (PerformanceAnalysis.WinRate a) (PerformanceAnalysis.AvgWin a)
    (PerformanceAnalysis.AvgLoss a) (PerformanceAnalysis.ProfitFactor a)
    (PerformanceAnalysis.SharpeRatio a) (PerformanceAnalysis.RecentTrades a)
    (finishSymbol <$> PerformanceAnalysis.SymbolStats a).

(** [analyzePerformanceFromBinance], from the fetched trade history on. *)
Definition analyzePerformanceFromBinance
  (tradeHistory : list (string * list Trade)) : PerformanceAnalysis.t :=
  computeSymbolStats (computeSharpe (computeStatistics (reconstruct tradeHistory))).

End api.

(** ** Vocabulary of the statements *)

Module batching.
Import go market.

(** Every batch but the last holds exactly [n] elements. *)
Definition fullButLast (n : Z) (batches : list (list string)) : Prop :=
  forall k b, batches !! k = Some b -> (S k < length batches)%nat -> len b = n.

(** No batch is empty and none exceeds [n]. *)
Definition boundedBatches (n : Z) (batches : list (list string)) : Prop :=
  Forall (fun b => 1 <= len b <= n) batches.

(** The loop counter is either at its start or at least one batch in. *)
Definition counterOk (batchSize i : Z) : Prop := i = 0 \/ batchSize <= i.

End batching.

(** ** Vocabulary: the life of a connected client *)

Module session.
Import go market.

(** What happens to a client between two reconnections: a subscription
    request, or a reconnection attempt in which the runtime enumerated
    the stream set as [order]. *)
Inductive op : Type :=
| Subscribe (streams : list string) (writeOk : bool)
| Reconnect (dialOk : bool) (order : list string) (writes : list bool).



(** The stream keys requested by a sequence of operations. *)
Definition requested (os : list op) : list string :=
  concat (omap (fun o => match o with
                         | Subscribe streams _ => Some streams
                         | Reconnect _ _ _ => None
                         end) os).

(** The frames a step appended to the trace. *)
Definition newFrames (w w' : world) (frames : list (list string)) : Prop :=
  subscribeFrames (trace w') = subscribeFrames (trace w) ++ frames.

End session.

(** ** Vocabulary: the subscriber registry *)

Module registry.
Import go market.

(** A consumer taking the oldest payload off a subscriber channel. *)
Definition receive (ch : nat) (w : world) : world :=
  match chans w !! ch with
  | Some cs =>
    mkWorld (client w) (<[ch := mkChan (tl (buf cs)) (cap cs) (closed cs)]> (chans w))
      (nextChan w) (nextSock w) (trace w)
  | None => w
  end.

(** The registry invariant: every registered channel is allocated and
    open, two keys never share a channel, and channel addresses below
    [nextChan] are the only ones in use. *)
Definition wf (w : world) : Prop :=
  (forall stream ch, subscribers (client w) !! stream = Some ch ->
                     exists cs, chans w !! ch = Some cs /\ closed cs = false)
  /\ (forall s1 s2 ch, subscribers (client w) !! s1 = Some ch ->
                       subscribers (client w) !! s2 = Some ch -> s1 = s2)
  /\ (forall ch, is_Some (chans w !! ch) -> (ch < nextChan w)%nat).

(** The states a client goes through. *)
Inductive reachable (Unmarshal : string -> option (string * string))
  : world -> Prop :=
| reach_new batchSize : reachable Unmarshal (NewCombinedStreamsClient batchSize)
| reach_connect w dialOk :
    reachable Unmarshal w -> reachable Unmarshal (Connect dialOk w).1
| reach_subscribe w writeOk streams :
    reachable Unmarshal w ->
    reachable Unmarshal (subscribeStreams writeOk streams w).1
| reach_add w stream bufferSize :
    reachable Unmarshal w ->
    reachable Unmarshal (AddSubscriber stream bufferSize w).1
| reach_receive w ch :
    reachable Unmarshal w -> reachable Unmarshal (receive ch w)
| reach_message w message w' :
    reachable Unmarshal w ->
    handleCombinedMessage Unmarshal message w = Done w' ->
    reachable Unmarshal w'
| reach_reconnect w fuel dialOk order writes w' :
    reachable Unmarshal w ->
    handleReconnect fuel dialOk order writes w = Some (Done w') ->
    reachable Unmarshal w'
| reach_close w w' :
    reachable Unmarshal w -> Close w = Done w' -> reachable Unmarshal w'.

(** The world after a payload was queued on channel [ch]. *)
Definition delivered (ch : nat) (cs : chanState) (data : string) (w : world)
  : world :=
  mkWorld (client w) (<[ch := mkChan (buf cs ++ [data]) (cap cs) false]> (chans w))
    (nextChan w) (nextSock w) (trace w).

(** The number of [CloseConn] events for socket [s] in a trace. *)
Definition socketCloses (s : nat) (t : list event) : nat :=
  length (List.filter (fun e => match e with
                                | CloseConn s' => Nat.eqb s s'
                                | _ => false
                                end) t).

End registry.

(** ** Vocabulary: classes of binary64 values *)

Module f64.

(** Zero of either sign, or a finite number or infinity of sign [s]. *)
Definition SFsigned (s : bool) (x : spec_float) : bool :=
  match x with
  | S754_zero _ => true
  | S754_finite s' _ _ | S754_infinity s' => Bool.eqb s s'
  | S754_nan => false
  end.

(** A non-zero finite number or an infinity of sign [s]. *)
Definition SFstrict (s : bool) (x : spec_float) : bool :=
  match x with
  | S754_finite s' _ _ | S754_infinity s' => Bool.eqb s s'
  | _ => false
  end.

(** A non-zero finite number of sign [s]. *)
Definition SFnumber (s : bool) (x : spec_float) : bool :=
  match x with
  | S754_finite s' _ _ => Bool.eqb s s'
  | _ => false
  end.

End f64.

(** ** Vocabulary: the round trip of the specification *)

Module scenario.
Import go trader api.
#[local] Open Scope float_scope.

(** Open LONG 1.0 at 100, then close it at 110 with realized PnL 10 and
    commission 0.2. What the opening fill reports as realized PnL and
    commission plays no part. *)
Definition scenarioOpen (t0 : Z) (pnl0 fee0 : float) : Trade :=
  mkTrade "BUY" "LONG" 100 1 pnl0 fee0 t0.

Definition scenarioClose (t1 : Z) : Trade :=
  mkTrade "SELL" "LONG" 110 1 10 0.2 t1.

End scenario.

(** ** Vocabulary: aggregates over a list of trade outcomes *)

Module stats.
Import go api.
#[local] Open Scope float_scope.

Definition isWin (o : TradeOutcome.t) : bool := 0 <? TradeOutcome.PnL o.

Definition isLoss (o : TradeOutcome.t) : bool := TradeOutcome.PnL o <? 0.

Definition wins (trades : list TradeOutcome.t) : list TradeOutcome.t :=
  List.filter isWin trades.

Definition losses (trades : list TradeOutcome.t) : list TradeOutcome.t :=
  List.filter isLoss trades.

(** The outcomes of one symbol, in the order they were recorded. *)
Definition ofSymbol (symbol : string) (trades : list TradeOutcome.t)
  : list TradeOutcome.t :=
  List.filter (fun o => String.eqb (TradeOutcome.Symbol o) symbol) trades.

(** PnL added up in list order, starting from zero. *)
Definition sumPnL (trades : list TradeOutcome.t) : float :=
  fold_left (fun s o => s + TradeOutcome.PnL o) trades 0.

(** The mean PnL of a list, zero for the empty list. *)
Definition meanPnL (trades : list TradeOutcome.t) : float :=
  if (0 <? len trades)%Z then sumPnL trades / float64_of_int (len trades)
  else sumPnL trades.

(** [count / total * 100], zero when there is nothing to count. *)
Definition percentage (count total : Z) : float :=
  if (0 <? total)%Z then float64_of_int count / float64_of_int total * 100
  else 0.

(** The running per-symbol record after the outcomes [l] of [symbol]. *)
Definition symbolTotals (symbol : string) (l : list TradeOutcome.t)
  : option SymbolPerformance.t :=
  match l with
  | [] => None
  | _ => Some (SymbolPerformance.mk symbol (wrap64 (len l)) (wrap64 (len (wins l)))
                 (wrap64 (len (losses l))) 0 (sumPnL l) 0)
  end.

(** The invariant of the reconstruction loop: the running counters and
    sums are the aggregates of the outcomes recorded so far, and the
    derived ratios are still at their zero value. *)
Definition totalsOk (a : PerformanceAnalysis.t) : Prop :=
  let trades := PerformanceAnalysis.RecentTrades a in
  PerformanceAnalysis.TotalTrades a = wrap64 (len trades)
  /\ PerformanceAnalysis.WinningTrades a = wrap64 (len (wins trades))
  /\ PerformanceAnalysis.LosingTrades a = wrap64 (len (losses trades))
  /\ PerformanceAnalysis.AvgWin a = sumPnL (wins trades)
  /\ PerformanceAnalysis.AvgLoss a = sumPnL (losses trades)
  /\ PerformanceAnalysis.WinRate a = 0
  /\ PerformanceAnalysis.ProfitFactor a = 0
  /\ PerformanceAnalysis.SharpeRatio a = 0
  /\ forall symbol,
       PerformanceAnalysis.SymbolStats a !! symbol
       = symbolTotals symbol (ofSymbol symbol trades).

(** The finished per-symbol record of the outcomes [l] of [symbol]. *)
Definition symbolSummary (symbol : string) (l : list TradeOutcome.t)
  : option SymbolPerformance.t :=
  match l with
  | [] => None
  | _ => Some (SymbolPerformance.mk symbol (len l) (len (wins l)) (len (losses l))
                 (percentage (len (wins l)) (len l))
                 (sumPnL l) (sumPnL l / float64_of_int (len l)))
  end.

(** The cap applied to the profit factor. *)
Definition capAt100 (x : float) : float := if 100 <? x then 100 else x.

(** A float inside the closed interval [[lo, hi]]. *)
Definition within (lo hi x : float) : bool := (lo <=? x) && (x <=? hi).

End stats.

(** ** Vocabulary: rounding to nearest, ties to even *)

Module rounding.

(** [m / 2^k] rounded to the nearest integer, ties to even. *)
Definition rne (m k : Z) : Z :=
  let q := m / 2 ^ k in
  let r := m mod 2 ^ k in
  if 2 * r <? 2 ^ k then q
  else if 2 ^ k <? 2 * r then q + 1
  else if Z.even q then q else q + 1.

(** The order of two positive binary64 numbers given by mantissa and
    exponent, both mantissas having 53 digits. *)
Definition lexLe (m1 : positive) (e1 : Z) (m2 : positive) (e2 : Z) : Prop :=
  e1 < e2 \/ (e1 = e2 /\ Z.pos m1 <= Z.pos m2).

(** [x <= 2 * y] on the exact values of two positive finite numbers. *)
Definition atMostTwice (x y : float) : bool :=
  match Prim2SF x, Prim2SF y with
  | S754_finite false mx ex, S754_finite false my ey =>
    let e := Z.min ex ey in
    Z.pos mx * 2 ^ (ex - e) <=? 2 * (Z.pos my * 2 ^ (ey - e))
  | _, _ => false
  end.

End rounding.

(** ** Vocabulary: the trade-level Sharpe ratio, as the specification
    words it *)

Module sharpe.
Import go api.
#[local] Open Scope float_scope.

(** The estimated base: open price times quantity, divided by the
    leverage when the leverage is positive. *)
Definition estimatedBase (o : TradeOutcome.t) : float :=
  let value := TradeOutcome.OpenPrice o * TradeOutcome.Quantity o in
  if (0 <? TradeOutcome.Leverage o)%Z
  then value / float64_of_int (TradeOutcome.Leverage o)
  else value.

(** The base of a trade's return, by priority: the margin, the position
    value, the estimated base; [None] when none of them is positive. *)
Definition validBase (o : TradeOutcome.t) : option float :=
  if 0 <? TradeOutcome.MarginUsed o then Some (TradeOutcome.MarginUsed o)
  else if 0 <? TradeOutcome.PositionValue o then Some (TradeOutcome.PositionValue o)
  else if (0 <? TradeOutcome.OpenPrice o) && (0 <? TradeOutcome.Quantity o)
          && (0 <? estimatedBase o)
  then Some (estimatedBase o)
  else None.

Definition returnOf (o : TradeOutcome.t) : option float :=
  (fun base => TradeOutcome.PnL o / base) <$> validBase o.

(** The return sample: the trades without a base are left out. *)
Definition returnsOf (trades : list TradeOutcome.t) : list float :=
  omap returnOf trades.

(** Sum in list order, starting from zero. *)
Definition sumOf (l : list float) : float := fold_left (fun s r => s + r) l 0.

Definition mean (l : list float) : float := sumOf l / float64_of_int (len l).

Definition populationStdDev (l : list float) : float :=
  PrimFloat.sqrt
    (sumOf (map (fun r => (r - mean l) * (r - mean l)) l) / float64_of_int (len l)).

Definition clip (lo hi x : float) : float :=
  if hi <? x then hi else if x <? lo then lo else x.

Definition sharpeRatio (trades : list TradeOutcome.t) : float :=
  let returns := returnsOf trades in
  if (len returns <? 2)%Z then 0
  else
    let stdDev := populationStdDev returns in
    if 0 <? stdDev then clip (-3) 3 (mean returns / stdDev) else 0.

End sharpe.

(** ** Vocabulary: closing cycles of one accumulator *)

Module cycles.
Import go trader api.
#[local] Open Scope float_scope.

(** The fills of a symbol that are routed to one accumulator, and the
    outcomes that stem from it. *)
Definition onSide (side : posSide) (trade : Trade) : bool :=
  match selectPos trade, side with
  | Some Long, Long | Some Short, Short => true
  | _, _ => false
  end.

Definition sideFills (side : posSide) (trades : list Trade) : list Trade :=
  List.filter (onSide side) trades.

Definition sideName (side : posSide) : string :=
  match side with Long => "long" | Short => "short" end.

Definition sideOutcomes (side : posSide) (outcomes : list TradeOutcome.t)
  : list TradeOutcome.t :=
  List.filter (fun o => String.eqb (TradeOutcome.Side o) (sideName side)) outcomes.

(** Lines 1818-1832 on the fills [c], from the zero accumulator. *)
Definition applyFill (pos : Position) (trade : Trade) : Position :=
  if isOpening trade then openFill trade pos else closeFill trade pos.

Definition accumulate (c : list Trade) : Position :=
  fold_left applyFill c zeroPosition.

(** The quantity left open by the fills [c]. *)
Definition runningQty (c : list Trade) : float :=
  fold_left (fun q t => if isOpening t then q + Qty t else q - Qty t) c 0.

(** A closing cycle: the fills [body] followed by the closing fill that
    brings the running quantity down to the threshold. *)
Record Cycle : Type := mkCycle {
  body : list Trade;
  closing : Trade;
}.

Definition fills (c : Cycle) : list Trade := body c ++ [closing c].

(** [trade] ends the cycle whose fills so far are [cur]. *)
Definition closesCycle (cur : list Trade) (trade : Trade) : bool :=
  negb (isOpening trade) && (runningQty (cur ++ [trade]) <=? epsilon).

(** The fills of one accumulator cut into closing cycles; [cur] holds
    the fills of the cycle under way. The second component is the cycle
    left open at the end. *)
Fixpoint splitCycles (cur : list Trade) (trades : list Trade)
  : list Cycle * list Trade :=
  match trades with
  | [] => ([], cur)
  | trade :: rest =>
    if closesCycle cur trade then
      let (cs, open) := splitCycles [] rest in (mkCycle cur trade :: cs, open)
    else splitCycles (cur ++ [trade]) rest
  end.

Definition closedCycles (trades : list Trade) : list Cycle :=
  (splitCycles [] trades).1.

Definition openCycle (trades : list Trade) : list Trade :=
  (splitCycles [] trades).2.

(** Sums over the fills of a cycle, in order, starting from zero. *)
Definition sumBy (f : Trade -> float) (l : list Trade) : float :=
  fold_left (fun s t => s + f t) l 0.

Definition openingFills (l : list Trade) : list Trade := List.filter isOpening l.

Definition closingFills (l : list Trade) : list Trade :=
  List.filter (fun t => negb (isOpening t)) l.

Definition realizedOf (c : Cycle) : float := sumBy RealizedPnl (closingFills (fills c)).

Definition commissionOf (c : Cycle) : float := sumBy Commission (closingFills (fills c)).

Definition costOf (c : Cycle) : float :=
  sumBy (fun t => Price t * Qty t) (openingFills (fills c)).

(** The time of the first opening fill, 0 when there is none. *)
Definition firstOpeningTime (l : list Trade) : Z :=
  match openingFills l with
  | t :: _ => Time t
  | [] => 0%Z
  end.

(** The quantity of the outcome: what was open before the closing fill,
    less the closing quantity, plus the closing quantity. *)
Definition quantityOf (c : Cycle) : float :=
  runningQty (body c) - Qty (closing c) + Qty (closing c).

Definition avgOpenPriceOf (c : Cycle) : float := costOf c / quantityOf c.

Definition marginOf (c : Cycle) : float :=
  avgOpenPriceOf c * quantityOf c / float64_of_int leverage.

Definition pnlOf (c : Cycle) : float := realizedOf c - commissionOf c.

(** Nanoseconds from the first opening fill to the closing fill. *)
Definition durationOf (c : Cycle) : Z :=
  wrap64 (wrap64 (Time (closing c) - firstOpeningTime (fills c)) * 1000000).

Definition cycleOutcome (symbol : string) (c : Cycle) : TradeOutcome.t :=
  TradeOutcome.mk symbol (ToLower (PositionSide (closing c))) (quantityOf c) leverage
    (avgOpenPriceOf c) (Price (closing c)) (avgOpenPriceOf c * quantityOf c)
    (marginOf c) (pnlOf c) (pnlOf c / marginOf c * 100) (durationOf c)
    (firstOpeningTime (fills c)) (Time (closing c)).

(** Every fill has a positive quantity. *)
Definition positiveQty (trades : list Trade) : Prop :=
  Forall (fun t => (0 <? Qty t) = true) trades.

(** The state of a cycle under way: the accumulator's open time is that
    of the first opening fill, and once a fill has been taken the
    quantity is positive or a NaN and the cycle has an opening fill. *)
Definition underWay (cur : list Trade) : Prop :=
  openTime (accumulate cur) = firstOpeningTime cur
  /\ (cur = []
      \/ (openingFills cur <> []
          /\ ((0 <? totalQty (accumulate cur)) = true
              \/ is_nan (totalQty (accumulate cur)) = true))).

End cycles.

(** ** [package market], continued: batch subscription and the read loop *)

Module streams.
Import go market.

(** [fmt.Sprintf("%s@kline_%s", strings.ToLower(symbol), interval)];
    [ToLower] stands for [strings.ToLower]. *)
Definition klineStream (ToLower : string -> string) (interval symbol : string)
  : string :=
  ToLower symbol ++ "@kline_" ++ interval.

(** The loop [for i, batch := range batches] of [BatchSubscribeKlines];
    [writes] lists the outcomes of the successive socket writes (a
    missing entry counts as a success). The result carries the number
    [i+1] of the batch whose subscription failed, if any. *)
Fixpoint subscribeBatches (ToLower : string -> string) (interval : string)
  (i : Z) (batches : list (list string)) (writes : list bool) (w : world)
  : world * option Z :=
  match batches with
  | [] => (w, None)
  | batch :: rest =>
    let w0 := emit (Log "subscribing batch") w in
    let streams := map (klineStream ToLower interval) batch in
    match subscribeStreams (hd true writes) streams w0 with
    | (w1, true) => subscribeBatches ToLower interval (i + 1) rest (tl writes) w1
    | (w1, false) => (w1, Some (i + 1))
    end
  end.

(** [BatchSubscribeKlines]. *)
Definition BatchSubscribeKlines (fuel : nat) (ToLower : string -> string)
  (symbols : list string) (interval : string) (writes : list bool) (w : world)
  : option (run (world * option Z)) :=
  match splitIntoBatches fuel symbols (batchSize (client w)) with
  | None => None
  | Some (Panic msg) => Some (Panic msg)
  | Some (Done batches) =>
    Some (Done (subscribeBatches ToLower interval 0 batches writes w))
  end.

(** What [conn.ReadMessage] returns. *)
Inductive readResult : Type :=
| ReadOk (message : string)
| ReadTimeout
| ReadFailed.

(** [readMessages] over the results [reads] of the successive reads. The
    loop is still running ([None]) when the fuel is spent, which is what
    happens with a [nil] connection (sleep and retry), or when it waits
    for a read that [reads] does not provide. The arguments after [reads]
    are those of the [handleReconnect] that a failed read leads to. *)
Fixpoint readMessages (fuel : nat)
  (Unmarshal : string -> option (string * string)) (reads : list readResult)
  (fuelR : nat) (dialOk : bool) (uniqueStreams : list string)
  (writes : list bool) (w : world) : option (run world) :=
  match fuel with
  | O => None
  | S fuel' =>
    if done (client w) then Some (Done w)
    else
      match conn (client w) with
      | None =>
        readMessages fuel' Unmarshal reads fuelR dialOk uniqueStreams writes w
      | Some _ =>
        match reads with
        | [] => None
        | ReadOk message :: rest =>
          match handleCombinedMessage Unmarshal message w with
          | Done w' =>
            readMessages fuel' Unmarshal rest fuelR dialOk uniqueStreams writes w'
          | Panic msg => Some (Panic msg)
          end
        | ReadTimeout :: _ =>
          handleReconnect fuelR dialOk uniqueStreams writes
            (emit (Log "read timeout") w)
        | ReadFailed :: _ =>
          handleReconnect fuelR dialOk uniqueStreams writes
            (emit (Log "read failed") w)
        end
      end
  end.

(** The payloads of the frames of [messages] addressed to [stream], in
    order of arrival. *)
Definition payloads (Unmarshal : string -> option (string * string))
  (stream : string) (messages : list string) : list string :=
  omap (fun message =>
          match Unmarshal message with
          | Some (stream', data) =>
            if String.eqb stream' stream then Some data else None
          | None => None
          end) messages.

(** A read that failed. *)
Definition readError (r : readResult) : Prop := r = ReadTimeout \/ r = ReadFailed.

End streams.

(** ** Vocabulary: what the reconstruction reads of a fill *)

Module fills.
Import go trader api.
#[local] Open Scope float_scope.

(** The fill [t] with other values reported as realized PnL and
    commission when it is an opening fill. *)
Definition withOpeningFees (pnl fee : Trade -> float) (t : Trade) : Trade :=
  if isOpening t
  then mkTrade (Side t) (PositionSide t) (Price t) (Qty t) (pnl t) (fee t) (Time t)
  else t.

(** A fill of a hedge-mode position: its position side is LONG or SHORT. *)
Definition hedgeFill (t : Trade) : bool :=
  match selectPos t with Some _ => true | None => false end.

(** A trade history with every fill list mapped by [f]. *)
Definition mapFills (f : list Trade -> list Trade)
  (tradeHistory : list (string * list Trade)) : list (string * list Trade) :=
  map (fun entry => (entry.1, f entry.2)) tradeHistory.

(** The shape of an outcome built at line 1844: leverage 5, position
    value and margin derived from open price and quantity. *)
Definition reconstructed (o : TradeOutcome.t) : Prop :=
  TradeOutcome.Leverage o = leverage
  /\ TradeOutcome.PositionValue o = TradeOutcome.OpenPrice o * TradeOutcome.Quantity o
  /\ TradeOutcome.MarginUsed o
     = TradeOutcome.PositionValue o / float64_of_int leverage.

End fills.

(** ** [package api], continued: the equity history handler *)

Module AccountState.

(** The fields of [logger.DecisionRecord.AccountState] the handler reads. *)
Record t : Type := mk {
  TotalBalance : float;
  TotalUnrealizedProfit : float;
  InitialBalance : float;
  AvailableBalance : float;
  PositionCount : Z;
  MarginUsedPct : float;
}.

End AccountState.

Module DecisionRecord.

(** [Timestamp] is the [time.Time] of the record, as Unix nanoseconds. *)
Record t : Type := mk {
  Timestamp : Z;
  State : AccountState.t;
  CycleNumber : Z;
}.

End DecisionRecord.

Module EquityPoint.

Record t : Type := mk {
  Timestamp : string;
  TotalEquity : float;
  AvailableBalance : float;
  TotalPnL : float;
  TotalPnLPct : float;
  PositionCount : Z;
  MarginUsedPct : float;
  CycleNumber : Z;
}.

End EquityPoint.

Module equity.
Import go.
#[local] Open Scope float_scope.

(** What the handler sees of the trader: the result of
    [GetDecisionLogger().GetLatestRecords(10000)] (an error message or
    the records) and the value of [GetStatus()["initial_balance"]] when
    the status is not [nil] and holds a [float64] under that key. *)
Record traderView : Type := mkTrader {
  latestRecords : string + list DecisionRecord.t;
  initialBalance : option float;
}.

(** What [c.JSON] sends: an error body with its status code, or the
    history with status 200. *)
Inductive response : Type :=
| ErrorJSON (status : Z) (error : string)
| HistoryJSON (history : list EquityPoint.t).

(** Lines 1728-1754: one iteration of the loop over the records. The
    state is the current [base] and the history built so far; [Format]
    stands for [Timestamp.Format("2006-01-02 15:04:05")]. *)
Definition equityStep (Format : Z -> string)
  (st : float * list EquityPoint.t) (record : DecisionRecord.t)
  : float * list EquityPoint.t :=
  let account := DecisionRecord.State record in
  let walletBalance := AccountState.TotalBalance account in
  let unrealizedPnL := AccountState.TotalUnrealizedProfit account in
  let totalEquity := walletBalance + unrealizedPnL in
  let base := if 0 <? AccountState.InitialBalance account
              then AccountState.InitialBalance account else st.1 in
  let totalPnL := totalEquity - base in
  let totalPnLPct := if 0 <? base then totalPnL / base * 100 else 0 in
  (base,
   st.2 ++ [EquityPoint.mk (Format (DecisionRecord.Timestamp record)) totalEquity
              (AccountState.AvailableBalance account) totalPnL totalPnLPct
              (AccountState.PositionCount account)
              (AccountState.MarginUsedPct account)
              (DecisionRecord.CycleNumber record)]).

(** [handleEquityHistory]. [query] is the result of [getTraderFromQuery]
    (an error message or the trader id) and [GetTrader] that of
    [traderManager.GetTrader]. *)
Definition handleEquityHistory (Format : Z -> string) (query : string + string)
  (GetTrader : string -> string + traderView) : response :=
  match query with
  | inl err => ErrorJSON 400 err
  | inr traderID =>
    match GetTrader traderID with
    | inl err => ErrorJSON 404 err
    | inr trader =>
      match latestRecords trader with
      | inl err => ErrorJSON 500 ("获取历史数据失败: " ++ err)
      | inr records =>
        let base := match initialBalance trader with
                    | Some ib => if 0 <? ib then ib else 0
                    | None => 0
                    end in
        if base =? 0 then ErrorJSON 500 "无法获取初始余额"
        else HistoryJSON (fold_left (equityStep Format) records (base, [])).2
      end
    end
  end.

(** The base in force after the records [seen]: the initial balance of
    the latest of them that carries a positive one, [ib] if none does. *)
Definition baseAfter (ib : float) (seen : list DecisionRecord.t) : float :=
  default ib
    (last (List.filter (fun b => 0 <? b)
             (map (fun r => AccountState.InitialBalance (DecisionRecord.State r)) seen))).

End equity.

(** ** [package api], continued: the authentication middleware *)

Module auth.
Import go.

(** [strings.Split(s, sep)] for a separator of one byte. *)
Fixpoint Split (sep : ascii) (s : string) : list string :=
  match s with
  | EmptyString => [EmptyString]
  | String c s' =>
    if Ascii.eqb c sep then EmptyString :: Split sep s'
    else match Split sep s' with
         | h :: t => String c h :: t
         | [] => [String c EmptyString]
         end
  end.

(** What the middleware does with the request: abort it with a 401 and
    an error body, or pass it on with the user's id and email set. *)
Inductive outcome : Type :=
| Abort (status : Z) (error : string)
| Next (userID email : string).

(** [authMiddleware] on the value of the [Authorization] header (empty
    when the header is absent). [IsTokenBlacklisted] and [ValidateJWT]
    stand for the functions of [package auth]; the latter gives an error
    message or the claims' user id and email. *)
Definition authMiddleware (IsTokenBlacklisted : string -> bool)
  (ValidateJWT : string -> string + string * string) (authHeader : string)
  : outcome :=
  if String.eqb authHeader "" then Abort 401 "缺少Authorization头"
  else
    match Split " " authHeader with
    | [scheme; tokenString] =>
      if negb (String.eqb scheme "Bearer") then Abort 401 "无效的Authorization格式"
      else if IsTokenBlacklisted tokenString
      then Abort 401 "token已失效，请重新登录"
      else match ValidateJWT tokenString with
           | inl err => Abort 401 ("无效的token: " ++ err)
           | inr (userID, email) => Next userID email
           end
    | _ => Abort 401 "无效的Authorization格式"
    end.

(** A string that holds a space. *)
Fixpoint hasSpace (s : string) : bool :=
  match s with
  | EmptyString => false
  | String c s' => Ascii.eqb c " " || hasSpace s'
  end.

End auth.

(** ** [package api], continued: the server's public address *)

Module netip.
Import go.

(** A [net.IP]: a byte slice, of length 4 or 16 for an address; the
    empty list also stands for [nil]. *)
Definition IP : Type := list Z.

(** [ip.To4()]; [None] is [nil]. A slice of four bytes is returned as it
    is; one of sixteen whose first ten are zero and whose next two are
    [0xff] gives its last four. *)
Definition To4 (ip : IP) : option IP :=
  if (length ip =? 4)%nat then Some ip
  else if (length ip =? 16)%nat && forallb (Z.eqb 0) (take 10 ip)
          && (nth 10 ip 0 =? 255) && (nth 11 ip 0 =? 255)
  then Some (drop 12 ip)
  else None.

(** One byte of [net.CIDRMask(ones, 32)]: the byte has [n] leading ones. *)
Definition maskByte (n : Z) : Z :=
  if 8 <=? n then 255 else if n <=? 0 then 0 else 256 - 2 ^ (8 - n).

Definition CIDRMask (ones : Z) : IP :=
  [maskByte ones; maskByte (ones - 8); maskByte (ones - 16); maskByte (ones - 24)].

(** An IPv4 network as [net.ParseCIDR] returns it: number and mask. *)
Record IPNet : Type := mkIPNet {
  number : IP;
  mask : IP;
}.

(** [net.ParseCIDR("a.b.c.d/ones")]: the address masked, and the mask. *)
Definition ParseCIDR (a b c d ones : Z) : IPNet :=
  let m := CIDRMask ones in
  mkIPNet (zip_with Z.land [a; b; c; d] m) m.

(** [subnet.Contains(ip)] for an IPv4 network. *)
Definition Contains (subnet : IPNet) (ip : IP) : bool :=
  let ip' := match To4 ip with Some x => x | None => ip end in
  if negb (length ip' =? length (number subnet))%nat then false
  else forallb (fun '(n, m, x) => Z.land n m =? Z.land x m)
         (zip (zip (number subnet) (mask subnet)) ip').

(** [isPrivateIP]: the loop over the three ranges. *)
Definition isPrivateIP (ip : IP) : bool :=
  existsb (fun subnet => Contains subnet ip)
    [ParseCIDR 10 0 0 0 8; ParseCIDR 172 16 0 0 12; ParseCIDR 192 168 0 0 16].

(** [ip.IsLoopback()]. *)
Definition IsLoopback (ip : IP) : bool :=
  match To4 ip with
  | Some (a :: _) => a =? 127
  | _ => if decide (ip = [0; 0; 0; 0; 0; 0; 0; 0; 0; 0; 0; 0; 0; 0; 0; 1])
         then true else false
  end.

(** What [getPublicIPFromInterface] reads of a network interface:
    [Flags&net.FlagUp != 0], [Flags&net.FlagLoopback != 0], and the
    result of [Addrs()] ([None] for an error). *)
Inductive Addr : Type :=
| IPNetAddr (ip : IP)
| IPAddrAddr (ip : IP)
| OtherAddr.

Record Interface : Type := mkInterface {
  flagUp : bool;
  flagLoopback : bool;
  Addrs : option (list Addr);
}.

(** The [switch v := addr.(type)]. *)
Definition addrIP (addr : Addr) : IP :=
  match addr with
  | IPNetAddr ip | IPAddrAddr ip => ip
  | OtherAddr => []
  end.

(** The test an address has to pass at lines 318-328. *)
Definition publicIPv4 (ip : IP) : bool :=
  negb (length ip =? 0)%nat && negb (IsLoopback ip)
  && match To4 ip with Some _ => negb (isPrivateIP ip) | None => false end.

(** The inner loop [for _, addr := range addrs]; [String] stands for
    [ip.String()]. [None] means that the loop ended without a [return]. *)
Fixpoint firstPublic (String : IP -> string) (addrs : list Addr) : option string :=
  match addrs with
  | [] => None
  | addr :: rest =>
    let ip := addrIP addr in
    if (length ip =? 0)%nat || IsLoopback ip then firstPublic String rest
    else
      match To4 ip with
      | Some _ =>
        if negb (isPrivateIP ip) then Some (String ip) else firstPublic String rest
      | None => firstPublic String rest
      end
  end.

(** The outer loop [for _, iface := range interfaces]. *)
Fixpoint scanInterfaces (String : IP -> string) (interfaces : list Interface)
  : string :=
  match interfaces with
  | [] => ""
  | iface :: rest =>
    if negb (flagUp iface) || flagLoopback iface then scanInterfaces String rest
    else
      match Addrs iface with
      | None => scanInterfaces String rest
      | Some addrs =>
        match firstPublic String addrs with
        | Some ipStr => ipStr
        | None => scanInterfaces String rest
        end
      end
  end.

(** [getPublicIPFromInterface]; [interfaces] is the result of
    [net.Interfaces()] ([None] for an error). *)
Definition getPublicIPFromInterface (String : IP -> string)
  (interfaces : option (list Interface)) : string :=
  match interfaces with
  | None => ""
  | Some l => scanInterfaces String l
  end.

(** The addresses of the interfaces that are up and not loopback, in the
    order the loops visit them. *)
Definition candidates (interfaces : list Interface) : list IP :=
  flat_map (fun iface =>
              if negb (flagUp iface) || flagLoopback iface then []
              else match Addrs iface with
                   | Some addrs => map addrIP addrs
                   | None => []
                   end) interfaces.

(** A byte. *)
Definition byte (b : Z) : Prop := 0 <= b < 256.

End netip.

(** ** The API error of the model client *)

Module apierror.
Import go.

(** [APIError]. *)
Record APIError : Type := mkAPIError {
  StatusCode : Z;
  Code : Z;
  Message : string;
  RawBody : string;
}.

(** The anonymous struct [errResp] that the body is decoded into. *)
Record errResp : Type := mkErrResp {
  respCode : Z;
  respMessage : string;
  respErrorCode : string;
  respErrorMessage : string;
}.

(** [ParseAPIError]; [Unmarshal] stands for [json.Unmarshal] into
    [errResp], [None] for an error. *)
Definition ParseAPIError (Unmarshal : string -> option errResp) (statusCode : Z)
  (body : string) : APIError :=
  let apiErr := mkAPIError statusCode 0 "" body in
  let apiErr1 :=
    match Unmarshal body with
    | Some r =>
      if negb (respCode r =? 0)
      then mkAPIError statusCode (respCode r) (respMessage r) body
      else if negb (String.eqb (respErrorMessage r) "")
      then mkAPIError statusCode 0 (respErrorMessage r) body
      else apiErr
    | None => apiErr
    end in
  if String.eqb (Message apiErr1) ""
  then mkAPIError (StatusCode apiErr1) (Code apiErr1) body (RawBody apiErr1)
  else apiErr1.

End apierror.

(** ** [package api], continued: the equity histories of several traders *)

Module histories.
Import go.

(** One entry of a trader's history, the [map[string]interface{}] with
    the keys [timestamp], [total_equity], [total_pnl] and [balance]. *)
Record point : Type := mkPoint {
  timestamp : Z;
  total_equity : float;
  total_pnl : float;
  balance : float;
}.

(** The result of [getEquityHistoryForTraders]: the keys [histories] and
    [count], and [errors] when there is any. *)
Record result : Type := mkResult {
  histories : gmap string (list point);
  count : Z;
  errors : option (gmap string string);
}.

(** The inner loop over the records of one trader. *)
Definition historyOf (records : list DecisionRecord.t) : list point :=
  map (fun record =>
         let account := DecisionRecord.State record in
         let totalEquity :=
           (AccountState.TotalBalance account
            + AccountState.TotalUnrealizedProfit account)%float in
         mkPoint (DecisionRecord.Timestamp record) totalEquity
           (AccountState.TotalUnrealizedProfit account)
           (AccountState.TotalBalance account))
    records.

(** One iteration of the loop over the trader ids; the state is the maps
    [histories] and [errors]. [GetTrader] stands for
    [traderManager.GetTrader] ([None] for an error) and
    [GetLatestRecords trader n] for
    [trader.GetDecisionLogger().GetLatestRecords(n)]. *)
Definition historyStep {T : Type} (GetTrader : string -> option T)
  (GetLatestRecords : T -> Z -> string + list DecisionRecord.t)
  (st : gmap string (list point) * gmap string string) (traderID : string)
  : gmap string (list point) * gmap string string :=
  if String.eqb traderID "" then st
  else
    match GetTrader traderID with
    | None => (st.1, <[traderID := "交易员不存在"%string]> st.2)
    | Some trader =>
      match GetLatestRecords trader 500 with
      | inl err =>
        (st.1, <[traderID := ("获取历史数据失败: " ++ err)%string]> st.2)
      | inr records => (<[traderID := historyOf records]> st.1, st.2)
      end
    end.

(** [getEquityHistoryForTraders]. *)
Definition getEquityHistoryForTraders {T : Type} (GetTrader : string -> option T)
  (GetLatestRecords : T -> Z -> string + list DecisionRecord.t)
  (traderIDs : list string) : result :=
  let st := fold_left (historyStep GetTrader GetLatestRecords) traderIDs (∅, ∅) in
  mkResult st.1 (Z.of_nat (size st.1))
    (if 0 <? Z.of_nat (size st.2) then Some st.2 else None).

(** What [c.JSON] sends. *)
Inductive response : Type :=
| ErrorJSON (status : Z) (error : string)
| ResultJSON (status : Z) (body : result).

(** [requestBody.TraderIDs[:20]] when there are more than 20. *)
Definition limit (traderIDs : list string) : list string :=
  if 20 <? Z.of_nat (length traderIDs) then take 20 traderIDs else traderIDs.

(** [handleEquityHistoryBatch]. [body] is the [trader_ids] of the JSON
    body, [None] when [ShouldBindJSON] fails; [query] is the query
    parameter [trader_ids]; [GetTopTradersData] is an error message, or
    the value under [traders] of the data: [None] when it is not a
    [[]map[string]interface{}], otherwise for each entry its [trader_id]
    when that is a string. [TrimSpace] stands for [strings.TrimSpace]. *)
Definition handleEquityHistoryBatch {T : Type} (GetTrader : string -> option T)
  (GetLatestRecords : T -> Z -> string + list DecisionRecord.t)
  (TrimSpace : string -> string)
  (GetTopTradersData : string + option (list (option string)))
  (body : option (list string)) (query : string) : response :=
  match body with
  | None =>
    if String.eqb query "" then
      match GetTopTradersData with
      | inl err => ErrorJSON 500 ("获取前5名交易员失败: " ++ err)
      | inr None => ErrorJSON 500 "交易员数据格式错误"
      | inr (Some traders) =>
        ResultJSON 200
          (getEquityHistoryForTraders GetTrader GetLatestRecords
             (omap (fun traderID => traderID) traders))
      end
    else
      ResultJSON 200
        (getEquityHistoryForTraders GetTrader GetLatestRecords
           (limit (map TrimSpace (auth.Split "," query))))
  | Some traderIDs =>
    ResultJSON 200
      (getEquityHistoryForTraders GetTrader GetLatestRecords (limit traderIDs))
  end.

End histories.

(** ** [package api], continued: the latest decisions *)

Module decisions.
Import go.

(** What [c.JSON] sends: an error body with its status code, or the
    records with status 200. *)
Inductive response : Type :=
| ErrorJSON (status : Z) (error : string)
| RecordsJSON (records : list DecisionRecord.t).

(** [records[i], records[j] = records[j], records[i]]: both elements
    are read, then both are written; an index out of range panics. *)
Definition swap {A : Type} (records : list A) (i j : Z) : run (list A) :=
  if (i <? 0) || (len records <=? i) || (j <? 0) || (len records <=? j)
  then Panic "index out of range"
  else
    match records !! Z.to_nat i, records !! Z.to_nat j with
    | Some ri, Some rj =>
      Done (<[Z.to_nat j := ri]> (<[Z.to_nat i := rj]> records))
    | _, _ => Panic "index out of range"
    end.

(** [for i, j := 0, len(records)-1; i < j; i, j = i+1, j-1 { swap }],
    from the state [i], [j]. [None]: the fuel ran out. *)
Fixpoint reverseLoop {A : Type} (fuel : nat) (i j : Z) (records : list A)
  : option (run (list A)) :=
  match fuel with
  | O => None
  | S fuel' =>
    if i <? j then
      match swap records i j with
      | Done records' => reverseLoop fuel' (wrap64 (i + 1)) (wrap64 (j - 1)) records'
      | Panic msg => Some (Panic msg)
      end
    else Some (Done records)
  end.

(** Lines 1599-1605: the limit, 5 unless the query parameter [limit] is
    a number from 1 to 50. [Atoi] stands for [strconv.Atoi], [None] for
    an error. *)
Definition limitOf (Atoi : string -> option Z) (limitStr : string) : Z :=
  if negb (String.eqb limitStr "") then
    match Atoi limitStr with
    | Some l => if (0 <? l) && (l <=? 50) then l else 5
    | None => 5
    end
  else 5.

(** [handleLatestDecisions]. [query] is the result of
    [getTraderFromQuery] (an error message or the trader id), [GetTrader]
    stands for [traderManager.GetTrader], [GetLatestRecords trader n] for
    [trader.GetDecisionLogger().GetLatestRecords(n)] and [limitStr] is
    the query parameter [limit]. *)
Definition handleLatestDecisions {T : Type} (fuel : nat) (query : string + string)
  (GetTrader : string -> string + T)
  (GetLatestRecords : T -> Z -> string + list DecisionRecord.t)
  (Atoi : string -> option Z) (limitStr : string) : option (run response) :=
  match query with
  | inl err => Some (Done (ErrorJSON 400 err))
  | inr traderID =>
    match GetTrader traderID with
    | inl err => Some (Done (ErrorJSON 404 err))
    | inr trader =>
      let limit := limitOf Atoi limitStr in
      match GetLatestRecords trader limit with
      | inl err => Some (Done (ErrorJSON 500 ("获取决策日志失败: " ++ err)))
      | inr records =>
        match reverseLoop fuel 0 (wrap64 (len records - 1)) records with
        | None => None
        | Some (Panic msg) => Some (Panic msg)
        | Some (Done records') => Some (Done (RecordsJSON records'))
        end
      end
    end
  end.

End decisions.

(** ** [package api], continued: creating and updating a trader *)

Module CreateTraderRequest.

(** [IsCrossMargin] is a [*bool]: [None] is [nil]. *)
Record t : Type := mk {
  Name : string;
  AIModelID : string;
  ExchangeID : string;
  InitialBalance : float;
  ScanIntervalMinutes : Z;
  BTCETHLeverage : Z;
  AltcoinLeverage : Z;
  TradingSymbols : string;
  CustomPrompt : string;
  OverrideBasePrompt : bool;
  SystemPromptTemplate : string;
  IsCrossMargin : option bool;
  UseCoinPool : bool;
  UseOITop : bool;
}.

End CreateTraderRequest.

Module UpdateTraderRequest.

Record t : Type := mk {
  Name : string;
  AIModelID : string;
  ExchangeID : string;
  InitialBalance : float;
  ScanIntervalMinutes : Z;
  BTCETHLeverage : Z;
  AltcoinLeverage : Z;
  TradingSymbols : string;
  CustomPrompt : string;
  OverrideBasePrompt : bool;
  SystemPromptTemplate : string;
  IsCrossMargin : option bool;
}.

End UpdateTraderRequest.

Module TraderRecord.

(** [config.TraderRecord], with the fields that the handlers set. *)
Record t : Type := mk {
  ID : string;
  UserID : string;
  Name : string;
  AIModelID : string;
  ExchangeID : string;
  InitialBalance : float;
  BTCETHLeverage : Z;
  AltcoinLeverage : Z;
  TradingSymbols : string;
  UseCoinPool : bool;
  UseOITop : bool;
  CustomPrompt : string;
  OverrideBasePrompt : bool;
  SystemPromptTemplate : string;
  IsCrossMargin : bool;
  ScanIntervalMinutes : Z;
  IsRunning : bool;
}.

End TraderRecord.

Module ExchangeConfig.

(** [config.ExchangeConfig], with the fields that the handlers read. *)
Record t : Type := mk {
  ID : string;
  Enabled : bool;
  APIKey : string;
  SecretKey : string;
  Testnet : bool;
  HyperliquidWalletAddr : string;
  AsterUser : string;
  AsterSigner : string;
  AsterPrivateKey : string;
}.

End ExchangeConfig.

Module traders.
Import go.

(** What [c.JSON] sends: an error body with its status code, or the
    body of a success with the keys [trader_id], [trader_name] and
    [ai_model] (beside [is_running: false] with status 201, and beside
    the message with status 200). *)
Inductive response : Type :=
| ErrorJSON (status : Z) (error : string)
| TraderJSON (status : Z) (trader_id trader_name ai_model : string).

(** The calls that change the database or the trader manager. *)
Inductive call : Type :=
| CreateTrader (trader : TraderRecord.t)
| UpdateTrader (trader : TraderRecord.t)
| UpdateTraderInitialBalance (userID traderID : string) (balance : float)
| RemoveTrader (traderID : string)
| LoadTraderByID (userID traderID : string).

(** A value of a [map[string]interface{}]: a [float64] or anything else. *)
Inductive value : Type :=
| Float64 (f : float)
| Other.

(** [m[key].(float64)] with its [ok]. *)
Definition float64At (m : gmap string value) (key : string) : option float :=
  match m !! key with
  | Some (Float64 f) => Some f
  | _ => None
  end.

(** [strings.HasSuffix]. *)
Definition HasSuffix (s suffix : string) : bool :=
  (String.length suffix <=? String.length s)%nat
  && String.eqb
       (substring (String.length s - String.length suffix) (String.length suffix) s)
       suffix.

Section Handlers.
(** [strings.TrimSpace], [strings.ToUpper], [strconv.Atoi] ([None] for
    an error) and [database.GetSystemConfig] (its error is dropped). *)
Variable TrimSpace ToUpper : string -> string.
Variable Atoi : string -> option Z.
Variable GetSystemConfig : string -> string.
(** The traders that query a balance: the constructors of
    [package trader] (an error message or the trader) and
    [GetBalance]. *)
Variable Trader : Type.
Variable NewFuturesTrader : string -> string -> string -> Trader.
Variable NewHyperliquidTrader : string -> string -> bool -> string + Trader.
Variable NewAsterTrader : string -> string -> string -> string + Trader.
Variable GetBalance : Trader -> string + gmap string value.

(** Lines 486-495: the loop over the symbols; the result is the first
    symbol that is refused, trimmed. *)
Fixpoint checkSymbols (symbols : list string) : option string :=
  match symbols with
  | [] => None
  | symbol :: rest =>
    let symbol := TrimSpace symbol in
    if negb (String.eqb symbol "") && negb (HasSuffix (ToUpper symbol) "USDT")
    then Some symbol
    else checkSymbols rest
  end.

(** Lines 507-530: a leverage, from the request or from the system
    configuration under [key]. *)
Definition leverageOf (requested : Z) (key : string) : Z :=
  if 0 <? requested then requested
  else
    let configured := GetSystemConfig key in
    if negb (String.eqb configured "") then
      match Atoi configured with
      | Some val => if 0 <? val then val else 5
      | None => 5
      end
    else 5.

(** Lines 596-617: the equity that a balance reports. *)
Definition totalEquityOf (balanceInfo : gmap string value) : float :=
  let totalWalletBalance :=
    match float64At balanceInfo "totalWalletBalance" with
    | Some wb => wb
    | None =>
      match float64At balanceInfo "wallet_balance" with
      | Some wb => wb
      | None =>
        match float64At balanceInfo "balance" with
        | Some wb => wb
        | None => 0%float
        end
      end
    end in
  let totalUnrealizedProfit :=
    match float64At balanceInfo "totalUnrealizedProfit" with
    | Some up => up
    | None =>
      match float64At balanceInfo "unrealized_profit" with
      | Some up => up
      | None => 0%float
      end
    end in
  (totalWalletBalance + totalUnrealizedProfit)%float.

(** Lines 545-629: the initial balance to store. [exchanges] is what
    [database.GetExchanges] returns beside its error, which is only
    logged. *)
Definition actualBalanceOf (userID : string) (req : CreateTraderRequest.t)
  (exchanges : list ExchangeConfig.t) : float :=
  let requested := CreateTraderRequest.InitialBalance req in
  match
    find (fun ex => String.eqb (ExchangeConfig.ID ex) (CreateTraderRequest.ExchangeID req))
      exchanges
  with
  | None => requested
  | Some exchangeCfg =>
    if negb (ExchangeConfig.Enabled exchangeCfg) then requested
    else
      let tempTrader : option (string + Trader) :=
        if String.eqb (CreateTraderRequest.ExchangeID req) "binance" then
          Some (inr (NewFuturesTrader (ExchangeConfig.APIKey exchangeCfg)
                       (ExchangeConfig.SecretKey exchangeCfg) userID))
        else if String.eqb (CreateTraderRequest.ExchangeID req) "hyperliquid" then
          Some (NewHyperliquidTrader (ExchangeConfig.APIKey exchangeCfg)
                  (ExchangeConfig.HyperliquidWalletAddr exchangeCfg)
                  (ExchangeConfig.Testnet exchangeCfg))
        else if String.eqb (CreateTraderRequest.ExchangeID req) "aster" then
          Some (NewAsterTrader (ExchangeConfig.AsterUser exchangeCfg)
                  (ExchangeConfig.AsterSigner exchangeCfg)
                  (ExchangeConfig.AsterPrivateKey exchangeCfg))
        else None in
      match tempTrader with
      | Some (inr trader) =>
        match GetBalance trader with
        | inr balanceInfo =>
          let totalEquity := totalEquityOf balanceInfo in
          if (0 <? totalEquity)%float then totalEquity else requested
        | inl _ => requested
        end
      | _ => requested
      end
  end.

(** Lines 497-649: the record to store, with its defaults. [uuid] is
    the text of [uuid.New()] and [exchanges] the result of
    [GetExchanges]. *)
Definition createdRecord (userID : string) (req : CreateTraderRequest.t)
  (uuid : string) (exchanges : list ExchangeConfig.t) : TraderRecord.t :=
  let traderID :=
    (CreateTraderRequest.ExchangeID req ++ "_"
     ++ CreateTraderRequest.AIModelID req ++ "_" ++ uuid)%string in
  let isCrossMargin :=
    match CreateTraderRequest.IsCrossMargin req with
    | Some b => b
    | None => true
    end in
  let btcEthLeverage :=
    leverageOf (CreateTraderRequest.BTCETHLeverage req) "btc_eth_leverage" in
  let altcoinLeverage :=
    leverageOf (CreateTraderRequest.AltcoinLeverage req) "altcoin_leverage" in
  let systemPromptTemplate :=
    if negb (String.eqb (CreateTraderRequest.SystemPromptTemplate req) "")
    then CreateTraderRequest.SystemPromptTemplate req
    else "default"%string in
  let scanIntervalMinutes :=
    if CreateTraderRequest.ScanIntervalMinutes req <? 3 then 3
    else CreateTraderRequest.ScanIntervalMinutes req in
  let actualBalance := actualBalanceOf userID req exchanges in
  TraderRecord.mk traderID userID (CreateTraderRequest.Name req)
    (CreateTraderRequest.AIModelID req) (CreateTraderRequest.ExchangeID req)
    actualBalance btcEthLeverage altcoinLeverage
    (CreateTraderRequest.TradingSymbols req)
    (CreateTraderRequest.UseCoinPool req) (CreateTraderRequest.UseOITop req)
    (CreateTraderRequest.CustomPrompt req)
    (CreateTraderRequest.OverrideBasePrompt req)
    systemPromptTemplate isCrossMargin scanIntervalMinutes false.

(** [handleCreateTrader]: the answer and the calls made, in order.
    [bind] is the result of [ShouldBindJSON] (an error message or the
    request) and [CreateTraderDB] stands for [database.CreateTrader]
    ([None] for no error). *)
Definition handleCreateTrader (userID : string) (bind : string + CreateTraderRequest.t)
  (uuid : string) (exchanges : list ExchangeConfig.t)
  (CreateTraderDB : TraderRecord.t -> option string) : response * list call :=
  match bind with
  | inl err => (ErrorJSON 400 err, [])
  | inr req =>
    let btc := CreateTraderRequest.BTCETHLeverage req in
    let alt := CreateTraderRequest.AltcoinLeverage req in
    if (btc <? 0) || (50 <? btc) then
      (ErrorJSON 400 "BTC/ETH杠杆必须在1-50倍之间", [])
    else if (alt <? 0) || (20 <? alt) then
      (ErrorJSON 400 "山寨币杠杆必须在1-20倍之间", [])
    else
      match
        if negb (String.eqb (CreateTraderRequest.TradingSymbols req) "")
        then checkSymbols (auth.Split "," (CreateTraderRequest.TradingSymbols req))
        else None
      with
      | Some symbol =>
        (ErrorJSON 400 ("无效的币种格式: " ++ symbol ++ "，必须以USDT结尾"), [])
      | None =>
        let trader := createdRecord userID req uuid exchanges in
        match CreateTraderDB trader with
        | Some err => (ErrorJSON 500 ("创建交易员失败: " ++ err), [CreateTrader trader])
        | None =>
          (TraderJSON 201 (TraderRecord.ID trader) (CreateTraderRequest.Name req)
             (CreateTraderRequest.AIModelID req),
           [CreateTrader trader; LoadTraderByID userID (TraderRecord.ID trader)])
        end
      end
  end.

(** Lines 727-773 of [handleUpdateTrader]: the record to store, from the
    request and the trader as it is. The fields [UseCoinPool] and
    [UseOITop] are not set by the handler: they have their zero value. *)
Definition updatedRecord (userID traderID : string) (req : UpdateTraderRequest.t)
  (existingTrader : TraderRecord.t) : TraderRecord.t :=
  let isCrossMargin :=
    match UpdateTraderRequest.IsCrossMargin req with
    | Some b => b
    | None => TraderRecord.IsCrossMargin existingTrader
    end in
  let btcEthLeverage :=
    if UpdateTraderRequest.BTCETHLeverage req <=? 0
    then TraderRecord.BTCETHLeverage existingTrader
    else UpdateTraderRequest.BTCETHLeverage req in
  let altcoinLeverage :=
    if UpdateTraderRequest.AltcoinLeverage req <=? 0
    then TraderRecord.AltcoinLeverage existingTrader
    else UpdateTraderRequest.AltcoinLeverage req in
  let scanIntervalMinutes :=
    if UpdateTraderRequest.ScanIntervalMinutes req <=? 0
    then TraderRecord.ScanIntervalMinutes existingTrader
    else if UpdateTraderRequest.ScanIntervalMinutes req <? 3 then 3
    else UpdateTraderRequest.ScanIntervalMinutes req in
  let systemPromptTemplate :=
    if String.eqb (UpdateTraderRequest.SystemPromptTemplate req) ""
    then TraderRecord.SystemPromptTemplate existingTrader
    else UpdateTraderRequest.SystemPromptTemplate req in
  TraderRecord.mk traderID userID (UpdateTraderRequest.Name req)
    (UpdateTraderRequest.AIModelID req) (UpdateTraderRequest.ExchangeID req)
    (UpdateTraderRequest.InitialBalance req) btcEthLeverage altcoinLeverage
    (UpdateTraderRequest.TradingSymbols req) false false
    (UpdateTraderRequest.CustomPrompt req)
    (UpdateTraderRequest.OverrideBasePrompt req)
    systemPromptTemplate isCrossMargin scanIntervalMinutes
    (TraderRecord.IsRunning existingTrader).

(** [handleUpdateTrader]: the answer and the calls made, in order.
    [traderID] is the path parameter, [GetTraders] the result of
    [database.GetTraders] and [UpdateTraderDB] stands for
    [database.UpdateTrader]. *)
Definition handleUpdateTrader (userID traderID : string)
  (bind : string + UpdateTraderRequest.t)
  (GetTraders : string + list TraderRecord.t)
  (UpdateTraderDB : TraderRecord.t -> option string) : response * list call :=
  match bind with
  | inl err => (ErrorJSON 400 err, [])
  | inr req =>
    match GetTraders with
    | inl _ => (ErrorJSON 500 "获取交易员列表失败", [])
    | inr traders =>
      match find (fun trader => String.eqb (TraderRecord.ID trader) traderID) traders with
      | None => (ErrorJSON 404 "交易员不存在", [])
      | Some existingTrader =>
        let trader := updatedRecord userID traderID req existingTrader in
        match UpdateTraderDB trader with
        | Some err => (ErrorJSON 500 ("更新交易员失败: " ++ err), [UpdateTrader trader])
        | None =>
          let balance :=
            if (0 <? UpdateTraderRequest.InitialBalance req)%float
               && (0.1 <? abs (UpdateTraderRequest.InitialBalance req
                               - TraderRecord.InitialBalance existingTrader))%float
            then [UpdateTraderInitialBalance userID traderID
                    (UpdateTraderRequest.InitialBalance req)]
            else [] in
          (TraderJSON 200 traderID (UpdateTraderRequest.Name req)
             (UpdateTraderRequest.AIModelID req),
           [UpdateTrader trader] ++ balance
           ++ [RemoveTrader traderID; LoadTraderByID userID traderID])
        end
      end
    end
  end.

End Handlers.

End traders.

(** ** [package api], continued: replacing API keys in the database *)

Module AIModelConfig.

(** [config.AIModelConfig], with the fields that the handler reads. *)
Record t : Type := mk {
  ID : string;
  Provider : string;
  Enabled : bool;
  CustomAPIURL : string;
  CustomModelName : string;
}.

End AIModelConfig.

Module hotkeys.
Import go.

(** The writes to the database: [database.UpdateExchange] and
    [database.UpdateAIModel] with their arguments. *)
Inductive call : Type :=
| UpdateExchange (userID exchangeID : string) (enabled : bool)
    (apiKey secretKey : string) (testnet : bool)
    (hyperliquidWalletAddr asterUser asterSigner asterPrivateKey : string)
| UpdateAIModel (userID modelID : string) (enabled : bool)
    (apiKey customAPIURL customModelName : string).

(** What [c.JSON] sends: an error body with its status code, or with
    status 200 the keys [affected_traders], [running_traders] and
    [trader_ids], and [updated_models] for the AI models. *)
Inductive response : Type :=
| ErrorJSON (status : Z) (error : string)
| ExchangeKeysJSON (affected_traders running_traders : Z) (trader_ids : list string)
| ModelKeysJSON (updated_models : list string) (affected_traders running_traders : Z)
    (trader_ids : list string).

(** Lines 1188-1197: one iteration of the loop over the traders; the
    state is [affectedTraders] and [runningTraders]. *)
Definition exchangeStep (exchangeID : string) (st : list string * list string)
  (trader : TraderRecord.t) : list string * list string :=
  if String.eqb (TraderRecord.ExchangeID trader) exchangeID then
    (st.1 ++ [TraderRecord.ID trader],
     if TraderRecord.IsRunning trader then st.2 ++ [TraderRecord.ID trader] else st.2)
  else st.

(** The write that replaces the keys of an exchange and keeps the rest. *)
Definition exchangeKeys (userID exchangeID apiKey secretKey : string)
  (existingExchange : ExchangeConfig.t) : call :=
  UpdateExchange userID exchangeID (ExchangeConfig.Enabled existingExchange)
    apiKey secretKey (ExchangeConfig.Testnet existingExchange)
    (ExchangeConfig.HyperliquidWalletAddr existingExchange)
    (ExchangeConfig.AsterUser existingExchange)
    (ExchangeConfig.AsterSigner existingExchange)
    (ExchangeConfig.AsterPrivateKey existingExchange).

(** [handleUpdateExchangeKeysOnly]: the answer and the writes made.
    [exchangeID] is the path parameter, [bind] the result of
    [ShouldBindJSON] (an error message or the two keys), [GetExchanges]
    and [GetTraders] the results of the database reads and [DB] the
    result of a write ([None] for no error). *)
Definition handleUpdateExchangeKeysOnly (userID exchangeID : string)
  (bind : string + string * string)
  (GetExchanges : string + list ExchangeConfig.t)
  (GetTraders : string + list TraderRecord.t)
  (DB : call -> option string) : response * list call :=
  match bind with
  | inl err => (ErrorJSON 400 ("请求参数错误: " ++ err), [])
  | inr (apiKey, secretKey) =>
    match GetExchanges with
    | inl _ => (ErrorJSON 500 "获取交易所配置失败", [])
    | inr exchanges =>
      match find (fun ex => String.eqb (ExchangeConfig.ID ex) exchangeID) exchanges with
      | None => (ErrorJSON 404 "交易所配置不存在", [])
      | Some existingExchange =>
        match GetTraders with
        | inl _ => (ErrorJSON 500 "获取交易员列表失败", [])
        | inr traders =>
          let st := fold_left (exchangeStep exchangeID) traders ([], []) in
          let write := exchangeKeys userID exchangeID apiKey secretKey existingExchange in
          match DB write with
          | Some err => (ErrorJSON 500 ("更新API密钥失败: " ++ err), [write])
          | None => (ExchangeKeysJSON (len st.1) (len st.2) st.1, [write])
          end
        end
      end
    end
  end.

(** Lines 1259-1265: one iteration of the loop over the models; the
    state is [deepseekModel] and [qwenModel] ([None] is [nil]). *)
Definition modelStep (st : option AIModelConfig.t * option AIModelConfig.t)
  (model : AIModelConfig.t) : option AIModelConfig.t * option AIModelConfig.t :=
  if String.eqb (AIModelConfig.Provider model) "deepseek" then (Some model, st.2)
  else if String.eqb (AIModelConfig.Provider model) "qwen" then (st.1, Some model)
  else st.

(** The write that replaces the key of a model and keeps the rest. *)
Definition modelKey (userID apiKey : string) (model : AIModelConfig.t) : call :=
  UpdateAIModel userID (AIModelConfig.ID model) (AIModelConfig.Enabled model) apiKey
    (AIModelConfig.CustomAPIURL model) (AIModelConfig.CustomModelName model).

(** Lines 1322-1337: one iteration of the loop over the traders. *)
Definition modelTraderStep (deepseekModel qwenModel : option AIModelConfig.t)
  (st : list string * list string) (trader : TraderRecord.t)
  : list string * list string :=
  let count (model : option AIModelConfig.t) (st : list string * list string) :=
    match model with
    | Some m =>
      if String.eqb (TraderRecord.AIModelID trader) (AIModelConfig.ID m) then
        (st.1 ++ [TraderRecord.ID trader],
         if TraderRecord.IsRunning trader then st.2 ++ [TraderRecord.ID trader]
         else st.2)
      else st
    | None => st
    end in
  count qwenModel (count deepseekModel st).

(** [handleUpdateAIModelKeysOnly]: the answer and the writes made.
    [bind] is an error message or the key, [GetAIModels] and
    [GetTraders] are the results of the database reads. *)
Definition handleUpdateAIModelKeysOnly (userID : string) (bind : string + string)
  (GetAIModels : string + list AIModelConfig.t)
  (GetTraders : string + list TraderRecord.t)
  (DB : call -> option string) : response * list call :=
  match bind with
  | inl err => (ErrorJSON 400 ("请求参数错误: " ++ err), [])
  | inr apiKey =>
    match GetAIModels with
    | inl _ => (ErrorJSON 500 "获取AI模型配置失败", [])
    | inr aiModels =>
      let found := fold_left modelStep aiModels (None, None) in
      let deepseekModel := found.1 in
      let qwenModel := found.2 in
      let deepseek : option string * list string * list call :=
        match deepseekModel with
        | Some m =>
          match DB (modelKey userID apiKey m) with
          | Some err => (Some ("更新DeepSeek模型密钥失败: " ++ err)%string, [],
                         [modelKey userID apiKey m])
          | None => (None, ["deepseek"%string], [modelKey userID apiKey m])
          end
        | None => (None, [], [])
        end in
      match deepseek with
      | (Some error, _, calls) => (ErrorJSON 500 error, calls)
      | (None, updatedModels, calls) =>
        let qwen : option string * list string * list call :=
          match qwenModel with
          | Some m =>
            match DB (modelKey userID apiKey m) with
            | Some err => (Some ("更新Qwen模型密钥失败: " ++ err)%string, updatedModels,
                           calls ++ [modelKey userID apiKey m])
            | None => (None, updatedModels ++ ["qwen"%string],
                       calls ++ [modelKey userID apiKey m])
            end
          | None => (None, updatedModels, calls)
          end in
        match qwen with
        | (Some error, _, calls) => (ErrorJSON 500 error, calls)
        | (None, updatedModels, calls) =>
          if len updatedModels =? 0 then
            (ErrorJSON 404 "未找到DeepSeek或Qwen模型配置", calls)
          else
            let st :=
              match GetTraders with
              | inl _ => ([], [])
              | inr traders =>
                fold_left (modelTraderStep deepseekModel qwenModel) traders ([], [])
              end in
            (ModelKeysJSON updatedModels (len st.1) (len st.2) st.1, calls)
        end
      end
    end
  end.

End hotkeys.

(** ** [package api], continued: registration *)

Module User.

(** [config.User], with the fields that the handler sets or reads. *)
Record t : Type := mk {
  ID : string;
  Email : string;
  PasswordHash : string;
  OTPSecret : string;
  OTPVerified : bool;
}.

End User.

Module register.
Import go.

(** The request: [email], [password] and [beta_code]. *)
Record request : Type := mkRequest {
  Email : string;
  Password : string;
  BetaCode : string;
}.

(** What [c.JSON] sends: an error body with its status code, or with
    status 200 the keys [user_id], [email], [otp_secret], [qr_code_url]
    and [message]. *)
Inductive response : Type :=
| ErrorJSON (status : Z) (error : string)
| OTPSetupJSON (user_id email otp_secret qr_code_url message : string).

(** The writes to the database. *)
Inductive call : Type :=
| CreateUser (user : User.t)
| UseBetaCode (code email : string).

Section Handler.
(** [strings.ToLower]; the functions of [package auth] (an error
    message or the result); the reads of the database:
    [ValidateBetaCode] and [GetUserByEmail] ([None] for an error). *)
Variable ToLower : string -> string.
Variable GetOTPQRCodeURL : string -> string -> string.
Variable HashPassword : string -> string + string.
Variable ValidateBetaCode : string -> string + bool.
Variable GetUserByEmail : string -> option User.t.

(** [handleRegister]: the answer and the writes made, in order.
    [registration] is the result of
    [GetSystemConfig("registration_enabled")], a value and an error
    ([None] is [nil]); [betaModeStr] and [betaModeStr2] are the values
    of the two reads of [beta_mode]; [bind] is the result of
    [ShouldBindJSON], [otp] that of [auth.GenerateOTPSecret], [uuid] the
    text of [uuid.New()] and [CreateUserDB] stands for
    [database.CreateUser] ([None] for no error). *)
Definition handleRegister (registration : string * option string)
  (bind : string + request) (betaModeStr betaModeStr2 : string)
  (otp : string + string) (uuid : string)
  (CreateUserDB : User.t -> option string) : response * list call :=
  let regEnabled :=
    match registration.2 with
    | None => negb (String.eqb (ToLower registration.1) "false")
    | Some _ => true
    end in
  if negb regEnabled then (ErrorJSON 403 "注册已关闭", [])
  else
    match bind with
    | inl err => (ErrorJSON 400 err, [])
    | inr req =>
      let beta : option response :=
        if String.eqb betaModeStr "true" then
          if String.eqb (BetaCode req) "" then
            Some (ErrorJSON 400 "内测期间，注册需要提供内测码")
          else
            match ValidateBetaCode (BetaCode req) with
            | inl _ => Some (ErrorJSON 500 "验证内测码失败")
            | inr isValid =>
              if negb isValid then Some (ErrorJSON 400 "内测码无效或已被使用")
              else None
            end
        else None in
      match beta with
      | Some refusal => (refusal, [])
      | None =>
        match GetUserByEmail (Email req) with
        | Some existingUser =>
          if negb (User.OTPVerified existingUser) then
            (OTPSetupJSON (User.ID existingUser) (Email req)
               (User.OTPSecret existingUser)
               (GetOTPQRCodeURL (User.OTPSecret existingUser) (Email req))
               "检测到未完成的注册，请继续完成OTP设置", [])
          else (ErrorJSON 409 "邮箱已被注册", [])
        | None =>
          match HashPassword (Password req) with
          | inl _ => (ErrorJSON 500 "密码处理失败", [])
          | inr passwordHash =>
            match otp with
            | inl _ => (ErrorJSON 500 "OTP密钥生成失败", [])
            | inr otpSecret =>
              let user := User.mk uuid (Email req) passwordHash otpSecret false in
              match CreateUserDB user with
              | Some err => (ErrorJSON 500 ("创建用户失败: " ++ err), [CreateUser user])
              | None =>
                (OTPSetupJSON uuid (Email req) otpSecret
                   (GetOTPQRCodeURL otpSecret (Email req))
                   "请使用Google Authenticator扫描二维码并验证OTP",
                 [CreateUser user]
                 ++ (if String.eqb betaModeStr2 "true"
                        && negb (String.eqb (BetaCode req) "")
                     then [UseBetaCode (BetaCode req) (Email req)] else []))
              end
            end
          end
        end
      end
    end.

End Handler.

End register.

(* ===================================================================== *)
(** * Part II: properties *)
(* ===================================================================== *)

(** ** Binary64 arithmetic through its specification *)

Section SpecFloatFacts.
Import f64.

(** [digits2_pos] is the binary size of a positive number. *)
Lemma digits2_pos_size (m : positive) : digits2_pos m = Pos.size m.
Proof. induction m as [m IH|m IH|]; simpl; by rewrite ?IH. Qed.

Lemma digits2_pos_bounds (m : positive) :
  2 ^ (Z.pos (digits2_pos m) - 1) <= Z.pos m < 2 ^ Z.pos (digits2_pos m).
Proof.
  induction m as [m IH|m IH|]; simpl digits2_pos.
  - rewrite Pos2Z.inj_succ.
    replace (Z.succ (Z.pos (digits2_pos m)) - 1) with (Z.succ (Z.pos (digits2_pos m) - 1)) by lia.
    rewrite !Z.pow_succ_r by lia. lia.
  - rewrite Pos2Z.inj_succ.
    replace (Z.succ (Z.pos (digits2_pos m)) - 1) with (Z.succ (Z.pos (digits2_pos m) - 1)) by lia.
    rewrite !Z.pow_succ_r by lia. lia.
  - simpl. lia.
Qed.

(** [iter_pos] is plain iteration. *)
Lemma iter_pos_nat {A : Type} (f : A -> A) (p : positive) (x : A) :
  SpecFloat.iter_pos f p x = Nat.iter (Pos.to_nat p) f x.
Proof.
  revert x. induction p as [p IH|p IH|]; intros x; simpl SpecFloat.iter_pos.
  - rewrite !IH, Pos2Nat.inj_xI.
    replace (S (2 * Pos.to_nat p)) with (Pos.to_nat p + (Pos.to_nat p + 1))%nat by lia.
    by rewrite !Nat.iter_add.
  - rewrite !IH, Pos2Nat.inj_xO.
    replace (2 * Pos.to_nat p)%nat with (Pos.to_nat p + Pos.to_nat p)%nat by lia.
    by rewrite Nat.iter_add.
  - done.
Qed.

(** One right shift halves a non-negative mantissa. *)
Lemma shr_1_m (r : shr_record) : 0 <= shr_m r -> shr_m (shr_1 r) = shr_m r / 2.
Proof.
  destruct r as [m rb sb]. simpl. intros Hm.
  destruct m as [|[p|p|]|p]; cbn [shr_m shr_1]; try done; try lia.
  - apply Z.div_unique with (r := 1); lia.
  - apply Z.div_unique with (r := 0); lia.
Qed.

Lemma shr_iter_m (n : nat) (r : shr_record) :
  0 <= shr_m r -> shr_m (Nat.iter n shr_1 r) = shr_m r / 2 ^ Z.of_nat n.
Proof.
  intros Hm. induction n as [|n IH].
  - simpl. by rewrite Z.div_1_r.
  - rewrite Nat2Z.inj_succ, Z.pow_succ_r by lia. simpl Nat.iter.
    rewrite shr_1_m, IH.
    + rewrite Z.div_div by lia. f_equal. lia.
    + rewrite IH. apply Z.div_pos; lia.
Qed.

(** The mantissa that [shr] leaves. *)
Lemma shr_m_spec (r : shr_record) (e n : Z) :
  0 <= shr_m r ->
  shr_m (shr r e n).1 = shr_m r / 2 ^ Z.max 0 n.
Proof.
  intros Hm. unfold shr. destruct n as [|p|p]; simpl fst.
  - by rewrite Z.div_1_r.
  - rewrite iter_pos_nat, shr_iter_m by done. f_equal. f_equal. lia.
  - by rewrite Z.div_1_r.
Qed.

Lemma shr_e_spec (r : shr_record) (e n : Z) : (shr r e n).2 = e + Z.max 0 n.
Proof. unfold shr. destruct n; simpl; lia. Qed.

Lemma shr_record_of_loc_m (m : Z) (l : location) : shr_m (shr_record_of_loc m l) = m.
Proof. by destruct l as [|[]]. Qed.

Lemma round_nearest_even_bounds (m : Z) (l : location) :
  m <= round_nearest_even m l <= m + 1.
Proof. destruct l as [|[]]; simpl; try lia. destruct (Z.even m); lia. Qed.


(** The exponent function of binary64, spelled out. *)
Lemma fexp_eq (e : Z) : fexp prec emax e = Z.max (e - 53) (-1074).
Proof. reflexivity. Qed.

Lemma Zdigits2_pos (m : Z) : 0 < m -> 0 < Zdigits2 m.
Proof. destruct m; simpl; lia. Qed.

Lemma Zdigits2_bounds (m : Z) :
  0 < m -> 2 ^ (Zdigits2 m - 1) <= m < 2 ^ Zdigits2 m.
Proof. destruct m as [|p|p]; try lia. intros _. apply digits2_pos_bounds. Qed.

(** Digits are monotone, and determined by the binade. *)
Lemma Zdigits2_le (m d : Z) : 0 < m -> m < 2 ^ d -> Zdigits2 m <= d.
Proof.
  intros Hm Hlt. destruct (Zdigits2_bounds m Hm) as [Hlo _].
  destruct (Z.le_gt_cases (Zdigits2 m) d) as [|Hgt]; [done|].
  assert (2 ^ d <= 2 ^ (Zdigits2 m - 1)); [|lia].
  apply Z.pow_le_mono_r; lia.
Qed.

Lemma Zdigits2_ge (m d : Z) : 0 <= d -> 2 ^ d <= m -> d < Zdigits2 m.
Proof.
  intros Hd Hle. assert (Hm : 0 < m) by (pose proof (Z.pow_pos_nonneg 2 d); lia).
  destruct (Zdigits2_bounds m Hm) as [_ Hhi].
  destruct (Z.lt_ge_cases d (Zdigits2 m)) as [|Hge]; [done|].
  assert (2 ^ Zdigits2 m <= 2 ^ d); [|lia].
  apply Z.pow_le_mono_r; lia.
Qed.

(** The two roundings of [binary_round_aux] in arithmetic form: a shift
    by [k1], a rounding that adds at most one, and a shift by [k2]. *)
Lemma binary_round_aux_arith (s : bool) (m e : Z) (l : location) :
  0 <= m ->
  exists m1' : Z,
    let k1 := Z.max 0 (fexp prec emax (Zdigits2 m + e) - e) in
    let e1 := e + k1 in
    let k2 := Z.max 0 (fexp prec emax (Zdigits2 m1' + e1) - e1) in
    m / 2 ^ k1 <= m1' <= m / 2 ^ k1 + 1
    /\ binary_round_aux prec emax s m e l
       = match m1' / 2 ^ k2 with
         | Z0 => S754_zero s
         | Zpos p => if e1 + k2 <=? emax - prec then S754_finite s p (e1 + k2)
                     else S754_infinity s
         | Zneg _ => S754_nan
         end.
Proof.
  intros Hm. unfold binary_round_aux, shr_fexp.
  destruct (shr (shr_record_of_loc m l) e (fexp prec emax (Zdigits2 m + e) - e))
    as [mrs' e'] eqn:H1.
  pose proof (shr_m_spec (shr_record_of_loc m l) e
                (fexp prec emax (Zdigits2 m + e) - e)) as Hm1.
  pose proof (shr_e_spec (shr_record_of_loc m l) e
                (fexp prec emax (Zdigits2 m + e) - e)) as He1.
  rewrite H1, shr_record_of_loc_m in Hm1. rewrite H1 in He1. simpl in Hm1, He1.
  specialize (Hm1 Hm).
  set (m1' := round_nearest_even (shr_m mrs') (loc_of_shr_record mrs')).
  exists m1'. cbv zeta.
  pose proof (round_nearest_even_bounds (shr_m mrs') (loc_of_shr_record mrs')) as Hr.
  fold m1' in Hr. rewrite Hm1 in Hr. split; [done|].
  assert (Hm1' : 0 <= m1').
  { assert (0 <= m / 2 ^ Z.max 0 (fexp prec emax (Zdigits2 m + e) - e)); [|lia].
    apply Z.div_pos; [done|]. apply Z.pow_pos_nonneg; lia. }
  destruct (shr (shr_record_of_loc m1' loc_Exact) e'
              (fexp prec emax (Zdigits2 m1' + e') - e')) as [mrs'' e''] eqn:H2.
  pose proof (shr_m_spec (shr_record_of_loc m1' loc_Exact) e'
                (fexp prec emax (Zdigits2 m1' + e') - e')) as Hm2.
  pose proof (shr_e_spec (shr_record_of_loc m1' loc_Exact) e'
                (fexp prec emax (Zdigits2 m1' + e') - e')) as He2.
  rewrite H2 in Hm2, He2. simpl in Hm2, He2. specialize (Hm2 Hm1').
  rewrite Hm2, He2, He1. done.
Qed.

(** A positive mantissa at an exponent of at least [emin] never rounds to
    zero: the result is a finite number or an infinity of the given sign. *)
Lemma binary_round_aux_nonzero (s : bool) (m e : Z) (l : location) :
  0 < m -> -1074 <= e ->
  (exists m' e', binary_round_aux prec emax s m e l = S754_finite s m' e')
  \/ binary_round_aux prec emax s m e l = S754_infinity s.
Proof.
  intros Hm He.
  destruct (binary_round_aux_arith s m e l) as (m1' & Hb & ->); [lia|].
  cbv zeta in *. rewrite !fexp_eq in *.
  set (k1 := Z.max 0 (Z.max (Zdigits2 m + e - 53) (-1074) - e)) in *.
  assert (Hk1 : 2 ^ k1 <= m).
  { destruct (Zdigits2_bounds m Hm) as [Hlo _]. pose proof (Zdigits2_pos m Hm).
    transitivity (2 ^ (Zdigits2 m - 1)); [|done].
    apply Z.pow_le_mono_r; lia. }
  assert (H1 : 1 <= m / 2 ^ k1).
  { apply Z.div_le_lower_bound; [apply Z.pow_pos_nonneg; lia|lia]. }
  assert (Hm1 : 0 < m1') by lia.
  set (k2 := Z.max 0 (Z.max (Zdigits2 m1' + (e + k1) - 53) (-1074) - (e + k1))) in *.
  assert (Hk2 : 2 ^ k2 <= m1').
  { destruct (Zdigits2_bounds m1' Hm1) as [Hlo _]. pose proof (Zdigits2_pos m1' Hm1).
    transitivity (2 ^ (Zdigits2 m1' - 1)); [|done].
    apply Z.pow_le_mono_r; lia. }
  assert (H2 : 1 <= m1' / 2 ^ k2).
  { apply Z.div_le_lower_bound; [apply Z.pow_pos_nonneg; lia|lia]. }
  destruct (m1' / 2 ^ k2) as [|p|p]; try lia.
  destruct (e + k1 + k2 <=? emax - prec); eauto.
Qed.

(** Whatever the mantissa, the result carries the given sign (it is never
    a NaN). *)
Lemma binary_round_aux_signed (s : bool) (m e : Z) (l : location) :
  0 <= m ->
  binary_round_aux prec emax s m e l = S754_zero s
  \/ (exists m' e', binary_round_aux prec emax s m e l = S754_finite s m' e')
  \/ binary_round_aux prec emax s m e l = S754_infinity s.
Proof.
  intros Hm.
  destruct (binary_round_aux_arith s m e l) as (m1' & Hb & ->); [lia|].
  cbv zeta in *.
  set (k1 := Z.max 0 (fexp prec emax (Zdigits2 m + e) - e)) in *.
  set (k2 := Z.max 0 (fexp prec emax (Zdigits2 m1' + (e + k1)) - (e + k1))) in *.
  assert (0 <= m / 2 ^ k1) by (apply Z.div_pos; [done|apply Z.pow_pos_nonneg; lia]).
  assert (0 <= m1' / 2 ^ k2) by (apply Z.div_pos; [lia|apply Z.pow_pos_nonneg; lia]).
  destruct (m1' / 2 ^ k2) as [|p|p]; try lia; [by left|].
  destruct (_ <=? _); [right; left; eauto|by right; right].
Qed.


Lemma SFstrict_signed s x : SFstrict s x = true -> SFsigned s x = true.
Proof. by destruct x. Qed.

Lemma SFnumber_strict s x : SFnumber s x = true -> SFstrict s x = true.
Proof. by destruct x. Qed.

(** Valid finite numbers have an exponent of at least [emin]. *)
Lemma valid_binary_emin s m e :
  valid_binary (S754_finite s m e) = true -> -1074 <= e.
Proof.
  unfold valid_binary, SpecFloat.valid_binary, bounded, canonical_mantissa.
  intros H. apply andb_prop in H as [H _]. apply Z.eqb_eq in H.
  rewrite fexp_eq in H. lia.
Qed.

Lemma shl_align_fst_pos m e e' : 0 < Z.pos (shl_align m e e').1.
Proof. lia. Qed.

Lemma shl_align_snd m e e' : (shl_align m e e').2 = Z.min e e'.
Proof. unfold shl_align. destruct (e' - e) eqn:H; simpl; lia. Qed.

(** [binary_round] on a positive mantissa at an exponent of at least
    [emin]. *)
Lemma binary_round_nonzero s m e :
  -1074 <= e -> SFstrict s (binary_round prec emax s m e) = true.
Proof.
  intros He. unfold binary_round.
  destruct (shl_align m e (fexp prec emax (Z.pos (digits2_pos m) + e))) as [mz ez] eqn:Hal.
  pose proof (shl_align_snd m e (fexp prec emax (Z.pos (digits2_pos m) + e))) as Hez.
  rewrite Hal, fexp_eq in Hez. simpl in Hez.
  destruct (binary_round_aux_nonzero s (Z.pos mz) ez loc_Exact) as [(m' & e' & ->)| ->];
    [lia|lia| |]; simpl; by destruct s.
Qed.

Lemma binary_normalize_signed m e s :
  SFsigned (if m <? 0 then true else false) (binary_normalize prec emax m e s) = true.
Proof.
  destruct m as [|p|p]; [done| |]; simpl; unfold binary_round;
    destruct (shl_align _ _ _) as [mz ez].
  - destruct (binary_round_aux_signed false (Z.pos mz) ez loc_Exact)
      as [H|[(m' & e' & H)|H]]; [lia| | |]; by rewrite H.
  - destruct (binary_round_aux_signed true (Z.pos mz) ez loc_Exact)
      as [H|[(m' & e' & H)|H]]; [lia| | |]; by rewrite H.
Qed.

(** Addition keeps a common sign. *)
Lemma SFadd_signed s x y :
  SFsigned s x = true -> SFsigned s y = true ->
  SFsigned s (SF64add x y) = true.
Proof.
  destruct x as [sx|sx| |sx mx ex], y as [sy|sy| |sy my ey]; simpl; try done.
  - by destruct sx, sy.
  - intros Hx Hy. apply eqb_prop in Hx, Hy. subst. by destruct sy.
  - intros Hx Hy. apply eqb_prop in Hx, Hy. subst sx sy.
    unfold SF64add, SFadd.
    set (a := Z.pos (shl_align mx ex (Z.min ex ey)).1).
    set (b := Z.pos (shl_align my ey (Z.min ex ey)).1).
    assert (Ha : 0 < a) by (subst a; lia). assert (Hb : 0 < b) by (subst b; lia).
    pose proof (binary_normalize_signed (cond_Zopp s a + cond_Zopp s b) (Z.min ex ey) false) as H.
    destruct s; simpl in *.
    + destruct (Z.ltb_spec (- a + - b) 0); [done|lia].
    + destruct (Z.ltb_spec (a + b) 0); [lia|done].
Qed.

(** Adding a non-zero number of the same sign gives a non-zero number. *)
Lemma SFadd_strict s x y :
  valid_binary x = true -> valid_binary y = true ->
  SFsigned s x = true -> SFstrict s y = true ->
  SFstrict s (SF64add x y) = true.
Proof.
  intros Hvx Hvy.
  destruct x as [sx|sx| |sx mx ex], y as [sy|sy| |sy my ey]; simpl; try done.
  - intros Hx Hy. apply eqb_prop in Hx, Hy. subst. by destruct sy.
  - intros Hx Hy. apply eqb_prop in Hx, Hy. subst sx sy.
    apply valid_binary_emin in Hvx, Hvy.
    unfold SF64add, SFadd.
    set (a := (shl_align mx ex (Z.min ex ey)).1).
    set (b := (shl_align my ey (Z.min ex ey)).1).
    destruct s; simpl.
    + change (- Z.pos a + - Z.pos b) with (Z.neg (a + b)). simpl.
      apply (binary_round_nonzero true). lia.
    + apply (binary_round_nonzero false). lia.
Qed.


Lemma SFdiv_core_nonneg m1 e1 m2 e2 :
  0 <= m1 -> 0 < m2 -> 0 <= (SFdiv_core_binary prec emax m1 e1 m2 e2).1.1.
Proof.
  intros H1 H2. unfold SFdiv_core_binary.
  set (s := e1 - e2 - _).
  set (m' := match s with Z.pos _ => Z.shiftl m1 s | Z0 => m1 | Z.neg _ => 0 end).
  assert (Hm' : 0 <= m').
  { subst m'. destruct s; try lia. by apply Z.shiftl_nonneg. }
  pose proof (Z.div_pos m' m2 Hm' H2) as Hq. unfold Z.div in Hq.
  by destruct (Z.div_eucl m' m2).
Qed.

(** Division by a non-zero finite number: the sign is the product of the
    signs and the result is never a NaN. *)
Lemma SFdiv_signed sx sy x y :
  SFsigned sx x = true -> SFnumber sy y = true ->
  SFsigned (xorb sx sy) (SF64div x y) = true.
Proof.
  destruct x as [s0|s0| |s0 mx ex], y as [s1|s1| |s1 my ey]; simpl; try done.
  - intros Hx Hy. apply eqb_prop in Hx, Hy. subst. by destruct s0, s1.
  - intros Hx Hy. apply eqb_prop in Hx, Hy. subst s0 s1.
    unfold SF64div, SFdiv.
    pose proof (SFdiv_core_nonneg (Z.pos mx) ex (Z.pos my) ey ltac:(lia) ltac:(lia)) as Hq.
    destruct (SFdiv_core_binary prec emax (Z.pos mx) ex (Z.pos my) ey) as [[mz ez] lz].
    simpl in Hq.
    destruct (binary_round_aux_signed (xorb sx sy) mz ez lz Hq)
      as [H|[(m' & e' & H)|H]]; rewrite H; simpl; by destruct (xorb sx sy).
Qed.

(** Division by a non-zero number or an infinity: the same, except that
    an infinity over an infinity is a NaN. *)
Lemma SFdiv_signed_or_nan sx sy x y :
  SFsigned sx x = true -> SFstrict sy y = true ->
  SFsigned (xorb sx sy) (SF64div x y) = true \/ SF64div x y = S754_nan.
Proof.
  intros Hx Hy. destruct y as [s1|s1| |s1 my ey]; try done.
  - destruct x as [s0|s0| |s0 mx ex]; simpl in *; try done; auto.
  - left. by apply SFdiv_signed.
Qed.

Lemma SFopp_signed s x : SFsigned (negb s) (SFopp x) = SFsigned s x.
Proof. destruct x as [s0|s0| |s0 m e]; simpl; try done; by destruct s, s0. Qed.

Lemma SFopp_strict s x : SFstrict (negb s) (SFopp x) = SFstrict s x.
Proof. destruct x as [s0|s0| |s0 m e]; simpl; try done; by destruct s, s0. Qed.

(** Comparison: reflexivity and antisymmetry away from NaN. *)
Lemma SFcompare_antisym x y :
  SFcompare y x = option_map CompOpp (SFcompare x y).
Proof.
  destruct x as [s0|s0| |s0 mx ex], y as [s1|s1| |s1 my ey]; simpl; try done;
    try (by destruct s0, s1); try (by destruct s0); try (by destruct s1).
  f_equal. destruct s0, s1; try done.
  - rewrite (Z.compare_antisym ex ey). destruct (ex ?= ey); simpl; try done.
    by rewrite (Pos.compare_cont_antisym mx my Eq).
  - rewrite (Z.compare_antisym ex ey). destruct (ex ?= ey); simpl; try done.
    by rewrite (Pos.compare_cont_antisym mx my Eq).
Qed.

Lemma SFcompare_refl x : x <> S754_nan -> SFcompare x x = Some Eq.
Proof.
  destruct x as [s0|s0| |s0 m e]; simpl; try done; intros _.
  - by destruct s0.
  - f_equal. rewrite Z.compare_refl, Pos.compare_cont_refl. by destruct s0.
Qed.

Lemma SFcompare_nan_iff x y :
  SFcompare x y = None <-> x = S754_nan \/ y = S754_nan.
Proof.
  destruct x as [s0|s0| |s0 mx ex], y as [s1|s1| |s1 my ey]; simpl;
    split; try done; try (intros [|]; done); auto.
Qed.

(** Away from NaN, "not less than" is "greater or equal". *)
Lemma SFltb_false_leb x y :
  x <> S754_nan -> y <> S754_nan -> SFltb x y = false -> SFleb y x = true.
Proof.
  intros Hx Hy. unfold SFltb, SFleb. rewrite (SFcompare_antisym x y).
  destruct (SFcompare x y) as [[]|] eqn:Hc; simpl; try done.
  apply SFcompare_nan_iff in Hc as [|]; done.
Qed.

Lemma SFleb_zero_l x : SFleb (S754_zero false) x = SFsigned false x.
Proof. destruct x as [s0|s0| |s0 m e]; simpl; try done; by destruct s0. Qed.

Lemma SFltb_zero_l x : SFltb (S754_zero false) x = SFstrict false x.
Proof. destruct x as [s0|s0| |s0 m e]; simpl; try done; by destruct s0. Qed.

Lemma SFleb_zero_r x : SFleb x (S754_zero false) = SFsigned true x.
Proof. destruct x as [s0|s0| |s0 m e]; simpl; try done; by destruct s0. Qed.

Lemma SFltb_zero_r x : SFltb x (S754_zero false) = SFstrict true x.
Proof. destruct x as [s0|s0| |s0 m e]; simpl; try done; by destruct s0. Qed.

End SpecFloatFacts.

(** ** Primitive floats through their specification *)

Section PrimFloatFacts.
Import f64.
#[local] Open Scope float_scope.

Lemma Prim2SF_zero : Prim2SF 0 = S754_zero false.
Proof. reflexivity. Qed.

Lemma ltb_zero_l x : (0 <? x) = SFstrict false (Prim2SF x).
Proof. by rewrite FloatAxioms.ltb_spec, Prim2SF_zero, SFltb_zero_l. Qed.

Lemma leb_zero_l x : (0 <=? x) = SFsigned false (Prim2SF x).
Proof. by rewrite FloatAxioms.leb_spec, Prim2SF_zero, SFleb_zero_l. Qed.

Lemma ltb_zero_r x : (x <? 0) = SFstrict true (Prim2SF x).
Proof. by rewrite FloatAxioms.ltb_spec, Prim2SF_zero, SFltb_zero_r. Qed.

Lemma leb_zero_r x : (x <=? 0) = SFsigned true (Prim2SF x).
Proof. by rewrite FloatAxioms.leb_spec, Prim2SF_zero, SFleb_zero_r. Qed.

Lemma is_nan_spec x : is_nan x = true <-> Prim2SF x = S754_nan.
Proof.
  unfold is_nan. rewrite FloatAxioms.eqb_spec. unfold SFeqb. split.
  - destruct (Prim2SF x) eqn:Hx; try done; rewrite SFcompare_refl; done.
  - by intros ->.
Qed.

Lemma is_nan_false x : is_nan x = false <-> Prim2SF x <> S754_nan.
Proof.
  split.
  - intros H Hn. apply is_nan_spec in Hn. congruence.
  - intros H. destruct (is_nan x) eqn:E; [|done]. by apply is_nan_spec in E.
Qed.

End PrimFloatFacts.

(** ** Machine integers *)

Section Int64.
Import go.

Lemma wrap64_id (z : Z) : int_range z -> wrap64 z = z.
Proof.
  unfold int_range, wrap64. intros Hz.
  rewrite Z.mod_small by lia. lia.
Qed.

Lemma wrap64_range (z : Z) : int_range (wrap64 z).
Proof.
  unfold int_range, wrap64.
  pose proof (Z.mod_pos_bound (z + 2 ^ 63) (2 ^ 64) ltac:(lia)). lia.
Qed.

Lemma len_nonneg {A : Type} (s : list A) : 0 <= len s.
Proof. unfold len. lia. Qed.

Lemma len_app {A : Type} (s1 s2 : list A) : len (s1 ++ s2) = len s1 + len s2.
Proof. unfold len. rewrite length_app. lia. Qed.

Lemma len_nil_iff {A : Type} (s : list A) : len s = 0 <-> s = [].
Proof. unfold len. destruct s; simpl; split; intros; try done; lia. Qed.

End Int64.

(** ** Batching *)

Section Batching.
Import go market batching.

Lemma boundedBatches_concat_nil n bs :
  boundedBatches n bs -> concat bs = [] -> bs = [].
Proof.
  intros Hb Hc. destruct bs as [|b bs]; [done|].
  apply Forall_cons in Hb as [Hb _]. simpl in Hc.
  apply app_eq_nil in Hc as [-> _]. unfold len in Hb. simpl in Hb. lia.
Qed.

Lemma slice_full (symbols : list string) (i n : Z) :
  0 <= i -> 0 <= n -> i + n <= len symbols ->
  slice symbols i (i + n) ++ drop (Z.to_nat (i + n)) symbols
  = drop (Z.to_nat i) symbols.
Proof.
  intros Hi Hn Hle. unfold slice.
  replace (i + n - i) with n by lia.
  replace (Z.to_nat (i + n)) with (Z.to_nat i + Z.to_nat n)%nat by lia.
  rewrite <- drop_drop. apply take_drop.
Qed.

Lemma slice_len (symbols : list string) (i j : Z) :
  0 <= i <= j -> j <= len symbols -> len (slice symbols i j) = j - i.
Proof.
  intros Hi Hj. unfold slice, len in *.
  rewrite length_take, length_drop. lia.
Qed.

Lemma slice_rest (symbols : list string) (i : Z) :
  0 <= i -> slice symbols i (len symbols) = drop (Z.to_nat i) symbols.
Proof.
  intros Hi. unfold slice, len. apply take_ge. rewrite length_drop. lia.
Qed.

(** One iteration of the batching loop, with the wrap-around resolved. *)
Lemma splitLoop_step fuel symbols batchSize i batches :
  1 <= batchSize < 2 ^ 63 -> len symbols < 2 ^ 62 ->
  0 <= i -> counterOk batchSize i -> i < len symbols ->
  splitLoop (S fuel) symbols batchSize i batches
  = splitLoop fuel symbols batchSize (i + batchSize)
      (batches ++ [slice symbols i (Z.min (i + batchSize) (len symbols))]).
Proof.
  intros Hb Hlen Hi Hc Hlt. simpl.
  assert (Hw : wrap64 (i + batchSize) = i + batchSize).
  { apply wrap64_id. unfold int_range. destruct Hc; lia. }
  rewrite Hw.
  destruct (Z.ltb_spec i (len symbols)); [|lia].
  assert (He : (if i + batchSize >? len symbols then len symbols else i + batchSize)
               = Z.min (i + batchSize) (len symbols)).
  { destruct (Z.gtb_spec (i + batchSize) (len symbols)); lia. }
  rewrite He.
  destruct (Z.leb_spec 0 i); [|lia].
  destruct (Z.leb_spec i (Z.min (i + batchSize) (len symbols))); [|lia].
  reflexivity.
Qed.

Lemma splitLoop_total fuel symbols batchSize :
  1 <= batchSize < 2 ^ 63 -> len symbols < 2 ^ 62 ->
  forall i batches,
    0 <= i -> counterOk batchSize i ->
    (Z.to_nat (len symbols - i) < fuel)%nat ->
    exists rest,
      splitLoop fuel symbols batchSize i batches = Some (Done (batches ++ rest))
      /\ concat rest = drop (Z.to_nat i) symbols
      /\ fullButLast batchSize rest
      /\ boundedBatches batchSize rest.
Proof.
  intros Hb Hlen. induction fuel as [|fuel IH]; intros i batches Hi Hc Hfuel; [lia|].
  destruct (Z.lt_ge_cases i (len symbols)) as [Hlt|Hge].
  - rewrite splitLoop_step by assumption.
    destruct (IH (i + batchSize)
                (batches ++ [slice symbols i (Z.min (i + batchSize) (len symbols))]))
      as (rest & Hrun & Hcat & Hfull & Hbound); [lia|right; lia|lia|].
    exists (slice symbols i (Z.min (i + batchSize) (len symbols)) :: rest).
    split; [|split; [|split]].
    + rewrite Hrun. by rewrite <- app_assoc.
    + simpl. rewrite Hcat.
      destruct (Z.le_gt_cases (i + batchSize) (len symbols)) as [Hfit|Hover].
      * rewrite Z.min_l by lia. apply slice_full; lia.
      * rewrite Z.min_r by lia. rewrite slice_rest by lia.
        rewrite (drop_ge symbols (Z.to_nat (i + batchSize))) by (unfold len in *; lia).
        by rewrite app_nil_r.
    + intros [|k] b Hk Hlast; simpl in *.
      * injection Hk as <-.
        destruct (Z.le_gt_cases (len symbols) (i + batchSize)) as [Hover|Hfit].
        -- assert (rest = []) as ->; [|simpl in Hlast; lia].
           apply (boundedBatches_concat_nil batchSize); [done|].
           rewrite Hcat. apply drop_ge. unfold len in *. lia.
        -- rewrite Z.min_l by lia. rewrite slice_len; lia.
      * apply (Hfull k b Hk). lia.
    + constructor; [|done].
      destruct (Z.le_gt_cases (i + batchSize) (len symbols)).
      * rewrite Z.min_l by lia. rewrite slice_len; lia.
      * rewrite Z.min_r by lia. rewrite slice_len; lia.
  - exists []. simpl.
    destruct (Z.ltb_spec i (len symbols)); [lia|].
    rewrite app_nil_r. repeat split.
    + symmetry. apply drop_ge. unfold len in *. lia.
    + intros k b Hk. by rewrite lookup_nil in Hk.
    + constructor.
Qed.

(** With a zero batch size the counter never advances. *)
Lemma splitLoop_zero_diverges fuel symbols :
  forall i batches,
    0 <= i < len symbols -> int_range i ->
    splitLoop fuel symbols 0 i batches = None.
Proof.
  induction fuel as [|fuel IH]; intros i batches Hi Hr; [done|].
  simpl. rewrite Z.add_0_r.
  rewrite (wrap64_id i Hr).
  destruct (Z.ltb_spec i (len symbols)); [|lia].
  destruct (Z.gtb_spec i (len symbols)); [lia|].
  destruct (Z.leb_spec 0 i); [|lia].
  destruct (Z.leb_spec i i); [|lia].
  simpl. by apply IH.
Qed.

(** More fuel does not change the result of a loop that has finished. *)
Lemma splitLoop_more_fuel fuel fuel' symbols batchSize i batches r :
  (fuel <= fuel')%nat ->
  splitLoop fuel symbols batchSize i batches = Some r ->
  splitLoop fuel' symbols batchSize i batches = Some r.
Proof.
  revert fuel' i batches.
  induction fuel as [|fuel IH]; intros fuel' i batches Hle Hrun; [done|].
  destruct fuel' as [|fuel']; [lia|].
  simpl in *.
  destruct (i <? len symbols); [|done].
  destruct ((0 <=? i) && _); [|done].
  apply IH; [lia|done].
Qed.

(** C10. Under [batchSize >= 1], [splitIntoBatches] terminates: any fuel
    above [len(symbols)] yields the same batches, their concatenation is
    the input, and every batch but the last has exactly [batchSize]
    elements (no batch is empty or longer). With [batchSize = 0] and a
    non-empty input the loop is still running after any number of
    iterations. *)
Theorem splitIntoBatches_terminates_iff_positive (symbols : list string) :
  (forall batchSize,
      1 <= batchSize < 2 ^ 63 -> len symbols < 2 ^ 62 ->
      exists batches,
        (forall fuel, (length symbols < fuel)%nat ->
                      splitIntoBatches fuel symbols batchSize = Some (Done batches))
        /\ concat batches = symbols
        /\ fullButLast batchSize batches
        /\ boundedBatches batchSize batches)
  /\ (symbols <> [] -> forall fuel, splitIntoBatches fuel symbols 0 = None).
Proof.
  split.
  - intros batchSize Hb Hlen.
    destruct (splitLoop_total (S (length symbols)) symbols batchSize Hb Hlen 0 [])
      as (batches & Hrun & Hcat & Hfull & Hbound);
      [lia|by left|unfold len; lia|].
    exists batches. split; [|done].
    intros fuel Hfuel. unfold splitIntoBatches.
    apply (splitLoop_more_fuel (S (length symbols))); [lia|done].
  - intros Hne fuel. unfold splitIntoBatches.
    apply splitLoop_zero_diverges; [|unfold int_range; lia].
    pose proof (len_nonneg symbols).
    destruct (Z.eq_dec (len symbols) 0) as [H0|]; [|lia].
    by apply len_nil_iff in H0.
Qed.

End Batching.

(** ** Reconnection replays the recorded subscriptions *)

Section Replay.
Import go market batching session.

Lemma subscribeFrames_emit e w :
  subscribeFrames (trace (emit e w))
  = subscribeFrames (trace w)
    ++ match e with WriteJSON _ _ params => [params] | _ => [] end.
Proof.
  unfold subscribeFrames, emit. simpl. rewrite omap_app. by destruct e.
Qed.



Lemma mapRange_elements (keys : gset string) : mapRange keys (elements keys).
Proof.
  split; [apply NoDup_elements|]. intros k. by rewrite elem_of_elements.
Qed.



(** The resubscription loop leaves the client record alone. *)
Lemma resubscribeLoop_client fuel uniqueStreams :
  forall writes i w w',
    resubscribeLoop fuel uniqueStreams writes i w = Some (Done w') ->
    client w' = client w.
Proof.
  induction fuel as [|fuel IH]; intros writes i w w' Hloop; [done|].
  simpl in Hloop.
  destruct (i <? len uniqueStreams); [|by injection Hloop as <-].
  destruct ((0 <=? i) && _); [|done].
  apply IH in Hloop. rewrite Hloop.
  destruct (conn (client w)); [|done]. by destruct (hd true writes).
Qed.




End Replay.

Section ReplayScenario.
Import go market batching session.


End ReplayScenario.

(** ** The subscriber registry: dispatch and shutdown *)

Section Registry.
Import go market registry.

Lemma resubscribeLoop_frame fuel uniqueStreams :
  forall writes i w w',
    resubscribeLoop fuel uniqueStreams writes i w = Some (Done w') ->
    chans w' = chans w /\ nextChan w' = nextChan w.
Proof.
  induction fuel as [|fuel IH]; intros writes i w w' Hloop; [done|].
  simpl in Hloop.
  destruct (i <? len uniqueStreams); [|by injection Hloop as <-].
  destruct ((0 <=? i) && _); [|done].
  apply IH in Hloop as [-> ->].
  destruct (conn (client w)); [|done]. by destruct (hd true writes).
Qed.

Lemma handleReconnect_frame fuel dialOk order writes w w' :
  handleReconnect fuel dialOk order writes w = Some (Done w') ->
  chans w' = chans w /\ nextChan w' = nextChan w
  /\ subscribers (client w') = subscribers (client w).
Proof.
  unfold handleReconnect. destruct (negb _); [by intros [= <-]|].
  destruct dialOk; simpl; [|by intros [= <-]].
  destruct (0 <? len order); [|by intros [= <-]].
  match goal with
  | |- context [resubscribeLoop fuel order writes 0 ?w1] =>
    destruct (resubscribeLoop fuel order writes 0 w1) as [[w2|]|] eqn:Hloop; try done
  end.
  intros [= <-].
  pose proof (resubscribeLoop_client _ _ _ _ _ _ Hloop) as Hc.
  apply resubscribeLoop_frame in Hloop as [Hch Hn].
  simpl. by rewrite Hch, Hn, Hc.
Qed.

(** What the loop of [Close] does when every channel it meets is open and
    met once: it closes exactly those channels and empties the registry
    of the keys it visited. *)
Lemma closeSubscribers_ok entries :
  forall w,
    NoDup entries.*2 ->
    (forall ch, ch ∈ entries.*2 ->
                exists cs, chans w !! ch = Some cs /\ closed cs = false) ->
    exists w',
      closeSubscribers entries w = Done w'
      /\ nextChan w' = nextChan w /\ nextSock w' = nextSock w
      /\ trace w' = trace w
      /\ conn (client w') = conn (client w)
      /\ done (client w') = done (client w)
      /\ subscribers (client w')
         = foldl (fun m e => delete e.1 m) (subscribers (client w)) entries
      /\ (forall ch, ch ∈ entries.*2 ->
                     exists cs, chans w !! ch = Some cs
                                /\ chans w' !! ch = Some (mkChan (buf cs) (cap cs) true))
      /\ (forall ch, ch ∉ entries.*2 -> chans w' !! ch = chans w !! ch).
Proof.
  induction entries as [|[stream ch] entries IH]; intros w Hnd Hopen.
  - exists w. repeat split; try done. intros ch Hch. by apply elem_of_nil in Hch.
  - simpl in *. apply NoDup_cons in Hnd as [Hfresh Hnd].
    destruct (Hopen ch) as (cs & Hcs & Hcl); [left|].
    unfold closeChan. rewrite Hcs, Hcl.
    match goal with
    | |- context [closeSubscribers entries ?w1] => set (w1' := w1)
    end.
    destruct (IH w1' Hnd) as (w' & Hrun & Hn & Hs & Ht & Hc & Hd & Hsub & Hclosed & Hother).
    { intros ch' Hch'. destruct (Hopen ch') as (cs' & Hcs' & Hcl'); [by right|].
      exists cs'. split; [|done]. subst w1'. simpl.
      rewrite lookup_insert_ne; [done|]. intros ->. done. }
    exists w'. split; [done|]. repeat split; try done.
    + intros ch' Hch'. apply elem_of_cons in Hch' as [->|Hch'].
      * exists cs. split; [done|]. rewrite (Hother ch Hfresh). subst w1'. simpl.
        by rewrite lookup_insert_eq.
      * destruct (Hclosed ch' Hch') as (cs' & Hcs' & Hcl').
        exists cs'. split; [|done]. subst w1'. simpl in Hcs'.
        rewrite lookup_insert_ne in Hcs'; [done|]. intros ->. done.
    + intros ch' Hch'. apply not_elem_of_cons in Hch' as [Hne Hch'].
      rewrite (Hother ch' Hch'). subst w1'. simpl. by rewrite lookup_insert_ne.
Qed.

Lemma foldl_delete_lookup (entries : list (string * nat)) :
  forall (m : gmap string nat) k,
    foldl (fun m e => delete e.1 m) m entries !! k
    = if decide (k ∈ entries.*1) then None else m !! k.
Proof.
  induction entries as [|[stream ch] entries IH]; intros m k.
  - done.
  - cbn [foldl]. rewrite IH, fmap_cons. cbn [fst]. repeat case_decide; try done.
    + set_solver.
    + destruct (decide (k = stream)) as [->|Hne]; [by rewrite lookup_delete_eq|set_solver].
    + rewrite lookup_delete_ne; [done|]. set_solver.
Qed.

Lemma foldl_delete_all (m : gmap string nat) :
  foldl (fun m e => delete e.1 m) m (map_to_list m) = ∅.
Proof.
  apply map_eq. intros k. rewrite foldl_delete_lookup, lookup_empty.
  case_decide as Hk; [done|].
  destruct (m !! k) as [ch|] eqn:Hm; [|done].
  exfalso. apply Hk. apply list_elem_of_fmap. exists (k, ch). split; [done|].
  by apply elem_of_map_to_list.
Qed.

Lemma wf_entries w :
  wf w ->
  NoDup (map_to_list (subscribers (client w))).*2
  /\ (forall ch, ch ∈ (map_to_list (subscribers (client w))).*2 ->
                 exists cs, chans w !! ch = Some cs /\ closed cs = false).
Proof.
  intros (Hopen & Hinj & _). split.
  - apply NoDup_fmap_2_strong; [|apply NoDup_map_to_list].
    intros [s1 c1] [s2 c2] H1 H2 Heq. simpl in Heq. subst c2.
    apply elem_of_map_to_list in H1, H2. f_equal. by eapply Hinj.
  - intros ch Hch. apply list_elem_of_fmap in Hch as ([s c] & -> & Hin).
    apply elem_of_map_to_list in Hin. by eapply Hopen.
Qed.

(** The first [Close] of a well-formed, not yet closed client succeeds:
    the registry ends empty, every channel that was registered is closed,
    every other channel is untouched, and the socket, if any, is closed
    once. *)
Lemma Close_first w :
  wf w -> done (client w) = false ->
  exists w',
    Close w = Done w'
    /\ subscribers (client w') = ∅
    /\ conn (client w') = None
    /\ done (client w') = true
    /\ nextChan w' = nextChan w
    /\ (forall stream ch, subscribers (client w) !! stream = Some ch ->
          exists cs, chans w !! ch = Some cs /\ closed cs = false
                     /\ chans w' !! ch = Some (mkChan (buf cs) (cap cs) true))
    /\ (forall ch, (forall stream, subscribers (client w) !! stream <> Some ch) ->
          chans w' !! ch = chans w !! ch)
    /\ trace w' = trace w ++ match conn (client w) with
                             | Some s => [CloseConn s]
                             | None => []
                             end.
Proof.
  intros Hwf Hdone. destruct (wf_entries w Hwf) as [Hnd Hopen].
  unfold Close. simpl. rewrite Hdone.
  match goal with
  | |- context [closeSubscribers ?es ?w3] =>
    assert (Hes : es = map_to_list (subscribers (client w))) by (by destruct (conn (client w)));
      rewrite Hes; clear Hes; set (w3' := w3)
  end.
  assert (Hch3 : chans w3' = chans w) by (subst w3'; by destruct (conn (client w))).
  destruct (closeSubscribers_ok (map_to_list (subscribers (client w))) w3' Hnd)
    as (w' & Hrun & Hn & Hs & Ht & Hc & Hd & Hsub & Hclosed & Hother).
  { intros ch Hch. rewrite Hch3. by apply Hopen. }
  exists w'. split; [done|].
  assert (Hsub3 : subscribers (client w3') = subscribers (client w))
    by (subst w3'; by destruct (conn (client w))).
  split; [by rewrite Hsub, Hsub3, foldl_delete_all|].
  split; [rewrite Hc; subst w3'; by destruct (conn (client w)) eqn:E; simpl; rewrite ?E|].
  split; [rewrite Hd; subst w3'; by destruct (conn (client w))|].
  split; [rewrite Hn; subst w3'; by destruct (conn (client w))|].
  split; [|split].
  - intros stream ch Hreg.
    assert (Hin : ch ∈ (map_to_list (subscribers (client w))).*2).
    { apply list_elem_of_fmap. exists (stream, ch). split; [done|].
      by apply elem_of_map_to_list. }
    destruct (Hclosed ch Hin) as (cs & Hcs & Hcl). rewrite Hch3 in Hcs.
    destruct (Hopen ch Hin) as (cs' & Hcs' & Hop). exists cs.
    split; [done|]. split; [congruence|done].
  - intros ch Hunreg. rewrite Hother, Hch3; [done|].
    intros Hin. apply list_elem_of_fmap in Hin as ([s c] & -> & Hin).
    apply elem_of_map_to_list in Hin. by apply (Hunreg s).
  - rewrite Ht. subst w3'. by destruct (conn (client w)); simpl; rewrite ?app_nil_r.
Qed.

Lemma closeSubscribers_done entries :
  forall w w', closeSubscribers entries w = Done w' ->
               done (client w') = done (client w).
Proof.
  induction entries as [|[stream ch] entries IH]; intros w w' Hrun; simpl in Hrun.
  - by injection Hrun as <-.
  - destruct (closeChan ch w) as [w1|] eqn:Hcc; [|done].
    apply IH in Hrun. rewrite Hrun. simpl.
    unfold closeChan in Hcc. destruct (chans w !! ch) as [cs|]; [|by injection Hcc as <-].
    destruct (closed cs); [done|]. by injection Hcc as <-.
Qed.

(** Whatever the first [Close] did, it left the [done] channel closed. *)
Lemma Close_sets_done w w' : Close w = Done w' -> done (client w') = true.
Proof.
  unfold Close. simpl. destruct (done (client w)) eqn:Hdone; [done|].
  intros Hrun. apply closeSubscribers_done in Hrun. rewrite Hrun.
  by destruct (conn (client w)).
Qed.

(** C7 (what the code does). A second [Close] does not return: it panics
    on [close(c.done)], whatever state the first one left. *)
Theorem Close_twice_panics (w w' : world) :
  Close w = Done w' -> Close w' = Panic "close of closed channel".
Proof.
  intros Hfirst. apply Close_sets_done in Hfirst.
  unfold Close. simpl. by rewrite Hfirst.
Qed.

End Registry.

Section Dispatch.
Import go market registry.

Variable Unmarshal : string -> option (string * string).

Lemma wf_new batchSize : wf (NewCombinedStreamsClient batchSize).
Proof.
  repeat split; simpl; intros *; rewrite ?lookup_empty; try done.
  all: by intros [? ?].
Qed.

Lemma wf_same w w' :
  subscribers (client w') = subscribers (client w) ->
  chans w' = chans w -> nextChan w' = nextChan w ->
  wf w -> wf w'.
Proof. unfold wf. by intros -> -> ->. Qed.

Lemma wf_add w stream bufferSize : wf w -> wf (AddSubscriber stream bufferSize w).1.
Proof.
  intros (Hopen & Hinj & Hfresh). unfold AddSubscriber. simpl.
  assert (Hnew : forall s, subscribers (client w) !! s <> Some (nextChan w)).
  { intros s Hs. destruct (Hopen s _ Hs) as (cs & Hcs & _).
    pose proof (Hfresh (nextChan w) (mk_is_Some _ _ Hcs)). lia. }
  split; [|split]; simpl.
  - intros s ch Hs. destruct (decide (s = stream)) as [->|Hne].
    + rewrite lookup_insert_eq in Hs. injection Hs as <-.
      eexists. by rewrite lookup_insert_eq.
    + rewrite lookup_insert_ne in Hs by done.
      destruct (Hopen s ch Hs) as (cs & Hcs & Hcl). exists cs. split; [|done].
      rewrite lookup_insert_ne; [done|]. intros <-. by apply (Hnew s).
  - intros s1 s2 ch H1 H2.
    destruct (decide (s1 = stream)) as [->|Hne1], (decide (s2 = stream)) as [->|Hne2];
      try done.
    + rewrite lookup_insert_eq in H1. rewrite lookup_insert_ne in H2 by done.
      injection H1 as <-. by apply Hnew in H2.
    + rewrite lookup_insert_eq in H2. rewrite lookup_insert_ne in H1 by done.
      injection H2 as <-. by apply Hnew in H1.
    + rewrite lookup_insert_ne in H1, H2 by done. by eapply Hinj.
  - intros ch Hch. destruct (decide (ch = nextChan w)) as [->|Hne]; [lia|].
    rewrite lookup_insert_ne in Hch by done. apply Hfresh in Hch. lia.
Qed.

Lemma wf_receive w ch : wf w -> wf (receive ch w).
Proof.
  intros (Hopen & Hinj & Hfresh). unfold receive.
  destruct (chans w !! ch) as [cs|] eqn:Hcs; [|done].
  split; [|split]; simpl; [|done|].
  - intros s ch' Hs. destruct (Hopen s ch' Hs) as (cs' & Hcs' & Hcl).
    destruct (decide (ch' = ch)) as [->|Hne].
    + rewrite lookup_insert_eq. eexists. split; [done|]. simpl. congruence.
    + rewrite lookup_insert_ne by done. eauto.
  - intros ch' Hch'. destruct (decide (ch' = ch)) as [->|Hne].
    + apply Hfresh. by rewrite Hcs.
    + rewrite lookup_insert_ne in Hch' by done. by apply Hfresh.
Qed.

Lemma wf_delivered w stream ch cs data :
  wf w -> subscribers (client w) !! stream = Some ch -> chans w !! ch = Some cs ->
  wf (delivered ch cs data w).
Proof.
  intros (Hopen & Hinj & Hfresh) Hreg Hcs.
  split; [|split]; simpl; [|done|].
  - intros s ch' Hs. destruct (Hopen s ch' Hs) as (cs' & Hcs' & Hcl).
    destruct (decide (ch' = ch)) as [->|Hne].
    + rewrite lookup_insert_eq. by eexists.
    + rewrite lookup_insert_ne by done. eauto.
  - intros ch' Hch'. destruct (decide (ch' = ch)) as [->|Hne].
    + apply Hfresh. by rewrite Hcs.
    + rewrite lookup_insert_ne in Hch' by done. by apply Hfresh.
Qed.

(** The three ways a parsed frame is handled. *)
Lemma handleCombinedMessage_cases (w : world) (message stream data : string) :
  wf w ->
  Unmarshal message = Some (stream, data) ->
  exists w',
    handleCombinedMessage Unmarshal message w = Done w'
    /\ match subscribers (client w) !! stream with
       | Some ch =>
         exists cs, chans w !! ch = Some cs
                    /\ (if (length (buf cs) <? cap cs)%nat
                        then w' = delivered ch cs data w
                        else w' = emit (Log ("channel full: " ++ stream)) w)
       | None => w' = w
       end.
Proof.
  intros (Hopen & Hinj & Hfresh) Hparse. unfold handleCombinedMessage.
  rewrite Hparse. destruct (subscribers (client w) !! stream) as [ch|] eqn:Hreg.
  - destruct (Hopen stream ch Hreg) as (cs & Hcs & Hcl).
    unfold trySend. rewrite Hcs, Hcl.
    destruct (length (buf cs) <? cap cs)%nat eqn:Hfree.
    + eexists. split; [done|]. exists cs. by rewrite Hfree.
    + eexists. split; [done|]. exists cs. by rewrite Hfree.
  - by exists w.
Qed.


Lemma wf_message w message w' :
  wf w -> handleCombinedMessage Unmarshal message w = Done w' -> wf w'.
Proof.
  intros Hwf Hrun. destruct (Unmarshal message) as [[stream data]|] eqn:Hparse.
  - destruct (handleCombinedMessage_cases w message stream data Hwf Hparse)
      as (w1 & Hrun1 & Hcase).
    rewrite Hrun in Hrun1. injection Hrun1 as <-.
    destruct (subscribers (client w) !! stream) as [ch|] eqn:Hreg; [|by subst].
    destruct Hcase as (cs & Hcs & Hcase).
    destruct (length (buf cs) <? cap cs)%nat; subst w'.
    + by eapply wf_delivered.
    + by apply (wf_same w).
  - unfold handleCombinedMessage in Hrun. rewrite Hparse in Hrun.
    injection Hrun as <-. by apply (wf_same w).
Qed.

Lemma wf_close w w' : wf w -> Close w = Done w' -> wf w'.
Proof.
  intros Hwf Hrun.
  destruct (done (client w)) eqn:Hdone.
  { unfold Close in Hrun. simpl in Hrun. by rewrite Hdone in Hrun. }
  destruct (Close_first w Hwf Hdone)
    as (w1 & Hrun1 & Hsub & _ & _ & Hn & Hclosed & Hother & _).
  rewrite Hrun in Hrun1. injection Hrun1 as <-.
  destruct Hwf as (Hopen & Hinj & Hfresh).
  split; [|split]; rewrite ?Hsub; try (intros *; by rewrite lookup_empty).
  intros ch Hch. rewrite Hn. apply Hfresh.
  destruct (decide (ch ∈ (map_to_list (subscribers (client w))).*2)) as [Hin|Hunreg].
  - apply list_elem_of_fmap in Hin as ([stream c] & Heq & Hin).
    simpl in Heq. subst c. apply elem_of_map_to_list in Hin.
    destruct (Hopen stream ch Hin) as (cs & -> & _). done.
  - rewrite <- Hother; [done|]. intros stream Hreg. apply Hunreg.
    apply list_elem_of_fmap. exists (stream, ch). split; [done|].
    by apply elem_of_map_to_list.
Qed.

(** X2. Every state a client reaches has a well-formed registry: each
    registered channel is allocated and open, and no two stream keys
    share a channel. *)
Lemma reachable_wf w : reachable Unmarshal w -> wf w.
Proof.
  induction 1 as [bs | w ok _ IH | w ok streams _ IH | w stream n _ IH
                 | w ch _ IH | w message w' _ IH Hrun
                 | w fuel ok order writes w' _ IH Hrun | w w' _ IH Hrun].
  - apply wf_new.
  - apply (wf_same w); try done; by destruct ok.
  - apply (wf_same w); try done; unfold subscribeStreams;
      by destruct (conn (client w)).
  - by apply wf_add.
  - by apply wf_receive.
  - by eapply wf_message.
  - apply handleReconnect_frame in Hrun as (? & ? & ?). by apply (wf_same w).
  - by eapply wf_close.
Qed.

End Dispatch.

Section DispatchScenario.
Import go market registry.

(** A new client with one subscriber. *)
Lemma reachable_wf_witness :
  wf (AddSubscriber "btcusdt@kline_1m" 10 (NewCombinedStreamsClient 2)).1.
Proof.
  apply (reachable_wf (fun _ => None)). apply reach_add, reach_new.
Defined.


End DispatchScenario.

Section BatchingScenario.
Import go market batching.

(** Three symbols in batches of two; and the same three with a zero batch
    size, still looping after a hundred iterations. *)
Lemma splitIntoBatches_witness :
  let symbols := ["BTCUSDT"; "ETHUSDT"; "SOLUSDT"] in
  splitIntoBatches 4 symbols 2 = Some (Done [["BTCUSDT"; "ETHUSDT"]; ["SOLUSDT"]])
  /\ splitIntoBatches 100 symbols 0 = None.
Proof.
  intros symbols.
  destruct (splitIntoBatches_terminates_iff_positive symbols) as [Hpos Hzero].
  split.
  - destruct (Hpos 2 ltac:(lia) ltac:(vm_compute; reflexivity))
      as (batches & Hrun & _).
    rewrite (Hrun 4%nat ltac:(simpl; lia)).
    specialize (Hrun 4%nat ltac:(simpl; lia)). vm_compute in Hrun.
    by injection Hrun as <-.
  - apply Hzero. discriminate.
Defined.

End BatchingScenario.

Section CloseScenario.
Import go market registry.

(** A connected client with one subscriber: the first [Close] closes the
    socket and the channel and empties the registry; the second panics. *)
Lemma Close_twice_panics_witness :
  let w0 := (AddSubscriber "btcusdt@kline_1m" 8
               (Connect true (NewCombinedStreamsClient 50)).1).1 in
  exists w',
    Close w0 = Done w'
    /\ subscribers (client w') = ∅
    /\ closed <$> chans w' !! 0%nat = Some true
    /\ socketCloses 0 (trace w') = 1%nat
    /\ Close w' = Panic "close of closed channel".
Proof.
  intros w0.
  assert (Hwf : wf w0) by (apply wf_add, (wf_same (NewCombinedStreamsClient 50));
                           try done; apply wf_new).
  destruct (Close_first w0 Hwf eq_refl)
    as (w' & Hrun & Hsub & _ & _ & _ & Hclosed & _ & Htrace).
  exists w'. split; [exact Hrun|]. split; [exact Hsub|].
  split; [|split].
  - destruct (Hclosed "btcusdt@kline_1m" 0%nat eq_refl) as (cs & _ & _ & ->). done.
  - rewrite Htrace. reflexivity.
  - exact (Close_twice_panics w0 w' Hrun).
Defined.

End CloseScenario.

(** ** More on primitive floats: finiteness, NaN propagation *)

Section PrimFloatMore.
Import f64.
#[local] Open Scope float_scope.

Lemma Prim2SF_infinity : Prim2SF infinity = S754_infinity false.
Proof. reflexivity. Qed.

Lemma is_infinity_spec x :
  is_infinity x = match Prim2SF x with S754_infinity _ => true | _ => false end.
Proof.
  unfold is_infinity. rewrite FloatAxioms.eqb_spec, abs_spec, Prim2SF_infinity.
  destruct (Prim2SF x) as [s|s| |s m e]; try done.
Qed.

Lemma is_finite_spec x :
  is_finite x = match Prim2SF x with
                | S754_zero _ | S754_finite _ _ _ => true
                | _ => false
                end.
Proof.
  unfold is_finite. rewrite is_infinity_spec.
  destruct (is_nan x) eqn:Hn.
  - apply is_nan_spec in Hn. by rewrite Hn.
  - apply is_nan_false in Hn. by destruct (Prim2SF x).
Qed.

(** A positive finite float is a positive finite number. *)
Lemma positive_finite_number x :
  (0 <? x) = true -> is_finite x = true -> SFnumber false (Prim2SF x) = true.
Proof.
  rewrite ltb_zero_l, is_finite_spec. by destruct (Prim2SF x).
Qed.

Lemma SFnumber_inv s x :
  SFnumber s x = true -> exists m e, x = S754_finite s m e.
Proof.
  destruct x as [| | |s' m e]; try done. simpl. intros H%eqb_prop. subst. eauto.
Qed.

Lemma is_nan_div_l x y : is_nan x = true -> is_nan (x / y) = true.
Proof.
  rewrite !is_nan_spec, div_spec. by intros ->.
Qed.

Lemma is_nan_div_r x y : is_nan y = true -> is_nan (x / y) = true.
Proof.
  rewrite !is_nan_spec, div_spec. intros ->. by destruct (Prim2SF x).
Qed.

Lemma is_nan_mul_l x y : is_nan x = true -> is_nan (x * y) = true.
Proof.
  rewrite !is_nan_spec, mul_spec. by intros ->.
Qed.

Lemma is_nan_mul_r x y : is_nan y = true -> is_nan (x * y) = true.
Proof.
  rewrite !is_nan_spec, mul_spec. intros ->. by destruct (Prim2SF x).
Qed.

Lemma is_nan_zero_div_zero : is_nan (0 / 0) = true.
Proof. reflexivity. Qed.

(** Zero minus a positive number is its opposite, and adding the number
    back gives exactly [+0]. *)
Lemma zero_sub_number x m e :
  Prim2SF x = S754_finite false m e -> Prim2SF (0 - x) = S754_finite true m e.
Proof. intros Hx. by rewrite sub_spec, Hx, Prim2SF_zero. Qed.

Lemma zero_sub_add_back x :
  SFnumber false (Prim2SF x) = true -> 0 - x + x = 0.
Proof.
  intros (m & e & Hx)%SFnumber_inv. apply Prim2SF_inj.
  rewrite add_spec, (zero_sub_number x m e Hx), Hx, Prim2SF_zero.
  unfold SF64add, SFadd. rewrite Z.min_id. unfold shl_align. rewrite Z.sub_diag.
  cbn [fst cond_Zopp]. by rewrite Z.add_opp_diag_l.
Qed.

(** The opposite of a positive number is below any positive number. *)
Lemma zero_sub_leb x y :
  SFnumber false (Prim2SF x) = true -> (0 <? y) = true -> (0 - x <=? y) = true.
Proof.
  intros (m & e & Hx)%SFnumber_inv. rewrite ltb_zero_l, FloatAxioms.leb_spec.
  rewrite (zero_sub_number x m e Hx).
  destruct (Prim2SF y) as [s|s| |s my ey]; try done; by destruct s.
Qed.

End PrimFloatMore.

(** ** A closing fill on an empty accumulator *)

Section ClosingFirst.
Import go trader api f64.
#[local] Open Scope float_scope.

Lemma setPos_getPos side pos st : getPos side (setPos side pos st) = pos.
Proof. by destruct side. Qed.

Lemma analysis_setPos side pos st : analysis (setPos side pos st) = analysis st.
Proof. by destruct side. Qed.

(** C9 (as the code behaves). When the first fill an accumulator sees is a
    closing fill of positive finite quantity, the running quantity drops
    to [-Qty <= 0.0001] and an outcome is emitted at once. Its quantity is
    exactly [0]; its open price is [0/0], a NaN, and so are the position
    value, the margin and the PnL percentage, which is computed as
    [PnL / MarginUsed * 100] with no guard. The accumulator is reset. *)
Theorem closing_first_fill_outcome (symbol : string) (st : symbolState)
  (trade : Trade) (side : posSide) :
  selectPos trade = Some side ->
  isOpening trade = false ->
  getPos side st = zeroPosition ->
  (0 <? Qty trade) = true ->
  is_finite (Qty trade) = true ->
  exists o,
    processTrade symbol st trade
    = setPos side zeroPosition
        (mkState (longPos st) (shortPos st) (recordOutcome symbol o (analysis st)))
    /\ (totalQty (closeFill trade zeroPosition) <=? epsilon) = true
    /\ TradeOutcome.Quantity o = 0
    /\ is_nan (TradeOutcome.OpenPrice o) = true
    /\ is_nan (TradeOutcome.PositionValue o) = true
    /\ is_nan (TradeOutcome.MarginUsed o) = true
    /\ TradeOutcome.PnL o = 0 + RealizedPnl trade - (0 + Commission trade)
    /\ TradeOutcome.PnLPct o
       = TradeOutcome.PnL o / TradeOutcome.MarginUsed o * 100
    /\ is_nan (TradeOutcome.PnLPct o) = true.
Proof.
  intros Hsel Hclose Hfresh Hpos Hfin.
  pose proof (positive_finite_number _ Hpos Hfin) as Hnum.
  assert (Hle : (0 - Qty trade <=? epsilon) = true) by (by apply zero_sub_leb).
  exists (makeOutcome symbol trade (closeFill trade zeroPosition)).
  unfold processTrade. rewrite Hsel, Hclose, Hfresh.
  unfold fullyClosed. cbn [closeFill totalQty tradeCount zeroPosition].
  rewrite Hle. cbn [andb]. change (0 <? wrap64 (0 + 1))%Z with true. cbv iota.
  split; [done|]. split; [done|].
  unfold makeOutcome.
  cbn [closeFill totalQty totalCost realizedPnl commission openTime zeroPosition
       TradeOutcome.Quantity TradeOutcome.OpenPrice TradeOutcome.PositionValue
       TradeOutcome.MarginUsed TradeOutcome.PnL TradeOutcome.PnLPct].
  rewrite (zero_sub_add_back _ Hnum).
  assert (Hm : is_nan (0 / 0 * 0 / float64_of_int leverage) = true)
    by (apply is_nan_div_l, is_nan_mul_l, is_nan_zero_div_zero).
  repeat split; try done.
  by apply is_nan_mul_l, is_nan_div_r.
Qed.

End ClosingFirst.

Section ClosingFirstScenario.
Import go trader api.
#[local] Open Scope float_scope.

(** The claimed zeros do not occur: for a lone closing LONG fill the open
    price, the position value and the margin are NaN, none of them is 0. *)
Lemma closing_first_fill_not_zero :
  let trade := mkTrade "SELL" "LONG" 110 1 10 0.2 1700000000000 in
  exists o,
    PerformanceAnalysis.RecentTrades (reconstruct [("BTCUSDT", [trade])]) = [o]
    /\ (TradeOutcome.OpenPrice o =? 0) = false
    /\ (TradeOutcome.PositionValue o =? 0) = false
    /\ (TradeOutcome.MarginUsed o =? 0) = false
    /\ is_nan (TradeOutcome.MarginUsed o) = true.
Proof.
  intros trade. eexists. split; [vm_compute; reflexivity|].
  repeat split.
Qed.

Lemma closing_first_fill_outcome_witness :
  let trade := mkTrade "SELL" "LONG" 110 1 10 0.2 1700000000000 in
  let st := mkState zeroPosition zeroPosition emptyAnalysis in
  exists o,
    PerformanceAnalysis.RecentTrades (analysis (processTrade "BTCUSDT" st trade)) = [o]
    /\ TradeOutcome.Quantity o = 0
    /\ is_nan (TradeOutcome.OpenPrice o) = true
    /\ is_nan (TradeOutcome.MarginUsed o) = true
    /\ is_nan (TradeOutcome.PnLPct o) = true.
Proof.
  intros trade st.
  destruct (closing_first_fill_outcome "BTCUSDT" st trade Long
              eq_refl eq_refl eq_refl eq_refl eq_refl)
    as (o & Hrun & _ & Hq & Hop & _ & Hm & _ & _ & Hpct).
  exists o. rewrite Hrun. repeat split; assumption.
Defined.

End ClosingFirstScenario.

(** ** The round trip of the specification: open 1@100, close 1@110 *)

Section RoundTrip.
Import go trader api scenario.
#[local] Open Scope float_scope.

(** C3 (as the code behaves). The scenario yields exactly one outcome
    with open price 100, close price 110, position value 100, margin 20
    and PnL 9.8 (the binary64 nearest to it). The PnL percentage is the
    binary64 result of [9.8 / 20 * 100], which is
    [49.000000000000007], one unit in the last place above 49. *)
Theorem scenario_round_trip (symbol : string) (t0 t1 : Z) (pnl0 fee0 : float) :
  exists o,
    PerformanceAnalysis.RecentTrades
      (reconstruct [(symbol, [scenarioOpen t0 pnl0 fee0; scenarioClose t1])]) = [o]
    /\ TradeOutcome.Symbol o = symbol
    /\ TradeOutcome.Side o = "long"
    /\ TradeOutcome.Quantity o = 1
    /\ TradeOutcome.Leverage o = 5%Z
    /\ TradeOutcome.OpenPrice o = 100
    /\ TradeOutcome.ClosePrice o = 110
    /\ TradeOutcome.PositionValue o = 100
    /\ TradeOutcome.MarginUsed o = 20
    /\ TradeOutcome.PnL o = 9.8
    /\ TradeOutcome.PnLPct o = 49.000000000000007
    /\ TradeOutcome.PnLPct o = next_up 49
    /\ (49 <? TradeOutcome.PnLPct o) = true
    /\ (TradeOutcome.PnLPct o - 49 <? 1e-14) = true.
Proof.
  eexists. split; [reflexivity|]. repeat split.
Qed.

(** The PnL percentage of the scenario is not 49.0. *)
Lemma scenario_pnl_pct_is_not_49 :
  exists o,
    PerformanceAnalysis.RecentTrades
      (reconstruct [("BTCUSDT", [scenarioOpen 1700000000000 0 0.1;
                                 scenarioClose 1700000060000])]) = [o]
    /\ TradeOutcome.MarginUsed o = 20
    /\ TradeOutcome.PnL o = 9.8
    /\ (TradeOutcome.PnLPct o =? 49.0) = false
    /\ TradeOutcome.PnLPct o <> 49.0.
Proof.
  eexists. split; [reflexivity|]. repeat split.
  intros H. apply (f_equal (fun x => x =? 49.0)) in H. vm_compute in H. discriminate.
Qed.

End RoundTrip.

(** ** The running totals of the reconstruction *)

Section Totals.
Import go trader api f64 stats.
#[local] Open Scope float_scope.

Lemma wrap64_succ (n : Z) : wrap64 (wrap64 n + 1) = wrap64 (n + 1).
Proof.
  unfold wrap64.
  replace ((n + 2 ^ 63) mod 2 ^ 64 - 2 ^ 63 + 1 + 2 ^ 63)%Z
    with ((n + 2 ^ 63) mod 2 ^ 64 + 1)%Z by lia.
  rewrite Z.add_mod_idemp_l by lia. f_equal. f_equal. lia.
Qed.

Lemma len_snoc {A : Type} (l : list A) (x : A) : len (l ++ [x]) = (len l + 1)%Z.
Proof. unfold len. rewrite length_app. simpl. lia. Qed.

(** A PnL is not both positive and negative. *)
Lemma win_not_loss o : isWin o = true -> isLoss o = false.
Proof.
  unfold isWin, isLoss. rewrite ltb_zero_l, ltb_zero_r.
  destruct (Prim2SF (TradeOutcome.PnL o)) as [s|s| |s m e]; try done; by destruct s.
Qed.

Lemma sumPnL_snoc l o : sumPnL (l ++ [o]) = sumPnL l + TradeOutcome.PnL o.
Proof. unfold sumPnL. by rewrite fold_left_app. Qed.

Lemma filter_snoc {A : Type} (f : A -> bool) (l : list A) (x : A) :
  List.filter f (l ++ [x]) = List.filter f l ++ (if f x then [x] else []).
Proof. by rewrite List.filter_app. Qed.

Lemma totalsOk_empty : totalsOk emptyAnalysis.
Proof. repeat split. Qed.

Lemma symbolTotals_snoc symbol l o :
  symbolTotals symbol (l ++ [o])
  = Some (SymbolPerformance.mk symbol (wrap64 (len l + 1))
            (wrap64 (len (wins l) + (if isWin o then 1 else 0)))
            (wrap64 (len (losses l) + (if isLoss o then 1 else 0)))
            0 (sumPnL l + TradeOutcome.PnL o) 0).
Proof.
  unfold symbolTotals. destruct (l ++ [o]) eqn:Hl; [by destruct l|].
  rewrite <- Hl. unfold wins, losses.
  rewrite !filter_snoc, sumPnL_snoc, len_snoc.
  destruct (isWin o), (isLoss o); rewrite ?len_snoc, ?app_nil_r, ?Z.add_0_r; done.
Qed.

(** Recording an outcome keeps the totals in step with the list. *)
Lemma recordOutcome_totals symbol o a :
  TradeOutcome.Symbol o = symbol ->
  totalsOk a -> totalsOk (recordOutcome symbol o a).
Proof.
  intros Hsym (Ht & Hw & Hl & Haw & Hal & Hwr & Hpf & Hsr & Hstats).
  unfold totalsOk, recordOutcome.
  cbn [PerformanceAnalysis.RecentTrades PerformanceAnalysis.TotalTrades
       PerformanceAnalysis.WinningTrades PerformanceAnalysis.LosingTrades
       PerformanceAnalysis.AvgWin PerformanceAnalysis.AvgLoss
       PerformanceAnalysis.WinRate PerformanceAnalysis.ProfitFactor
       PerformanceAnalysis.SharpeRatio PerformanceAnalysis.SymbolStats].
  unfold wins, losses in *. rewrite !filter_snoc.
  fold (isWin o). fold (isLoss o).
  rewrite Ht, Hw, Hl, Haw, Hal, len_snoc, wrap64_succ.
  split; [done|].
  destruct (isWin o) eqn:Hwin.
  - rewrite (win_not_loss o Hwin). cbn [negb andb].
    rewrite !len_snoc, !sumPnL_snoc, !app_nil_r, wrap64_succ.
    repeat (split; [done|]).
    intros symbol'. unfold updateSymbolStats. fold (isWin o). rewrite Hwin.
    destruct (String.eqb_spec symbol symbol') as [<-|Hne].
    + rewrite lookup_insert_eq. unfold ofSymbol. rewrite filter_snoc, Hsym, String.eqb_refl.
      fold (ofSymbol symbol (PerformanceAnalysis.RecentTrades a)).
      rewrite symbolTotals_snoc, Hwin, (win_not_loss o Hwin), Hstats.
      unfold symbolTotals.
      destruct (ofSymbol symbol (PerformanceAnalysis.RecentTrades a)) eqn:Hof.
      * cbn. rewrite Z.add_0_r. done.
      * cbn [SymbolPerformance.Symbol SymbolPerformance.TotalTrades
             SymbolPerformance.WinningTrades SymbolPerformance.LosingTrades
             SymbolPerformance.WinRate SymbolPerformance.TotalPnL
             SymbolPerformance.AvgPnL].
        by rewrite !wrap64_succ, Z.add_0_r.
    + rewrite lookup_insert_ne by done. rewrite Hstats. f_equal.
      unfold ofSymbol. rewrite filter_snoc, Hsym.
      destruct (String.eqb_spec symbol symbol'); [done|]. by rewrite app_nil_r.
  - cbn [negb andb]. destruct (isLoss o) eqn:Hloss.
    + rewrite !len_snoc, !sumPnL_snoc, !app_nil_r, wrap64_succ.
      repeat (split; [done|]).
      intros symbol'. unfold updateSymbolStats. fold (isWin o). fold (isLoss o).
      rewrite Hwin, Hloss.
      destruct (String.eqb_spec symbol symbol') as [<-|Hne].
      * rewrite lookup_insert_eq. unfold ofSymbol. rewrite filter_snoc, Hsym, String.eqb_refl.
        fold (ofSymbol symbol (PerformanceAnalysis.RecentTrades a)).
        rewrite symbolTotals_snoc, Hwin, Hloss, Hstats.
        unfold symbolTotals.
        destruct (ofSymbol symbol (PerformanceAnalysis.RecentTrades a)) eqn:Hof.
        -- cbn. rewrite Z.add_0_r. done.
        -- cbn [SymbolPerformance.Symbol SymbolPerformance.TotalTrades
                SymbolPerformance.WinningTrades SymbolPerformance.LosingTrades
                SymbolPerformance.WinRate SymbolPerformance.TotalPnL
                SymbolPerformance.AvgPnL].
           by rewrite !wrap64_succ, Z.add_0_r.
      * rewrite lookup_insert_ne by done. rewrite Hstats. f_equal.
        unfold ofSymbol. rewrite filter_snoc, Hsym.
        destruct (String.eqb_spec symbol symbol'); [done|]. by rewrite app_nil_r.
    + rewrite !app_nil_r.
      repeat (split; [done|]).
      intros symbol'. unfold updateSymbolStats. fold (isWin o). fold (isLoss o).
      rewrite Hwin, Hloss.
      destruct (String.eqb_spec symbol symbol') as [<-|Hne].
      * rewrite lookup_insert_eq. unfold ofSymbol. rewrite filter_snoc, Hsym, String.eqb_refl.
        fold (ofSymbol symbol (PerformanceAnalysis.RecentTrades a)).
        rewrite symbolTotals_snoc, Hwin, Hloss, Hstats.
        unfold symbolTotals.
        destruct (ofSymbol symbol (PerformanceAnalysis.RecentTrades a)) eqn:Hof.
        -- cbn. rewrite !Z.add_0_r. done.
        -- cbn [SymbolPerformance.Symbol SymbolPerformance.TotalTrades
                SymbolPerformance.WinningTrades SymbolPerformance.LosingTrades
                SymbolPerformance.WinRate SymbolPerformance.TotalPnL
                SymbolPerformance.AvgPnL].
           by rewrite !wrap64_succ, !Z.add_0_r.
      * rewrite lookup_insert_ne by done. rewrite Hstats. f_equal.
        unfold ofSymbol. rewrite filter_snoc, Hsym.
        destruct (String.eqb_spec symbol symbol'); [done|]. by rewrite app_nil_r.
Qed.

End Totals.

(** ** Conversion of counters to binary64 *)

Section IntToFloat.
Import go f64.

Lemma pos_iter_xO_value (p k : positive) :
  Z.pos (Pos.iter xO p k) = Z.pos p * 2 ^ Z.pos k.
Proof.
  induction k as [|k IH] using Pos.peano_ind.
  - simpl. lia.
  - rewrite Pos.iter_succ, Pos2Z.inj_xO, IH, Pos2Z.inj_succ, Z.pow_succ_r by lia. lia.
Qed.

Lemma digits2_pos_iter_xO (p k : positive) :
  Z.pos (digits2_pos (Pos.iter xO p k)) = Z.pos (digits2_pos p) + Z.pos k.
Proof.
  induction k as [|k IH] using Pos.peano_ind.
  - simpl. lia.
  - rewrite Pos.iter_succ. simpl digits2_pos. rewrite Pos2Z.inj_succ, IH. lia.
Qed.

(** A canonical mantissa goes through [binary_round_aux] unchanged. *)
Lemma binary_round_aux_canonical (s : bool) (m : positive) (e : Z) :
  fexp prec emax (Z.pos (digits2_pos m) + e) = e -> e <= 971 ->
  binary_round_aux prec emax s (Z.pos m) e loc_Exact = S754_finite s m e.
Proof.
  intros Hcan He. unfold binary_round_aux, shr_fexp. cbn [Zdigits2 shr_record_of_loc].
  rewrite Hcan, Z.sub_diag. cbn [shr shr_m loc_of_shr_record round_nearest_even Zdigits2].
  rewrite Hcan, Z.sub_diag. cbn [shr shr_m].
  destruct (Z.leb_spec e (emax - prec)); [done|]. unfold emax, prec in *. lia.
Qed.

(** [binary_round] of a mantissa that fits in 53 bits is exact: the
    mantissa is shifted left to 53 digits. *)
Lemma binary_round_exact (s : bool) (p : positive) (e : Z) :
  Z.pos (digits2_pos p) <= 53 -> -1021 <= e <= 971 ->
  exists m,
    binary_round prec emax s p e
    = S754_finite s m (Z.pos (digits2_pos p) + e - 53)
    /\ Z.pos m = Z.pos p * 2 ^ (53 - Z.pos (digits2_pos p))
    /\ Z.pos (digits2_pos m) = 53.
Proof.
  intros Hd He. unfold binary_round. rewrite fexp_eq.
  set (d := Z.pos (digits2_pos p)) in *.
  rewrite Z.max_l by lia. unfold shl_align.
  destruct (d + e - 53 - e) as [|k|k] eqn:Hk; try lia.
  - exists p. assert (d = 53) by lia.
    rewrite binary_round_aux_canonical.
    + split; [f_equal; lia|]. split; [|done]. replace (53 - d) with 0 by lia. lia.
    + fold d. rewrite fexp_eq. lia.
    + lia.
  - exists (Pos.iter xO p k).
    assert (Hkd : Z.pos k = 53 - d) by lia.
    rewrite binary_round_aux_canonical.
    + split; [done|]. rewrite pos_iter_xO_value, digits2_pos_iter_xO. fold d.
      rewrite Hkd. split; [done|lia].
    + rewrite digits2_pos_iter_xO. fold d. rewrite fexp_eq. lia.
    + lia.
Qed.

End IntToFloat.

(** ** Rounding to a normal number *)

Section NormalRounding.
Import go f64.

Lemma Zdigits2_53 (m : Z) : 2 ^ 52 <= m < 2 ^ 53 -> Zdigits2 m = 53.
Proof.
  intros [Hlo Hhi].
  pose proof (Zdigits2_le m 53 ltac:(lia) Hhi).
  pose proof (Zdigits2_ge m 52 ltac:(lia) Hlo). lia.
Qed.

Lemma digits2_pos_53 (m : positive) :
  2 ^ 52 <= Z.pos m < 2 ^ 53 -> Z.pos (digits2_pos m) = 53.
Proof. apply (Zdigits2_53 (Z.pos m)). Qed.

(** The leading 53 digits of a mantissa of [d >= 53] digits. *)
Lemma leading_digits_bounds (m : Z) :
  2 ^ 52 <= m ->
  2 ^ 52 <= m / 2 ^ (Zdigits2 m - 53) < 2 ^ 53.
Proof.
  intros Hm. assert (Hpos : 0 < m) by lia.
  pose proof (Zdigits2_ge m 52 ltac:(lia) Hm) as Hd.
  destruct (Zdigits2_bounds m Hpos) as [Hlo Hhi].
  set (d := Zdigits2 m) in *.
  assert (Hk : 0 < 2 ^ (d - 53)) by (apply Z.pow_pos_nonneg; lia).
  assert (H1 : 2 ^ (d - 1) = 2 ^ 52 * 2 ^ (d - 53)).
  { rewrite <- Z.pow_add_r by lia. f_equal. lia. }
  assert (H2 : 2 ^ d = 2 ^ 53 * 2 ^ (d - 53)).
  { rewrite <- Z.pow_add_r by lia. f_equal. lia. }
  split.
  - apply Z.div_le_lower_bound; [done|]. lia.
  - apply Z.div_lt_upper_bound; [done|]. lia.
Qed.

(** Rounding a mantissa of at least 53 digits, away from the subnormal
    and overflow ranges: the result is a normal number whose exponent is
    that of the leading 53 digits, the mantissa being those digits or
    one more; or, when the rounding carries, the next power of two. *)
Lemma binary_round_aux_normal (s : bool) (m e : Z) (l : location) :
  2 ^ 52 <= m -> -1074 <= e -> e + (Zdigits2 m - 53) < 971 ->
  exists (mq : positive) (eq : Z),
    binary_round_aux prec emax s m e l = S754_finite s mq eq
    /\ 2 ^ 52 <= Z.pos mq < 2 ^ 53
    /\ ((eq = e + (Zdigits2 m - 53)
         /\ m / 2 ^ (Zdigits2 m - 53) <= Z.pos mq <= m / 2 ^ (Zdigits2 m - 53) + 1)
        \/ (eq = e + (Zdigits2 m - 53) + 1 /\ Z.pos mq = 2 ^ 52
            /\ m / 2 ^ (Zdigits2 m - 53) = 2 ^ 53 - 1)).
Proof.
  intros Hm He Hmax.
  pose proof (Zdigits2_ge m 52 ltac:(lia) Hm) as Hd.
  pose proof (leading_digits_bounds m Hm) as Hlead.
  destruct (binary_round_aux_arith s m e l) as (m1' & Hb & ->); [lia|].
  cbv zeta in *. rewrite !fexp_eq in *.
  set (d := Zdigits2 m) in *.
  replace (Z.max 0 (Z.max (d + e - 53) (-1074) - e)) with (d - 53) in * by lia.
  set (m1 := m / 2 ^ (d - 53)) in *.
  destruct (Z.eq_dec m1' (2 ^ 53)) as [Hcarry|Hno].
  - rewrite Hcarry. change (Zdigits2 (2 ^ 53)) with 54.
    replace (Z.max 0 (Z.max (54 + (e + (d - 53)) - 53) (-1074) - (e + (d - 53))))
      with 1 by lia.
    change (2 ^ 53 / 2 ^ 1) with (Z.pos 4503599627370496).
    cbv iota.
    destruct (Z.leb_spec (e + (d - 53) + 1) (emax - prec)) as [_|Hbad];
      [|unfold emax, prec in Hbad; lia].
    eexists _, _. split; [done|]. split; [lia|]. right.
    split; [done|]. split; [done|]. subst m1. lia.
  - assert (Hm1' : 2 ^ 52 <= m1' < 2 ^ 53) by lia.
    rewrite (Zdigits2_53 m1' Hm1').
    replace (Z.max 0 (Z.max (53 + (e + (d - 53)) - 53) (-1074) - (e + (d - 53))))
      with 0 by lia.
    rewrite Z.div_1_r.
    destruct m1' as [|mq|mq]; try lia.
    rewrite Z.add_0_r.
    destruct (Z.leb_spec (e + (d - 53)) (emax - prec)) as [_|Hbad];
      [|unfold emax, prec in Hbad; lia].
    exists mq, (e + (d - 53)). split; [done|]. split; [done|]. left. done.
Qed.

End NormalRounding.

(** ** Exact rounding: what the shifted-out bits decide *)

Section ExactRounding.
Import go f64 rounding.

Lemma shr_1_fields (r : shr_record) :
  0 <= shr_m r ->
  shr_r (shr_1 r) = Z.odd (shr_m r) /\ shr_s (shr_1 r) = shr_r r || shr_s r.
Proof.
  destruct r as [m rb sb]. cbn [shr_m]. intros Hm.
  destruct m as [|[p|p|]|p]; cbn; try done; lia.
Qed.

(** The state of the shift register after [j + 1] steps. *)
Lemma shr_iter_fields (m : Z) (j : nat) :
  0 <= m ->
  let r := Nat.iter (S j) shr_1 (Build_shr_record m false false) in
  shr_m r = m / 2 ^ Z.of_nat (S j)
  /\ shr_r r = Z.odd (m / 2 ^ Z.of_nat j)
  /\ shr_s r = negb (m mod 2 ^ Z.of_nat j =? 0).
Proof.
  intros Hm. induction j as [|j IH].
  - cbv zeta.
    change (Nat.iter 1 shr_1 (Build_shr_record m false false))
      with (shr_1 (Build_shr_record m false false)).
    destruct (shr_1_fields (Build_shr_record m false false) Hm) as [Hr Hs].
    rewrite shr_1_m by done. cbn [shr_m shr_r shr_s] in *.
    rewrite Hr, Hs. change (2 ^ Z.of_nat 0) with 1. change (2 ^ Z.of_nat 1) with 2.
    by rewrite Z.div_1_r, Z.mod_1_r.
  - cbv zeta in *. destruct IH as (IHm & IHr & IHs).
    set (r := Nat.iter (S j) shr_1 (Build_shr_record m false false)) in *.
    change (Nat.iter (S (S j)) shr_1 (Build_shr_record m false false)) with (shr_1 r).
    assert (Hrm : 0 <= shr_m r).
    { rewrite IHm. apply Z.div_pos; [done|]. apply Z.pow_pos_nonneg; lia. }
    destruct (shr_1_fields r Hrm) as [Hr Hs].
    rewrite shr_1_m, Hr, Hs, IHm, IHr, IHs by done.
    assert (Hp : 0 < 2 ^ Z.of_nat j) by (apply Z.pow_pos_nonneg; lia).
    assert (Hpow : 2 ^ Z.of_nat (S j) = 2 ^ Z.of_nat j * 2).
    { rewrite Nat2Z.inj_succ, Z.pow_succ_r by lia. lia. }
    split; [|split; [done|]].
    + rewrite Z.div_div by lia. f_equal.
      rewrite (Nat2Z.inj_succ (S j)), Z.pow_succ_r by lia. lia.
    + rewrite Hpow, Z.rem_mul_r by lia.
      pose proof (Z.mod_pos_bound m (2 ^ Z.of_nat j) Hp) as Hb1.
      pose proof (Z.mod_pos_bound (m / 2 ^ Z.of_nat j) 2 ltac:(lia)) as Hb2.
      rewrite Zodd_mod.
      destruct (Z.eqb_spec ((m / 2 ^ Z.of_nat j) mod 2) 1) as [H1|H1];
        destruct (Z.eqb_spec (m mod 2 ^ Z.of_nat j) 0) as [H0|H0];
        destruct (Z.eqb_spec (m mod 2 ^ Z.of_nat j
                              + 2 ^ Z.of_nat j * ((m / 2 ^ Z.of_nat j) mod 2)) 0)
          as [H2|H2]; try done; exfalso; nia.
Qed.

(** Rounding after a right shift by [k] is [rne]. *)
Lemma shr_rne (m e k : Z) :
  0 <= m ->
  let mrs := (shr (Build_shr_record m false false) e k).1 in
  round_nearest_even (shr_m mrs) (loc_of_shr_record mrs) = rne m (Z.max 0 k).
Proof.
  intros Hm. unfold shr. destruct k as [|p|p]; cbn [fst].
  - unfold rne. cbn. rewrite Z.div_1_r, Z.mod_1_r. done.
  - rewrite iter_pos_nat.
    destruct (Pos2Nat.is_succ p) as [j Hj]. rewrite Hj.
    destruct (shr_iter_fields m j Hm) as (Hmm & Hr & Hs). cbv zeta in *.
    set (r := Nat.iter (S j) shr_1 (Build_shr_record m false false)) in *.
    replace (Z.max 0 (Z.pos p)) with (Z.of_nat (S j)) by lia.
    assert (Hp : 0 < 2 ^ Z.of_nat j) by (apply Z.pow_pos_nonneg; lia).
    assert (Hpow : 2 ^ Z.of_nat (S j) = 2 ^ Z.of_nat j * 2).
    { rewrite Nat2Z.inj_succ, Z.pow_succ_r by lia. lia. }
    unfold rne. rewrite <- Hmm. rewrite Hpow, Z.rem_mul_r by lia.
    pose proof (Z.mod_pos_bound m (2 ^ Z.of_nat j) Hp) as Hb1.
    pose proof (Z.mod_pos_bound (m / 2 ^ Z.of_nat j) 2 ltac:(lia)) as Hb2.
    rewrite Zodd_mod in Hr.
    destruct r as [rm rr rs]. cbn [shr_m shr_r shr_s] in *. subst rr rs.
    destruct (Z.eqb_spec ((m / 2 ^ Z.of_nat j) mod 2) 1) as [H1|H1];
      destruct (Z.eqb_spec (m mod 2 ^ Z.of_nat j) 0) as [H0|H0];
      cbn [negb loc_of_shr_record round_nearest_even].
    + destruct (Z.ltb_spec (2 * (m mod 2 ^ Z.of_nat j + 2 ^ Z.of_nat j * ((m / 2 ^ Z.of_nat j) mod 2)))
                  (2 ^ Z.of_nat j * 2)); [nia|].
      destruct (Z.ltb_spec (2 ^ Z.of_nat j * 2)
                  (2 * (m mod 2 ^ Z.of_nat j + 2 ^ Z.of_nat j * ((m / 2 ^ Z.of_nat j) mod 2))));
        [nia|done].
    + destruct (Z.ltb_spec (2 * (m mod 2 ^ Z.of_nat j + 2 ^ Z.of_nat j * ((m / 2 ^ Z.of_nat j) mod 2)))
                  (2 ^ Z.of_nat j * 2)); [nia|].
      destruct (Z.ltb_spec (2 ^ Z.of_nat j * 2)
                  (2 * (m mod 2 ^ Z.of_nat j + 2 ^ Z.of_nat j * ((m / 2 ^ Z.of_nat j) mod 2))));
        [done|nia].
    + destruct (Z.ltb_spec (2 * (m mod 2 ^ Z.of_nat j + 2 ^ Z.of_nat j * ((m / 2 ^ Z.of_nat j) mod 2)))
                  (2 ^ Z.of_nat j * 2)); [done|nia].
    + destruct (Z.ltb_spec (2 * (m mod 2 ^ Z.of_nat j + 2 ^ Z.of_nat j * ((m / 2 ^ Z.of_nat j) mod 2)))
                  (2 ^ Z.of_nat j * 2)); [done|nia].
  - unfold rne. cbn. rewrite Z.div_1_r, Z.mod_1_r. done.
Qed.

(** [rne] is monotone in the number rounded. *)
Lemma rne_mono (m m' k : Z) : 0 <= k -> m <= m' -> rne m k <= rne m' k.
Proof.
  intros Hk Hle. unfold rne.
  assert (Hp : 0 < 2 ^ k) by (apply Z.pow_pos_nonneg; lia).
  pose proof (Z.div_mod m (2 ^ k) ltac:(lia)) as Hm.
  pose proof (Z.div_mod m' (2 ^ k) ltac:(lia)) as Hm'.
  pose proof (Z.mod_pos_bound m (2 ^ k) Hp) as Hb.
  pose proof (Z.mod_pos_bound m' (2 ^ k) Hp) as Hb'.
  set (q := m / 2 ^ k) in *. set (q' := m' / 2 ^ k) in *.
  set (r := m mod 2 ^ k) in *. set (r' := m' mod 2 ^ k) in *.
  assert (Hq : q <= q') by (subst q q'; apply Z.div_le_mono; lia).
  destruct (Z.eq_dec q q') as [Heq|Hne].
  - rewrite <- Heq in *. assert (r <= r') by lia.
    destruct (Z.ltb_spec (2 * r) (2 ^ k)), (Z.ltb_spec (2 * r') (2 ^ k)),
      (Z.ltb_spec (2 ^ k) (2 * r)), (Z.ltb_spec (2 ^ k) (2 * r'));
      destruct (Z.even q); lia.
  - assert (q + 1 <= q') by lia.
    destruct (Z.ltb_spec (2 * r) (2 ^ k)), (Z.ltb_spec (2 * r') (2 ^ k)),
      (Z.ltb_spec (2 ^ k) (2 * r)), (Z.ltb_spec (2 ^ k) (2 * r'));
      destruct (Z.even q), (Z.even q'); lia.
Qed.

Lemma rne_bounds (m k : Z) : m / 2 ^ k <= rne m k <= m / 2 ^ k + 1.
Proof.
  unfold rne.
  destruct (_ <? _); [lia|]. destruct (_ <? _); [lia|]. destruct (Z.even _); lia.
Qed.

End ExactRounding.

(** ** Exact inputs: rounding is [rne] *)

Section ExactInputs.
Import go f64 rounding.

Lemma binary_round_aux_arith_exact (s : bool) (m e : Z) :
  0 <= m ->
  let k1 := Z.max 0 (fexp prec emax (Zdigits2 m + e) - e) in
  let m1' := rne m k1 in
  let e1 := e + k1 in
  let k2 := Z.max 0 (fexp prec emax (Zdigits2 m1' + e1) - e1) in
  binary_round_aux prec emax s m e loc_Exact
  = match m1' / 2 ^ k2 with
    | Z0 => S754_zero s
    | Zpos p => if e1 + k2 <=? emax - prec then S754_finite s p (e1 + k2)
                else S754_infinity s
    | Zneg _ => S754_nan
    end.
Proof.
  intros Hm. cbv zeta. unfold binary_round_aux, shr_fexp. cbn [shr_record_of_loc].
  pose proof (shr_rne m e (fexp prec emax (Zdigits2 m + e) - e) Hm) as Hrne.
  pose proof (shr_e_spec (Build_shr_record m false false) e
                (fexp prec emax (Zdigits2 m + e) - e)) as He1.
  cbv zeta in Hrne.
  destruct (shr (Build_shr_record m false false) e (fexp prec emax (Zdigits2 m + e) - e))
    as [mrs' e'] eqn:H1.
  cbn [fst snd] in Hrne, He1. rewrite Hrne, He1.
  set (m1' := rne m (Z.max 0 (fexp prec emax (Zdigits2 m + e) - e))).
  set (e1 := e + Z.max 0 (fexp prec emax (Zdigits2 m + e) - e)).
  assert (Hm1' : 0 <= m1').
  { pose proof (rne_bounds m (Z.max 0 (fexp prec emax (Zdigits2 m + e) - e))) as Hb.
    fold m1' in Hb.
    assert (0 <= m / 2 ^ Z.max 0 (fexp prec emax (Zdigits2 m + e) - e)); [|lia].
    apply Z.div_pos; [done|]. apply Z.pow_pos_nonneg; lia. }
  pose proof (shr_m_spec (Build_shr_record m1' false false) e1
                (fexp prec emax (Zdigits2 m1' + e1) - e1) Hm1') as Hm2.
  pose proof (shr_e_spec (Build_shr_record m1' false false) e1
                (fexp prec emax (Zdigits2 m1' + e1) - e1)) as He2.
  destruct (shr (Build_shr_record m1' false false) e1
              (fexp prec emax (Zdigits2 m1' + e1) - e1)) as [mrs'' e''].
  cbn [fst snd shr_m] in Hm2, He2. by rewrite Hm2, He2.
Qed.

(** The exact counterpart of [binary_round_aux_normal]. *)
Lemma binary_round_aux_normal_exact (s : bool) (m e : Z) :
  2 ^ 52 <= m -> -1074 <= e -> e + (Zdigits2 m - 53) < 971 ->
  exists (mq : positive) (eq : Z),
    binary_round_aux prec emax s m e loc_Exact = S754_finite s mq eq
    /\ 2 ^ 52 <= Z.pos mq < 2 ^ 53
    /\ ((eq = e + (Zdigits2 m - 53) /\ Z.pos mq = rne m (Zdigits2 m - 53))
        \/ (eq = e + (Zdigits2 m - 53) + 1 /\ Z.pos mq = 2 ^ 52
            /\ rne m (Zdigits2 m - 53) = 2 ^ 53)).
Proof.
  intros Hm He Hmax.
  pose proof (Zdigits2_ge m 52 ltac:(lia) Hm) as Hd.
  pose proof (leading_digits_bounds m Hm) as Hlead.
  rewrite binary_round_aux_arith_exact by lia.
  cbv zeta. rewrite !fexp_eq.
  set (d := Zdigits2 m) in *.
  replace (Z.max 0 (Z.max (d + e - 53) (-1074) - e)) with (d - 53) by lia.
  pose proof (rne_bounds m (d - 53)) as Hb.
  set (m1' := rne m (d - 53)) in *.
  destruct (Z.eq_dec m1' (2 ^ 53)) as [Hcarry|Hno].
  - rewrite Hcarry. change (Zdigits2 (2 ^ 53)) with 54.
    replace (Z.max 0 (Z.max (54 + (e + (d - 53)) - 53) (-1074) - (e + (d - 53))))
      with 1 by lia.
    change (2 ^ 53 / 2 ^ 1) with (Z.pos 4503599627370496).
    cbv iota.
    destruct (Z.leb_spec (e + (d - 53) + 1) (emax - prec)) as [_|Hbad];
      [|unfold emax, prec in Hbad; lia].
    eexists _, _. split; [done|]. split; [lia|]. right. done.
  - assert (Hm1' : 2 ^ 52 <= m1' < 2 ^ 53) by lia.
    rewrite (Zdigits2_53 m1' Hm1').
    replace (Z.max 0 (Z.max (53 + (e + (d - 53)) - 53) (-1074) - (e + (d - 53))))
      with 0 by lia.
    rewrite Z.div_1_r.
    destruct m1' as [|mq|mq] eqn:Hmq; try lia.
    rewrite Z.add_0_r.
    destruct (Z.leb_spec (e + (d - 53)) (emax - prec)) as [_|Hbad];
      [|unfold emax, prec in Hbad; lia].
    exists mq, (e + (d - 53)). split; [done|]. split; [done|]. left. done.
Qed.

(** The binary64 value of a counter between 1 and [2^63 - 1]: a normal
    number, the counter rounded to 53 digits. *)
Lemma float64_of_int_normal (n : Z) :
  1 <= n < 2 ^ 63 ->
  exists (m : positive) (e : Z),
    Prim2SF (float64_of_int n) = S754_finite false m e
    /\ 2 ^ 52 <= Z.pos m < 2 ^ 53
    /\ let k := Z.max 0 (Zdigits2 n - 53) in
       ((e = Zdigits2 n - 53 /\ Z.pos m = rne n k * 2 ^ (k - (Zdigits2 n - 53)))
        \/ (e = Zdigits2 n - 53 + 1 /\ Z.pos m = 2 ^ 52 /\ rne n k = 2 ^ 53)).
Proof.
  intros Hn. unfold float64_of_int.
  destruct (Z.eqb_spec n (- 2 ^ 63)); [lia|].
  destruct (Z.ltb_spec n 0); [lia|].
  rewrite of_uint63_spec, Uint63.of_Z_spec.
  rewrite Z.mod_small by (change Uint63.wB with (2 ^ 63); lia).
  destruct n as [|p|p]; try lia. cbn [binary_normalize Zdigits2].
  pose proof (Zdigits2_le (Z.pos p) 63 ltac:(lia) ltac:(lia)) as Hd63.
  cbn [Zdigits2] in Hd63.
  destruct (Z.le_gt_cases (Z.pos (digits2_pos p)) 53) as [Hsmall|Hbig].
  - destruct (binary_round_exact false p 0 Hsmall ltac:(lia)) as (m & Hr & Hv & Hdm).
    exists m, (Z.pos (digits2_pos p) - 53).
    rewrite Hr, Z.add_0_r. split; [done|].
    pose proof (digits2_pos_bounds m) as Hbm. rewrite Hdm in Hbm.
    split; [lia|]. cbv zeta. left. split; [done|].
    rewrite Z.max_l by lia. unfold rne.
    change (2 ^ 0) with 1. rewrite Z.mod_1_r, Z.div_1_r.
    change (2 * 0 <? 1) with true. cbv iota.
    rewrite Hv. f_equal. f_equal. lia.
  - unfold binary_round. rewrite fexp_eq. unfold shl_align.
    destruct (Z.max (Z.pos (digits2_pos p) + 0 - 53) (-1074) - 0) eqn:Hk; try lia.
    assert (H52 : 2 ^ 52 <= Z.pos p).
    { destruct (digits2_pos_bounds p) as [Hlo _].
      transitivity (2 ^ (Z.pos (digits2_pos p) - 1)); [|done].
      apply Z.pow_le_mono_r; lia. }
    destruct (binary_round_aux_normal_exact false (Z.pos p) 0 H52 ltac:(lia))
      as (mq & eq & Hr & Hnorm & Hcase); [cbn [Zdigits2]; lia|].
    cbn [Zdigits2] in Hcase.
    exists mq, eq. split; [done|]. split; [done|]. cbv zeta.
    rewrite Z.max_r by lia. rewrite Z.sub_diag. change (2 ^ 0) with 1.
    destruct Hcase as [[-> Hm]|[-> [Hm Hc]]]; [left|right]; split; try done; lia.
Qed.

End ExactInputs.

(** ** A ratio of counters, in percent, stays within 0 and 100 *)

Section Percentage.
Import go f64 rounding stats.

(** Conversion of counters to binary64 is monotone. *)
Lemma float64_of_int_mono (n n' : Z) (m m' : positive) (e e' : Z) :
  1 <= n <= n' -> n' < 2 ^ 63 ->
  Prim2SF (float64_of_int n) = S754_finite false m e ->
  Prim2SF (float64_of_int n') = S754_finite false m' e' ->
  lexLe m e m' e'.
Proof.
  intros Hn Hn' Hx Hy.
  destruct (float64_of_int_normal n ltac:(lia)) as (m0 & e0 & Hx0 & Hnx & Hcx).
  destruct (float64_of_int_normal n' ltac:(lia)) as (m1 & e1 & Hy0 & Hny & Hcy).
  rewrite Hx in Hx0. rewrite Hy in Hy0. injection Hx0 as <- <-. injection Hy0 as <- <-.
  cbv zeta in *.
  assert (Hd : Zdigits2 n <= Zdigits2 n').
  { apply Zdigits2_le; [lia|]. destruct (Zdigits2_bounds n' ltac:(lia)). lia. }
  unfold lexLe.
  destruct (Z.eq_dec (Zdigits2 n) (Zdigits2 n')) as [Heq|Hne].
  - rewrite <- Heq in *.
    set (k := Z.max 0 (Zdigits2 n - 53)) in *.
    pose proof (rne_mono n n' k ltac:(lia) ltac:(lia)) as Hmono.
    assert (Hj : 0 < 2 ^ (k - (Zdigits2 n - 53))) by (apply Z.pow_pos_nonneg; lia).
    destruct Hcx as [[-> Hm]|[-> [Hm Hc]]], Hcy as [[-> Hm']|[-> [Hm' Hc']]].
    + right. split; [done|]. rewrite Hm, Hm'. nia.
    + left. lia.
    + exfalso.
      assert (2 ^ 53 * 2 ^ (k - (Zdigits2 n - 53)) <= Z.pos m') by (rewrite Hm'; nia).
      nia.
    + right. lia.
  - destruct Hcx as [[-> Hm]|[-> [Hm Hc]]], Hcy as [[-> Hm']|[-> [Hm' Hc']]]; lia.
Qed.

Lemma lexLe_cases m e m' e' :
  lexLe m e m' e' ->
  (m = m' /\ e = e') \/ e < e' \/ (e = e' /\ Z.pos m < Z.pos m').
Proof.
  intros [Hlt|[Heq Hle]]; [auto|].
  destruct (Z.eq_dec (Z.pos m) (Z.pos m')) as [H|H]; [left|right; right; lia].
  split; [congruence|done].
Qed.

(** The quotient of the division algorithm on two normal numbers. *)
Lemma SFdiv_core_normal (mx my : positive) (ex ey : Z) :
  2 ^ 52 <= Z.pos mx < 2 ^ 53 -> 2 ^ 52 <= Z.pos my < 2 ^ 53 ->
  -1021 <= ex - ey ->
  SFdiv_core_binary prec emax (Z.pos mx) ex (Z.pos my) ey
  = (Z.pos mx * 2 ^ 53 / Z.pos my, ex - ey - 53,
     new_location (Z.pos my) ((Z.pos mx * 2 ^ 53) mod Z.pos my)).
Proof.
  intros Hx Hy He. unfold SFdiv_core_binary.
  rewrite (Zdigits2_53 _ Hx), (Zdigits2_53 _ Hy), fexp_eq.
  replace (Z.min (Z.max (53 + ex - (53 + ey) - 53) (-1074)) (ex - ey))
    with (ex - ey - 53) by lia.
  replace (ex - ey - (ex - ey - 53)) with 53 by lia.
  rewrite Z.shiftl_mul_pow2 by lia.
  unfold Z.div, Z.modulo. by destruct (Z.div_eucl _ _).
Qed.

(** A normal number divided by a larger normal number is at most one:
    the quotient is a normal number below [2^-52 * 2^52], or exactly
    that. *)
Lemma SFdiv_below_one (mx my : positive) (ex ey : Z) :
  2 ^ 52 <= Z.pos mx < 2 ^ 53 -> 2 ^ 52 <= Z.pos my < 2 ^ 53 ->
  -900 <= ex - ey ->
  ex < ey \/ (ex = ey /\ Z.pos mx < Z.pos my) ->
  exists (mq : positive) (eq : Z),
    SF64div (S754_finite false mx ex) (S754_finite false my ey)
    = S754_finite false mq eq
    /\ 2 ^ 52 <= Z.pos mq < 2 ^ 53
    /\ ex - ey - 53 <= eq
    /\ (eq <= -53 \/ (eq = -52 /\ Z.pos mq = 2 ^ 52)).
Proof.
  intros Hx Hy He Hlt. unfold SF64div, SFdiv.
  rewrite SFdiv_core_normal by (done || lia). cbn [xorb].
  set (q := Z.pos mx * 2 ^ 53 / Z.pos my).
  assert (Hq52 : 2 ^ 52 <= q).
  { apply Z.div_le_lower_bound; lia. }
  assert (Hq54 : q < 2 ^ 54).
  { apply Z.div_lt_upper_bound; lia. }
  assert (Hq53 : ex = ey -> q < 2 ^ 53).
  { intros ->. apply Z.div_lt_upper_bound; lia. }
  pose proof (Zdigits2_ge q 52 ltac:(lia) Hq52) as Hd1.
  pose proof (Zdigits2_le q 54 ltac:(lia) Hq54) as Hd2.
  assert (Hd3 : ex = ey -> Zdigits2 q = 53).
  { intros Heq. pose proof (Zdigits2_le q 53 ltac:(lia) (Hq53 Heq)). lia. }
  destruct (binary_round_aux_normal false q (ex - ey - 53)
              (new_location (Z.pos my) ((Z.pos mx * 2 ^ 53) mod Z.pos my)))
    as (mq & eq & Hr & Hn & Hcase); [done|lia|lia|].
  exists mq, eq. split; [done|]. split; [done|].
  destruct Hcase as [[-> _]|[-> [Hm _]]]; lia.
Qed.

(** A normal number divided by itself is one. *)
Lemma SFdiv_self (m : positive) (e : Z) :
  2 ^ 52 <= Z.pos m < 2 ^ 53 ->
  SF64div (S754_finite false m e) (S754_finite false m e)
  = S754_finite false 4503599627370496 (-52).
Proof.
  intros Hm. unfold SF64div, SFdiv.
  rewrite SFdiv_core_normal by (done || lia). cbn [xorb].
  rewrite Z.mul_comm, Z.div_mul, Z.mod_mul, Z.sub_diag by lia.
  unfold new_location, new_location_even, new_location_odd.
  change (0 =? 0) with true. by destruct (Z.even (Z.pos m)).
Qed.

(** One hundred in binary64. *)
Lemma Prim2SF_100 : Prim2SF 100 = S754_finite false 7036874417766400 (-46).
Proof. reflexivity. Qed.

(** A normal number of at most one, times one hundred, is at most one
    hundred. *)
Lemma SFmul_100_le (mz : positive) (ez : Z) :
  2 ^ 52 <= Z.pos mz < 2 ^ 53 -> -900 <= ez ->
  ez <= -53 \/ (ez = -52 /\ Z.pos mz = 2 ^ 52) ->
  exists (mr : positive) (er : Z),
    SF64mul (S754_finite false mz ez) (S754_finite false 7036874417766400 (-46))
    = S754_finite false mr er
    /\ lexLe mr er 7036874417766400 (-46).
Proof.
  intros Hz He [Hlt|[-> Hone]].
  - unfold SF64mul, SFmul. cbn [xorb].
    set (mc := 7036874417766400%positive).
    rewrite Pos2Z.inj_mul.
    set (m := Z.pos mz * Z.pos mc).
    assert (Hm104 : 2 ^ 104 <= m) by (subst m mc; lia).
    assert (Hm106 : m < 2 ^ 106) by (subst m mc; lia).
    pose proof (Zdigits2_ge m 104 ltac:(lia) Hm104) as Hd1.
    pose proof (Zdigits2_le m 106 ltac:(lia) Hm106) as Hd2.
    destruct (binary_round_aux_normal false m (ez + -46) loc_Exact)
      as (mr & er & Hr & Hn & Hcase); [lia|lia|lia|].
    exists mr, er. split; [done|]. unfold lexLe.
    change (Z.pos 7036874417766400) with (Z.pos mc).
    destruct (Z.eq_dec (ez + -46 + (Zdigits2 m - 53)) (-46)) as [Hedge|Hin].
    + assert (Hd106 : Zdigits2 m = 106) by lia.
      rewrite Hd106 in Hcase. change (2 ^ (106 - 53)) with (2 ^ 53) in Hcase.
      assert (Hlead : m / 2 ^ 53 < Z.pos mc).
      { apply Z.div_lt_upper_bound; [lia|]. subst m. nia. }
      destruct Hcase as [[-> Hb]|[-> [Hb Hc]]].
      * right. split; [lia|]. lia.
      * exfalso. subst mc. lia.
    + destruct Hcase as [[-> Hb]|[-> [Hb Hc]]].
      * left. lia.
      * destruct (Z.eq_dec (ez + -46 + (Zdigits2 m - 53) + 1) (-46)) as [Heq|Hneq].
        -- right. split; [done|]. subst mc. lia.
        -- left. lia.
  - assert (mz = 4503599627370496%positive) as -> by lia.
    eexists _, _. split; [reflexivity|]. right. split; [done|]. lia.
Qed.

Lemma lexLe_SFleb m e m' e' :
  lexLe m e m' e' ->
  SFleb (S754_finite false m e) (S754_finite false m' e') = true.
Proof.
  unfold SFleb, SFcompare. intros [Hlt|[-> Hle]].
  - apply Z.compare_lt_iff in Hlt. by rewrite Hlt.
  - rewrite Z.compare_refl.
    change (Pos.compare_cont Eq m m') with (Pos.compare m m').
    assert (Hc : (m <= m')%positive) by lia. apply Pos.compare_le_iff in Hc.
    by destruct (Pos.compare m m').
Qed.

(** The ratio of two counters in percent lies between 0 and 100. *)
Lemma percentage_within (count total : Z) :
  0 <= count <= total -> total < 2 ^ 63 ->
  within 0 100 (percentage count total) = true.
Proof.
  intros Hc Ht. unfold percentage.
  destruct (Z.ltb_spec 0 total) as [Hpos|Hzero]; [|reflexivity].
  unfold within.
  destruct (float64_of_int_normal total ltac:(lia)) as (my & ey & Hy & Hny & Hcy).
  assert (Hey : -52 <= ey <= 11).
  { pose proof (Zdigits2_le total 63 ltac:(lia) ltac:(lia)).
    pose proof (Zdigits2_pos total ltac:(lia)). cbv zeta in Hcy. lia. }
  rewrite leb_zero_l, FloatAxioms.leb_spec, Prim2SF_100, !mul_spec, !div_spec, Prim2SF_100, Hy.
  destruct (Z.eq_dec count 0) as [->|Hnz].
  - change (Prim2SF (float64_of_int 0)) with (S754_zero false). reflexivity.
  - destruct (float64_of_int_normal count ltac:(lia)) as (mx & ex & Hx & Hnx & Hcx).
    assert (Hex : -52 <= ex <= 11).
    { pose proof (Zdigits2_le count 63 ltac:(lia) ltac:(lia)).
      pose proof (Zdigits2_pos count ltac:(lia)). cbv zeta in Hcx. lia. }
    rewrite Hx.
    pose proof (float64_of_int_mono count total mx my ex ey ltac:(lia) Ht Hx Hy) as Hle.
    destruct (lexLe_cases _ _ _ _ Hle) as [[-> ->]|Hlt].
    + rewrite SFdiv_self by done. reflexivity.
    + destruct (SFdiv_below_one mx my ex ey Hnx Hny ltac:(lia) Hlt)
        as (mq & eq & -> & Hnq & Heq & Hq).
      destruct (SFmul_100_le mq eq Hnq ltac:(lia) Hq) as (mr & er & -> & Hr).
      by rewrite (lexLe_SFleb _ _ _ _ Hr).
Qed.

End Percentage.

(** ** The totals after the whole reconstruction *)

Section ReconstructTotals.
Import go trader api f64 stats.
#[local] Open Scope float_scope.

Lemma makeOutcome_Symbol symbol trade pos :
  TradeOutcome.Symbol (makeOutcome symbol trade pos) = symbol.
Proof. reflexivity. Qed.

Lemma processTrade_totals symbol st trade :
  totalsOk (analysis st) -> totalsOk (analysis (processTrade symbol st trade)).
Proof.
  intros Hok. unfold processTrade.
  destruct (selectPos trade) as [side|]; [|done].
  destruct (isOpening trade); [by rewrite analysis_setPos|].
  destruct (fullyClosed _); rewrite analysis_setPos; [|done].
  cbn [analysis]. by apply recordOutcome_totals.
Qed.

Lemma fold_processTrade_totals symbol trades :
  forall st, totalsOk (analysis st) ->
             totalsOk (analysis (fold_left (processTrade symbol) trades st)).
Proof.
  induction trades as [|trade trades IH]; intros st Hok; [done|].
  cbn [fold_left]. by apply IH, processTrade_totals.
Qed.

Lemma processSymbol_totals a entry : totalsOk a -> totalsOk (processSymbol a entry).
Proof.
  intros Hok. destruct entry as [symbol trades]. unfold processSymbol.
  destruct (len trades =? 0)%Z; [done|]. by apply fold_processTrade_totals.
Qed.

Lemma reconstruct_totals tradeHistory : totalsOk (reconstruct tradeHistory).
Proof.
  unfold reconstruct. generalize totalsOk_empty. generalize emptyAnalysis.
  induction tradeHistory as [|entry h IH]; intros a Hok; [done|].
  cbn [fold_left]. by apply IH, processSymbol_totals.
Qed.

Lemma analyze_RecentTrades tradeHistory :
  PerformanceAnalysis.RecentTrades (analyzePerformanceFromBinance tradeHistory)
  = PerformanceAnalysis.RecentTrades (reconstruct tradeHistory).
Proof. reflexivity. Qed.

Lemma len_filter_le {A : Type} (f : A -> bool) (l : list A) :
  (0 <= len (List.filter f l) <= len l)%Z.
Proof.
  unfold len. pose proof (List.filter_length_le f l). lia.
Qed.

Lemma len_pos_cons {A : Type} (x : A) (l : list A) : (0 < len (x :: l))%Z.
Proof. unfold len. simpl. lia. Qed.

(** Finishing the running record of a symbol gives its summary. *)
Lemma finishSymbol_totals symbol l :
  (len l < 2 ^ 63)%Z ->
  finishSymbol <$> symbolTotals symbol l = symbolSummary symbol l.
Proof.
  intros Hlen. unfold symbolTotals, symbolSummary.
  destruct l as [|o l]; [done|].
  set (l' := o :: l) in *. cbn [fmap option_fmap option_map]. f_equal.
  pose proof (len_pos_cons o l) as Hpos. fold l' in Hpos.
  pose proof (len_filter_le isWin l') as Hw. pose proof (len_filter_le isLoss l') as Hl.
  fold (wins l') in Hw. fold (losses l') in Hl.
  rewrite !wrap64_id by (unfold int_range; lia).
  unfold finishSymbol.
  cbn [SymbolPerformance.TotalTrades SymbolPerformance.WinningTrades
       SymbolPerformance.LosingTrades SymbolPerformance.TotalPnL
       SymbolPerformance.Symbol].
  destruct (Z.ltb_spec 0 (len l')); [|lia].
  unfold percentage. destruct (Z.ltb_spec 0 (len l')); [done|lia].
Qed.

(** C5. The aggregate win rate is [winning / total * 100], and 0 when
    there is no trade; for every symbol, the statistics are those of
    that symbol's outcomes alone: counts, win rate, total and mean PnL
    (the per-symbol record has no Sharpe ratio). Every win rate lies in
    [[0, 100]]. The length of the outcome list is an [int]. *)
Theorem win_rate_spec (tradeHistory : list (string * list Trade)) :
  let a := analyzePerformanceFromBinance tradeHistory in
  let trades := PerformanceAnalysis.RecentTrades a in
  (len trades < 2 ^ 63)%Z ->
  PerformanceAnalysis.TotalTrades a = len trades
  /\ PerformanceAnalysis.WinningTrades a = len (wins trades)
  /\ PerformanceAnalysis.WinRate a = percentage (len (wins trades)) (len trades)
  /\ ((len trades = 0)%Z -> PerformanceAnalysis.WinRate a = 0)
  /\ within 0 100 (PerformanceAnalysis.WinRate a) = true
  /\ (forall symbol,
        PerformanceAnalysis.SymbolStats a !! symbol
        = symbolSummary symbol (ofSymbol symbol trades))
  /\ (forall symbol s,
        PerformanceAnalysis.SymbolStats a !! symbol = Some s ->
        SymbolPerformance.WinRate s
        = percentage (SymbolPerformance.WinningTrades s) (SymbolPerformance.TotalTrades s)
        /\ SymbolPerformance.AvgPnL s
           = SymbolPerformance.TotalPnL s / float64_of_int (SymbolPerformance.TotalTrades s)
        /\ within 0 100 (SymbolPerformance.WinRate s) = true).
Proof.
  intros a trades Hlen.
  destruct (reconstruct_totals tradeHistory)
    as (Ht & Hw & Hl & Haw & Hal & Hwr & Hpf & Hsr & Hstats).
  change (PerformanceAnalysis.RecentTrades (reconstruct tradeHistory))
    with trades in Ht, Hw, Hl, Haw, Hal, Hstats.
  pose proof (len_nonneg trades) as Hnn.
  pose proof (len_filter_le isWin trades) as Hwl. fold (wins trades) in Hwl.
  rewrite wrap64_id in Ht, Hw by (unfold int_range; lia).
  assert (Hrate : PerformanceAnalysis.WinRate a
                  = percentage (len (wins trades)) (len trades)).
  { subst a. unfold analyzePerformanceFromBinance, computeSymbolStats, computeSharpe,
      computeStatistics. cbn [PerformanceAnalysis.WinRate].
    rewrite Ht, Hw, Hwr. done. }
  assert (Hsym : forall symbol,
             PerformanceAnalysis.SymbolStats a !! symbol
             = symbolSummary symbol (ofSymbol symbol trades)).
  { intros symbol. subst a. unfold analyzePerformanceFromBinance, computeSymbolStats.
    cbn [PerformanceAnalysis.SymbolStats]. rewrite lookup_fmap.
    change (PerformanceAnalysis.SymbolStats (computeSharpe (computeStatistics (reconstruct tradeHistory))))
      with (PerformanceAnalysis.SymbolStats (reconstruct tradeHistory)).
    rewrite Hstats. apply finishSymbol_totals.
    pose proof (len_filter_le (fun o => String.eqb (TradeOutcome.Symbol o) symbol) trades).
    unfold ofSymbol. lia. }
  split; [done|]. split; [done|]. split; [done|].
  split; [intros H0; rewrite Hrate, H0; reflexivity|].
  split; [rewrite Hrate; apply percentage_within; lia|].
  split; [done|].
  intros symbol s Hs. rewrite Hsym in Hs. unfold symbolSummary in Hs.
  destruct (ofSymbol symbol trades) as [|o l] eqn:Hof; [done|].
  injection Hs as <-.
  cbn [SymbolPerformance.WinRate SymbolPerformance.WinningTrades
       SymbolPerformance.TotalTrades SymbolPerformance.AvgPnL SymbolPerformance.TotalPnL].
  split; [done|]. split; [done|].
  apply percentage_within.
  - apply (len_filter_le isWin (o :: l)).
  - rewrite <- Hof.
    pose proof (len_filter_le (fun o => String.eqb (TradeOutcome.Symbol o) symbol) trades).
    unfold ofSymbol. lia.
Qed.

End ReconstructTotals.

Section WinRateScenario.
Import go trader api stats scenario.
#[local] Open Scope float_scope.

(** One winning round trip on BTCUSDT and one losing round trip on
    ETHUSDT: the aggregate win rate is 50, the per-symbol win rates are
    100 and 0. *)
Lemma win_rate_spec_witness :
  let tradeHistory :=
    [("BTCUSDT", [scenarioOpen 1700000000000 0 0.1; scenarioClose 1700000060000]);
     ("ETHUSDT", [mkTrade "SELL" "SHORT" 2000 2 0 0.4 1700000000000;
                  mkTrade "BUY" "SHORT" 2010 2 (-20) 0.4 1700000090000])] in
  let a := analyzePerformanceFromBinance tradeHistory in
  (len (PerformanceAnalysis.RecentTrades a) < 2 ^ 63)%Z
  /\ PerformanceAnalysis.TotalTrades a = 2%Z
  /\ PerformanceAnalysis.WinRate a = 50
  /\ within 0 100 (PerformanceAnalysis.WinRate a) = true
  /\ (SymbolPerformance.WinRate <$> PerformanceAnalysis.SymbolStats a !! "BTCUSDT")
     = Some 100
  /\ (SymbolPerformance.WinRate <$> PerformanceAnalysis.SymbolStats a !! "ETHUSDT")
     = Some 0.
Proof.
  intros tradeHistory a.
  assert (Hlen : (len (PerformanceAnalysis.RecentTrades a) < 2 ^ 63)%Z)
    by (vm_compute; reflexivity).
  destruct (win_rate_spec tradeHistory Hlen)
    as (Ht & _ & Hrate & _ & Hin & Hsym & _).
  split; [exact Hlen|].
  split; [etrans; [exact Ht|vm_compute; reflexivity]|].
  split; [etrans; [exact Hrate|vm_compute; reflexivity]|].
  split; [exact Hin|].
  split; (etrans; [exact (f_equal (fmap SymbolPerformance.WinRate) (Hsym _))|
                   vm_compute; reflexivity]).
Defined.

End WinRateScenario.

(** ** Averages and the profit factor *)

Section ProfitFactor.
Import go trader api f64 stats.
#[local] Open Scope float_scope.

Lemma fold_add_signed s (l : list TradeOutcome.t) :
  Forall (fun o => SFsigned s (Prim2SF (TradeOutcome.PnL o)) = true) l ->
  forall acc, SFsigned s (Prim2SF acc) = true ->
    SFsigned s (Prim2SF (fold_left (fun x o => x + TradeOutcome.PnL o) l acc)) = true.
Proof.
  induction 1 as [|o l Ho _ IH]; intros acc Hacc; [done|].
  cbn [fold_left]. apply IH. rewrite add_spec. by apply SFadd_signed.
Qed.

Lemma sumPnL_wins_signed l : SFsigned false (Prim2SF (sumPnL (wins l))) = true.
Proof.
  apply fold_add_signed; [|done].
  apply List.Forall_forall. intros o [_ Ho]%List.filter_In.
  unfold isWin in Ho. rewrite ltb_zero_l in Ho. by apply SFstrict_signed.
Qed.

Lemma sumPnL_losses_signed l : SFsigned true (Prim2SF (sumPnL (losses l))) = true.
Proof.
  apply fold_add_signed; [|done].
  apply List.Forall_forall. intros o [_ Ho]%List.filter_In.
  unfold isLoss in Ho. rewrite ltb_zero_r in Ho. by apply SFstrict_signed.
Qed.

Lemma float64_of_int_number n :
  (1 <= n < 2 ^ 63)%Z -> SFnumber false (Prim2SF (float64_of_int n)) = true.
Proof.
  intros Hn. destruct (float64_of_int_normal n Hn) as (m & e & -> & _). done.
Qed.

Lemma meanPnL_signed s l :
  (len l < 2 ^ 63)%Z ->
  SFsigned s (Prim2SF (sumPnL l)) = true -> SFsigned s (Prim2SF (meanPnL l)) = true.
Proof.
  intros Hlen Hsum. unfold meanPnL. destruct (Z.ltb_spec 0 (len l)); [|done].
  rewrite div_spec. rewrite <- (xorb_false_r s).
  apply SFdiv_signed; [done|]. apply float64_of_int_number. lia.
Qed.

Lemma signed_nonzero_strict s x :
  SFsigned s (Prim2SF x) = true -> (x =? 0) = false -> SFstrict s (Prim2SF x) = true.
Proof.
  rewrite FloatAxioms.eqb_spec, Prim2SF_zero.
  by destruct (Prim2SF x) as [s'|s'| |s' m e].
Qed.

(** Zero divided by a non-zero positive value is zero. *)
Lemma zero_div_strict y : SFstrict false (Prim2SF y) = true -> 0 / y = 0.
Proof.
  intros Hy. apply Prim2SF_inj. rewrite div_spec, Prim2SF_zero.
  destruct (Prim2SF y) as [s'|s'| |s' m e]; try done; by destruct s'.
Qed.

Lemma capAt100_nan x : is_nan x = true -> capAt100 x = x.
Proof.
  intros Hx%is_nan_spec. unfold capAt100.
  rewrite FloatAxioms.ltb_spec, Hx. done.
Qed.

Lemma capAt100_within x :
  SFsigned false (Prim2SF x) = true -> within 0 100 (capAt100 x) = true.
Proof.
  intros Hx. unfold capAt100. destruct (100 <? x) eqn:Hlt; [reflexivity|].
  unfold within. rewrite leb_zero_l, Hx. cbn [andb].
  rewrite FloatAxioms.ltb_spec in Hlt. rewrite FloatAxioms.leb_spec.
  apply SFltb_false_leb; [| |done].
  - by intros ?%(Prim2SF_inj _ nan).
  - intros E. by rewrite E in Hx.
Qed.

Lemma capAt100_is_nan x : is_nan (capAt100 x) = true -> is_nan x = true.
Proof.
  unfold capAt100. by destruct (100 <? x).
Qed.

(** A quotient of a non-negative by a positive value is a NaN only as
    infinity over infinity. *)
Lemma SFdiv_nan_inv sx sy x y :
  SFsigned sx x = true -> SFstrict sy y = true -> SF64div x y = S754_nan ->
  x = S754_infinity sx /\ y = S754_infinity sy.
Proof.
  intros Hx Hy Hnan.
  destruct y as [s2|s2| |s2 m2 e2]; try done.
  - destruct x as [s1|s1| |s1 m1 e1]; try done.
    simpl in Hx, Hy. apply eqb_prop in Hx, Hy. by subst.
  - pose proof (SFdiv_signed sx s2 x (S754_finite s2 m2 e2) Hx) as H.
    rewrite Hnan in H. simpl in H. rewrite eqb_reflx in H. by specialize (H eq_refl).
Qed.


Lemma len_pos_iff {A : Type} (l : list A) : (0 <? len l)%Z = true <-> l <> [].
Proof.
  rewrite Z.ltb_lt. pose proof (len_nonneg l). pose proof (len_nil_iff l).
  split; [intros H1 ->; by apply (Z.lt_irrefl 0%Z)|].
  intros Hne. destruct (Z.eq_dec (len l) 0%Z) as [E|E]; [tauto|lia].
Qed.

(** The statistics step on the reconstructed totals, in terms of the
    recorded outcomes. *)
Lemma computeStatistics_reconstruct tradeHistory :
  let a := analyzePerformanceFromBinance tradeHistory in
  let trades := PerformanceAnalysis.RecentTrades a in
  let avgWin := meanPnL (wins trades) in
  let avgLoss := meanPnL (losses trades) in
  (len trades < 2 ^ 63)%Z ->
  PerformanceAnalysis.AvgWin a = avgWin
  /\ PerformanceAnalysis.AvgLoss a = avgLoss
  /\ PerformanceAnalysis.ProfitFactor a
     = (if negb (avgLoss =? 0) && (0 <? len (losses trades))%Z
        then capAt100 (avgWin / - avgLoss)
        else if (0 <? len (wins trades))%Z && (len (losses trades) =? 0)%Z then 100
        else 0).
Proof.
  intros a trades avgWin avgLoss Hlen.
  destruct (reconstruct_totals tradeHistory)
    as (Ht & Hw & Hl & Haw & Hal & _).
  change (PerformanceAnalysis.RecentTrades (reconstruct tradeHistory))
    with trades in Ht, Hw, Hl, Haw, Hal.
  pose proof (len_nonneg trades) as Hnn.
  pose proof (len_filter_le isWin trades) as Hwl. fold (wins trades) in Hwl.
  pose proof (len_filter_le isLoss trades) as Hll. fold (losses trades) in Hll.
  rewrite wrap64_id in Hw, Hl by (unfold int_range; lia).
  subst a. unfold analyzePerformanceFromBinance, computeSymbolStats, computeSharpe,
    computeStatistics.
  cbn [PerformanceAnalysis.AvgWin PerformanceAnalysis.AvgLoss
       PerformanceAnalysis.ProfitFactor].
  rewrite Hw, Hl, Haw, Hal. done.
Qed.

(** C4 (as the code behaves). With [avgWin] and [avgLoss] the mean PnL
    of the winning and of the losing outcomes: the profit factor is
    [avgWin / -avgLoss] capped at 100 when there is a losing outcome and
    [avgLoss] is not zero, 0 when there is a losing outcome and [avgLoss]
    is zero, 100 when there are winning outcomes only, 0 when there is
    no winning outcome (so also for the empty set). It lies in
    [[0, 100]] unless it is a NaN, which happens only when [avgWin] is
    [+infinity] and [avgLoss] is [-infinity]. *)
Theorem profit_factor_spec (tradeHistory : list (string * list Trade)) :
  let a := analyzePerformanceFromBinance tradeHistory in
  let trades := PerformanceAnalysis.RecentTrades a in
  let avgWin := meanPnL (wins trades) in
  let avgLoss := meanPnL (losses trades) in
  let pf := PerformanceAnalysis.ProfitFactor a in
  (len trades < 2 ^ 63)%Z ->
  PerformanceAnalysis.AvgWin a = avgWin
  /\ PerformanceAnalysis.AvgLoss a = avgLoss
  /\ (losses trades <> [] -> (avgLoss =? 0) = false ->
      pf = capAt100 (avgWin / - avgLoss))
  /\ (losses trades <> [] -> (avgLoss =? 0) = true -> pf = 0)
  /\ (wins trades <> [] -> losses trades = [] -> pf = 100)
  /\ (wins trades = [] -> pf = 0)
  /\ (trades = [] -> pf = 0)
  /\ (is_nan pf = true \/ within 0 100 pf = true)
  /\ (is_nan pf = true -> avgWin = infinity /\ avgLoss = neg_infinity)
  /\ (is_finite avgWin = true \/ is_finite avgLoss = true -> within 0 100 pf = true).
Proof.
  intros a trades avgWin avgLoss pf Hlen.
  destruct (computeStatistics_reconstruct tradeHistory Hlen) as (HA & HL & HPF).
  fold a trades avgWin avgLoss pf in HA, HL, HPF.
  pose proof (len_nonneg trades) as Hnn.
  pose proof (len_filter_le isWin trades) as Hwl. fold (wins trades) in Hwl.
  pose proof (len_filter_le isLoss trades) as Hll. fold (losses trades) in Hll.
  assert (Hsw : SFsigned false (Prim2SF avgWin) = true).
  { apply meanPnL_signed; [lia|]. apply sumPnL_wins_signed. }
  assert (Hsl : SFsigned true (Prim2SF avgLoss) = true).
  { apply meanPnL_signed; [lia|]. apply sumPnL_losses_signed. }
  assert (Hden : (avgLoss =? 0) = false -> SFstrict false (Prim2SF (- avgLoss)) = true).
  { intros Hz. rewrite opp_spec. change false with (negb true).
    rewrite SFopp_strict. by apply signed_nonzero_strict. }
  assert (Hnan : is_nan pf = true -> avgWin = infinity /\ avgLoss = neg_infinity).
  { rewrite HPF. destruct (avgLoss =? 0) eqn:Hz; cbn [negb andb].
    - destruct ((0 <? len (wins trades))%Z && _); intros Hn; vm_compute in Hn; discriminate Hn.
    - destruct (0 <? len (losses trades))%Z;
        [|destruct ((0 <? len (wins trades))%Z && _); intros Hn; vm_compute in Hn; discriminate Hn].
      intros Hn%capAt100_is_nan%is_nan_spec. rewrite div_spec in Hn.
      destruct (SFdiv_nan_inv false false _ _ Hsw (Hden eq_refl) Hn) as [Hx Hy].
      split; [by apply Prim2SF_inj|].
      apply Prim2SF_inj. rewrite opp_spec in Hy.
      by destruct (Prim2SF avgLoss) as [s|[]| |s m e]. }
  assert (Hrange : is_nan pf = true \/ within 0 100 pf = true).
  { rewrite HPF. destruct (avgLoss =? 0) eqn:Hz; cbn [negb andb].
    - right. destruct ((0 <? len (wins trades))%Z && _); reflexivity.
    - destruct (0 <? len (losses trades))%Z; [|right; destruct ((0 <? len (wins trades))%Z && _); reflexivity].
      destruct (SFdiv_signed_or_nan false false _ _ Hsw (Hden eq_refl)) as [Hs|Hn].
      + right. apply capAt100_within. by rewrite div_spec.
      + left. rewrite capAt100_nan; apply is_nan_spec; by rewrite div_spec. }
  split; [done|]. split; [done|].
  split. { intros Hne%len_pos_iff Hz. by rewrite HPF, Hz, Hne. }
  split. { intros Hne Hz. rewrite HPF, Hz. cbn [negb andb].
           destruct (Z.eqb_spec (len (losses trades)) 0) as [E2|E2];
             [by apply len_nil_iff in E2|].
           by rewrite andb_false_r. }
  split. { intros Hne%len_pos_iff Hl0. rewrite HPF, Hne, Hl0. cbn [len length].
           by rewrite andb_false_r. }
  assert (Hnowin : wins trades = [] -> pf = 0).
  { intros Hw0. rewrite HPF. subst avgWin. rewrite Hw0 in *.
    change (meanPnL []) with 0. cbn [len length Z.of_nat Z.ltb Z.compare andb].
    destruct (avgLoss =? 0) eqn:Hz; cbn [negb andb]; [done|].
    destruct (0 <? len (losses trades))%Z; [|done].
    rewrite zero_div_strict by (by apply Hden). reflexivity. }
  split; [done|].
  split. { intros Hnil. apply Hnowin. by rewrite Hnil. }
  split; [done|]. split; [done|].
  intros Hfin. destruct Hrange as [Hn|]; [|done].
  destruct (Hnan Hn) as [E1 E2]. rewrite E1, E2 in Hfin. by destruct Hfin.
Qed.

End ProfitFactor.

Section ProfitFactorScenario.
Import go trader api stats scenario.
#[local] Open Scope float_scope.

(** A winning round trip of 9.8 and a losing one of -20.4: the profit
    factor is [9.8 / 20.4]. *)
Lemma profit_factor_spec_witness :
  let tradeHistory :=
    [("BTCUSDT", [scenarioOpen 1700000000000 0 0.1; scenarioClose 1700000060000]);
     ("ETHUSDT", [mkTrade "SELL" "SHORT" 2000 2 0 0.4 1700000000000;
                  mkTrade "BUY" "SHORT" 2010 2 (-20) 0.4 1700000090000])] in
  let a := analyzePerformanceFromBinance tradeHistory in
  (len (PerformanceAnalysis.RecentTrades a) < 2 ^ 63)%Z
  /\ PerformanceAnalysis.AvgWin a = 9.8
  /\ PerformanceAnalysis.AvgLoss a = -20.4
  /\ PerformanceAnalysis.ProfitFactor a = 9.8 / 20.4
  /\ within 0 100 (PerformanceAnalysis.ProfitFactor a) = true.
Proof.
  intros tradeHistory a.
  assert (Hlen : (len (PerformanceAnalysis.RecentTrades a) < 2 ^ 63)%Z)
    by (vm_compute; reflexivity).
  destruct (profit_factor_spec tradeHistory Hlen)
    as (HA & HL & Hpf & _ & _ & _ & _ & _ & _ & Hfin).
  split; [exact Hlen|].
  split; [etrans; [exact HA|vm_compute; reflexivity]|].
  split; [etrans; [exact HL|vm_compute; reflexivity]|].
  split.
  - etrans; [apply Hpf|vm_compute; reflexivity].
    + vm_compute. discriminate.
    + vm_compute. reflexivity.
  - apply Hfin. left. vm_compute. reflexivity.
Defined.

(** Four round trips of finite fills, two winning [1e308] each and two
    losing [1e308] each: both sums overflow, the averages are
    [+infinity] and [-infinity], and the profit factor is a NaN, outside
    [[0, 100]]. *)
Lemma profit_factor_not_in_range :
  let open t := mkTrade "BUY" "LONG" 1 1 0 0 t in
  let close pnl t := mkTrade "SELL" "LONG" 1 1 pnl 0 t in
  let tradeHistory :=
    [("BTCUSDT", [open 1%Z; close 1e308 2%Z; open 3%Z; close 1e308 4%Z;
                  open 5%Z; close (-1e308) 6%Z; open 7%Z; close (-1e308) 8%Z])] in
  let a := analyzePerformanceFromBinance tradeHistory in
  len (PerformanceAnalysis.RecentTrades a) = 4%Z
  /\ Forall (fun o => is_finite (TradeOutcome.PnL o) = true)
       (PerformanceAnalysis.RecentTrades a)
  /\ PerformanceAnalysis.LosingTrades a = 2%Z
  /\ PerformanceAnalysis.AvgWin a = infinity
  /\ PerformanceAnalysis.AvgLoss a = neg_infinity
  /\ is_nan (PerformanceAnalysis.ProfitFactor a) = true
  /\ within 0 100 (PerformanceAnalysis.ProfitFactor a) = false.
Proof.
  intros open close tradeHistory a.
  split; [vm_compute; reflexivity|].
  split; [|repeat split; vm_compute; reflexivity].
  vm_compute. repeat constructor.
Qed.

End ProfitFactorScenario.

(** ** The Sharpe ratio *)

Section Sharpe.
Import go trader api f64 stats sharpe.
#[local] Open Scope float_scope.

(** The loop of lines 1927-1958 keeps the trades that have a base. *)
Lemma tradeReturn_returnOf o :
  (let (returnRate, baseValue) := tradeReturn o in
   if 0 <? baseValue then [returnRate] else [])
  = match returnOf o with Some r => [r] | None => [] end.
Proof.
  unfold tradeReturn, returnOf, validBase.
  destruct (0 <? TradeOutcome.MarginUsed o) eqn:Hm; [by rewrite Hm|].
  destruct (0 <? TradeOutcome.PositionValue o) eqn:Hp; [by rewrite Hp|].
  destruct ((0 <? TradeOutcome.OpenPrice o) && (0 <? TradeOutcome.Quantity o)) eqn:Ho;
    cbn [andb]; [|reflexivity].
  fold (estimatedBase o).
  destruct (0 <? estimatedBase o) eqn:He; by rewrite He.
Qed.

Lemma collectReturns_acc trades :
  forall acc,
    fold_left (fun returns trade =>
                 let (returnRate, baseValue) := tradeReturn trade in
                 if 0 <? baseValue then returns ++ [returnRate] else returns)
      trades acc
    = acc ++ returnsOf trades.
Proof.
  induction trades as [|o trades IH]; intros acc; [by rewrite app_nil_r|].
  cbn [fold_left]. rewrite IH. unfold returnsOf. cbn [omap list_omap].
  pose proof (tradeReturn_returnOf o) as Ho.
  destruct (tradeReturn o) as [r b]. destruct (returnOf o) as [r'|].
  - destruct (0 <? b); [|done]. injection Ho as ->. by rewrite <- app_assoc.
  - by destruct (0 <? b).
Qed.

Lemma collectReturns_returnsOf trades : collectReturns trades = returnsOf trades.
Proof. apply (collectReturns_acc trades []). Qed.

Lemma returnsOf_len trades : (len (returnsOf trades) <= len trades)%Z.
Proof.
  unfold len, returnsOf. apply Nat2Z.inj_le.
  induction trades as [|o trades IH]; [done|].
  cbn [omap list_omap]. destruct (returnOf o); simpl; lia.
Qed.

Lemma fold_left_map_add (f : float -> float) l :
  forall acc, fold_left (fun s r => s + f r) l acc
              = fold_left (fun s r => s + r) (map f l) acc.
Proof. induction l as [|r l IH]; intros acc; [done|]. apply IH. Qed.

(** Lines 1962-1994 against the worded definition. *)
Lemma sharpeOfReturns_spec returns :
  sharpeOfReturns 0 returns
  = (let stdDev := populationStdDev returns in
     if 0 <? stdDev then clip (-3) 3 (mean returns / stdDev) else 0).
Proof.
  unfold sharpeOfReturns, populationStdDev, clip, mean, sumOf.
  by rewrite (fold_left_map_add (fun r => (r - _) * (r - _))).
Qed.

Lemma computeSharpe_sharpeRatio a :
  PerformanceAnalysis.SharpeRatio a = 0 ->
  PerformanceAnalysis.SharpeRatio (computeSharpe a)
  = sharpeRatio (PerformanceAnalysis.RecentTrades a).
Proof.
  intros H0. unfold computeSharpe, sharpeRatio. cbn [PerformanceAnalysis.SharpeRatio].
  rewrite H0, collectReturns_returnsOf, sharpeOfReturns_spec.
  pose proof (returnsOf_len (PerformanceAnalysis.RecentTrades a)) as Hle.
  destruct (Z.leb_spec 2 (len (PerformanceAnalysis.RecentTrades a))) as [H2|H2].
  - destruct (Z.leb_spec 2 (len (returnsOf (PerformanceAnalysis.RecentTrades a))));
      destruct (Z.ltb_spec (len (returnsOf (PerformanceAnalysis.RecentTrades a))) 2);
      try lia; reflexivity.
  - destruct (Z.ltb_spec (len (returnsOf (PerformanceAnalysis.RecentTrades a))) 2);
      [reflexivity|lia].
Qed.

(** *** The range of the result *)

Lemma Prim2SF_not_nan (x : float) : is_nan x = false -> Prim2SF x <> S754_nan.
Proof. apply is_nan_false. Qed.

Lemma clip_nan lo hi x : is_nan x = true -> clip lo hi x = x.
Proof.
  intros Hx%is_nan_spec. unfold clip.
  rewrite !FloatAxioms.ltb_spec, Hx.
  by destruct (Prim2SF hi), (Prim2SF lo).
Qed.

Lemma clip_is_nan x : is_nan (clip (-3) 3 x) = true -> is_nan x = true.
Proof.
  unfold clip. destruct (3 <? x); [intros H; vm_compute in H; discriminate H|].
  destruct (x <? -3); [intros H; vm_compute in H; discriminate H|done].
Qed.

Lemma clip_within x : is_nan x = false -> within (-3) 3 (clip (-3) 3 x) = true.
Proof.
  intros Hx%is_nan_false. unfold clip.
  destruct (3 <? x) eqn:Hhi; [reflexivity|].
  destruct (x <? -3) eqn:Hlo; [reflexivity|].
  unfold within. rewrite FloatAxioms.ltb_spec in Hhi, Hlo.
  rewrite !FloatAxioms.leb_spec.
  rewrite (SFltb_false_leb _ _ Hx (Prim2SF_not_nan (-3) eq_refl) Hlo).
  by rewrite (SFltb_false_leb _ _ (Prim2SF_not_nan 3 eq_refl) Hx Hhi).
Qed.

(** *** When the result is a NaN *)

Lemma is_nan_add_l x y : is_nan x = true -> is_nan (x + y) = true.
Proof. rewrite !is_nan_spec, add_spec. by intros ->. Qed.

Lemma is_nan_add_r x y : is_nan y = true -> is_nan (x + y) = true.
Proof. rewrite !is_nan_spec, add_spec. intros ->. by destruct (Prim2SF x). Qed.

Lemma is_nan_sub_r x y : is_nan y = true -> is_nan (x - y) = true.
Proof. rewrite !is_nan_spec, sub_spec. intros ->. by destruct (Prim2SF x). Qed.

Lemma is_nan_sqrt x : is_nan x = true -> is_nan (PrimFloat.sqrt x) = true.
Proof. rewrite !is_nan_spec, sqrt_spec. by intros ->. Qed.

Lemma fold_add_nan l :
  forall acc, is_nan acc = true -> is_nan (fold_left (fun s r => s + r) l acc) = true.
Proof.
  induction l as [|r l IH]; intros acc Hacc; [done|].
  cbn [fold_left]. by apply IH, is_nan_add_l.
Qed.

(** A NaN mean makes the standard deviation a NaN. *)
Lemma populationStdDev_nan l :
  l <> [] -> is_nan (mean l) = true -> is_nan (populationStdDev l) = true.
Proof.
  intros Hne Hm. unfold populationStdDev. apply is_nan_sqrt, is_nan_div_l.
  destruct l as [|r l]; [done|]. unfold sumOf. cbn [map fold_left].
  apply fold_add_nan, is_nan_add_r, is_nan_mul_l, is_nan_sub_r, Hm.
Qed.

(** The quotient by a positive value is a NaN only for a NaN or for
    infinity over infinity. *)
Lemma div_nan_inv x y :
  (0 <? y) = true -> is_nan (x / y) = true ->
  is_nan x = true \/ (is_infinity x = true /\ y = infinity).
Proof.
  rewrite ltb_zero_l, !is_nan_spec, is_infinity_spec, div_spec. intros Hy Hn.
  destruct (Prim2SF x) as [s|s| |s m e] eqn:Hx; [| |by left|].
  - by destruct (Prim2SF y) as [s'|s'| |s' m' e'].
  - right. split; [done|]. apply Prim2SF_inj.
    destruct (Prim2SF y) as [s'|s'| |s' m' e']; try done. by destruct s'.
  - destruct (SFdiv_signed_or_nan s false (S754_finite s m e) (Prim2SF y)) as [Hs|Hs];
      [by simpl; rewrite eqb_reflx|done|by rewrite Hn in Hs|].
    destruct (Prim2SF y) as [s'|s'| |s' m' e'] eqn:Hy'; try done.
    pose proof (SFdiv_signed s s' (S754_finite s m e) (S754_finite s' m' e')) as H.
    rewrite Hn in H. simpl in H. rewrite !eqb_reflx in H. by specialize (H eq_refl eq_refl).
Qed.

Lemma sharpeRatio_range trades :
  let s := sharpeRatio trades in
  (is_nan s = true \/ within (-3) 3 s = true)
  /\ (is_nan s = true ->
      is_infinity (mean (returnsOf trades)) = true
      /\ populationStdDev (returnsOf trades) = infinity).
Proof.
  unfold sharpeRatio. cbv zeta.
  destruct (Z.ltb_spec (len (returnsOf trades)) 2) as [Hlt|Hge].
  { split; [by right|]. intros H. vm_compute in H. discriminate H. }
  destruct (0 <? populationStdDev (returnsOf trades)) eqn:Hsd.
  2: { split; [by right|]. intros H. vm_compute in H. discriminate H. }
  split.
  - destruct (is_nan (mean (returnsOf trades) / populationStdDev (returnsOf trades)))
      eqn:Hn.
    + left. by rewrite clip_nan.
    + right. by apply clip_within.
  - intros Hn%clip_is_nan. destruct (div_nan_inv _ _ Hsd Hn) as [Hm|]; [|done].
    assert (Hne : returnsOf trades <> []).
    { intros E. rewrite E in Hge. unfold len in Hge. simpl in Hge. lia. }
    pose proof (populationStdDev_nan _ Hne Hm) as Hs.
    apply is_nan_spec in Hs. rewrite ltb_zero_l, Hs in Hsd. done.
Qed.

(** C2 (as the code behaves). Starting from a Sharpe ratio of 0, the
    block of lines 1919-2000 computes [sharpeRatio]: the sample holds
    [PnL / base] for every trade that has a base (margin, else position
    value, else open price times quantity, divided by the leverage when
    that is positive); with fewer than two returns the ratio is 0;
    otherwise it is the mean over the population standard deviation,
    clipped to [[-3, 3]], and 0 when the deviation is not positive. The
    result lies in [[-3, 3]] unless it is a NaN, which happens only for
    an infinite mean over an infinite deviation. *)
Theorem sharpe_ratio_spec (a : PerformanceAnalysis.t) :
  let trades := PerformanceAnalysis.RecentTrades a in
  let returns := returnsOf trades in
  let s := PerformanceAnalysis.SharpeRatio (computeSharpe a) in
  PerformanceAnalysis.SharpeRatio a = 0 ->
  s = sharpeRatio trades
  /\ ((len returns < 2)%Z -> s = 0)
  /\ ((2 <= len returns)%Z -> (0 <? populationStdDev returns) = true ->
      s = clip (-3) 3 (mean returns / populationStdDev returns))
  /\ ((2 <= len returns)%Z -> populationStdDev returns = 0 -> s = 0)
  /\ (is_nan s = true \/ within (-3) 3 s = true)
  /\ (is_nan s = true ->
      is_infinity (mean returns) = true /\ populationStdDev returns = infinity)
  /\ (is_finite (mean returns) = true -> within (-3) 3 s = true).
Proof.
  intros trades returns s H0.
  assert (Hs : s = sharpeRatio trades) by (by apply computeSharpe_sharpeRatio).
  destruct (sharpeRatio_range trades) as [Hrange Hnan]. cbv zeta in Hrange, Hnan.
  rewrite <- Hs in Hrange, Hnan. fold returns in Hnan.
  split; [done|].
  split. { intros Hlt. rewrite Hs. unfold sharpeRatio. fold returns.
           by destruct (Z.ltb_spec (len returns) 2); [|lia]. }
  split. { intros Hge Hsd. rewrite Hs. unfold sharpeRatio. fold returns.
           destruct (Z.ltb_spec (len returns) 2); [lia|]. by rewrite Hsd. }
  split. { intros Hge Hsd. rewrite Hs. unfold sharpeRatio. fold returns.
           destruct (Z.ltb_spec (len returns) 2); [lia|]. by rewrite Hsd. }
  split; [done|]. split; [done|].
  intros Hfin. destruct Hrange as [Hn|]; [|done].
  destruct (Hnan Hn) as [Hinf _]. unfold is_finite in Hfin. rewrite Hinf in Hfin.
  by rewrite orb_true_r in Hfin.
Qed.

(** X1. The Sharpe ratio that [analyzePerformanceFromBinance] returns
    is the [sharpeRatio] of the outcomes it reconstructed. *)
Lemma analyze_sharpeRatio (tradeHistory : list (string * list Trade)) :
  let a := analyzePerformanceFromBinance tradeHistory in
  PerformanceAnalysis.SharpeRatio a = sharpeRatio (PerformanceAnalysis.RecentTrades a).
Proof.
  cbv zeta. unfold analyzePerformanceFromBinance.
  change (PerformanceAnalysis.SharpeRatio (computeSymbolStats ?x))
    with (PerformanceAnalysis.SharpeRatio x).
  rewrite computeSharpe_sharpeRatio; [done|].
  by destruct (reconstruct_totals tradeHistory) as (_ & _ & _ & _ & _ & _ & _ & H & _).
Qed.

End Sharpe.

Section SharpeScenario.
Import go trader api stats scenario sharpe.
#[local] Open Scope float_scope.

(** A winning round trip with return 0.49 and a losing one with return
    -0.0255: the ratio is the clipped mean over deviation, about 0.90. *)
Lemma sharpe_ratio_spec_witness :
  let tradeHistory :=
    [("BTCUSDT", [scenarioOpen 1700000000000 0 0.1; scenarioClose 1700000060000]);
     ("ETHUSDT", [mkTrade "SELL" "SHORT" 2000 2 0 0.4 1700000000000;
                  mkTrade "BUY" "SHORT" 2010 2 (-20) 0.4 1700000090000])] in
  let a := computeStatistics (reconstruct tradeHistory) in
  let s := PerformanceAnalysis.SharpeRatio (computeSharpe a) in
  PerformanceAnalysis.SharpeRatio a = 0
  /\ returnsOf (PerformanceAnalysis.RecentTrades a) = [9.8 / 20; -20.4 / 800]
  /\ s = sharpeRatio (PerformanceAnalysis.RecentTrades a)
  /\ within 0.9 0.91 s = true
  /\ within (-3) 3 s = true.
Proof.
  intros tradeHistory a s.
  assert (H0 : PerformanceAnalysis.SharpeRatio a = 0) by reflexivity.
  destruct (sharpe_ratio_spec a H0) as (Hs & _ & _ & _ & _ & _ & Hfin).
  split; [exact H0|].
  split; [vm_compute; reflexivity|].
  split; [exact Hs|].
  split; [vm_compute; reflexivity|].
  apply Hfin. vm_compute. reflexivity.
Defined.

(** Two round trips of finite fills, each with margin 1 and PnL
    [1e308]: the sum of the two returns overflows, mean and deviation
    are infinite, and the Sharpe ratio of the analysis is a NaN, outside
    [[-3, 3]]. *)
Lemma sharpe_ratio_not_in_range :
  let open t := mkTrade "BUY" "LONG" 5 1 0 0 t in
  let close t := mkTrade "SELL" "LONG" 5 1 1e308 0 t in
  let tradeHistory := [("BTCUSDT", [open 1%Z; close 2%Z; open 3%Z; close 4%Z])] in
  let a := analyzePerformanceFromBinance tradeHistory in
  map TradeOutcome.MarginUsed (PerformanceAnalysis.RecentTrades a) = [1; 1]
  /\ returnsOf (PerformanceAnalysis.RecentTrades a) = [1e308; 1e308]
  /\ is_nan (PerformanceAnalysis.SharpeRatio a) = true
  /\ within (-3) 3 (PerformanceAnalysis.SharpeRatio a) = false.
Proof.
  intros open close tradeHistory a. repeat split; vm_compute; reflexivity.
Qed.

(** With a leverage that is not positive the estimated base is the
    undivided open price times quantity. *)
Lemma estimatedBase_without_leverage :
  let o := TradeOutcome.mk "BTCUSDT" "long" 1 0 100 110 0 0 10 0 0 0 0 in
  validBase o = Some 100 /\ returnOf o = Some 0.1.
Proof. split; vm_compute; reflexivity. Qed.

End SharpeScenario.

(** ** The accumulator of a cycle *)

Section Accumulator.
Import go trader api f64 cycles.
#[local] Open Scope float_scope.

Lemma accumulate_snoc c t : accumulate (c ++ [t]) = applyFill (accumulate c) t.
Proof. unfold accumulate. by rewrite fold_left_app. Qed.

Lemma totalQty_fold c :
  forall pos,
    totalQty (fold_left applyFill c pos)
    = fold_left (fun q t => if isOpening t then q + Qty t else q - Qty t) c (totalQty pos).
Proof.
  induction c as [|t c IH]; intros pos; [done|].
  cbn [fold_left]. rewrite IH. unfold applyFill. by destruct (isOpening t).
Qed.

Lemma totalQty_accumulate c : totalQty (accumulate c) = runningQty c.
Proof. apply totalQty_fold. Qed.

Lemma fold_left_filter_add (p : Trade -> bool) (f : Trade -> float) l :
  forall acc,
    fold_left (fun s t => if p t then s + f t else s) l acc
    = fold_left (fun s t => s + f t) (List.filter p l) acc.
Proof.
  induction l as [|t l IH]; intros acc; [done|].
  cbn [fold_left List.filter]. rewrite IH. by destruct (p t).
Qed.

Lemma totalCost_fold c :
  forall pos,
    totalCost (fold_left applyFill c pos)
    = fold_left (fun s t => if isOpening t then s + Price t * Qty t else s) c
        (totalCost pos).
Proof.
  induction c as [|t c IH]; intros pos; [done|].
  cbn [fold_left]. rewrite IH. unfold applyFill. by destruct (isOpening t).
Qed.

Lemma totalCost_accumulate c :
  totalCost (accumulate c) = sumBy (fun t => Price t * Qty t) (openingFills c).
Proof.
  unfold accumulate, sumBy, openingFills.
  by rewrite totalCost_fold, fold_left_filter_add.
Qed.

Lemma realizedPnl_fold c :
  forall pos,
    realizedPnl (fold_left applyFill c pos)
    = fold_left (fun s t => if negb (isOpening t) then s + RealizedPnl t else s) c
        (realizedPnl pos).
Proof.
  induction c as [|t c IH]; intros pos; [done|].
  cbn [fold_left]. rewrite IH. unfold applyFill. by destruct (isOpening t).
Qed.

Lemma realizedPnl_accumulate c :
  realizedPnl (accumulate c) = sumBy RealizedPnl (closingFills c).
Proof.
  unfold accumulate, sumBy, closingFills.
  by rewrite realizedPnl_fold, (fold_left_filter_add (fun t => negb (isOpening t))).
Qed.

Lemma commission_fold c :
  forall pos,
    commission (fold_left applyFill c pos)
    = fold_left (fun s t => if negb (isOpening t) then s + Commission t else s) c
        (commission pos).
Proof.
  induction c as [|t c IH]; intros pos; [done|].
  cbn [fold_left]. rewrite IH. unfold applyFill. by destruct (isOpening t).
Qed.

Lemma commission_accumulate c :
  commission (accumulate c) = sumBy Commission (closingFills c).
Proof.
  unfold accumulate, sumBy, closingFills.
  by rewrite commission_fold, (fold_left_filter_add (fun t => negb (isOpening t))).
Qed.

Lemma tradeCount_accumulate c :
  (len c < 2 ^ 63)%Z -> tradeCount (accumulate c) = len c.
Proof.
  induction c as [|t c IH] using rev_ind; intros Hlen; [done|].
  rewrite accumulate_snoc, len_snoc. rewrite len_snoc in Hlen.
  pose proof (len_nonneg c).
  assert (Hc : tradeCount (applyFill (accumulate c) t)
               = wrap64 (tradeCount (accumulate c) + 1))
    by (unfold applyFill; by destruct (isOpening t)).
  rewrite Hc, IH by lia. apply wrap64_id. unfold int_range. lia.
Qed.

Lemma openingFills_snoc c t :
  openingFills (c ++ [t]) = openingFills c ++ (if isOpening t then [t] else []).
Proof. unfold openingFills. rewrite List.filter_app. simpl. by destruct (isOpening t). Qed.

Lemma closingFills_snoc c t :
  closingFills (c ++ [t]) = closingFills c ++ (if isOpening t then [] else [t]).
Proof. unfold closingFills. rewrite List.filter_app. simpl. by destruct (isOpening t). Qed.

Lemma runningQty_snoc c t :
  runningQty (c ++ [t])
  = if isOpening t then runningQty c + Qty t else runningQty c - Qty t.
Proof. unfold runningQty. by rewrite fold_left_app. Qed.

End Accumulator.

(** ** Quantities that stay positive *)

Section PositiveQuantity.
Import go trader api f64 cycles.
#[local] Open Scope float_scope.

Lemma epsilon_positive : SFstrict false (Prim2SF epsilon) = true.
Proof. reflexivity. Qed.

(** Above the threshold means positive, unless the quantity is a NaN. *)
Lemma above_epsilon x :
  (x <=? epsilon) = false -> (0 <? x) = true \/ is_nan x = true.
Proof.
  rewrite FloatAxioms.leb_spec, ltb_zero_l, is_nan_spec.
  pose proof epsilon_positive as He.
  destruct (Prim2SF epsilon) as [s'|s'| |s' m' e']; try done.
  - destruct s'; [done|]. destruct (Prim2SF x) as [s|[]| |[] m e]; try done; auto.
  - destruct s'; [done|]. destruct (Prim2SF x) as [s|[]| |[] m e]; try done; auto.
Qed.

Lemma positive_or_nan_nonzero x :
  (0 <? x) = true \/ is_nan x = true -> (x =? 0) = false.
Proof.
  rewrite ltb_zero_l, is_nan_spec, FloatAxioms.eqb_spec, Prim2SF_zero.
  intros [H|H]; destruct (Prim2SF x) as [s|s| |s m e]; try done; by destruct s.
Qed.

Lemma positive_add x y :
  (0 <? x) = true \/ is_nan x = true -> (0 <? y) = true ->
  (0 <? x + y) = true \/ is_nan (x + y) = true.
Proof.
  intros [Hx|Hx] Hy; [left|right; by apply is_nan_add_l].
  rewrite ltb_zero_l in *. rewrite add_spec.
  apply SFadd_strict; try apply Prim2SF_valid; [|done]. by apply SFstrict_signed.
Qed.

Lemma zero_add_positive y : (0 <? y) = true -> (0 <? 0 + y) = true.
Proof.
  intros Hy. rewrite ltb_zero_l in *. rewrite add_spec, Prim2SF_zero.
  apply SFadd_strict; try done; apply Prim2SF_valid.
Qed.

(** Closing a positive quantity on an empty accumulator goes below the
    threshold. *)
Lemma zero_sub_below_epsilon y : (0 <? y) = true -> (0 - y <=? epsilon) = true.
Proof.
  rewrite ltb_zero_l, FloatAxioms.leb_spec, sub_spec, Prim2SF_zero.
  pose proof epsilon_positive as He.
  destruct (Prim2SF epsilon) as [s'|[]| |[] m' e']; try done;
    destruct (Prim2SF y) as [s|[]| |[] m e]; try done.
Qed.

End PositiveQuantity.

(** ** Cycles under way *)

Section UnderWay.
Import go trader api f64 cycles.
#[local] Open Scope float_scope.

Lemma underWay_nil : underWay [].
Proof. split; [done|by left]. Qed.

Lemma firstOpeningTime_snoc cur t :
  openingFills cur <> [] -> firstOpeningTime (cur ++ [t]) = firstOpeningTime cur.
Proof.
  intros Hne. unfold firstOpeningTime. rewrite openingFills_snoc.
  by destruct (openingFills cur).
Qed.

Lemma firstOpeningTime_closing cur t :
  isOpening t = false -> firstOpeningTime (cur ++ [t]) = firstOpeningTime cur.
Proof.
  intros Ht. unfold firstOpeningTime. by rewrite openingFills_snoc, Ht, app_nil_r.
Qed.

Lemma underWay_open cur t :
  underWay cur -> isOpening t = true -> (0 <? Qty t) = true -> underWay (cur ++ [t]).
Proof.
  intros [Htime Hcur] Hopen Hq. unfold underWay.
  rewrite accumulate_snoc. unfold applyFill. rewrite Hopen.
  cbn [openFill openTime totalQty].
  destruct Hcur as [->|[Hne Hpos]].
  - change (accumulate []) with zeroPosition.
    cbn [totalQty zeroPosition openTime app]. change (0 =? 0) with true.
    split; [unfold firstOpeningTime, openingFills; cbn [List.filter]; by rewrite Hopen|].
    right. split; [unfold openingFills; cbn [List.filter]; by rewrite Hopen|].
    left. by apply zero_add_positive.
  - split.
    + rewrite (positive_or_nan_nonzero _ Hpos), Htime. by rewrite firstOpeningTime_snoc.
    + right. split; [rewrite openingFills_snoc; by destruct (openingFills cur)|].
      by apply positive_add.
Qed.

Lemma closesCycle_first t :
  isOpening t = false -> (0 <? Qty t) = true -> closesCycle [] t = true.
Proof.
  intros Hclose Hq. unfold closesCycle. rewrite Hclose. cbn [negb andb app].
  unfold runningQty. cbn [fold_left]. rewrite Hclose. by apply zero_sub_below_epsilon.
Qed.

Lemma underWay_close cur t :
  underWay cur -> isOpening t = false -> (0 <? Qty t) = true ->
  closesCycle cur t = false -> underWay (cur ++ [t]).
Proof.
  intros [Htime Hcur] Hclose Hq Hstay. unfold underWay.
  destruct Hcur as [->|[Hne Hpos]]; [by rewrite closesCycle_first in Hstay|].
  rewrite accumulate_snoc. unfold applyFill. rewrite Hclose.
  cbn [closeFill openTime totalQty].
  split; [by rewrite firstOpeningTime_closing|].
  right. split; [rewrite openingFills_snoc; by destruct (openingFills cur)|].
  apply above_epsilon. unfold closesCycle in Hstay. rewrite Hclose in Hstay.
  cbn [negb andb] in Hstay. by rewrite runningQty_snoc, Hclose, <- totalQty_accumulate in Hstay.
Qed.

(** The test of line 1835 is the end of the cycle. *)
Lemma fullyClosed_closesCycle cur t :
  (len cur + 1 < 2 ^ 63)%Z -> isOpening t = false ->
  fullyClosed (closeFill t (accumulate cur)) = closesCycle cur t.
Proof.
  intros Hlen Hclose. unfold fullyClosed, closesCycle. rewrite Hclose.
  cbn [closeFill totalQty tradeCount negb andb].
  rewrite runningQty_snoc, Hclose, totalQty_accumulate.
  pose proof (len_nonneg cur).
  rewrite tradeCount_accumulate by lia.
  rewrite wrap64_id by (unfold int_range; lia).
  destruct (Z.ltb_spec 0 (len cur + 1)); [|lia]. by rewrite andb_true_r.
Qed.

(** The outcome recorded at the end of a cycle. *)
Lemma makeOutcome_cycleOutcome symbol cur t :
  underWay cur -> isOpening t = false ->
  makeOutcome symbol t (closeFill t (accumulate cur))
  = cycleOutcome symbol (mkCycle cur t).
Proof.
  intros [Htime _] Hclose.
  unfold makeOutcome, cycleOutcome, marginOf, avgOpenPriceOf, pnlOf, durationOf,
    quantityOf, costOf, realizedOf, commissionOf, fills.
  cbn [closeFill totalQty totalCost realizedPnl commission openTime body closing].
  rewrite totalQty_accumulate, totalCost_accumulate, realizedPnl_accumulate,
    commission_accumulate, Htime.
  rewrite openingFills_snoc, closingFills_snoc, Hclose, app_nil_r.
  rewrite firstOpeningTime_closing by done.
  unfold sumBy. by rewrite !fold_left_app.
Qed.

End UnderWay.

(** ** The reconstruction loop, one accumulator at a time *)

Section Reconstruction.
Import go trader api f64 cycles.
#[local] Open Scope float_scope.

Lemma onSide_selectPos side t : onSide side t = true <-> selectPos t = Some side.
Proof.
  unfold onSide. destruct (selectPos t) as [[]|], side; split; done.
Qed.

Lemma selectPos_sideName side t :
  selectPos t = Some side -> ToLower (PositionSide t) = sideName side.
Proof.
  unfold selectPos.
  destruct (String.eqb_spec (PositionSide t) "LONG") as [->|_];
    [by intros [= <-]|].
  destruct (String.eqb_spec (PositionSide t) "SHORT") as [->|_]; [by intros [= <-]|done].
Qed.

Lemma posSide_eq_dec (side side' : posSide) : {side = side'} + {side <> side'}.
Proof. decide equality. Qed.

Lemma sideName_inj side side' : sideName side = sideName side' -> side = side'.
Proof. by destruct side, side'. Qed.

Lemma sideOutcomes_snoc side l o :
  sideOutcomes side (l ++ [o])
  = sideOutcomes side l
    ++ (if String.eqb (TradeOutcome.Side o) (sideName side) then [o] else []).
Proof. unfold sideOutcomes. by rewrite List.filter_app. Qed.

Lemma getPos_setPos_other side side' pos st :
  side' <> side -> getPos side (setPos side' pos st) = getPos side st.
Proof. by destruct side, side'. Qed.

(** A fill routed to the other accumulator leaves this one alone. *)
Lemma processTrade_other symbol side side' st t :
  selectPos t = Some side' -> side' <> side ->
  getPos side (processTrade symbol st t) = getPos side st
  /\ sideOutcomes side (PerformanceAnalysis.RecentTrades (analysis (processTrade symbol st t)))
     = sideOutcomes side (PerformanceAnalysis.RecentTrades (analysis st)).
Proof.
  intros Hsel Hne. unfold processTrade. rewrite Hsel.
  destruct (isOpening t); [by rewrite getPos_setPos_other, analysis_setPos|].
  destruct (fullyClosed _); rewrite getPos_setPos_other, analysis_setPos by done;
    [|done].
  split; [by destruct side|]. cbn [analysis recordOutcome PerformanceAnalysis.RecentTrades].
  rewrite sideOutcomes_snoc. cbn [makeOutcome TradeOutcome.Side].
  rewrite (selectPos_sideName _ _ Hsel).
  destruct (String.eqb_spec (sideName side') (sideName side)) as [E|_];
    [by apply sideName_inj in E|by rewrite app_nil_r].
Qed.

(** A fill routed to this accumulator either ends the cycle under way,
    recording its outcome and resetting the accumulator, or joins it. *)
Lemma processTrade_same symbol side st t cur :
  selectPos t = Some side -> getPos side st = accumulate cur -> underWay cur ->
  (len cur + 1 < 2 ^ 63)%Z -> (0 <? Qty t) = true ->
  let st' := processTrade symbol st t in
  if closesCycle cur t then
    getPos side st' = zeroPosition
    /\ PerformanceAnalysis.RecentTrades (analysis st')
       = PerformanceAnalysis.RecentTrades (analysis st)
         ++ [cycleOutcome symbol (mkCycle cur t)]
  else
    getPos side st' = accumulate (cur ++ [t])
    /\ PerformanceAnalysis.RecentTrades (analysis st')
       = PerformanceAnalysis.RecentTrades (analysis st)
    /\ underWay (cur ++ [t]).
Proof.
  intros Hsel Hpos Hway Hlen Hq. cbv zeta. unfold processTrade. rewrite Hsel, Hpos.
  destruct (isOpening t) eqn:Hopen.
  - unfold closesCycle. rewrite Hopen. cbn [negb andb].
    rewrite setPos_getPos, analysis_setPos, accumulate_snoc. unfold applyFill.
    rewrite Hopen. split; [done|]. split; [done|]. by apply underWay_open.
  - rewrite fullyClosed_closesCycle by done.
    destruct (closesCycle cur t) eqn:Hc.
    + rewrite setPos_getPos, analysis_setPos. split; [done|].
      cbn [analysis recordOutcome PerformanceAnalysis.RecentTrades].
      by rewrite makeOutcome_cycleOutcome.
    + rewrite setPos_getPos, analysis_setPos, accumulate_snoc. unfold applyFill.
      rewrite Hopen. split; [done|]. split; [done|]. by apply underWay_close.
Qed.

Lemma cycleOutcome_Side symbol side cur t :
  selectPos t = Some side ->
  String.eqb (TradeOutcome.Side (cycleOutcome symbol (mkCycle cur t))) (sideName side)
  = true.
Proof.
  intros Hsel. cbn [cycleOutcome TradeOutcome.Side closing].
  rewrite (selectPos_sideName _ _ Hsel). apply String.eqb_refl.
Qed.

Lemma len_cons {A : Type} (x : A) (l : list A) : len (x :: l) = (len l + 1)%Z.
Proof. unfold len. cbn [length]. lia. Qed.

(** The outcomes of one accumulator are those of its closed cycles, in
    order, and the accumulator ends up holding the cycle left open. *)
Lemma fold_processTrade_side symbol side trades :
  forall st cur,
    getPos side st = accumulate cur -> underWay cur ->
    (len cur + len trades < 2 ^ 63)%Z -> positiveQty trades ->
    let st' := fold_left (processTrade symbol) trades st in
    let split := splitCycles cur (sideFills side trades) in
    sideOutcomes side (PerformanceAnalysis.RecentTrades (analysis st'))
    = sideOutcomes side (PerformanceAnalysis.RecentTrades (analysis st))
      ++ map (cycleOutcome symbol) split.1
    /\ getPos side st' = accumulate split.2.
Proof.
  induction trades as [|t trades IH]; intros st cur Hpos Hway Hlen Hqty; cbv zeta.
  { cbn [fold_left sideFills List.filter splitCycles fst snd map].
    by rewrite app_nil_r. }
  cbn [fold_left]. rewrite len_cons in Hlen. pose proof (len_nonneg trades) as Hnn.
  pose proof (len_nonneg cur) as Hnc.
  apply Forall_cons in Hqty as [Hq Hqty].
  unfold sideFills. cbn [List.filter]. fold (sideFills side trades).
  destruct (selectPos t) as [side'|] eqn:Hsel.
  - destruct (posSide_eq_dec side' side) as [->|Hne].
    + rewrite (proj2 (onSide_selectPos side t) Hsel). cbn [splitCycles].
      pose proof (processTrade_same symbol side st t cur Hsel Hpos Hway
                    ltac:(lia) Hq) as Hstep.
      cbv zeta in Hstep. destruct (closesCycle cur t).
      * destruct Hstep as [Hpos1 Hrec].
        destruct (IH (processTrade symbol st t) [] Hpos1 underWay_nil
                    ltac:(change (len (@nil Trade)) with 0%Z; lia) Hqty) as [Ho Hp].
        destruct (splitCycles [] (sideFills side trades)) as [cs open].
        cbn [fst snd map] in *. split; [|done].
        rewrite Ho, Hrec, sideOutcomes_snoc, (cycleOutcome_Side _ _ _ _ Hsel).
        by rewrite <- app_assoc.
      * destruct Hstep as (Hpos1 & Hrec & Hway1).
        destruct (IH (processTrade symbol st t) (cur ++ [t]) Hpos1 Hway1
                    ltac:(rewrite len_snoc; lia) Hqty) as [Ho Hp].
        split; [|done]. by rewrite Ho, Hrec.
    + assert (Hoff : onSide side t = false).
      { destruct (onSide side t) eqn:E; [|done].
        apply onSide_selectPos in E. congruence. }
      rewrite Hoff.
      destruct (processTrade_other symbol side side' st t Hsel Hne) as [Hp1 Ho1].
      destruct (IH (processTrade symbol st t) cur ltac:(by rewrite Hp1) Hway
                  ltac:(lia) Hqty) as [Ho Hp].
      split; [|done]. by rewrite Ho, Ho1.
  - assert (Hoff : onSide side t = false).
    { destruct (onSide side t) eqn:E; [|done].
      apply onSide_selectPos in E. congruence. }
    rewrite Hoff.
    assert (Hst : processTrade symbol st t = st) by (unfold processTrade; by rewrite Hsel).
    rewrite Hst. apply IH; try done. lia.
Qed.

(** The loop only appends outcomes, each of them long or short. *)
Lemma fold_processTrade_appends symbol trades :
  forall st, exists outcomes,
    PerformanceAnalysis.RecentTrades (analysis (fold_left (processTrade symbol) trades st))
    = PerformanceAnalysis.RecentTrades (analysis st) ++ outcomes
    /\ Forall (fun o => exists side, TradeOutcome.Side o = sideName side) outcomes.
Proof.
  induction trades as [|t trades IH]; intros st.
  { exists []. by rewrite app_nil_r. }
  cbn [fold_left]. destruct (IH (processTrade symbol st t)) as (outs & Hout & Hall).
  rewrite Hout. unfold processTrade.
  destruct (selectPos t) as [side|] eqn:Hsel; [|by exists outs].
  destruct (isOpening t); [exists outs; by rewrite analysis_setPos|].
  destruct (fullyClosed _); rewrite analysis_setPos; [|by exists outs].
  cbn [analysis recordOutcome PerformanceAnalysis.RecentTrades].
  eexists (_ :: outs). rewrite <- app_assoc. split; [done|].
  apply Forall_cons. split; [|done]. exists side.
  cbn [makeOutcome TradeOutcome.Side]. by apply selectPos_sideName.
Qed.

Lemma sideOutcomes_partition outcomes :
  Forall (fun o => exists side, TradeOutcome.Side o = sideName side) outcomes ->
  (len (sideOutcomes Long outcomes) + len (sideOutcomes Short outcomes)
   = len outcomes)%Z.
Proof.
  induction 1 as [|o l [side Ho] _ IH]; [done|].
  unfold sideOutcomes in *. cbn [List.filter]. rewrite Ho.
  destruct side.
  - change (sideName Long =? sideName Long)%string with true.
    change (sideName Long =? sideName Short)%string with false.
    rewrite !len_cons. lia.
  - change (sideName Short =? sideName Long)%string with false.
    change (sideName Short =? sideName Short)%string with true.
    rewrite !len_cons. lia.
Qed.

Lemma len_map {A B : Type} (f : A -> B) (l : list A) : len (map f l) = len l.
Proof. unfold len. by rewrite length_map. Qed.

(** *** The shape of a closed cycle *)

Lemma splitCycles_shape trades :
  forall cur,
    positiveQty trades ->
    (cur = [] \/ exists t0 rest, cur = t0 :: rest /\ isOpening t0 = true) ->
    Forall (fun c =>
              closesCycle (body c) (closing c) = true
              /\ (0 <? Qty (closing c)) = true
              /\ isOpening (closing c) = false
              /\ (body c = []
                  \/ exists t0 rest, body c = t0 :: rest /\ isOpening t0 = true))
      (splitCycles cur trades).1.
Proof.
  induction trades as [|t trades IH]; intros cur Hqty Hcur; [by constructor|].
  apply Forall_cons in Hqty as [Hq Hqty]. cbn [splitCycles].
  destruct (closesCycle cur t) eqn:Hc.
  - specialize (IH [] Hqty (or_introl eq_refl)).
    destruct (splitCycles [] trades) as [cs open]. cbn [fst] in *.
    apply Forall_cons. split; [|done]. cbn [body closing].
    repeat split; try done.
    unfold closesCycle in Hc. by destruct (isOpening t).
  - apply IH; [done|]. right. destruct Hcur as [->|(t0 & rest & -> & Ht0)].
    + exists t, []. split; [done|]. destruct (isOpening t) eqn:Ho; [done|].
      by rewrite closesCycle_first in Hc.
    + by exists t0, (rest ++ [t]).
Qed.

(** Closing exactly what is open gives back the open quantity. *)
Lemma sub_self_add x :
  (0 <? x) = true -> (x - x <=? epsilon) = true -> x - x + x = x.
Proof.
  rewrite ltb_zero_l, FloatAxioms.leb_spec, sub_spec. intros Hx Hle.
  apply Prim2SF_inj. rewrite add_spec, sub_spec.
  destruct (Prim2SF x) as [s|[]| |[] m e]; try done.
  unfold SF64sub, SFsub. rewrite Z.min_id. unfold shl_align. rewrite Z.sub_diag.
  cbn [fst cond_Zopp]. rewrite ?Z.sub_diag. reflexivity.
Qed.

End Reconstruction.

(** ** Subtracting and adding back a quantity of similar size *)

Section SubtractAddBack.
Import rounding.

Lemma valid_binary_inv s m e :
  valid_binary (S754_finite s m e) = true ->
  fexp prec emax (Z.pos (digits2_pos m) + e) = e /\ e <= 971 /\ Z.pos m < 2 ^ 53.
Proof.
  unfold valid_binary, SpecFloat.valid_binary, bounded, canonical_mantissa.
  intros H. apply andb_prop in H as [H1 H2]. apply Z.eqb_eq in H1.
  apply Z.leb_le in H2. unfold emax, prec in H2.
  split; [done|]. split; [lia|].
  rewrite fexp_eq in H1. pose proof (digits2_pos_bounds m) as [_ Hhi].
  assert (Z.pos (digits2_pos m) <= 53) by lia.
  eapply Z.lt_le_trans; [exact Hhi|]. apply Z.pow_le_mono_r; lia.
Qed.

Lemma shl_align_value m e e' :
  e' <= e -> Z.pos (shl_align m e e').1 = Z.pos m * 2 ^ (e - e').
Proof.
  intros Hle. unfold shl_align. destruct (e' - e) as [|k|k] eqn:Hk; try lia.
  - cbn [fst]. replace (e - e') with 0 by lia. lia.
  - cbn [fst]. rewrite pos_iter_xO_value. f_equal. f_equal. lia.
Qed.

Lemma Zdigits2_shift (m j : Z) :
  0 < m -> 0 <= j -> Zdigits2 (m * 2 ^ j) = Zdigits2 m + j.
Proof.
  intros Hm Hj. pose proof (Zdigits2_bounds m Hm) as [Hlo Hhi].
  pose proof (Zdigits2_pos m Hm) as Hd.
  assert (H2 : 0 < 2 ^ j) by (apply Z.pow_pos_nonneg; lia).
  assert (Hle : Zdigits2 (m * 2 ^ j) <= Zdigits2 m + j).
  { apply Zdigits2_le; [nia|]. rewrite Z.pow_add_r by lia. nia. }
  assert (Hge : Zdigits2 m + j - 1 < Zdigits2 (m * 2 ^ j)).
  { apply Zdigits2_ge; [lia|].
    replace (Zdigits2 m + j - 1) with (Zdigits2 m - 1 + j) by lia.
    rewrite Z.pow_add_r by lia. nia. }
  lia.
Qed.

Lemma rne_shift (m j : Z) : 0 <= j -> rne (m * 2 ^ j) j = m.
Proof.
  intros Hj. unfold rne.
  assert (H2 : 0 < 2 ^ j) by (apply Z.pow_pos_nonneg; lia).
  rewrite Z.div_mul, Z.mod_mul by lia.
  destruct (Z.ltb_spec (2 * 0) (2 ^ j)); [done|lia].
Qed.

(** Rounding a multiple [m * 2^j] of a canonical mantissa at the
    exponent [e - j] gives the canonical number back. *)
Lemma binary_round_canonical_multiple (s : bool) (m p : positive) (e j : Z) :
  fexp prec emax (Z.pos (digits2_pos m) + e) = e -> e <= 971 -> 0 <= j ->
  Z.pos p = Z.pos m * 2 ^ j ->
  binary_round prec emax s p (e - j) = S754_finite s m e.
Proof.
  intros Hcan He Hj Hp. unfold binary_round.
  assert (Hdig : Z.pos (digits2_pos p) = Z.pos (digits2_pos m) + j).
  { change (Z.pos (digits2_pos p)) with (Zdigits2 (Z.pos p)).
    rewrite Hp, Zdigits2_shift by lia. done. }
  rewrite Hdig. replace (Z.pos (digits2_pos m) + j + (e - j))
    with (Z.pos (digits2_pos m) + e) by lia.
  rewrite Hcan.
  assert (Hal : shl_align p (e - j) e = (p, e - j)).
  { unfold shl_align. destruct (e - (e - j)) eqn:Hk; try done. lia. }
  rewrite Hal.
  pose proof (binary_round_aux_arith_exact s (Z.pos p) (e - j) ltac:(lia)) as Hr.
  cbv zeta in Hr. rewrite Hr. clear Hr.
  change (Zdigits2 (Z.pos p)) with (Z.pos (digits2_pos p)). rewrite Hdig.
  replace (Z.pos (digits2_pos m) + j + (e - j))
    with (Z.pos (digits2_pos m) + e) by lia.
  rewrite Hcan. replace (e - (e - j)) with j by lia. rewrite Z.max_r by lia.
  rewrite Hp, rne_shift by lia.
  replace (e - j + j) with e by lia.
  change (Zdigits2 (Z.pos m)) with (Z.pos (digits2_pos m)).
  rewrite Hcan, Z.sub_diag. cbn [Z.max Z.compare]. rewrite Z.pow_0_r, Z.div_1_r.
  rewrite Z.add_0_r.
  destruct (Z.leb_spec e (emax - prec)); [done|]. unfold emax, prec in *. lia.
Qed.

(** Rounding an integer below [2^53] is exact. *)
Lemma binary_round_small (s : bool) (p : positive) (e : Z) :
  Z.pos p < 2 ^ 53 -> -1074 <= e <= 971 ->
  exists (mz : positive) (ez : Z),
    binary_round prec emax s p e = S754_finite s mz ez
    /\ -1074 <= ez <= e /\ Z.pos mz = Z.pos p * 2 ^ (e - ez).
Proof.
  intros Hp He. unfold binary_round.
  set (ez := fexp prec emax (Z.pos (digits2_pos p) + e)).
  assert (Hd : Z.pos (digits2_pos p) <= 53).
  { change (Z.pos (digits2_pos p)) with (Zdigits2 (Z.pos p)).
    apply Zdigits2_le; lia. }
  assert (Hez : -1074 <= ez <= e) by (unfold ez; rewrite fexp_eq; lia).
  pose proof (shl_align_value p e ez ltac:(lia)) as Hval.
  pose proof (shl_align_snd p e ez) as Hsnd. rewrite Z.min_r in Hsnd by lia.
  destruct (shl_align p e ez) as [mz ez'] eqn:Hal. cbn [fst snd] in *. subst ez'.
  exists mz, ez. split; [|done].
  apply binary_round_aux_canonical; [|lia].
  change (Z.pos (digits2_pos mz)) with (Zdigits2 (Z.pos mz)).
  rewrite Hval, Zdigits2_shift by lia.
  change (Zdigits2 (Z.pos p)) with (Z.pos (digits2_pos p)).
  replace (Z.pos (digits2_pos p) + (e - ez) + ez) with (Z.pos (digits2_pos p) + e) by lia.
  done.
Qed.

Lemma pow2_split (a b c : Z) : c <= b <= a -> 2 ^ (a - c) = 2 ^ (a - b) * 2 ^ (b - c).
Proof. intros H. rewrite <- Z.pow_add_r by lia. f_equal. lia. Qed.

(** Two canonical numbers of the same value are the same. *)
Lemma canonical_unique (mx my : positive) (ex ey : Z) :
  fexp prec emax (Z.pos (digits2_pos mx) + ex) = ex ->
  fexp prec emax (Z.pos (digits2_pos my) + ey) = ey ->
  Z.pos mx * 2 ^ (ex - Z.min ex ey) = Z.pos my * 2 ^ (ey - Z.min ex ey) ->
  mx = my /\ ex = ey.
Proof.
  intros Hx Hy Heq.
  assert (Hd : Z.pos (digits2_pos mx) + ex = Z.pos (digits2_pos my) + ey).
  { apply (f_equal Zdigits2) in Heq. rewrite !Zdigits2_shift in Heq by lia.
    change (Zdigits2 (Z.pos mx)) with (Z.pos (digits2_pos mx)) in Heq.
    change (Zdigits2 (Z.pos my)) with (Z.pos (digits2_pos my)) in Heq. lia. }
  assert (He : ex = ey) by (rewrite <- Hx, <- Hy, Hd; done).
  subst ey. split; [|done]. rewrite Z.min_id, Z.sub_diag in Heq. lia.
Qed.

(** Sterbenz: for [y/2 <= x <= 2y] the difference [x - y] is exact, and
    adding [y] back returns [x]. *)
Lemma SFsub_add_back (mx my : positive) (ex ey : Z) :
  valid_binary (S754_finite false mx ex) = true ->
  valid_binary (S754_finite false my ey) = true ->
  Z.pos mx * 2 ^ (ex - Z.min ex ey) <= 2 * (Z.pos my * 2 ^ (ey - Z.min ex ey)) ->
  Z.pos my * 2 ^ (ey - Z.min ex ey) <= 2 * (Z.pos mx * 2 ^ (ex - Z.min ex ey)) ->
  SF64add (SF64sub (S754_finite false mx ex) (S754_finite false my ey))
    (S754_finite false my ey)
  = S754_finite false mx ex.
Proof.
  intros Hvx Hvy Hxy Hyx.
  pose proof (valid_binary_emin _ _ _ Hvx) as Hex.
  pose proof (valid_binary_emin _ _ _ Hvy) as Hey.
  destruct (valid_binary_inv _ _ _ Hvx) as (Hcx & Hex' & Hmx).
  destruct (valid_binary_inv _ _ _ Hvy) as (Hcy & Hey' & Hmy).
  unfold SF64sub, SFsub. set (e0 := Z.min ex ey) in *.
  rewrite (shl_align_value mx ex e0), (shl_align_value my ey e0) by lia.
  cbn [cond_Zopp].
  set (X := Z.pos mx * 2 ^ (ex - e0)) in *. set (Y := Z.pos my * 2 ^ (ey - e0)) in *.
  assert (HX : 0 < X) by (unfold X; apply Z.mul_pos_pos; [lia|apply Z.pow_pos_nonneg; lia]).
  assert (HY : 0 < Y) by (unfold Y; apply Z.mul_pos_pos; [lia|apply Z.pow_pos_nonneg; lia]).
  assert (Hsmall : Z.abs (X - Y) < 2 ^ 53).
  { destruct (Z.min_spec ex ey) as [[_ E]|[_ E]]; fold e0 in E.
    - assert (X = Z.pos mx) by (unfold X; rewrite E, Z.sub_diag; lia). lia.
    - assert (Y = Z.pos my) by (unfold Y; rewrite E, Z.sub_diag; lia). lia. }
  assert (He0 : -1074 <= e0 <= 971) by lia.
  destruct (X - Y) as [|p|p] eqn:HD.
  - cbn [binary_normalize]. unfold SF64add. cbn [SFadd].
    destruct (canonical_unique mx my ex ey Hcx Hcy) as [-> ->]; [|done].
    fold e0 X Y. lia.
  - cbn [binary_normalize].
    destruct (binary_round_small false p e0 ltac:(lia) He0) as (mz & ez & -> & Hez & Hmz).
    unfold SF64add, SFadd. set (e1 := Z.min ez ey).
    rewrite (shl_align_value mz ez e1), (shl_align_value my ey e1) by lia.
    cbn [cond_Zopp].
    assert (Hsum : Z.pos mz * 2 ^ (ez - e1) + Z.pos my * 2 ^ (ey - e1)
                   = Z.pos mx * 2 ^ (ex - e1)).
    { rewrite Hmz, <- Z.mul_assoc, <- (pow2_split e0 ez e1) by lia.
      rewrite (pow2_split ey e0 e1), (pow2_split ex e0 e1) by lia.
      rewrite !Z.mul_assoc. fold X Y. lia. }
    rewrite Hsum.
    assert (Hpos : 0 < Z.pos mx * 2 ^ (ex - e1))
      by (apply Z.mul_pos_pos; [lia|apply Z.pow_pos_nonneg; lia]).
    destruct (Z.pos mx * 2 ^ (ex - e1)) as [|q|q] eqn:Hq; try lia.
    cbn [binary_normalize]. replace e1 with (ex - (ex - e1)) at 1 by lia.
    apply binary_round_canonical_multiple; try done; lia.
  - cbn [binary_normalize].
    destruct (binary_round_small true p e0 ltac:(lia) He0) as (mz & ez & -> & Hez & Hmz).
    unfold SF64add, SFadd. set (e1 := Z.min ez ey).
    rewrite (shl_align_value mz ez e1), (shl_align_value my ey e1) by lia.
    cbn [cond_Zopp].
    assert (Hsum : - (Z.pos mz * 2 ^ (ez - e1)) + Z.pos my * 2 ^ (ey - e1)
                   = Z.pos mx * 2 ^ (ex - e1)).
    { rewrite Hmz, <- Z.mul_assoc, <- (pow2_split e0 ez e1) by lia.
      rewrite (pow2_split ey e0 e1), (pow2_split ex e0 e1) by lia.
      rewrite !Z.mul_assoc. fold X Y. lia. }
    rewrite Hsum.
    assert (Hpos : 0 < Z.pos mx * 2 ^ (ex - e1))
      by (apply Z.mul_pos_pos; [lia|apply Z.pow_pos_nonneg; lia]).
    destruct (Z.pos mx * 2 ^ (ex - e1)) as [|q|q] eqn:Hq; try lia.
    cbn [binary_normalize]. replace e1 with (ex - (ex - e1)) at 1 by lia.
    apply binary_round_canonical_multiple; try done; lia.
Qed.

End SubtractAddBack.

Section SubtractAddBackPrim.
Import rounding.
#[local] Open Scope float_scope.

(** For quantities within a factor two of each other, [x - y + y = x]. *)
Lemma sub_add_back x y :
  atMostTwice x y = true -> atMostTwice y x = true -> x - y + y = x.
Proof.
  unfold atMostTwice. intros Hxy Hyx. apply Prim2SF_inj.
  rewrite add_spec, sub_spec.
  pose proof (Prim2SF_valid x) as Hvx. pose proof (Prim2SF_valid y) as Hvy.
  destruct (Prim2SF x) as [sx|sx| |[] mx ex]; try done.
  destruct (Prim2SF y) as [sy|sy| |[] my ey]; try done.
  cbv zeta in Hxy, Hyx. apply Z.leb_le in Hxy, Hyx.
  rewrite (Z.min_comm ey ex) in Hyx.
  by apply SFsub_add_back.
Qed.

End SubtractAddBackPrim.

Section ReconstructionCycles.
Import go trader api f64 cycles rounding.
#[local] Open Scope float_scope.

Lemma processSymbol_fold a symbol trades :
  processSymbol a (symbol, trades)
  = analysis (fold_left (processTrade symbol) trades
                (mkState zeroPosition zeroPosition a)).
Proof.
  unfold processSymbol. destruct (Z.eqb_spec (len trades) 0) as [E|_]; [|done].
  apply len_nil_iff in E. by subst.
Qed.

(** What the outcome of a closed cycle holds. *)
Lemma cycleOutcome_fields symbol c :
  closesCycle (body c) (closing c) = true ->
  (0 <? Qty (closing c)) = true ->
  isOpening (closing c) = false ->
  (body c = [] \/ exists t0 rest, body c = t0 :: rest /\ isOpening t0 = true) ->
  let o := cycleOutcome symbol c in
  (runningQty (fills c) <=? epsilon) = true
  /\ TradeOutcome.PnL o = realizedOf c - commissionOf c
  /\ TradeOutcome.Quantity o = runningQty (body c) - Qty (closing c) + Qty (closing c)
  /\ (Qty (closing c) = runningQty (body c) ->
      TradeOutcome.Quantity o = runningQty (body c))
  /\ (atMostTwice (runningQty (body c)) (Qty (closing c)) = true ->
      atMostTwice (Qty (closing c)) (runningQty (body c)) = true ->
      TradeOutcome.Quantity o = runningQty (body c))
  /\ TradeOutcome.OpenPrice o = costOf c / TradeOutcome.Quantity o
  /\ TradeOutcome.MarginUsed o
     = TradeOutcome.OpenPrice o * TradeOutcome.Quantity o / float64_of_int leverage
  /\ TradeOutcome.CloseTime o = Time (closing c)
  /\ TradeOutcome.Duration o
     = wrap64 (wrap64 (TradeOutcome.CloseTime o - TradeOutcome.OpenTime o) * 1000000)
  /\ (int_range ((TradeOutcome.CloseTime o - TradeOutcome.OpenTime o) * 1000000) ->
      TradeOutcome.Duration o
      = ((TradeOutcome.CloseTime o - TradeOutcome.OpenTime o) * 1000000)%Z)
  /\ ((exists t0 rest, body c = t0 :: rest /\ isOpening t0 = true
                       /\ TradeOutcome.OpenTime o = Time t0)
      \/ (body c = [] /\ TradeOutcome.OpenTime o = 0%Z)).
Proof.
  intros Hc Hq Hclose Hbody o.
  assert (Hrun : (runningQty (fills c) <=? epsilon) = true).
  { unfold closesCycle in Hc. rewrite Hclose in Hc. done. }
  split; [done|]. split; [done|]. split; [done|].
  split.
  { intros E. subst o. cbn [cycleOutcome TradeOutcome.Quantity]. unfold quantityOf.
    rewrite <- E. apply sub_self_add; [done|].
    unfold fills in Hrun. rewrite runningQty_snoc, Hclose, <- E in Hrun. done. }
  split. { intros H1 H2. by apply sub_add_back. }
  split; [done|]. split; [done|]. split; [done|]. split; [done|].
  split.
  { intros Hr. subst o. cbn [cycleOutcome TradeOutcome.Duration TradeOutcome.CloseTime
                              TradeOutcome.OpenTime] in *.
    unfold durationOf. unfold int_range in Hr.
    rewrite (wrap64_id (Time (closing c) - _)) by (unfold int_range; lia).
    by rewrite wrap64_id. }
  subst o. cbn [cycleOutcome TradeOutcome.OpenTime]. unfold fills.
  destruct Hbody as [E|(t0 & rest & E & Ht0)].
  - right. split; [done|]. rewrite E. unfold firstOpeningTime, openingFills.
    cbn [app List.filter]. by rewrite Hclose.
  - left. exists t0, rest. split; [done|]. split; [done|]. rewrite E.
    unfold firstOpeningTime, openingFills. cbn [app List.filter]. by rewrite Ht0.
Qed.

(** C1 (as the code behaves). For the fills of one symbol, all of
    positive quantity: the loop appends one outcome per closed cycle of
    each accumulator, in the order of the cycles, where a cycle ends with
    the closing fill that takes the running quantity to at most 0.0001.
    The outcome's PnL is the realized PnL less the commission summed over
    the closing fills of the cycle; its quantity is the quantity open
    before the closing fill, less and plus the closing quantity, which
    is the open quantity itself when the two are within a factor two of
    each other; its margin is average open price times quantity over the leverage 5; its
    duration runs from the first opening fill of the cycle, or from time
    0 for a cycle that is a lone closing fill. An accumulator whose last
    cycle is closed is back at its zero state. *)
Theorem reconstruction_cycles (symbol : string) (trades : list Trade)
  (a : PerformanceAnalysis.t) :
  (len trades < 2 ^ 63)%Z -> positiveQty trades ->
  let st := fold_left (processTrade symbol) trades
              (mkState zeroPosition zeroPosition a) in
  let cyclesOf side := closedCycles (sideFills side trades) in
  processSymbol a (symbol, trades) = analysis st
  /\ exists outcomes,
       PerformanceAnalysis.RecentTrades (analysis st)
       = PerformanceAnalysis.RecentTrades a ++ outcomes
       /\ (forall side,
             sideOutcomes side outcomes = map (cycleOutcome symbol) (cyclesOf side))
       /\ len outcomes = (len (cyclesOf Long) + len (cyclesOf Short))%Z
       /\ (forall side, getPos side st = accumulate (openCycle (sideFills side trades)))
       /\ (forall side, openCycle (sideFills side trades) = [] ->
                        getPos side st = zeroPosition)
       /\ (forall side c, c ∈ cyclesOf side ->
             let o := cycleOutcome symbol c in
             (runningQty (fills c) <=? epsilon) = true
             /\ TradeOutcome.PnL o = realizedOf c - commissionOf c
             /\ TradeOutcome.Quantity o
                = runningQty (body c) - Qty (closing c) + Qty (closing c)
             /\ (Qty (closing c) = runningQty (body c) ->
                 TradeOutcome.Quantity o = runningQty (body c))
             /\ (atMostTwice (runningQty (body c)) (Qty (closing c)) = true ->
                 atMostTwice (Qty (closing c)) (runningQty (body c)) = true ->
                 TradeOutcome.Quantity o = runningQty (body c))
             /\ TradeOutcome.OpenPrice o = costOf c / TradeOutcome.Quantity o
             /\ TradeOutcome.MarginUsed o
                = TradeOutcome.OpenPrice o * TradeOutcome.Quantity o
                  / float64_of_int leverage
             /\ TradeOutcome.CloseTime o = Time (closing c)
             /\ TradeOutcome.Duration o
                = wrap64 (wrap64 (TradeOutcome.CloseTime o - TradeOutcome.OpenTime o)
                          * 1000000)
             /\ (int_range ((TradeOutcome.CloseTime o - TradeOutcome.OpenTime o)
                            * 1000000) ->
                 TradeOutcome.Duration o
                 = ((TradeOutcome.CloseTime o - TradeOutcome.OpenTime o) * 1000000)%Z)
             /\ ((exists t0 rest, body c = t0 :: rest /\ isOpening t0 = true
                                  /\ TradeOutcome.OpenTime o = Time t0)
                 \/ (body c = [] /\ TradeOutcome.OpenTime o = 0%Z))).
Proof.
  intros Hlen Hqty st cyclesOf. split; [apply processSymbol_fold|].
  destruct (fold_processTrade_appends symbol trades
              (mkState zeroPosition zeroPosition a)) as (outcomes & Hout & Hsides).
  fold st in Hout. cbn [analysis] in Hout. exists outcomes.
  assert (Hside : forall side,
             sideOutcomes side outcomes = map (cycleOutcome symbol) (cyclesOf side)
             /\ getPos side st = accumulate (openCycle (sideFills side trades))).
  { intros side.
    destruct (fold_processTrade_side symbol side trades
                (mkState zeroPosition zeroPosition a) [] ltac:(by destruct side)
                underWay_nil ltac:(change (len (@nil Trade)) with 0%Z; lia) Hqty)
      as [Ho Hp].
    fold st in Ho, Hp. cbn [analysis] in Ho. split; [|done].
    rewrite Hout in Ho. unfold sideOutcomes in Ho. rewrite List.filter_app in Ho.
    by apply app_inv_head in Ho. }
  split; [done|]. split; [intros side; apply Hside|].
  split.
  { rewrite <- (sideOutcomes_partition outcomes Hsides).
    rewrite (proj1 (Hside Long)), (proj1 (Hside Short)). by rewrite !len_map. }
  split; [intros side; apply Hside|].
  split. { intros side E. rewrite (proj2 (Hside side)), E. done. }
  intros side c Hin.
  assert (Hpos : positiveQty (sideFills side trades)).
  { unfold positiveQty, sideFills in *. apply List.Forall_forall.
    intros t [Ht _]%List.filter_In. revert t Ht. by apply List.Forall_forall. }
  pose proof (splitCycles_shape (sideFills side trades) [] Hpos (or_introl eq_refl))
    as Hshape.
  rewrite Forall_forall in Hshape. destruct (Hshape c Hin) as (H1 & H2 & H3 & H4).
  by apply cycleOutcome_fields.
Qed.

End ReconstructionCycles.

Section ReconstructionScenario.
Import go trader api cycles.
#[local] Open Scope float_scope.

(** A long position opened in two fills and closed in two, interleaved
    with a short round trip: two outcomes, the short one first. *)
Lemma reconstruction_cycles_witness :
  let trades :=
    [mkTrade "BUY" "LONG" 100 1 0 0.1 1000; mkTrade "SELL" "SHORT" 50 4 0 0.1 1500;
     mkTrade "BUY" "LONG" 104 1 0 0.1 2000; mkTrade "BUY" "SHORT" 49 4 4 0.2 2500;
     mkTrade "SELL" "LONG" 110 0.5 4 0.1 3000; mkTrade "SELL" "LONG" 112 1.5 15 0.3 4000] in
  let a := processSymbol emptyAnalysis ("BTCUSDT", trades) in
  (len trades < 2 ^ 63)%Z /\ positiveQty trades
  /\ len (PerformanceAnalysis.RecentTrades a) = 2%Z
  /\ map TradeOutcome.Side (PerformanceAnalysis.RecentTrades a) = ["short"; "long"]
  /\ map TradeOutcome.Quantity (PerformanceAnalysis.RecentTrades a) = [4; 1.5]
  /\ map TradeOutcome.PnL (PerformanceAnalysis.RecentTrades a) = [4 - 0.2; 19 - 0.4]
  /\ map TradeOutcome.Duration (PerformanceAnalysis.RecentTrades a)
     = [1000000000%Z; 3000000000%Z].
Proof.
  intros trades a.
  assert (Hlen : (len trades < 2 ^ 63)%Z) by (vm_compute; reflexivity).
  assert (Hqty : positiveQty trades) by (repeat constructor).
  destruct (reconstruction_cycles "BTCUSDT" trades emptyAnalysis Hlen Hqty)
    as (Hsym & outcomes & Hout & _ & Hcount & _).
  split; [exact Hlen|]. split; [exact Hqty|].
  split.
  { unfold a. rewrite Hsym, Hout. etrans; [exact Hcount|]. vm_compute. reflexivity. }
  repeat split; vm_compute; reflexivity.
Defined.

(** The claimed quantity and duration do not always hold. A position of
    0.1 closed by a fill of 0.7 is recorded with quantity
    [0.1 - 0.7 + 0.7], which is not 0.1; and a lone closing fill makes a
    cycle that has no opening fill, whose duration is counted from
    time 0. *)
Lemma reconstruction_not_as_claimed :
  (let trades := [mkTrade "BUY" "LONG" 100 0.1 0 0 1000;
                  mkTrade "SELL" "LONG" 110 0.7 1 0 2000] in
   exists o,
     PerformanceAnalysis.RecentTrades (processSymbol emptyAnalysis ("BTCUSDT", trades))
     = [o]
     /\ runningQty [mkTrade "BUY" "LONG" 100 0.1 0 0 1000] = 0.1
     /\ (TradeOutcome.Quantity o =? 0.1) = false
     /\ (TradeOutcome.Quantity o <? 0.1) = true)
  /\ (let trades := [mkTrade "SELL" "LONG" 110 1 10 0.2 1700000000000] in
      exists o,
        PerformanceAnalysis.RecentTrades
          (processSymbol emptyAnalysis ("BTCUSDT", trades)) = [o]
        /\ openingFills trades = []
        /\ TradeOutcome.OpenTime o = 0%Z
        /\ TradeOutcome.Duration o = (1700000000000 * 1000000)%Z).
Proof.
  split; intros trades; eexists; (split; [vm_compute; reflexivity|]);
    repeat split; vm_compute; reflexivity.
Qed.

End ReconstructionScenario.

(** ** Batch subscription *)

Section BatchSubscribe.
Import go market batching session streams.
Variable ToLower : string -> string.
Variable interval : string.

(** The loop over the batches while every write succeeds. *)
Lemma subscribeBatches_ok batches :
  forall i writes w s,
    conn (client w) = Some s ->
    Forall (fun ok => ok = true) (take (length batches) writes) ->
    exists w',
      subscribeBatches ToLower interval i batches writes w = (w', None)
      /\ newFrames w w' (map (map (klineStream ToLower interval)) batches)
      /\ subscribedStreams (client w')
         = subscribedStreams (client w) ++ map (klineStream ToLower interval) (concat batches)
      /\ conn (client w') = conn (client w)
      /\ subscribers (client w') = subscribers (client w)
      /\ chans w' = chans w.
Proof.
  induction batches as [|batch rest IH]; intros i writes w s Hconn Hok.
  { exists w. unfold newFrames. by rewrite !app_nil_r. }
  cbn [subscribeBatches]. unfold subscribeStreams. cbn [emit client]. rewrite Hconn.
  assert (Hhd : hd true writes = true).
  { destruct writes as [|ok writes]; [done|]. cbn in Hok. by apply Forall_cons in Hok as [-> _]. }
  rewrite Hhd.
  match goal with
  | |- context [subscribeBatches _ _ _ rest (tl writes) ?w1] =>
    destruct (IH (i + 1) (tl writes) w1 s) as (w' & Hrun & Hfr & Hsub & Hc & Hr & Hch)
  end.
  { cbn. done. }
  { destruct writes as [|ok writes]; [cbn [tl]; rewrite take_nil; constructor|].
    cbn in Hok |- *. by apply Forall_cons in Hok as [_ ?]. }
  exists w'. split; [done|]. unfold newFrames in *.
  rewrite Hfr, Hsub, Hc, Hr, Hch, !subscribeFrames_emit. cbn [set_client trace].
  rewrite subscribeFrames_emit.
  cbn [emit set_client client subscribedStreams conn subscribers chans].
  cbn [map concat]. rewrite map_app, !app_nil_r, <- !app_assoc. done.
Qed.

(** The loop over the batches when the write of batch [k] (counted from
    0) is the first to fail. *)
Lemma subscribeBatches_fails batches :
  forall i k writes w s,
    conn (client w) = Some s ->
    (k < length batches)%nat ->
    writes !! k = Some false ->
    Forall (fun ok => ok = true) (take k writes) ->
    exists w',
      subscribeBatches ToLower interval i batches writes w
      = (w', Some (i + Z.of_nat k + 1))
      /\ newFrames w w' (map (map (klineStream ToLower interval)) (take (S k) batches))
      /\ subscribedStreams (client w')
         = subscribedStreams (client w) ++ map (klineStream ToLower interval) (concat (take (S k) batches))
      /\ conn (client w') = conn (client w).
Proof.
  induction batches as [|batch rest IH]; intros i k writes w s Hconn Hk Hfail Hok;
    [simpl in Hk; lia|].
  cbn [subscribeBatches]. unfold subscribeStreams. cbn [emit client]. rewrite Hconn.
  destruct writes as [|ok writes]; [done|]. cbn [hd tl].
  destruct k as [|k].
  - injection Hfail as ->. eexists. split; [f_equal; f_equal; lia|].
    unfold newFrames. rewrite !subscribeFrames_emit. cbn [set_client trace].
    rewrite subscribeFrames_emit.
    cbn [emit set_client client subscribedStreams conn take map concat].
    by rewrite take_0, !app_nil_r.
  - cbn in Hfail, Hok. apply Forall_cons in Hok as [-> Hok].
    match goal with
    | |- context [subscribeBatches _ _ _ rest writes ?w1] =>
      destruct (IH (i + 1) k writes w1 s) as (w' & Hrun & Hfr & Hsub & Hc)
    end; [done|simpl in Hk; lia|done|done|].
    exists w'. split; [rewrite Hrun; f_equal; f_equal; lia|].
    unfold newFrames in *. rewrite Hfr, Hsub, Hc, !subscribeFrames_emit.
    cbn [set_client trace]. rewrite subscribeFrames_emit.
    cbn [emit set_client client subscribedStreams conn].
    change (take (S (S k)) (batch :: rest)) with (batch :: take (S k) rest).
    cbn [map concat]. rewrite map_app, !app_nil_r, <- !app_assoc. done.
Qed.

Lemma splitIntoBatches_batches symbols bs :
  1 <= bs < 2 ^ 63 -> len symbols < 2 ^ 62 ->
  exists batches,
    (forall fuel, (length symbols < fuel)%nat ->
                  splitIntoBatches fuel symbols bs = Some (Done batches))
    /\ concat batches = symbols
    /\ fullButLast bs batches
    /\ boundedBatches bs batches.
Proof.
  intros Hbs Hlen.
  destruct (splitLoop_total (S (length symbols)) symbols bs Hbs Hlen 0 []
              ltac:(lia) ltac:(by left)) as (batches & Hrun & Hcat & Hfull & Hbound).
  { unfold len. lia. }
  exists batches. split; [|done].
  intros fuel Hfuel. unfold splitIntoBatches.
  apply (splitLoop_more_fuel (S (length symbols))); [lia|done].
Qed.

(** X3. A connected client with a batch size of at least 1 whose writes
    all succeed: [BatchSubscribeKlines] returns no error, writes one
    SUBSCRIBE frame per batch of at most [batchSize] stream keys, in the
    order of [symbols], and appends exactly these keys to the streams
    recorded for replay. *)
Theorem BatchSubscribeKlines_ok (symbols : list string) (writes : list bool)
  (w : world) (s : nat) :
  conn (client w) = Some s ->
  1 <= batchSize (client w) < 2 ^ 63 ->
  len symbols < 2 ^ 62 ->
  Forall (fun ok => ok = true) writes ->
  exists w' batches,
    (forall fuel, (length symbols < fuel)%nat ->
       BatchSubscribeKlines fuel ToLower symbols interval writes w
       = Some (Done (w', None)))
    /\ concat batches = symbols
    /\ fullButLast (batchSize (client w)) batches
    /\ boundedBatches (batchSize (client w)) batches
    /\ newFrames w w' (map (map (klineStream ToLower interval)) batches)
    /\ subscribedStreams (client w')
       = subscribedStreams (client w) ++ map (klineStream ToLower interval) symbols
    /\ conn (client w') = Some s
    /\ subscribers (client w') = subscribers (client w)
    /\ chans w' = chans w.
Proof.
  intros Hconn Hbs Hlen Hok.
  destruct (splitIntoBatches_batches symbols _ Hbs Hlen)
    as (batches & Hrun & Hcat & Hfull & Hbound).
  destruct (subscribeBatches_ok batches 0 writes w s Hconn)
    as (w' & Hloop & Hfr & Hsub & Hc & Hr & Hch).
  { apply Forall_take. done. }
  exists w', batches. split.
  { intros fuel Hfuel. unfold BatchSubscribeKlines. by rewrite (Hrun fuel Hfuel), Hloop. }
  rewrite Hcat in Hsub. rewrite Hc. done.
Qed.

(** X4. When the write of batch number [k+1] is the first to fail,
    [BatchSubscribeKlines] returns the error of that batch; the batches
    after it are neither written nor recorded, but the stream keys of
    the failed batch are recorded for replay like those before it. *)
Theorem BatchSubscribeKlines_write_fails (symbols : list string)
  (writes : list bool) (k : nat) (w : world) (s : nat) :
  conn (client w) = Some s ->
  1 <= batchSize (client w) < 2 ^ 63 ->
  len symbols < 2 ^ 62 ->
  (Z.of_nat k * batchSize (client w) < len symbols) ->
  writes !! k = Some false ->
  Forall (fun ok => ok = true) (take k writes) ->
  exists w' batches,
    (forall fuel, (length symbols < fuel)%nat ->
       BatchSubscribeKlines fuel ToLower symbols interval writes w
       = Some (Done (w', Some (Z.of_nat k + 1))))
    /\ concat batches = symbols
    /\ fullButLast (batchSize (client w)) batches
    /\ (k < length batches)%nat
    /\ newFrames w w' (map (map (klineStream ToLower interval)) (take (S k) batches))
    /\ subscribedStreams (client w')
       = subscribedStreams (client w)
         ++ map (klineStream ToLower interval) (concat (take (S k) batches)).
Proof.
  intros Hconn Hbs Hlen Hk Hfail Hok.
  destruct (splitIntoBatches_batches symbols _ Hbs Hlen)
    as (batches & Hrun & Hcat & Hfull & Hbound).
  assert (Hkb : (k < length batches)%nat).
  { destruct (Nat.lt_ge_cases k (length batches)) as [|Hge]; [done|]. exfalso.
    assert (Hsum : len (concat batches) <= Z.of_nat (length batches) * batchSize (client w)).
    { clear -Hbound Hbs. induction Hbound as [|b bs' Hb _ IH]; [simpl; unfold len; simpl; lia|].
      cbn [concat]. rewrite len_app. cbn [length]. lia. }
    rewrite Hcat in Hsum. nia. }
  destruct (subscribeBatches_fails batches 0 k writes w s Hconn Hkb Hfail Hok)
    as (w' & Hloop & Hfr & Hsub & Hc).
  exists w', batches. split.
  { intros fuel Hfuel. unfold BatchSubscribeKlines. rewrite (Hrun fuel Hfuel), Hloop.
    do 3 f_equal. }
  done.
Qed.


End BatchSubscribe.

Section BatchSubscribeScenario.
Import go market batching session streams.

(** Three symbols in batches of two, every write succeeding. *)
Lemma BatchSubscribeKlines_ok_witness :
  let w := (Connect true (NewCombinedStreamsClient 2)).1 in
  exists w',
    BatchSubscribeKlines 4 api.ToLower ["BTCUSDT"; "ETHUSDT"; "SOLUSDT"] "1m" [] w
    = Some (Done (w', None))
    /\ subscribeFrames (trace w')
       = [["btcusdt@kline_1m"; "ethusdt@kline_1m"]; ["solusdt@kline_1m"]]
    /\ subscribedStreams (client w')
       = ["btcusdt@kline_1m"; "ethusdt@kline_1m"; "solusdt@kline_1m"].
Proof.
  intros w.
  destruct (BatchSubscribeKlines_ok api.ToLower "1m" ["BTCUSDT"; "ETHUSDT"; "SOLUSDT"]
              [] w 0%nat eq_refl ltac:(simpl; lia) ltac:(vm_compute; reflexivity)
              (Forall_nil_2 _))
    as (w' & batches & Hrun & _ & _ & _ & _ & Hsub & _).
  exists w'. pose proof (Hrun 4%nat ltac:(simpl; lia)) as H4.
  split; [exact H4|]. vm_compute in H4. injection H4 as <-.
  split; reflexivity.
Defined.

(** Five symbols in batches of two; the second write fails: the error
    names batch 2, the third batch is not sent, and the replay list
    holds the first four stream keys. *)
Lemma BatchSubscribeKlines_write_fails_witness :
  let w := (Connect true (NewCombinedStreamsClient 2)).1 in
  let symbols := ["BTCUSDT"; "ETHUSDT"; "SOLUSDT"; "BNBUSDT"; "XRPUSDT"] in
  exists w',
    BatchSubscribeKlines 6 api.ToLower symbols "1m" [true; false] w
    = Some (Done (w', Some 2))
    /\ subscribeFrames (trace w')
       = [["btcusdt@kline_1m"; "ethusdt@kline_1m"];
          ["solusdt@kline_1m"; "bnbusdt@kline_1m"]]
    /\ subscribedStreams (client w')
       = ["btcusdt@kline_1m"; "ethusdt@kline_1m"; "solusdt@kline_1m"; "bnbusdt@kline_1m"].
Proof.
  intros w symbols.
  destruct (BatchSubscribeKlines_write_fails api.ToLower "1m" symbols [true; false]
              1%nat w 0%nat eq_refl ltac:(simpl; lia) ltac:(vm_compute; reflexivity)
              ltac:(vm_compute; reflexivity) eq_refl
              ltac:(repeat constructor))
    as (w' & batches & Hrun & _).
  exists w'. pose proof (Hrun 6%nat ltac:(simpl; lia)) as H6.
  split; [exact H6|]. vm_compute in H6. injection H6 as <-.
  split; reflexivity.
Defined.


End BatchSubscribeScenario.

(** ** The read loop *)

Section ReadLoop.
Import go market registry session streams.
Variable Unmarshal : string -> option (string * string).

Lemma payloads_cons stream message messages :
  payloads Unmarshal stream (message :: messages)
  = match Unmarshal message with
    | Some (stream', data) =>
      if String.eqb stream' stream then data :: payloads Unmarshal stream messages
      else payloads Unmarshal stream messages
    | None => payloads Unmarshal stream messages
    end.
Proof.
  unfold payloads. cbn [omap list_omap].
  destruct (Unmarshal message) as [[stream' data]|]; [|done].
  by destruct (String.eqb stream' stream).
Qed.

Lemma take_full {A : Type} (l l' : list A) (n : nat) :
  length l = n -> take n (l ++ l') = l.
Proof. intros <-. by rewrite take_app_length. Qed.

(** What one frame does to the buffer of the subscriber of [stream]. *)
Lemma handleCombinedMessage_buffer w message stream ch cs :
  wf w -> subscribers (client w) !! stream = Some ch -> chans w !! ch = Some cs ->
  (length (buf cs) <= cap cs)%nat ->
  exists w' cs',
    handleCombinedMessage Unmarshal message w = Done w'
    /\ wf w' /\ client w' = client w
    /\ subscribeFrames (trace w') = subscribeFrames (trace w)
    /\ chans w' !! ch = Some cs' /\ cap cs' = cap cs
    /\ (length (buf cs') <= cap cs')%nat
    /\ forall rest,
         take (cap cs) (buf cs ++ payloads Unmarshal stream (message :: rest))
         = take (cap cs) (buf cs' ++ payloads Unmarshal stream rest).
Proof.
  intros Hwf Hreg Hcs Hlen.
  destruct (Unmarshal message) as [[stream' data]|] eqn:Hparse.
  2: { exists (emit (Log "parse failed") w), cs.
       unfold handleCombinedMessage. rewrite Hparse. split; [done|].
       split; [by apply (wf_same w)|]. split; [done|].
       split; [by rewrite subscribeFrames_emit, app_nil_r|].
       split; [done|]. split; [done|]. split; [done|].
       intros rest. by rewrite payloads_cons, Hparse. }
  destruct (handleCombinedMessage_cases Unmarshal w message stream' data Hwf Hparse)
    as (w' & Hrun & Hcase).
  pose proof (wf_message Unmarshal w message w' Hwf Hrun) as Hwf'.
  destruct Hwf as (Hopen & Hinj & Hfresh).
  assert (Hlog : forall line,
             subscribeFrames (trace (emit (Log line) w)) = subscribeFrames (trace w))
    by (intros line; by rewrite subscribeFrames_emit, app_nil_r).
  destruct (String.eqb_spec stream' stream) as [->|Hne].
  - rewrite Hreg in Hcase. destruct Hcase as (cs0 & Hcs0 & Hcase).
    rewrite Hcs in Hcs0. injection Hcs0 as <-.
    destruct (Nat.ltb_spec (length (buf cs)) (cap cs)) as [Hfree|Hfull]; subst w'.
    + exists (delivered ch cs data w), (mkChan (buf cs ++ [data]) (cap cs) false).
      split; [done|]. split; [done|]. split; [done|]. split; [done|].
      cbn [delivered chans buf cap]. rewrite lookup_insert_eq.
      split; [done|]. split; [done|].
      split; [rewrite length_app; simpl; lia|].
      intros rest. rewrite payloads_cons, Hparse, String.eqb_refl.
      by rewrite <- app_assoc.
    + exists (emit (Log ("channel full: " ++ stream)) w), cs.
      split; [done|]. split; [done|]. split; [done|]. split; [done|].
      split; [done|]. split; [done|]. split; [done|].
      intros rest. rewrite payloads_cons, Hparse, String.eqb_refl.
      rewrite !take_full by lia. done.
  - assert (Hkeep : forall rest,
               take (cap cs) (buf cs ++ payloads Unmarshal stream (message :: rest))
               = take (cap cs) (buf cs ++ payloads Unmarshal stream rest)).
    { intros rest. rewrite payloads_cons, Hparse.
      by destruct (String.eqb_spec stream' stream). }
    exists w', cs. split; [done|]. split; [done|].
    destruct (subscribers (client w) !! stream') as [ch'|] eqn:Hreg'.
    + destruct Hcase as (cs0 & Hcs0 & Hcase).
      assert (Hch : ch' <> ch) by (intros ->; apply Hne; by eapply Hinj).
      destruct (length (buf cs0) <? cap cs0)%nat; subst w'.
      * split; [done|]. split; [done|].
        cbn [delivered chans]. rewrite lookup_insert_ne by done. done.
      * split; [done|]. split; [done|]. done.
    + subst w'. done.
Qed.

(** The loop over a burst of frames followed by a failed read. *)
Lemma readMessages_burst_loop messages :
  forall fuel w s stream ch cs r rest fuelR dialOk order writes,
    wf w -> done (client w) = false -> conn (client w) = Some s ->
    (length messages < fuel)%nat -> readError r ->
    subscribers (client w) !! stream = Some ch -> chans w !! ch = Some cs ->
    (length (buf cs) <= cap cs)%nat ->
    exists wk line cs',
      readMessages fuel Unmarshal (map ReadOk messages ++ r :: rest)
        fuelR dialOk order writes w
      = handleReconnect fuelR dialOk order writes (emit (Log line) wk)
      /\ wf wk /\ client wk = client w
      /\ subscribeFrames (trace wk) = subscribeFrames (trace w)
      /\ chans wk !! ch = Some cs' /\ cap cs' = cap cs
      /\ buf cs' = take (cap cs) (buf cs ++ payloads Unmarshal stream messages).
Proof.
  induction messages as [|message messages IH];
    intros fuel w s stream ch cs r rest fuelR dialOk order writes
      Hwf Hdone Hconn Hfuel Hr Hreg Hcs Hlen.
  - destruct fuel as [|fuel]; [simpl in Hfuel; lia|].
    cbn [map app readMessages]. rewrite Hdone, Hconn.
    exists w, (match r with ReadTimeout => "read timeout" | _ => "read failed" end), cs.
    split; [by destruct Hr as [-> | ->]|].
    split; [done|]. split; [done|]. split; [done|]. split; [done|]. split; [done|].
    cbn. rewrite app_nil_r. by rewrite take_ge.
  - destruct fuel as [|fuel]; [simpl in Hfuel; lia|].
    cbn [map app readMessages]. rewrite Hdone, Hconn.
    destruct (handleCombinedMessage_buffer w message stream ch cs Hwf Hreg Hcs Hlen)
      as (w1 & cs1 & Hrun & Hwf1 & Hcl1 & Hfr1 & Hcs1 & Hcap1 & Hlen1 & Hbuf1).
    rewrite Hrun.
    destruct (IH fuel w1 s stream ch cs1 r rest fuelR dialOk order writes)
      as (wk & line & cs' & Hk & Hwfk & Hclk & Hfrk & Hcsk & Hcapk & Hbufk);
      try done; try (by rewrite Hcl1); [simpl in Hfuel; lia|].
    exists wk, line, cs'. split; [done|]. split; [done|].
    split; [by rewrite Hclk|]. split; [by rewrite Hfrk|]. split; [done|].
    split; [by rewrite Hcapk|]. rewrite Hbufk, Hcap1. symmetry. apply Hbuf1.
Qed.

(** X6. A connected client reads a burst of frames and then a read
    fails. The loop hands over to [handleReconnect] once, after the
    frames were dispatched in order, without panicking and without
    writing to the socket; with no consumer draining it, the buffer of
    a subscriber then holds its earlier content followed by the payloads
    addressed to its stream, cut at the capacity: the payloads that
    arrive while the buffer is full are the ones dropped. Reads after
    the failed one are not consumed. *)
Theorem readMessages_burst (messages : list string) (r : readResult)
  (rest : list readResult) (fuel fuelR : nat) (dialOk : bool)
  (order : list string) (writes : list bool) (w : world) (s : nat)
  (stream : string) (ch : nat) (cs : chanState) :
  wf w -> done (client w) = false -> conn (client w) = Some s ->
  (length messages < fuel)%nat -> readError r ->
  subscribers (client w) !! stream = Some ch -> chans w !! ch = Some cs ->
  (length (buf cs) <= cap cs)%nat ->
  exists wk line,
    readMessages fuel Unmarshal (map ReadOk messages ++ r :: rest)
      fuelR dialOk order writes w
    = handleReconnect fuelR dialOk order writes (emit (Log line) wk)
    /\ wf wk /\ client wk = client w
    /\ subscribeFrames (trace wk) = subscribeFrames (trace w)
    /\ chans wk !! ch
       = Some (mkChan (take (cap cs) (buf cs ++ payloads Unmarshal stream messages))
                 (cap cs) false).
Proof.
  intros Hwf Hdone Hconn Hfuel Hr Hreg Hcs Hlen.
  destruct (readMessages_burst_loop messages fuel w s stream ch cs r rest fuelR
              dialOk order writes Hwf Hdone Hconn Hfuel Hr Hreg Hcs Hlen)
    as (wk & line & cs' & Hk & Hwfk & Hclk & Hfrk & Hcsk & Hcapk & Hbufk).
  exists wk, line. split; [done|]. split; [done|]. split; [done|]. split; [done|].
  rewrite Hcsk. f_equal. destruct Hwfk as (Hopen & _).
  rewrite <- Hclk in Hreg. destruct (Hopen stream ch Hreg) as (cs2 & Hcs2 & Hopen2).
  rewrite Hcsk in Hcs2. injection Hcs2 as <-.
  destruct cs' as [b c cl]. cbn in *. by subst.
Qed.

End ReadLoop.

Section ReadLoopScenario.
Import go market registry session streams.

(** A subscriber with two slots, four frames of which three are for its
    stream, then a failed read and a failed dial. *)
Lemma readMessages_burst_witness :
  let parse := fun m : string =>
                 match m with
                 | String "a" d => Some ("btcusdt@kline_1m", d)
                 | String "b" d => Some ("ethusdt@kline_1m", d)
                 | _ => None
                 end in
  let w := (AddSubscriber "btcusdt@kline_1m" 2
              (Connect true (NewCombinedStreamsClient 2)).1).1 in
  exists wk line,
    readMessages 5 parse (map ReadOk ["a1"; "a2"; "b9"; "a3"] ++ [ReadFailed])
      0 false [] [] w
    = handleReconnect 0 false [] [] (emit (Log line) wk)
    /\ buf <$> chans wk !! 0%nat = Some ["1"; "2"].
Proof.
  intros parse w.
  assert (Hwf : wf w).
  { apply wf_add. apply (wf_same (NewCombinedStreamsClient 2)); [done..|apply wf_new]. }
  destruct (readMessages_burst parse ["a1"; "a2"; "b9"; "a3"] ReadFailed [] 5 0 false
              [] [] w 0%nat "btcusdt@kline_1m" 0%nat (mkChan [] 2 false)
              Hwf eq_refl eq_refl ltac:(simpl; lia) ltac:(by right) eq_refl eq_refl
              ltac:(simpl; lia))
    as (wk & line & Hrun & _ & _ & _ & Hch).
  exists wk, line. split; [exact Hrun|]. rewrite Hch. reflexivity.
Defined.

End ReadLoopScenario.

(** ** Replaced subscribers, shutdown, sockets *)

Section Lifecycle.
Import go market registry session streams.

(** X7. Registering a stream key again replaces its channel by a fresh
    one: the earlier channel is no longer in the registry, keeps what it
    holds, and is not closed by a later [Close], which closes the new
    channel. A consumer still reading the earlier channel is never told
    that the client shut down. *)
Theorem AddSubscriber_replaces (w : world) (stream : string) (bufferSize old : nat) :
  wf w -> done (client w) = false ->
  subscribers (client w) !! stream = Some old ->
  let w1 := (AddSubscriber stream bufferSize w).1 in
  let new := (AddSubscriber stream bufferSize w).2 in
  new <> old
  /\ subscribers (client w1) !! stream = Some new
  /\ (forall key, subscribers (client w1) !! key <> Some old)
  /\ exists w2 cs,
       Close w1 = Done w2
       /\ chans w !! old = Some cs /\ closed cs = false
       /\ chans w2 !! old = Some cs
       /\ chans w2 !! new = Some (mkChan [] bufferSize true).
Proof.
  intros Hwf Hdone Hreg w1 new.
  pose proof (wf_add w stream bufferSize Hwf) as Hwf1. fold w1 in Hwf1.
  destruct Hwf as (Hopen & Hinj & Hfresh).
  destruct (Hopen stream old Hreg) as (cs & Hcs & Hcl).
  assert (Hne : new <> old).
  { subst new. cbn [AddSubscriber snd]. intros E.
    pose proof (Hfresh old ltac:(by rewrite Hcs)) as Hlt. lia. }
  assert (Hnone : forall key, subscribers (client w1) !! key <> Some old).
  { intros key. subst w1. cbn [AddSubscriber fst client subscribers].
    destruct (decide (key = stream)) as [->|Hk].
    - rewrite lookup_insert_eq. intros [= E]. by apply Hne.
    - rewrite lookup_insert_ne by done. intros Hkey. apply Hk. by eapply Hinj. }
  split; [done|].
  split; [subst w1 new; cbn [AddSubscriber fst snd client subscribers];
          by rewrite lookup_insert_eq|].
  split; [done|].
  destruct (Close_first w1 Hwf1 Hdone)
    as (w2 & Hrun & _ & _ & _ & _ & Hclosed & Hother & _).
  exists w2, cs. split; [done|]. split; [done|]. split; [done|].
  assert (Hold1 : chans w1 !! old = Some cs).
  { subst w1. cbn [AddSubscriber fst chans]. rewrite lookup_insert_ne; [done|].
    intros E. by apply Hne. }
  split; [by rewrite (Hother old Hnone)|].
  destruct (Hclosed stream new) as (cs1 & Hcs1 & _ & Hcs2).
  { subst w1 new. cbn [AddSubscriber fst snd client subscribers].
    by rewrite lookup_insert_eq. }
  subst w1 new. cbn [AddSubscriber fst snd chans] in Hcs1, Hcs2 |- *.
  rewrite lookup_insert_eq in Hcs1. by injection Hcs1 as <-.
Qed.

Lemma closeSubscribers_client entries :
  forall w w',
    closeSubscribers entries w = Done w' ->
    conn (client w') = conn (client w)
    /\ reconnect (client w') = reconnect (client w)
    /\ subscribers (client w')
       = foldl (fun m e => delete e.1 m) (subscribers (client w)) entries.
Proof.
  induction entries as [|[stream ch] entries IH]; intros w w' Hrun.
  { by injection Hrun as <-. }
  cbn [closeSubscribers] in Hrun. destruct (closeChan ch w) as [w1|msg] eqn:Hc; [|done].
  apply IH in Hrun as (H1 & H2 & H3). rewrite H1, H2, H3.
  unfold closeChan in Hc. destruct (chans w !! ch) as [cs|].
  - destruct (closed cs); [done|]. by injection Hc as <-.
  - by injection Hc as <-.
Qed.

Lemma Close_state w w' :
  Close w = Done w' ->
  conn (client w') = None /\ reconnect (client w') = false
  /\ done (client w') = true /\ subscribers (client w') = ∅.
Proof.
  intros Hrun. pose proof (Close_sets_done w w' Hrun) as Hd.
  unfold Close in Hrun. cbn [set_client client done] in Hrun.
  destruct (done (client w)); [done|].
  destruct (conn (client w)) as [s|] eqn:Hc; cbn in Hrun; rewrite ?Hc in Hrun;
    apply closeSubscribers_client in Hrun as (H1 & H2 & H3);
    cbn in H1, H2, H3; by rewrite H1, H2, H3, foldl_delete_all.
Qed.

(** X8. Once [Close] has returned, the client is inert: a reconnection
    attempt does nothing (no dial, no frame), [subscribeStreams] fails
    without recording anything, inbound frames are delivered to nobody,
    and the read loop returns at once. *)
Theorem Close_final (w w' : world) :
  Close w = Done w' ->
  (forall fuel dialOk order writes,
      handleReconnect fuel dialOk order writes w' = Some (Done w'))
  /\ (forall writeOk streams, subscribeStreams writeOk streams w' = (w', false))
  /\ (forall Unmarshal message stream data,
        Unmarshal message = Some (stream, data) ->
        handleCombinedMessage Unmarshal message w' = Done w')
  /\ (forall fuel Unmarshal reads fuelR dialOk order writes,
        readMessages (S fuel) Unmarshal reads fuelR dialOk order writes w'
        = Some (Done w')).
Proof.
  intros (Hconn & Hrec & Hdone & Hsub)%Close_state.
  split. { intros. unfold handleReconnect. by rewrite Hrec. }
  split. { intros. unfold subscribeStreams. by rewrite Hconn. }
  split. { intros Unmarshal message stream data Hparse. unfold handleCombinedMessage.
           by rewrite Hparse, Hsub, lookup_empty. }
  intros. cbn [readMessages]. by rewrite Hdone.
Qed.

Lemma socketCloses_snoc s t e :
  socketCloses s (t ++ [e])
  = (socketCloses s t
     + match e with CloseConn s' => if Nat.eqb s s' then 1 else 0 | _ => 0 end)%nat.
Proof.
  unfold socketCloses. rewrite List.filter_app, length_app. f_equal.
  destruct e as [l|sock m p|s'|sock]; try done. cbn. by destruct (Nat.eqb s s').
Qed.

Lemma socketCloses_emit s e w :
  socketCloses s (trace (emit e w))
  = (socketCloses s (trace w)
     + match e with CloseConn s' => if Nat.eqb s s' then 1 else 0 | _ => 0 end)%nat.
Proof. apply socketCloses_snoc. Qed.

Lemma resubscribeLoop_sockets fuel uniqueStreams :
  forall writes i w w' s,
    resubscribeLoop fuel uniqueStreams writes i w = Some (Done w') ->
    socketCloses s (trace w') = socketCloses s (trace w)
    /\ conn (client w') = conn (client w) /\ nextSock w' = nextSock w.
Proof.
  induction fuel as [|fuel IH]; intros writes i w w' s Hrun; [done|].
  cbn [resubscribeLoop] in Hrun.
  destruct (i <? len uniqueStreams); [|by injection Hrun as <-].
  destruct (_ && _); [|done].
  apply (IH _ _ _ _ s) in Hrun as (H1 & H2 & H3). rewrite H1, H2, H3.
  destruct (conn (client w)) as [sock|] eqn:Hc; [|by rewrite Hc].
  destruct (hd true writes); rewrite !socketCloses_emit, ?Hc; cbn; split; try done; lia.
Qed.

(** X9. A reconnection never closes a socket. After a successful dial
    the client holds a new socket handle, and the handle it held before,
    on which the read had failed, is dropped without having been closed. *)
Theorem handleReconnect_keeps_sockets (fuel : nat) (dialOk : bool)
  (order : list string) (writes : list bool) (w w' : world) :
  handleReconnect fuel dialOk order writes w = Some (Done w') ->
  (forall s, socketCloses s (trace w') = socketCloses s (trace w))
  /\ (reconnect (client w) = true -> dialOk = true ->
      conn (client w') = Some (nextSock w) /\ nextSock w' = S (nextSock w))
  /\ (reconnect (client w) = false \/ dialOk = false ->
      conn (client w') = conn (client w) /\ nextSock w' = nextSock w).
Proof.
  unfold handleReconnect. destruct (reconnect (client w)); cbn [negb].
  2: { intros [= <-]. split; [done|]. split; [done|]. done. }
  destruct dialOk; cbn [Connect].
  2: { intros [= <-]. split; [|split; [done|done]].
       intros s. rewrite !socketCloses_emit. cbn. lia. }
  destruct (0 <? len order).
  - destruct (resubscribeLoop _ _ _ _ _) as [[w2|msg]|] eqn:Hloop; try done.
    intros [= <-].
    split.
    + intros s. rewrite socketCloses_emit.
      rewrite (proj1 (resubscribeLoop_sockets _ _ _ _ _ _ s Hloop)).
      cbn [trace emit]. rewrite !socketCloses_snoc. cbn. lia.
    + destruct (resubscribeLoop_sockets _ _ _ _ _ _ 0%nat Hloop) as (_ & Hc & Hn).
      split; [intros _ _; cbn [emit client nextSock]; by rewrite Hc, Hn|]. by intros [|].
  - intros [= <-].
    split; [|split; [done|by intros [|]]].
    intros s. cbn [trace emit]. rewrite !socketCloses_snoc. cbn. lia.
Qed.

End Lifecycle.

Section LifecycleScenario.
Import go market registry session streams.

(** The key [btcusdt@kline_1m] registered twice, then [Close]. *)
Lemma AddSubscriber_replaces_witness :
  let w := (AddSubscriber "btcusdt@kline_1m" 8 (NewCombinedStreamsClient 2)).1 in
  let w1 := (AddSubscriber "btcusdt@kline_1m" 4 w).1 in
  exists w2,
    Close w1 = Done w2
    /\ closed <$> chans w2 !! 0%nat = Some false
    /\ closed <$> chans w2 !! 1%nat = Some true.
Proof.
  intros w w1.
  destruct (AddSubscriber_replaces w "btcusdt@kline_1m" 4 0
              (wf_add _ _ _ (wf_new 2)) eq_refl eq_refl)
    as (_ & _ & _ & w2 & cs & Hrun & _ & Hcl & Hold & Hnew).
  exists w2. split; [exact Hrun|].
  split; [by rewrite Hold; cbn; rewrite Hcl|].
  etrans; [exact (f_equal (fmap closed) Hnew)|reflexivity].
Defined.

(** A connected client with a subscriber, closed. *)
Lemma Close_final_witness :
  let w := (AddSubscriber "btcusdt@kline_1m" 8
              (Connect true (NewCombinedStreamsClient 50)).1).1 in
  exists w',
    Close w = Done w'
    /\ handleReconnect 10 true ["btcusdt@kline_1m"] [] w' = Some (Done w')
    /\ subscribeStreams true ["ethusdt@kline_1m"] w' = (w', false).
Proof.
  intros w.
  assert (Hwf : wf w).
  { apply wf_add. apply (wf_same (NewCombinedStreamsClient 50)); [done..|apply wf_new]. }
  destruct (Close_first w Hwf eq_refl) as (w' & Hrun & _).
  destruct (Close_final w w' Hrun) as (Hre & Hsub & _).
  exists w'. split; [exact Hrun|]. split; [apply Hre|apply Hsub].
Defined.

(** A reconnection on a connected client that has one recorded stream. *)
Lemma handleReconnect_keeps_sockets_witness :
  let w := (subscribeStreams true ["btcusdt@kline_1m"]
              (Connect true (NewCombinedStreamsClient 2)).1).1 in
  exists w',
    handleReconnect 3 true ["btcusdt@kline_1m"] [] w = Some (Done w')
    /\ conn (client w) = Some 0%nat
    /\ conn (client w') = Some 1%nat
    /\ socketCloses 0 (trace w') = 0%nat.
Proof.
  intros w.
  destruct (handleReconnect 3 true ["btcusdt@kline_1m"] [] w) as [[w'|msg]|] eqn:Hrun;
    [|vm_compute in Hrun; discriminate Hrun..].
  destruct (handleReconnect_keeps_sockets 3 true ["btcusdt@kline_1m"] [] w w' Hrun)
    as (Hs & Hnew & _).
  exists w'. split; [reflexivity|]. split; [reflexivity|].
  split; [apply (Hnew eq_refl eq_refl)|]. by rewrite Hs.
Defined.

End LifecycleScenario.

(** ** What the reconstruction ignores *)

Section IgnoredFills.
Import go trader api stats fills.
#[local] Open Scope float_scope.

Lemma fold_left_ext_in {A B : Type} (f g : A -> B -> A) (l : list B) :
  (forall a b, f a b = g a b) -> forall a, fold_left f l a = fold_left g l a.
Proof.
  intros Hfg. induction l as [|b l IH]; intros a; [done|].
  cbn [fold_left]. by rewrite Hfg, IH.
Qed.

Lemma len_map_eq {A B : Type} (f : A -> B) (l : list A) : len (map f l) = len l.
Proof. unfold len. by rewrite length_map. Qed.

Lemma processTrade_withOpeningFees pnl fee symbol st t :
  processTrade symbol st (withOpeningFees pnl fee t) = processTrade symbol st t.
Proof.
  unfold withOpeningFees. destruct (isOpening t) eqn:Hopen; [|done].
  unfold processTrade, selectPos, isOpening in *. cbn [PositionSide Side].
  destruct (String.eqb (PositionSide t) "LONG");
    [|destruct (String.eqb (PositionSide t) "SHORT"); [|done]];
    by rewrite Hopen.
Qed.

Lemma processSymbol_withOpeningFees pnl fee a symbol trades :
  processSymbol a (symbol, map (withOpeningFees pnl fee) trades)
  = processSymbol a (symbol, trades).
Proof.
  unfold processSymbol. rewrite len_map_eq.
  destruct (len trades =? 0)%Z; [done|]. f_equal.
  generalize (mkState zeroPosition zeroPosition a).
  induction trades as [|t trades IH]; intros st; [done|].
  cbn [map fold_left]. by rewrite processTrade_withOpeningFees, IH.
Qed.

Lemma reconstruct_mapFills f tradeHistory :
  (forall a symbol trades,
      processSymbol a (symbol, f trades) = processSymbol a (symbol, trades)) ->
  reconstruct (mapFills f tradeHistory) = reconstruct tradeHistory.
Proof.
  intros Hf. unfold reconstruct. generalize emptyAnalysis.
  induction tradeHistory as [|[symbol trades] h IH]; intros a; [done|].
  cbn [mapFills map fold_left fst snd]. rewrite Hf. apply IH.
Qed.

(** X10. The analysis does not read what an opening fill reports as
    realized PnL and commission: whatever these values are, the result
    is the same. In particular the commission paid when a position is
    opened is never deducted from the PnL of a trade. *)
Theorem opening_fees_ignored (pnl fee : Trade -> float)
  (tradeHistory : list (string * list Trade)) :
  analyzePerformanceFromBinance (mapFills (map (withOpeningFees pnl fee)) tradeHistory)
  = analyzePerformanceFromBinance tradeHistory.
Proof.
  unfold analyzePerformanceFromBinance. rewrite reconstruct_mapFills; [done|].
  intros. apply processSymbol_withOpeningFees.
Qed.

Lemma fold_processTrade_filter symbol trades :
  forall st,
    fold_left (processTrade symbol) (List.filter hedgeFill trades) st
    = fold_left (processTrade symbol) trades st.
Proof.
  induction trades as [|t trades IH]; intros st; [done|].
  cbn [List.filter fold_left]. unfold hedgeFill at 1.
  destruct (selectPos t) eqn:Hsel; cbn [fold_left]; [apply IH|].
  rewrite IH. f_equal. unfold processTrade. by rewrite Hsel.
Qed.

Lemma processSymbol_filter a symbol trades :
  processSymbol a (symbol, List.filter hedgeFill trades)
  = processSymbol a (symbol, trades).
Proof.
  unfold processSymbol. rewrite fold_processTrade_filter.
  destruct (Z.eqb_spec (len (List.filter hedgeFill trades)) 0) as [E|_].
  - apply len_nil_iff in E. rewrite <- (fold_processTrade_filter symbol trades), E.
    by destruct (len trades =? 0)%Z.
  - destruct (Z.eqb_spec (len trades) 0) as [E|_]; [|done].
    apply len_nil_iff in E. by subst.
Qed.

(** X11. Fills whose position side is neither LONG nor SHORT are
    skipped: removing them from the history does not change the
    analysis. A history that holds no LONG or SHORT fill at all, such as
    that of an account in one-way mode, gives the empty analysis. *)
Theorem other_position_sides_ignored (tradeHistory : list (string * list Trade)) :
  analyzePerformanceFromBinance (mapFills (List.filter hedgeFill) tradeHistory)
  = analyzePerformanceFromBinance tradeHistory
  /\ (Forall (fun entry => Forall (fun t => hedgeFill t = false) entry.2) tradeHistory ->
      analyzePerformanceFromBinance tradeHistory = emptyAnalysis).
Proof.
  assert (Hfilter : reconstruct (mapFills (List.filter hedgeFill) tradeHistory)
                    = reconstruct tradeHistory).
  { apply reconstruct_mapFills. intros. apply processSymbol_filter. }
  split; [unfold analyzePerformanceFromBinance; by rewrite Hfilter|].
  intros Hall. unfold analyzePerformanceFromBinance. rewrite <- Hfilter.
  assert (Hempty : reconstruct (mapFills (List.filter hedgeFill) tradeHistory)
                   = emptyAnalysis).
  { clear Hfilter. unfold reconstruct. generalize emptyAnalysis.
    induction Hall as [|[symbol trades] h Hentry _ IH]; intros a; [done|].
    cbn [mapFills map fold_left fst snd]. cbn [snd] in Hentry.
    assert (Hnil : List.filter hedgeFill trades = []).
    { clear -Hentry. induction Hentry as [|t l Ht _ IHl]; [done|].
      cbn [List.filter]. by rewrite Ht. }
    rewrite Hnil. apply (IH a). }
  rewrite Hempty. unfold computeSymbolStats, computeSharpe, computeStatistics, emptyAnalysis.
  cbn. reflexivity.
Qed.

End IgnoredFills.

(** ** One symbol at a time *)

Section SymbolLocality.
Import go trader api stats fills.
#[local] Open Scope float_scope.

(** One fill acts on the accumulators alone; what it appends to the
    outcomes does not depend on the analysis so far. *)
Lemma processTrade_appends symbol st st' t :
  longPos st = longPos st' -> shortPos st = shortPos st' ->
  longPos (processTrade symbol st t) = longPos (processTrade symbol st' t)
  /\ shortPos (processTrade symbol st t) = shortPos (processTrade symbol st' t)
  /\ exists outs,
       PerformanceAnalysis.RecentTrades (analysis (processTrade symbol st t))
       = PerformanceAnalysis.RecentTrades (analysis st) ++ outs
       /\ PerformanceAnalysis.RecentTrades (analysis (processTrade symbol st' t))
          = PerformanceAnalysis.RecentTrades (analysis st') ++ outs
       /\ Forall (fun o => TradeOutcome.Symbol o = symbol /\ reconstructed o) outs.
Proof.
  intros Hl Hs. unfold processTrade.
  destruct (selectPos t) as [side|].
  2: { split; [done|]. split; [done|]. exists []. by rewrite !app_nil_r. }
  assert (Hpos : getPos side st = getPos side st') by (by destruct side).
  rewrite Hpos.
  destruct (isOpening t).
  { split; [by destruct side|]. split; [by destruct side|].
    exists []. by rewrite !analysis_setPos, !app_nil_r. }
  destruct (fullyClosed _).
  - split; [destruct side; cbn; done|]. split; [destruct side; cbn; done|].
    eexists [_]. rewrite !analysis_setPos. cbn [analysis recordOutcome
      PerformanceAnalysis.RecentTrades]. split; [done|]. split; [done|].
    apply Forall_cons. split; [|done]. split; [done|]. by repeat split.
  - split; [by destruct side|]. split; [by destruct side|].
    exists []. by rewrite !analysis_setPos, !app_nil_r.
Qed.

Lemma fold_processTrade_appends_same symbol trades :
  forall st st',
    longPos st = longPos st' -> shortPos st = shortPos st' ->
    exists outs,
      PerformanceAnalysis.RecentTrades
        (analysis (fold_left (processTrade symbol) trades st))
      = PerformanceAnalysis.RecentTrades (analysis st) ++ outs
      /\ PerformanceAnalysis.RecentTrades
           (analysis (fold_left (processTrade symbol) trades st'))
         = PerformanceAnalysis.RecentTrades (analysis st') ++ outs
      /\ Forall (fun o => TradeOutcome.Symbol o = symbol /\ reconstructed o) outs.
Proof.
  induction trades as [|t trades IH]; intros st st' Hl Hs.
  { exists []. by rewrite !app_nil_r. }
  cbn [fold_left].
  destruct (processTrade_appends symbol st st' t Hl Hs) as (Hl1 & Hs1 & o1 & H1 & H1' & Hf1).
  destruct (IH _ _ Hl1 Hs1) as (o2 & H2 & H2' & Hf2).
  exists (o1 ++ o2). rewrite H2, H2', H1, H1', <- !app_assoc.
  split; [done|]. split; [done|]. by apply Forall_app.
Qed.

(** The outcomes a symbol adds are those of its fills processed alone. *)
Lemma processSymbol_appends a symbol trades :
  PerformanceAnalysis.RecentTrades (processSymbol a (symbol, trades))
  = PerformanceAnalysis.RecentTrades a
    ++ PerformanceAnalysis.RecentTrades (processSymbol emptyAnalysis (symbol, trades))
  /\ Forall (fun o => TradeOutcome.Symbol o = symbol /\ reconstructed o)
       (PerformanceAnalysis.RecentTrades (processSymbol emptyAnalysis (symbol, trades))).
Proof.
  unfold processSymbol. destruct (len trades =? 0)%Z.
  { split; [by rewrite app_nil_r|constructor]. }
  destruct (fold_processTrade_appends_same symbol trades
              (mkState zeroPosition zeroPosition a)
              (mkState zeroPosition zeroPosition emptyAnalysis) eq_refl eq_refl)
    as (outs & H1 & H2 & Hf).
  cbn [analysis emptyAnalysis PerformanceAnalysis.RecentTrades app] in H1, H2.
  by rewrite H1, H2.
Qed.

Lemma ofSymbol_app symbol l l' :
  ofSymbol symbol (l ++ l') = ofSymbol symbol l ++ ofSymbol symbol l'.
Proof. apply List.filter_app. Qed.

Lemma ofSymbol_same symbol (P : TradeOutcome.t -> Prop) l :
  Forall (fun o => TradeOutcome.Symbol o = symbol /\ P o) l -> ofSymbol symbol l = l.
Proof.
  induction 1 as [|o l [Ho _] _ IH]; [done|].
  unfold ofSymbol in *. cbn [List.filter]. by rewrite Ho, String.eqb_refl, IH.
Qed.

Lemma ofSymbol_other symbol symbol' (P : TradeOutcome.t -> Prop) l :
  symbol' <> symbol ->
  Forall (fun o => TradeOutcome.Symbol o = symbol' /\ P o) l -> ofSymbol symbol l = [].
Proof.
  intros Hne. induction 1 as [|o l [Ho _] _ IH]; [done|].
  unfold ofSymbol in *. cbn [List.filter]. rewrite Ho.
  by destruct (String.eqb_spec symbol' symbol).
Qed.

Lemma reconstruct_other_symbols symbol tradeHistory :
  symbol ∉ tradeHistory.*1 ->
  forall a,
    ofSymbol symbol (PerformanceAnalysis.RecentTrades
                       (fold_left processSymbol tradeHistory a))
    = ofSymbol symbol (PerformanceAnalysis.RecentTrades a).
Proof.
  induction tradeHistory as [|[symbol' trades] h IH]; intros Hnot a; [done|].
  cbn [fold_left]. rewrite fmap_cons in Hnot. cbn [fst] in Hnot.
  apply not_elem_of_cons in Hnot as [Hne Hnot].
  rewrite (IH Hnot).
  destruct (processSymbol_appends a symbol' trades) as [-> Hf].
  rewrite ofSymbol_app, (ofSymbol_other symbol symbol' _ _ ltac:(done) Hf).
  by rewrite app_nil_r.
Qed.

Lemma reconstruct_this_symbol symbol trades tradeHistory :
  NoDup tradeHistory.*1 -> (symbol, trades) ∈ tradeHistory ->
  forall a,
    ofSymbol symbol (PerformanceAnalysis.RecentTrades
                       (fold_left processSymbol tradeHistory a))
    = ofSymbol symbol (PerformanceAnalysis.RecentTrades a)
      ++ PerformanceAnalysis.RecentTrades (processSymbol emptyAnalysis (symbol, trades)).
Proof.
  induction tradeHistory as [|[symbol' trades'] h IH]; intros Hnd Hin a.
  { by apply elem_of_nil in Hin. }
  rewrite fmap_cons in Hnd. cbn [fst] in Hnd. apply NoDup_cons in Hnd as [Hnot Hnd].
  cbn [fold_left]. apply elem_of_cons in Hin as [[= <- <-]|Hin].
  - rewrite (reconstruct_other_symbols symbol h Hnot).
    destruct (processSymbol_appends a symbol trades) as [-> Hf].
    by rewrite ofSymbol_app, (ofSymbol_same symbol _ _ Hf).
  - assert (Hne : symbol' <> symbol).
    { intros ->. apply Hnot. apply list_elem_of_fmap. by exists (symbol, trades). }
    rewrite (IH Hnd Hin).
    destruct (processSymbol_appends a symbol' trades') as [-> Hf].
    rewrite ofSymbol_app, (ofSymbol_other symbol symbol' _ _ Hne Hf).
    by rewrite app_nil_r.
Qed.

Lemma analyze_SymbolStats tradeHistory symbol :
  PerformanceAnalysis.SymbolStats (analyzePerformanceFromBinance tradeHistory) !! symbol
  = finishSymbol
    <$> symbolTotals symbol
          (ofSymbol symbol (PerformanceAnalysis.RecentTrades (reconstruct tradeHistory))).
Proof.
  unfold analyzePerformanceFromBinance, computeSymbolStats.
  cbn [PerformanceAnalysis.SymbolStats]. rewrite lookup_fmap. f_equal.
  by destruct (reconstruct_totals tradeHistory) as (_ & _ & _ & _ & _ & _ & _ & _ & H).
Qed.

(** X12. The statistics of a symbol depend on the fills of that symbol
    alone: in a history with one entry per symbol, they are those of the
    analysis run on that entry only, whatever the other symbols trade
    and wherever the entry comes in the enumeration of the map. A symbol
    that is not a key of the history has no statistics. *)
Theorem symbol_stats_local (tradeHistory : list (string * list Trade))
  (symbol : string) :
  NoDup tradeHistory.*1 ->
  (forall trades,
      (symbol, trades) ∈ tradeHistory ->
      PerformanceAnalysis.SymbolStats (analyzePerformanceFromBinance tradeHistory)
        !! symbol
      = PerformanceAnalysis.SymbolStats
          (analyzePerformanceFromBinance [(symbol, trades)]) !! symbol)
  /\ (symbol ∉ tradeHistory.*1 ->
      PerformanceAnalysis.SymbolStats (analyzePerformanceFromBinance tradeHistory)
        !! symbol = None).
Proof.
  intros Hnd. split.
  - intros trades Hin. rewrite !analyze_SymbolStats. do 2 f_equal.
    unfold reconstruct.
    rewrite (reconstruct_this_symbol symbol trades tradeHistory Hnd Hin).
    rewrite (reconstruct_this_symbol symbol trades [(symbol, trades)]); [done| |].
    + apply NoDup_singleton.
    + apply list_elem_of_singleton. done.
  - intros Hnot. rewrite analyze_SymbolStats. unfold reconstruct.
    by rewrite (reconstruct_other_symbols symbol tradeHistory Hnot).
Qed.

(** Every outcome of the reconstruction has the shape of line 1844. *)
Lemma reconstruct_reconstructed tradeHistory :
  forall a,
    Forall reconstructed (PerformanceAnalysis.RecentTrades a) ->
    Forall reconstructed
      (PerformanceAnalysis.RecentTrades (fold_left processSymbol tradeHistory a)).
Proof.
  induction tradeHistory as [|[symbol trades] h IH]; intros a Ha; [done|].
  cbn [fold_left]. apply IH.
  destruct (processSymbol_appends a symbol trades) as [-> Hf].
  apply Forall_app. split; [done|]. eapply Forall_impl; [exact Hf|]. by intros o [_ ?].
Qed.

(** X13. For the trades this function reconstructs, the Sharpe sample
    never uses the estimated base: each outcome carries leverage 5, a
    position value of open price times quantity and a margin of a fifth
    of it, so the estimate is the margin itself, and a trade whose
    margin is not positive is rated on its position value or left out. *)
Theorem estimated_base_unused (tradeHistory : list (string * list Trade))
  (o : TradeOutcome.t) :
  o ∈ PerformanceAnalysis.RecentTrades (analyzePerformanceFromBinance tradeHistory) ->
  reconstructed o
  /\ sharpe.estimatedBase o = TradeOutcome.MarginUsed o
  /\ sharpe.validBase o
     = (if 0 <? TradeOutcome.MarginUsed o then Some (TradeOutcome.MarginUsed o)
        else if 0 <? TradeOutcome.PositionValue o
             then Some (TradeOutcome.PositionValue o)
             else None).
Proof.
  intros Hin. rewrite analyze_RecentTrades in Hin.
  pose proof (reconstruct_reconstructed tradeHistory emptyAnalysis (Forall_nil_2 _)) as Hall.
  rewrite Forall_forall in Hall. pose proof (Hall o Hin) as Ho.
  split; [done|]. destruct Ho as (Hlev & Hpv & Hm).
  assert (Hest : sharpe.estimatedBase o = TradeOutcome.MarginUsed o).
  { unfold sharpe.estimatedBase. cbv zeta. rewrite Hlev, Hm, Hpv. reflexivity. }
  split; [done|]. unfold sharpe.validBase. rewrite Hest.
  destruct (0 <? TradeOutcome.MarginUsed o); [done|].
  destruct (0 <? TradeOutcome.PositionValue o); [done|].
  by rewrite andb_false_r.
Qed.

End SymbolLocality.

Section SymbolLocalityScenario.
Import go trader api stats fills scenario.
#[local] Open Scope float_scope.

(** The round trip on BTCUSDT beside a losing round trip on ETHUSDT. *)
Lemma symbol_stats_local_witness :
  let btc := [scenarioOpen 1700000000000 0 0.1; scenarioClose 1700000060000] in
  let eth := [mkTrade "SELL" "SHORT" 2000 2 0 0.4 1700000000000;
              mkTrade "BUY" "SHORT" 2010 2 (-20) 0.4 1700000090000] in
  let tradeHistory := [("ETHUSDT", eth); ("BTCUSDT", btc)] in
  NoDup tradeHistory.*1
  /\ PerformanceAnalysis.SymbolStats (analyzePerformanceFromBinance tradeHistory)
       !! "BTCUSDT"
     = PerformanceAnalysis.SymbolStats
         (analyzePerformanceFromBinance [("BTCUSDT", btc)]) !! "BTCUSDT"
  /\ PerformanceAnalysis.SymbolStats (analyzePerformanceFromBinance tradeHistory)
       !! "SOLUSDT" = None.
Proof.
  intros btc eth tradeHistory.
  assert (Hnd : NoDup tradeHistory.*1).
  { cbn. apply NoDup_cons. split; [|apply NoDup_singleton].
    intros H%list_elem_of_singleton. discriminate H. }
  destruct (symbol_stats_local tradeHistory "BTCUSDT" Hnd) as [Hin _].
  destruct (symbol_stats_local tradeHistory "SOLUSDT" Hnd) as [_ Hout].
  split; [exact Hnd|]. split.
  - apply Hin. apply elem_of_cons. right. apply elem_of_cons. by left.
  - apply Hout. cbn. intros H. apply elem_of_cons in H as [H|H]; [discriminate H|].
    apply list_elem_of_singleton in H. discriminate H.
Defined.

(** The outcome of the round trip: margin 20, used as the base. *)
Lemma estimated_base_unused_witness :
  let tradeHistory :=
    [("BTCUSDT", [scenarioOpen 1700000000000 0 0.1; scenarioClose 1700000060000])] in
  exists o,
    PerformanceAnalysis.RecentTrades (analyzePerformanceFromBinance tradeHistory) = [o]
    /\ sharpe.estimatedBase o = TradeOutcome.MarginUsed o
    /\ sharpe.validBase o = Some 20.
Proof.
  intros tradeHistory. eexists. split; [reflexivity|].
  match goal with
  | |- sharpe.estimatedBase ?o = _ /\ _ =>
    destruct (estimated_base_unused tradeHistory o) as (_ & Hest & Hbase)
  end.
  { apply list_elem_of_here. }
  split; [exact Hest|]. etrans; [exact Hbase|reflexivity].
Defined.

End SymbolLocalityScenario.

(** ** The equity history *)

Section EquityHistory.
Import go equity.
#[local] Open Scope float_scope.
Variable Format : Z -> string.

(** The facts that tie a point of the history to its record and to the
    base in force. *)
Lemma equityStep_point (st : float * list EquityPoint.t) record :
  (0 <? st.1) = true ->
  let account := DecisionRecord.State record in
  let base := if 0 <? AccountState.InitialBalance account
              then AccountState.InitialBalance account else st.1 in
  (0 <? base) = true
  /\ (equityStep Format st record).1 = base
  /\ exists p,
       (equityStep Format st record).2 = st.2 ++ [p]
       /\ EquityPoint.Timestamp p = Format (DecisionRecord.Timestamp record)
       /\ EquityPoint.TotalEquity p
          = AccountState.TotalBalance account + AccountState.TotalUnrealizedProfit account
       /\ EquityPoint.TotalPnL p = EquityPoint.TotalEquity p - base
       /\ EquityPoint.TotalPnLPct p = EquityPoint.TotalPnL p / base * 100
       /\ EquityPoint.AvailableBalance p = AccountState.AvailableBalance account
       /\ EquityPoint.PositionCount p = AccountState.PositionCount account
       /\ EquityPoint.MarginUsedPct p = AccountState.MarginUsedPct account
       /\ EquityPoint.CycleNumber p = DecisionRecord.CycleNumber record.
Proof.
  intros Hpos account base.
  assert (Hbase : (0 <? base) = true).
  { subst base. by destruct (0 <? AccountState.InitialBalance account) eqn:E. }
  split; [done|]. split; [done|].
  unfold equityStep. fold account. fold base. rewrite Hbase.
  eexists. split; [reflexivity|]. by repeat split.
Qed.

Lemma baseAfter_snoc ib seen record :
  baseAfter ib (seen ++ [record])
  = if 0 <? AccountState.InitialBalance (DecisionRecord.State record)
    then AccountState.InitialBalance (DecisionRecord.State record)
    else baseAfter ib seen.
Proof.
  unfold baseAfter. rewrite map_app, List.filter_app. cbn [map List.filter].
  destruct (0 <? AccountState.InitialBalance (DecisionRecord.State record)).
  - by rewrite last_snoc.
  - by rewrite app_nil_r.
Qed.

Lemma equity_fold ib records :
  (0 <? ib) = true ->
  let st := fold_left (equityStep Format) records (ib, []) in
  st.1 = baseAfter ib records
  /\ (0 <? st.1) = true
  /\ length st.2 = length records
  /\ forall i record,
       records !! i = Some record ->
       let account := DecisionRecord.State record in
       let base := baseAfter ib (take (S i) records) in
       (0 <? base) = true
       /\ exists p,
            st.2 !! i = Some p
            /\ EquityPoint.Timestamp p = Format (DecisionRecord.Timestamp record)
            /\ EquityPoint.TotalEquity p
               = AccountState.TotalBalance account
                 + AccountState.TotalUnrealizedProfit account
            /\ EquityPoint.TotalPnL p = EquityPoint.TotalEquity p - base
            /\ EquityPoint.TotalPnLPct p = EquityPoint.TotalPnL p / base * 100
            /\ EquityPoint.AvailableBalance p = AccountState.AvailableBalance account
            /\ EquityPoint.PositionCount p = AccountState.PositionCount account
            /\ EquityPoint.MarginUsedPct p = AccountState.MarginUsedPct account
            /\ EquityPoint.CycleNumber p = DecisionRecord.CycleNumber record.
Proof.
  intros Hib. induction records as [|r records IH] using rev_ind; cbv zeta.
  { split; [done|]. split; [done|]. split; [done|]. intros i record Hi. done. }
  cbv zeta in IH. destruct IH as (Hb & Hpos & Hlen & Hpts).
  rewrite fold_left_app. cbn [fold_left].
  set (st := fold_left (equityStep Format) records (ib, [])) in *.
  destruct (equityStep_point st r Hpos) as (Hpos' & Hb' & p & Hhist & Hp).
  cbv zeta in Hpos', Hb', Hp.
  rewrite Hb in Hb', Hpos'. rewrite <- baseAfter_snoc in Hb', Hpos'.
  split; [done|]. split; [by rewrite Hb'|].
  split; [rewrite Hhist, !length_app, Hlen; done|].
  intros i record Hi. rewrite Hhist.
  destruct (decide (i < length records)%nat) as [Hlt|Hge].
  - rewrite lookup_app_l in Hi by done.
    rewrite take_app_le by lia. rewrite lookup_app_l by (rewrite Hlen; done).
    by apply Hpts.
  - pose proof (lookup_lt_Some _ _ _ Hi) as Hi'. rewrite length_app in Hi'.
    cbn in Hi'. assert (i = length records) as -> by lia.
    rewrite list_lookup_middle in Hi by done. injection Hi as <-.
    rewrite take_ge by (rewrite length_app; cbn; lia).
    split; [done|]. exists p. rewrite list_lookup_middle by done.
    rewrite Hb, <- baseAfter_snoc in Hp. done.
Qed.

(** X14. With a positive initial balance in the trader's status, the
    handler answers with one point per record, in order. The base of a
    point is the initial balance of the latest record so far that
    carries a positive one, and the status value before any does: a
    record without one keeps the base of the record before it. The base
    is always positive, so the PnL percentage is always
    [(equity - base) / base * 100], never the zero of the guard. *)
Theorem handleEquityHistory_points (query : string + string)
  (GetTrader : string -> string + traderView) (traderID : string)
  (trader : traderView) (records : list DecisionRecord.t) (ib : float) :
  query = inr traderID -> GetTrader traderID = inr trader ->
  latestRecords trader = inr records ->
  initialBalance trader = Some ib -> (0 <? ib) = true ->
  exists history,
    handleEquityHistory Format query GetTrader = HistoryJSON history
    /\ length history = length records
    /\ forall i record,
         records !! i = Some record ->
         let account := DecisionRecord.State record in
         let base := baseAfter ib (take (S i) records) in
         (0 <? base) = true
         /\ exists p,
              history !! i = Some p
              /\ EquityPoint.Timestamp p = Format (DecisionRecord.Timestamp record)
              /\ EquityPoint.TotalEquity p
                 = AccountState.TotalBalance account
                   + AccountState.TotalUnrealizedProfit account
              /\ EquityPoint.TotalPnL p = EquityPoint.TotalEquity p - base
              /\ EquityPoint.TotalPnLPct p = EquityPoint.TotalPnL p / base * 100
              /\ EquityPoint.AvailableBalance p = AccountState.AvailableBalance account
              /\ EquityPoint.PositionCount p = AccountState.PositionCount account
              /\ EquityPoint.MarginUsedPct p = AccountState.MarginUsedPct account
              /\ EquityPoint.CycleNumber p = DecisionRecord.CycleNumber record.
Proof.
  intros -> Htrader Hrecords Hstatus Hib.
  unfold handleEquityHistory. rewrite Htrader, Hrecords, Hstatus, Hib.
  rewrite (positive_or_nan_nonzero ib (or_introl Hib)).
  destruct (equity_fold ib records Hib) as (_ & _ & Hlen & Hpts).
  eexists. split; [reflexivity|]. split; [done|]. exact Hpts.
Qed.

(** X15. The handler answers with a history exactly when the trader's
    status holds a positive initial balance. When it holds none, or one
    that is zero, negative or NaN, the answer is the error 500 whatever
    the records contain, even if each of them carries its own positive
    initial balance. *)
Theorem handleEquityHistory_needs_initial_balance (query : string + string)
  (GetTrader : string -> string + traderView) (traderID : string)
  (trader : traderView) (records : list DecisionRecord.t) :
  query = inr traderID -> GetTrader traderID = inr trader ->
  latestRecords trader = inr records ->
  ((exists history, handleEquityHistory Format query GetTrader = HistoryJSON history)
   <-> exists ib, initialBalance trader = Some ib /\ (0 <? ib) = true)
  /\ ((forall ib, initialBalance trader = Some ib -> (0 <? ib) = false) ->
      handleEquityHistory Format query GetTrader
      = ErrorJSON 500 "无法获取初始余额").
Proof.
  intros -> Htrader Hrecords. unfold handleEquityHistory.
  rewrite Htrader, Hrecords.
  destruct (initialBalance trader) as [ib|].
  - destruct (0 <? ib) eqn:Hib.
    + rewrite (positive_or_nan_nonzero ib (or_introl Hib)).
      split; [split; [by exists ib|by eexists]|].
      intros Hnot. by rewrite (Hnot ib eq_refl) in Hib.
    + change (0 =? 0) with true. cbv iota.
      split; [|done]. split; [by intros [h ?]|].
      intros (ib' & [= <-] & Hpos). by rewrite Hpos in Hib.
  - change (0 =? 0) with true. cbv iota.
    split; [|done]. split; [by intros [h ?]|]. by intros (ib' & ? & _).
Qed.

End EquityHistory.

Section EquityHistoryScenario.
Import go equity.
#[local] Open Scope float_scope.

(** Status balance 1000; the second record carries an initial balance of
    2000, and the third, which carries none, is rated on 2000 too. *)
Lemma handleEquityHistory_points_witness :
  let record n ib equity := DecisionRecord.mk n (AccountState.mk equity 0 ib 0 0%Z 0) n in
  let records := [record 1%Z 0 1100; record 2%Z 2000 2200; record 3%Z 0 2500] in
  let trader := mkTrader (inr records) (Some 1000) in
  exists history,
    handleEquityHistory (fun _ => "t") (inr "trader_1") (fun _ => inr trader)
    = HistoryJSON history
    /\ map EquityPoint.TotalPnL history = [100; 200; 500]
    /\ map EquityPoint.TotalPnLPct history = [10; 10; 25].
Proof.
  intros record records trader.
  destruct (handleEquityHistory_points (fun _ => "t") (inr "trader_1")
              (fun _ => inr trader) "trader_1" trader records 1000
              eq_refl eq_refl eq_refl eq_refl eq_refl)
    as (history & Hrun & _).
  exists history. split; [exact Hrun|].
  vm_compute in Hrun. injection Hrun as <-. split; reflexivity.
Defined.

(** A status without initial balance, and a record that carries one. *)
Lemma handleEquityHistory_needs_initial_balance_witness :
  let records := [DecisionRecord.mk 1 (AccountState.mk 1100 0 1000 0 0%Z 0) 1] in
  let trader := mkTrader (inr records) None in
  handleEquityHistory (fun _ => "t") (inr "trader_1") (fun _ => inr trader)
  = ErrorJSON 500 "无法获取初始余额".
Proof.
  intros records trader.
  destruct (handleEquityHistory_needs_initial_balance (fun _ => "t") (inr "trader_1")
              (fun _ => inr trader) "trader_1" trader records
              eq_refl eq_refl eq_refl) as [_ Herr].
  apply Herr. intros ib H. discriminate H.
Defined.

End EquityHistoryScenario.

(** ** The authentication middleware *)

Section AuthMiddleware.
Import go auth.
#[local] Open Scope string_scope.

Lemma Split_not_nil sep s : Split sep s <> [].
Proof.
  destruct s as [|c s]; cbn; [done|].
  destruct (Ascii.eqb c sep); [done|]. by destruct (Split sep s).
Qed.

Lemma Split_one s y :
  Split " " s = [y] <-> s = y /\ hasSpace y = false.
Proof.
  revert y. induction s as [|c s IH]; intros y; cbn.
  - split; [by intros [= <-]|by intros [<- _]].
  - destruct (Ascii.eqb c " ") eqn:Hc.
    + split.
      * intros [= _ H]. by destruct (Split_not_nil _ _ H).
      * intros [<- H]. cbn in H. by rewrite Hc in H.
    + destruct (Split " " s) as [|h t] eqn:Hs; [by destruct (Split_not_nil _ _ Hs)|].
      split.
      * intros [= <- ->]. destruct (proj1 (IH h) eq_refl) as [-> Hh].
        cbn. by rewrite Hc.
      * intros [<- H]. cbn in H. rewrite Hc in H. cbn in H.
        by injection (proj2 (IH s) (conj eq_refl H)) as -> ->.
Qed.

Lemma Split_two s x y :
  Split " " s = [x; y]
  <-> s = x ++ String " " y /\ hasSpace x = false /\ hasSpace y = false.
Proof.
  revert x. induction s as [|c s IH]; intros x; cbn.
  - split; [done|]. intros [H _]. by destruct x.
  - destruct (Ascii.eqb c " ") eqn:Hc.
    + apply Ascii.eqb_eq in Hc as ->. split.
      * intros [= <- H]. apply Split_one in H as [-> Hy]. done.
      * intros (H & Hx & Hy). destruct x as [|c' x].
        -- cbn in H. injection H as ->. f_equal. by apply Split_one.
        -- cbn in H. injection H as <- _. cbn in Hx. done.
    + destruct (Split " " s) as [|h t] eqn:Hs; [by destruct (Split_not_nil _ _ Hs)|].
      split.
      * intros [= <- ->]. destruct (proj1 (IH h) eq_refl) as (-> & Hh & Hy).
        cbn. by rewrite Hc.
      * intros (H & Hx & Hy). destruct x as [|c' x].
        -- cbn in H. injection H as -> _. by rewrite Ascii.eqb_refl in Hc.
        -- cbn in H. injection H as <- ->. cbn in Hx. rewrite Hc in Hx. cbn in Hx.
           by injection (proj2 (IH x) (conj eq_refl (conj Hx Hy))) as -> ->.
Qed.

(** X16. The middleware lets a request through exactly when its
    Authorization header is [Bearer], one space, and a token without any
    space that is not blacklisted and that [ValidateJWT] accepts; the
    user id and email it sets are those of the token's claims. Every
    other header, among them one with a lower-case scheme, two spaces or
    a trailing space, is answered with 401. *)
Theorem authMiddleware_accepts (IsTokenBlacklisted : string -> bool)
  (ValidateJWT : string -> string + string * string) (authHeader : string) :
  (forall userID email,
     authMiddleware IsTokenBlacklisted ValidateJWT authHeader = Next userID email
     <-> exists tokenString,
           authHeader = "Bearer " ++ tokenString
           /\ hasSpace tokenString = false
           /\ IsTokenBlacklisted tokenString = false
           /\ ValidateJWT tokenString = inr (userID, email))
  /\ ((exists userID email,
         authMiddleware IsTokenBlacklisted ValidateJWT authHeader = Next userID email)
      \/ exists error,
           authMiddleware IsTokenBlacklisted ValidateJWT authHeader = Abort 401 error).
Proof.
  split.
  - intros userID email. split.
    + unfold authMiddleware.
      destruct (String.eqb authHeader "") eqn:He; [done|].
      destruct (Split " " authHeader) as [|scheme [|tokenString [|? ?]]] eqn:Hs;
        try done.
      destruct (String.eqb scheme "Bearer") eqn:Hscheme; [|done]. cbn [negb].
      apply String.eqb_eq in Hscheme as ->.
      destruct (IsTokenBlacklisted tokenString) eqn:Hb; [done|].
      destruct (ValidateJWT tokenString) as [err|[u e]] eqn:Hv; [done|].
      intros [= -> ->]. exists tokenString.
      apply Split_two in Hs as (-> & _ & Hy). done.
    + intros (tokenString & -> & Hy & Hb & Hv). unfold authMiddleware.
      change (String.eqb ("Bearer " ++ tokenString) "") with false. cbv iota.
      rewrite (proj2 (Split_two ("Bearer " ++ tokenString) "Bearer" tokenString)
                 (conj eq_refl (conj eq_refl Hy))).
      change (String.eqb "Bearer" "Bearer") with true. cbn [negb].
      by rewrite Hb, Hv.
  - unfold authMiddleware.
    destruct (String.eqb authHeader ""); [right; by eexists|].
    destruct (Split " " authHeader) as [|scheme [|tokenString [|? ?]]];
      try (right; by eexists).
    destruct (negb (String.eqb scheme "Bearer")); [right; by eexists|].
    destruct (IsTokenBlacklisted tokenString); [right; by eexists|].
    destruct (ValidateJWT tokenString) as [err|[u e]]; [right; by eexists|].
    left. by exists u, e.
Qed.

End AuthMiddleware.

(** ** The server's public address *)

Section PublicIP.
Import go netip.

(** A property of bytes that holds of each of the 256 holds of all. *)
Lemma byte_cases (P : Z -> bool) :
  forallb P (map Z.of_nat (seq 0 256)) = true -> forall b, byte b -> P b = true.
Proof.
  intros H b Hb. rewrite forallb_forall in H. apply H.
  apply in_map_iff. exists (Z.to_nat b). split; [unfold byte in Hb; lia|].
  apply in_seq. unfold byte in Hb. lia.
Qed.

Lemma land_255 b : byte b -> Z.land b 255 = b.
Proof.
  intros Hb. apply Z.eqb_eq.
  by apply (byte_cases (fun b => Z.land b 255 =? b)).
Qed.

Lemma land_240 b : byte b -> (Z.land b 240 =? 16) = (16 <=? b) && (b <=? 31).
Proof.
  intros Hb. apply eqb_prop.
  by apply (byte_cases
              (fun b => Bool.eqb (Z.land b 240 =? 16) ((16 <=? b) && (b <=? 31)))).
Qed.

Lemma isPrivateIP_bytes a b c d :
  byte a -> byte b ->
  isPrivateIP [a; b; c; d]
  = (a =? 10) || (a =? 172) && ((16 <=? b) && (b <=? 31))
    || (a =? 192) && (b =? 168).
Proof.
  intros Ha Hb. unfold isPrivateIP, Contains, ParseCIDR, CIDRMask.
  cbn [To4 length Nat.eqb negb existsb number mask zip zip_with forallb].
  cbn [maskByte]. change (maskByte 8) with 255. change (maskByte 12) with 255.
  change (maskByte 16) with 255. change (maskByte (8 - 8)) with 0.
  change (maskByte (8 - 16)) with 0. change (maskByte (8 - 24)) with 0.
  change (maskByte (12 - 8)) with 240. change (maskByte (12 - 16)) with 0.
  change (maskByte (12 - 24)) with 0. change (maskByte (16 - 8)) with 255.
  change (maskByte (16 - 16)) with 0. change (maskByte (16 - 24)) with 0.
  rewrite !Z.land_0_r, !(land_255 a Ha), (land_255 b Hb).
  change (Z.land (Z.land 10 255) 255) with 10.
  change (Z.land (Z.land 172 255) 255) with 172.
  change (Z.land (Z.land 192 255) 255) with 192.
  change (Z.land (Z.land 168 255) 255) with 168.
  change (Z.land (Z.land 16 240) 240) with 16.
  change (0 =? 0) with true. rewrite ?andb_true_r, ?orb_false_r.
  rewrite (Z.eqb_sym 10 a), (Z.eqb_sym 172 a), (Z.eqb_sym 192 a), (Z.eqb_sym 168 b).
  rewrite (Z.eqb_sym 16 (Z.land b 240)), (land_240 b Hb). by rewrite orb_assoc.
Qed.

Lemma To4_None_length ip : To4 ip = None -> length ip <> 4%nat.
Proof. unfold To4. intros H Hlen. by rewrite Hlen in H. Qed.

(** X17. For an IPv4 address [a.b.c.d], [isPrivateIP] holds exactly in
    the ranges 10.x.x.x, 172.16.x.x to 172.31.x.x and 192.168.x.x; so
    loopback, link-local (169.254.x.x) and carrier-grade NAT
    (100.64.0.0/10) addresses are not private for it. The 16-byte
    IPv4-mapped form of an address is rated as the address, and no other
    address is private. *)
Theorem isPrivateIP_ranges (a b c d : Z) :
  byte a -> byte b -> byte c -> byte d ->
  (isPrivateIP [a; b; c; d] = true
   <-> a = 10 \/ (a = 172 /\ 16 <= b <= 31) \/ (a = 192 /\ b = 168))
  /\ isPrivateIP [0; 0; 0; 0; 0; 0; 0; 0; 0; 0; 255; 255; a; b; c; d]
     = isPrivateIP [a; b; c; d]
  /\ (forall ip, To4 ip = None -> isPrivateIP ip = false).
Proof.
  intros Ha Hb _ _. split; [|split].
  - rewrite (isPrivateIP_bytes a b c d Ha Hb).
    rewrite !orb_true_iff, !andb_true_iff, !Z.eqb_eq, !Z.leb_le. tauto.
  - reflexivity.
  - intros ip Hip. pose proof (To4_None_length ip Hip) as Hlen.
    unfold isPrivateIP, Contains. rewrite Hip.
    cbn [existsb ParseCIDR number length CIDRMask zip_with].
    by destruct (length ip =? 4)%nat eqn:E; [apply Nat.eqb_eq in E|].
Qed.

Lemma isPrivateIP_ranges_witness :
  isPrivateIP [172; 31; 255; 255] = true
  /\ isPrivateIP [172; 32; 0; 0] = false
  /\ isPrivateIP [100; 64; 0; 1] = false.
Proof.
  assert (Hbyte : forall b, (0 <=? b) && (b <? 256) = true -> byte b).
  { intros b H. apply andb_true_iff in H as [H1 H2].
    apply Z.leb_le in H1. apply Z.ltb_lt in H2. by split. }
  split; [|split].
  - destruct (isPrivateIP_ranges 172 31 255 255) as [H _];
      [apply Hbyte; reflexivity..|].
    apply H. right. left. lia.
  - destruct (isPrivateIP_ranges 172 32 0 0) as [H _];
      [apply Hbyte; reflexivity..|].
    apply not_true_is_false. intros Hp. apply H in Hp. lia.
  - destruct (isPrivateIP_ranges 100 64 0 1) as [H _];
      [apply Hbyte; reflexivity..|].
    apply not_true_is_false. intros Hp. apply H in Hp. lia.
Defined.

Lemma firstPublic_filter String addrs :
  firstPublic String addrs
  = String <$> head (List.filter publicIPv4 (map addrIP addrs)).
Proof.
  induction addrs as [|addr rest IH]; [done|].
  cbn [firstPublic map List.filter]. unfold publicIPv4 at 1.
  destruct (length (addrIP addr) =? 0)%nat; [done|].
  destruct (IsLoopback (addrIP addr)); [done|]. cbn [negb andb orb].
  destruct (To4 (addrIP addr)); [|done].
  by destruct (isPrivateIP (addrIP addr)).
Qed.

(** X18. [getPublicIPFromInterface] gives the first address, in the
    order of the interfaces and of their addresses, that is a non-nil,
    non-loopback IPv4 address outside the private ranges, among the
    interfaces that are up, not loopback and whose addresses can be
    read; it gives the empty string when there is none. *)
Theorem getPublicIPFromInterface_first (String : IP -> string)
  (interfaces : list Interface) :
  getPublicIPFromInterface String (Some interfaces)
  = match List.filter publicIPv4 (candidates interfaces) with
    | ip :: _ => String ip
    | [] => ""%string
    end.
Proof.
  cbn [getPublicIPFromInterface].
  induction interfaces as [|iface rest IH]; [done|].
  cbn [scanInterfaces]. unfold candidates. cbn [flat_map].
  fold (candidates rest). rewrite List.filter_app.
  destruct (negb (flagUp iface) || flagLoopback iface); [done|].
  destruct (Addrs iface) as [addrs|]; [|done].
  rewrite firstPublic_filter.
  by destruct (List.filter publicIPv4 (map addrIP addrs)).
Qed.

End PublicIP.

(** ** The API error of the model client *)

Section APIErrors.
Import go apierror.
#[local] Open Scope string_scope.
Variable Unmarshal : string -> option errResp.

(** X19. [ParseAPIError] keeps the status code and the raw body, and its
    message is empty only for an empty body. The message differs from
    the raw body only when the body decodes to a non-zero [code] with a
    non-empty [message], or to a zero [code] with a non-empty
    [error.message]; in particular a body with a non-zero [code] never
    reports its [error.message], and one with a zero [code] never
    reports its top-level [message]. *)
Theorem ParseAPIError_message (statusCode : Z) (body : string) :
  let e := ParseAPIError Unmarshal statusCode body in
  StatusCode e = statusCode
  /\ RawBody e = body
  /\ (Message e = "" -> body = "")
  /\ (Message e = body
      \/ exists r, Unmarshal body = Some r
           /\ ((respCode r <> 0 /\ respMessage r <> ""
                /\ Code e = respCode r /\ Message e = respMessage r)
               \/ (respCode r = 0 /\ respErrorMessage r <> ""
                   /\ Code e = 0 /\ Message e = respErrorMessage r)))
  /\ (Code e <> 0 -> exists r, Unmarshal body = Some r /\ respCode r = Code e).
Proof.
  unfold ParseAPIError.
  destruct (Unmarshal body) as [r|]; cbn [Message StatusCode Code RawBody].
  - destruct (respCode r =? 0)%Z eqn:Hc; cbn [negb].
    + apply Z.eqb_eq in Hc.
      destruct (String.eqb (respErrorMessage r) "") eqn:Hm; cbn [negb].
      * cbn. repeat split; [by destruct body|by left|done].
      * cbn [Message StatusCode Code RawBody]. rewrite Hm.
        cbn [Message StatusCode Code RawBody].
        apply String.eqb_neq in Hm.
        repeat split; [done| |done].
        right. exists r. split; [done|]. right. done.
    + apply Z.eqb_neq in Hc. cbn [Message StatusCode Code RawBody].
      destruct (String.eqb (respMessage r) "") eqn:Hm;
        cbn [Message StatusCode Code RawBody].
      * repeat split; [by destruct body|by left|]. intros _. by exists r.
      * apply String.eqb_neq in Hm.
        repeat split; [done| |].
        -- right. exists r. split; [done|]. left. done.
        -- intros _. by exists r.
  - cbn. repeat split; [by destruct body|by left|done].
Qed.

End APIErrors.

(** ** The equity histories of several traders *)

Section Histories.
Import go histories.
#[local] Open Scope string_scope.
Context {T : Type}.
Variable GetTrader : string -> option T.
Variable GetLatestRecords : T -> Z -> string + list DecisionRecord.t.

Lemma elem_of_snoc (x y : string) (l : list string) :
  x ∈ (l ++ [y])%list <-> x ∈ l \/ x = y.
Proof. rewrite elem_of_app. by rewrite list_elem_of_singleton. Qed.

Lemma lookup_keep {V : Type} (m : gmap string V) (seen : list string)
  (x : string) (R : string -> V -> Prop) :
  (forall i v, m !! i = Some v <-> i ∈ seen /\ R i v) ->
  (forall v, ~ R x v) ->
  forall i v, m !! i = Some v <-> i ∈ (seen ++ [x])%list /\ R i v.
Proof.
  intros IH Hx i v. rewrite IH, elem_of_snoc. split.
  - intros [Hin HR]. split; [by left|done].
  - intros [[Hin| ->] HR]; [done|]. by destruct (Hx v).
Qed.

Lemma lookup_insert_step {V : Type} (m : gmap string V) (seen : list string)
  (x : string) (v0 : V) (R : string -> V -> Prop) :
  (forall i v, m !! i = Some v <-> i ∈ seen /\ R i v) ->
  (forall v, R x v <-> v = v0) ->
  forall i v, <[x := v0]> m !! i = Some v <-> i ∈ (seen ++ [x])%list /\ R i v.
Proof.
  intros IH Hx i v. rewrite elem_of_snoc. destruct (decide (i = x)) as [->|Hne].
  - rewrite lookup_insert_eq. split.
    + intros [= <-]. split; [by right|]. by apply Hx.
    + intros [_ HR]. apply Hx in HR. by subst.
  - rewrite lookup_insert_ne by done. rewrite IH. split.
    + intros [Hin HR]. split; [by left|done].
    + intros [[Hin|Heq] HR]; [done|]. by destruct Hne.
Qed.

Lemma history_fold (seen : list string) :
  let st := fold_left (historyStep GetTrader GetLatestRecords) seen (∅, ∅) in
  (forall traderID h,
     st.1 !! traderID = Some h
     <-> traderID ∈ seen
         /\ (traderID <> ""
             /\ exists trader records,
                  GetTrader traderID = Some trader
                  /\ GetLatestRecords trader 500 = inr records
                  /\ h = historyOf records))
  /\ (forall traderID e,
        st.2 !! traderID = Some e
        <-> traderID ∈ seen
            /\ (traderID <> ""
                /\ ((GetTrader traderID = None /\ e = "交易员不存在")
                    \/ exists trader err,
                         GetTrader traderID = Some trader
                         /\ GetLatestRecords trader 500 = inl err
                         /\ e = "获取历史数据失败: " ++ err)))
  /\ (size st.1 <= length seen)%nat.
Proof.
  induction seen as [|x seen IH] using rev_ind; cbv zeta.
  { cbn. split; [|split; [|done]].
    - intros i h. rewrite lookup_empty. split; [done|].
      intros [H _]. by apply elem_of_nil in H.
    - intros i e. rewrite lookup_empty. split; [done|].
      intros [H _]. by apply elem_of_nil in H. }
  cbv zeta in IH. destruct IH as (Hh & He & Hsize).
  rewrite fold_left_app. cbn [fold_left].
  set (st := fold_left (historyStep GetTrader GetLatestRecords) seen (∅, ∅)) in *.
  rewrite length_app. cbn [length]. unfold historyStep.
  destruct (String.eqb x "") eqn:Hx.
  { apply String.eqb_eq in Hx as ->. split; [|split; [|lia]].
    - apply (lookup_keep _ _ _ _ Hh). by intros v [Hne _].
    - apply (lookup_keep _ _ _ _ He). by intros v [Hne _]. }
  apply String.eqb_neq in Hx.
  destruct (GetTrader x) as [trader|] eqn:Ht;
    [destruct (GetLatestRecords trader 500) as [err|records] eqn:Hr|];
    cbn [fst snd].
  - split; [|split; [|lia]].
    + apply (lookup_keep _ _ _ _ Hh).
      intros v (_ & trader' & records & Ht' & Hr' & _). congruence.
    + apply (lookup_insert_step _ _ _ _ _ He). intros v. split.
      * intros (_ & [[Hn _]|(trader' & err' & Ht' & Hr' & ->)]); congruence.
      * intros ->. split; [done|]. right. by exists trader, err.
  - split; [|split].
    + apply (lookup_insert_step _ _ _ _ _ Hh). intros v. split.
      * intros (_ & trader' & records' & Ht' & Hr' & ->). congruence.
      * intros ->. split; [done|]. by exists trader, records.
    + apply (lookup_keep _ _ _ _ He).
      intros v (_ & [[Hn _]|(trader' & err' & Ht' & Hr' & _)]); congruence.
    + rewrite map_size_insert. destruct (st.1 !! x); unfold id; lia.
  - split; [|split; [|lia]].
    + apply (lookup_keep _ _ _ _ Hh).
      intros v (_ & trader' & records & Ht' & _). congruence.
    + apply (lookup_insert_step _ _ _ _ _ He). intros v. split.
      * intros (_ & [[_ ->]|(trader' & err' & Ht' & _)]); congruence.
      * intros ->. split; [done|]. by left.
Qed.

Lemma errors_lookup (traderIDs : list string) (traderID : string) :
  errors (getEquityHistoryForTraders GetTrader GetLatestRecords traderIDs)
    ≫= (fun m => m !! traderID)
  = (fold_left (historyStep GetTrader GetLatestRecords) traderIDs (∅, ∅)).2
      !! traderID.
Proof.
  unfold getEquityHistoryForTraders. cbn [errors].
  set (st := fold_left _ _ _).
  destruct (0 <? Z.of_nat (size st.2))%Z eqn:Hs; [done|].
  apply Z.ltb_ge in Hs. assert (size st.2 = 0%nat) as H0 by lia.
  apply map_size_empty_inv in H0. rewrite H0. by rewrite lookup_empty.
Qed.

(** X20. [getEquityHistoryForTraders] answers each requested id that is
    not empty in exactly one of its two maps: a history under
    [histories] when the trader is found and its records can be read,
    with one point per record (equity = balance + unrealized profit,
    [total_pnl] = the unrealized profit), an error message under
    [errors] otherwise. Ids that were not requested appear in neither,
    [errors] is absent exactly when no requested id failed, and [count]
    is the number of histories, which repeated ids do not raise. *)
Theorem getEquityHistoryForTraders_answers (traderIDs : list string) :
  let r := getEquityHistoryForTraders GetTrader GetLatestRecords traderIDs in
  (forall traderID h,
     histories r !! traderID = Some h
     <-> traderID ∈ traderIDs /\ traderID <> ""
         /\ exists trader records,
              GetTrader traderID = Some trader
              /\ GetLatestRecords trader 500 = inr records
              /\ h = historyOf records)
  /\ (forall traderID e,
        errors r ≫= (fun m => m !! traderID) = Some e
        <-> traderID ∈ traderIDs /\ traderID <> ""
            /\ ((GetTrader traderID = None /\ e = "交易员不存在")
                \/ exists trader err,
                     GetTrader traderID = Some trader
                     /\ GetLatestRecords trader 500 = inl err
                     /\ e = "获取历史数据失败: " ++ err))
  /\ (errors r = None
      <-> forall traderID, traderID ∈ traderIDs -> traderID <> "" ->
            is_Some (histories r !! traderID))
  /\ count r = Z.of_nat (size (histories r))
  /\ (count r <= Z.of_nat (length traderIDs))%Z.
Proof.
  cbv zeta. pose proof (history_fold traderIDs) as H. cbv zeta in H.
  destruct H as (Hh & He & Hsize).
  split; [exact Hh|]. split; [|split; [|split]].
  - intros traderID e. rewrite errors_lookup. apply He.
  - split.
    + intros Hnone traderID Hin Hne.
      pose proof (errors_lookup traderIDs traderID) as Hl.
      rewrite Hnone in Hl. cbn in Hl.
      destruct (GetTrader traderID) as [trader|] eqn:Ht.
      * destruct (GetLatestRecords trader 500) as [err|records] eqn:Hr.
        -- assert (Hs : (fold_left (historyStep GetTrader GetLatestRecords)
                           traderIDs (∅, ∅)).2 !! traderID
                        = Some ("获取历史数据失败: " ++ err)).
           { apply He. split; [done|]. split; [done|]. right. by exists trader, err. }
           by rewrite <- Hl in Hs.
        -- exists (historyOf records). apply Hh. split; [done|]. split; [done|].
           by exists trader, records.
      * assert (Hs : (fold_left (historyStep GetTrader GetLatestRecords)
                        traderIDs (∅, ∅)).2 !! traderID = Some "交易员不存在").
        { apply He. split; [done|]. split; [done|]. by left. }
        by rewrite <- Hl in Hs.
    + intros Hall. unfold getEquityHistoryForTraders. cbn [errors].
      set (st := fold_left _ _ _) in *.
      destruct (0 <? Z.of_nat (size st.2))%Z eqn:Hs; [|done].
      apply Z.ltb_lt in Hs.
      destruct (map_choose st.2) as (traderID & e & Hlook).
      { intros Hempty. rewrite Hempty, map_size_empty in Hs. lia. }
      apply He in Hlook as (Hin & Hne & Hfail).
      destruct (Hall traderID Hin Hne) as [h Hhist].
      apply Hh in Hhist as (_ & _ & trader & records & Ht & Hr & _).
      destruct Hfail as [[Hnone _]|(trader' & err & Ht' & Hr' & _)];
        [congruence|]. congruence.
  - done.
  - unfold getEquityHistoryForTraders. cbn [count]. lia.
Qed.

Lemma limit_take (traderIDs : list string) : limit traderIDs = take 20 traderIDs.
Proof.
  unfold limit. destruct (20 <? Z.of_nat (length traderIDs))%Z eqn:H; [done|].
  apply Z.ltb_ge in H. rewrite take_ge; [done|lia].
Qed.

(** X21. When the ids come from the request, from a JSON body that
    parses or else from the query parameter split at commas and trimmed,
    [handleEquityHistoryBatch] answers 200 with the histories of the
    first 20 entries listed only: entries that are empty or repeated
    count towards the 20, the answer holds at most 20 histories, and a
    body that parses is used even when it lists no id and a query
    parameter is present. *)
Theorem handleEquityHistoryBatch_limit (TrimSpace : string -> string)
  (GetTopTradersData : string + option (list (option string)))
  (body : option (list string)) (query : string) (traderIDs : list string) :
  body = Some traderIDs
  \/ (body = None /\ query <> ""
      /\ traderIDs = map TrimSpace (auth.Split "," query)) ->
  exists r,
    handleEquityHistoryBatch GetTrader GetLatestRecords TrimSpace GetTopTradersData
      body query = ResultJSON 200 r
    /\ r = getEquityHistoryForTraders GetTrader GetLatestRecords (take 20 traderIDs)
    /\ (count r <= 20)%Z
    /\ forall traderID,
         is_Some (histories r !! traderID) -> traderID ∈ take 20 traderIDs.
Proof.
  intros Hfrom. eexists. split; [|split; [reflexivity|]].
  - unfold handleEquityHistoryBatch.
    destruct Hfrom as [->|(-> & Hq & ->)]; [by rewrite limit_take|].
    apply String.eqb_neq in Hq. rewrite Hq. by rewrite limit_take.
  - pose proof (history_fold (take 20 traderIDs)) as H. cbv zeta in H.
    destruct H as (Hh & _ & Hsize). split.
    + unfold getEquityHistoryForTraders. cbn [count].
      rewrite length_take in Hsize. lia.
    + intros traderID [h Hl]. by apply Hh in Hl as [Hin _].
Qed.

End Histories.

Section HistoriesScenario.
Import go histories.
#[local] Open Scope string_scope.

(** Twenty-one ids in the body: the last one is not answered. *)
Lemma handleEquityHistoryBatch_limit_witness :
  let GetTrader := fun _ : string => Some tt in
  let GetLatestRecords := fun (_ : unit) (_ : Z) => inr [] in
  let traderIDs := (replicate 20 "a" ++ ["b"])%list in
  exists r,
    handleEquityHistoryBatch GetTrader GetLatestRecords (fun s => s) (inl "")
      (Some traderIDs) "" = ResultJSON 200 r
    /\ count r = 1%Z /\ histories r !! "b" = None.
Proof.
  intros GetTrader GetLatestRecords traderIDs.
  destruct (handleEquityHistoryBatch_limit GetTrader GetLatestRecords (fun s => s)
              (inl "") (Some traderIDs) "" traderIDs (or_introl eq_refl))
    as (r & Hrun & Hr & _ & Hin).
  exists r. split; [exact Hrun|]. split.
  - rewrite Hr. vm_compute. reflexivity.
  - destruct (histories r !! "b") as [h|] eqn:Hb; [|reflexivity].
    assert (Hb' : "b" ∈ take 20 traderIDs) by (apply Hin; by exists h).
    exfalso. vm_compute in Hb'.
    repeat (apply elem_of_cons in Hb' as [Hb'|Hb']; [discriminate Hb'|]).
    by apply elem_of_nil in Hb'.
Defined.

End HistoriesScenario.

(** ** The latest decisions *)

Section LatestDecisions.
Import go decisions.

Lemma insert_middle {A : Type} (l1 l2 : list A) (x y : A) :
  <[length l1 := y]> (l1 ++ x :: l2) = l1 ++ y :: l2.
Proof. induction l1 as [|a l1 IH]; [done|]. cbn. f_equal. exact IH. Qed.

Lemma swap_ends {A : Type} (a m b : list A) (x y : A) :
  swap (a ++ x :: m ++ y :: b) (len a) (len a + len m + 1)
  = Done (a ++ y :: m ++ x :: b).
Proof.
  unfold swap, len. rewrite !length_app. cbn [length]. rewrite length_app. cbn [length].
  replace ((Z.of_nat (length a) <? 0) || _ || _ || _) with false.
  2: { symmetry. rewrite !orb_false_iff, !Z.ltb_ge, !Z.leb_gt. lia. }
  rewrite Nat2Z.id.
  replace (Z.to_nat (Z.of_nat (length a) + Z.of_nat (length m) + 1))
    with (length (a ++ x :: m)) by (rewrite length_app; cbn; lia).
  rewrite list_lookup_middle by done.
  replace (a ++ x :: m ++ y :: b) with ((a ++ x :: m) ++ y :: b)
    by (by rewrite <- app_assoc).
  rewrite list_lookup_middle by done.
  rewrite <- app_assoc. cbn [app]. rewrite insert_middle.
  replace (a ++ y :: m ++ y :: b) with ((a ++ y :: m) ++ y :: b)
    by (by rewrite <- app_assoc).
  replace (length (a ++ x :: m)) with (length (a ++ y :: m))
    by (rewrite !length_app; done).
  rewrite insert_middle. by rewrite <- app_assoc.
Qed.

(** The loop from [i], [j] reverses the segment between them. *)
Lemma reverseLoop_segment {A : Type} (fuel : nat) :
  forall (a m b : list A),
    len (a ++ m ++ b) < 2 ^ 63 ->
    (length m / 2 < fuel)%nat ->
    reverseLoop fuel (len a) (len a + len m - 1) (a ++ m ++ b)
    = Some (Done (a ++ rev m ++ b)).
Proof.
  induction fuel as [|fuel IH]; intros a m b Hlen Hfuel; [lia|].
  cbn [reverseLoop]. destruct m as [|x m].
  { replace (len a <? len a + len [] - 1) with false; [done|].
    symmetry. apply Z.ltb_ge. unfold len. cbn. lia. }
  destruct (rev m) as [|y m'] eqn:Hrev.
  { apply (f_equal (@rev A)) in Hrev. rewrite rev_involutive in Hrev.
    cbn [rev] in Hrev. subst m.
    replace (len a <? len a + len [x] - 1) with false; [done|].
    symmetry. apply Z.ltb_ge. unfold len. cbn. lia. }
  apply (f_equal (@rev A)) in Hrev. rewrite rev_involutive in Hrev.
  cbn [rev] in Hrev. subst m. set (mid := rev m') in *.
  assert (Hl : len (x :: mid ++ [y]) = len mid + 2).
  { unfold len. cbn [length]. rewrite length_app. cbn. lia. }
  rewrite Hl. replace (len a <? len a + (len mid + 2) - 1) with true
    by (symmetry; apply Z.ltb_lt; unfold len; lia).
  replace (len a + (len mid + 2) - 1) with (len a + len mid + 1) by lia.
  replace (a ++ (x :: mid ++ [y]) ++ b) with (a ++ x :: mid ++ y :: b)
    by (cbn; by rewrite <- app_assoc).
  rewrite swap_ends.
  assert (Hbound : len a + len mid + 2 + len b < 2 ^ 63).
  { revert Hlen. unfold len. rewrite !length_app. cbn [length].
    rewrite length_app. cbn [length]. lia. }
  assert (Hnn : 0 <= len a /\ 0 <= len mid /\ 0 <= len b) by (unfold len; lia).
  rewrite !wrap64_id by (unfold int_range; lia).
  replace (a ++ y :: mid ++ x :: b) with ((a ++ [y]) ++ mid ++ ([x] ++ b))
    by (by rewrite <- app_assoc).
  replace (len a + 1) with (len (a ++ [y]))
    by (unfold len; rewrite length_app; cbn; lia).
  replace (len a + len mid + 1 - 1) with (len (a ++ [y]) + len mid - 1)
    by (unfold len; rewrite length_app; cbn; lia).
  rewrite IH.
  - f_equal. f_equal. cbn [rev]. rewrite rev_app_distr. cbn.
    rewrite <- !app_assoc. done.
  - unfold len. rewrite !length_app. cbn [length]. unfold len in Hbound. lia.
  - cbn [length] in Hfuel. rewrite length_app in Hfuel. cbn [length] in Hfuel.
    replace (S (length mid + 1)) with (length mid + 1 * 2)%nat in Hfuel by lia.
    rewrite Nat.div_add in Hfuel by lia. lia.
Qed.

Lemma reverseLoop_rev {A : Type} (fuel : nat) (records : list A) :
  len records < 2 ^ 63 ->
  (length records / 2 < fuel)%nat ->
  reverseLoop fuel 0 (wrap64 (len records - 1)) records = Some (Done (rev records)).
Proof.
  intros Hlen Hfuel.
  rewrite wrap64_id by (unfold int_range, len in *; lia).
  pose proof (reverseLoop_segment fuel [] records []) as H.
  rewrite !app_nil_r in H. cbn [app] in H. change (len []) with 0 in H.
  rewrite Z.add_0_l in H. by apply H.
Qed.

Lemma limitOf_range (Atoi : string -> option Z) (limitStr : string) :
  1 <= limitOf Atoi limitStr <= 50.
Proof.
  unfold limitOf. destruct (negb (String.eqb limitStr "")); [|lia].
  destruct (Atoi limitStr) as [l|]; [|lia].
  destruct ((0 <? l) && (l <=? 50)) eqn:H; [|lia].
  apply andb_true_iff in H as [H1 H2]. apply Z.ltb_lt in H1. apply Z.leb_le in H2. lia.
Qed.

(** X22. For a trader that is found, [handleLatestDecisions] asks for
    at most 50 records: as many as the [limit] parameter says when that
    is a number from 1 to 50, and 5 otherwise. When the records can be
    read, its in-place swap loop ends without panic and the answer is
    the records in the reverse of the order they were read in. *)
Theorem handleLatestDecisions_newest_first {T : Type} (query : string + string)
  (GetTrader : string -> string + T)
  (GetLatestRecords : T -> Z -> string + list DecisionRecord.t)
  (Atoi : string -> option Z) (limitStr traderID : string) (trader : T) :
  query = inr traderID -> GetTrader traderID = inr trader ->
  let limit := limitOf Atoi limitStr in
  1 <= limit <= 50
  /\ (forall l, limitStr <> ""%string -> Atoi limitStr = Some l -> 1 <= l <= 50 ->
        limit = l)
  /\ (limitStr = ""%string \/ Atoi limitStr = None
      \/ (exists l, Atoi limitStr = Some l /\ (l < 1 \/ 50 < l)) -> limit = 5)
  /\ forall records fuel,
       GetLatestRecords trader limit = inr records ->
       len records < 2 ^ 63 -> (length records / 2 < fuel)%nat ->
       handleLatestDecisions fuel query GetTrader GetLatestRecords Atoi limitStr
       = Some (Done (RecordsJSON (rev records))).
Proof.
  intros -> Htrader limit. split; [apply limitOf_range|]. split; [|split].
  - intros l Hne Hl Hrange. subst limit. unfold limitOf.
    apply String.eqb_neq in Hne. rewrite Hne, Hl. cbn [negb].
    replace ((0 <? l) && (l <=? 50)) with true; [done|].
    symmetry. apply andb_true_iff. split; [apply Z.ltb_lt|apply Z.leb_le]; lia.
  - subst limit. unfold limitOf. intros [->|[Hnone|(l & Hl & Hout)]]; [done| |].
    + rewrite Hnone. by destruct (negb _).
    + rewrite Hl. destruct (negb _); [|done].
      replace ((0 <? l) && (l <=? 50)) with false; [done|].
      symmetry. apply andb_false_iff.
      destruct Hout; [left; apply Z.ltb_ge|right; apply Z.leb_gt]; lia.
  - intros records fuel Hrecords Hlen Hfuel. unfold handleLatestDecisions.
    rewrite Htrader. fold limit. rewrite Hrecords.
    by rewrite (reverseLoop_rev fuel records Hlen Hfuel).
Qed.

End LatestDecisions.

Section LatestDecisionsScenario.
Import go decisions.
#[local] Open Scope string_scope.

(** Three records with [limit=3]; a limit of 51 falls back to 5. *)
Lemma handleLatestDecisions_newest_first_witness :
  let record n := DecisionRecord.mk n (AccountState.mk 0 0 0 0 0%Z 0) n in
  let GetTrader := fun _ : string => inr tt in
  let GetLatestRecords := fun (_ : unit) (n : Z) =>
    inr (map record (take (Z.to_nat n) [1; 2; 3; 4; 5; 6; 7]%Z)) in
  let Atoi := fun s : string =>
    if String.eqb s "3" then Some 3%Z else if String.eqb s "51" then Some 51%Z else None in
  handleLatestDecisions 2 (inr "trader_1") GetTrader GetLatestRecords Atoi "3"
  = Some (Done (RecordsJSON (map record [3; 2; 1]%Z)))
  /\ limitOf Atoi "51" = 5%Z.
Proof.
  intros record GetTrader GetLatestRecords Atoi.
  destruct (handleLatestDecisions_newest_first (inr "trader_1") GetTrader
              GetLatestRecords Atoi "3" "trader_1" tt eq_refl eq_refl)
    as (_ & _ & _ & Hrun).
  destruct (handleLatestDecisions_newest_first (inr "trader_1") GetTrader
              GetLatestRecords Atoi "51" "trader_1" tt eq_refl eq_refl)
    as (_ & _ & Hdefault & _).
  split.
  - apply (Hrun (map record [1; 2; 3]%Z) 2%nat); [reflexivity|reflexivity|].
    cbn. lia.
  - apply Hdefault. right. right. exists 51%Z. split; [reflexivity|lia].
Defined.

End LatestDecisionsScenario.

(** ** Creating and updating a trader *)

Section Suffix.
Import traders.
#[local] Open Scope string_scope.

Lemma append_cons (c : ascii) (s1 s2 : string) :
  String c s1 ++ s2 = String c (s1 ++ s2).
Proof. reflexivity. Qed.

Lemma length_append (s1 s2 : string) :
  String.length (s1 ++ s2) = (String.length s1 + String.length s2)%nat.
Proof.
  induction s1 as [|c s1 IH]; [done|].
  rewrite append_cons. cbn [String.length]. by rewrite IH.
Qed.

Lemma substring_all (s : string) : substring 0 (String.length s) s = s.
Proof.
  induction s as [|c s IH]; [done|]. cbn [String.length substring]. by rewrite IH.
Qed.

Lemma substring_append (p s : string) :
  substring (String.length p) (String.length s) (p ++ s) = s.
Proof.
  induction p as [|c p IH]; [apply substring_all|].
  rewrite append_cons. cbn [String.length substring]. exact IH.
Qed.

Lemma substring_split (s : string) (n : nat) :
  (n <= String.length s)%nat ->
  s = substring 0 n s ++ substring n (String.length s - n) s.
Proof.
  revert n. induction s as [|c s IH]; intros n Hn.
  - cbn in Hn. assert (n = 0%nat) as -> by lia. done.
  - destruct n as [|n].
    + rewrite Nat.sub_0_r, substring_all. reflexivity.
    + cbn [substring String.length Nat.sub]. rewrite append_cons. f_equal.
      apply IH. cbn in Hn. lia.
Qed.

(** [HasSuffix] holds of the strings that end with the suffix. *)
Lemma HasSuffix_spec (s suffix : string) :
  HasSuffix s suffix = true <-> exists p, s = p ++ suffix.
Proof.
  unfold HasSuffix. rewrite andb_true_iff, Nat.leb_le, String.eqb_eq. split.
  - intros [Hlen Hsub].
    exists (substring 0 (String.length s - String.length suffix) s).
    etrans; [apply (substring_split s (String.length s - String.length suffix)); lia|].
    f_equal.
    replace (String.length s - (String.length s - String.length suffix))%nat
      with (String.length suffix) by lia.
    exact Hsub.
  - intros [p ->]. rewrite length_append. split; [lia|].
    replace (String.length p + String.length suffix - String.length suffix)%nat
      with (String.length p) by lia.
    apply substring_append.
Qed.

End Suffix.

Section CreateTrader.
Import go traders.
#[local] Open Scope string_scope.
#[local] Open Scope Z_scope.
Variable TrimSpace ToUpper : string -> string.
Variable Atoi : string -> option Z.
Variable GetSystemConfig : string -> string.
Variable Trader : Type.
Variable NewFuturesTrader : string -> string -> string -> Trader.
Variable NewHyperliquidTrader : string -> string -> bool -> string + Trader.
Variable NewAsterTrader : string -> string -> string -> string + Trader.
Variable GetBalance : Trader -> string + gmap string value.

Lemma checkSymbols_None (symbols : list string) :
  checkSymbols TrimSpace ToUpper symbols = None
  <-> forall symbol, symbol ∈ symbols ->
        TrimSpace symbol = "" \/ exists p, ToUpper (TrimSpace symbol) = p ++ "USDT".
Proof.
  induction symbols as [|symbol rest IH]; cbn [checkSymbols].
  - split; [|done]. intros _ symbol H. by apply elem_of_nil in H.
  - destruct (String.eqb (TrimSpace symbol) "") eqn:He; cbn [negb andb].
    + apply String.eqb_eq in He. rewrite IH. split.
      * intros H s [->|Hin]%elem_of_cons; [by left|by apply H].
      * intros H s Hin. apply H. apply elem_of_cons. by right.
    + apply String.eqb_neq in He.
      destruct (HasSuffix (ToUpper (TrimSpace symbol)) "USDT") eqn:Hs; cbn [negb].
      * apply HasSuffix_spec in Hs. rewrite IH. split.
        -- intros H s [->|Hin]%elem_of_cons; [by right|by apply H].
        -- intros H s Hin. apply H. apply elem_of_cons. by right.
      * split; [done|]. intros H.
        destruct (H symbol) as [Hempty|Hsuffix]; [apply elem_of_cons; by left|done|].
        apply HasSuffix_spec in Hsuffix. by rewrite Hsuffix in Hs.
Qed.

Lemma checkSymbols_Some (symbols : list string) (bad : string) :
  checkSymbols TrimSpace ToUpper symbols = Some bad ->
  exists symbol,
    symbol ∈ symbols /\ bad = TrimSpace symbol /\ TrimSpace symbol <> ""
    /\ ~ exists p, ToUpper (TrimSpace symbol) = p ++ "USDT".
Proof.
  induction symbols as [|symbol rest IH]; cbn [checkSymbols]; [done|].
  destruct (String.eqb (TrimSpace symbol) "") eqn:He; cbn [negb andb].
  - intros H. destruct (IH H) as (s & Hin & Hs). exists s.
    split; [apply elem_of_cons; by right|done].
  - destruct (HasSuffix (ToUpper (TrimSpace symbol)) "USDT") eqn:Hs; cbn [negb].
    + intros H. destruct (IH H) as (s & Hin & Hs'). exists s.
      split; [apply elem_of_cons; by right|done].
    + intros [= <-]. exists symbol. split; [apply elem_of_cons; by left|].
      split; [done|]. apply String.eqb_neq in He. split; [done|].
      intros Hp. apply HasSuffix_spec in Hp. by rewrite Hp in Hs.
Qed.




(** X24. A request that binds is refused with 400 exactly when its
    BTC/ETH leverage is outside 0..50, its altcoin leverage outside
    0..20, or one of its comma-separated symbols is, once trimmed,
    neither empty nor a text whose upper case ends in USDT; a leverage
    of 0 passes, though the message asks for 1 to 50. A refused request
    makes no call; any other one hands its record to
    [database.CreateTrader] first. *)
Theorem handleCreateTrader_validation (userID : string)
  (req : CreateTraderRequest.t) (uuid : string)
  (exchanges : list ExchangeConfig.t)
  (CreateTraderDB : TraderRecord.t -> option string) :
  let out :=
    handleCreateTrader TrimSpace ToUpper Atoi GetSystemConfig Trader
      NewFuturesTrader NewHyperliquidTrader NewAsterTrader GetBalance
      userID (inr req) uuid exchanges CreateTraderDB in
  let refused :=
    CreateTraderRequest.BTCETHLeverage req < 0
    \/ 50 < CreateTraderRequest.BTCETHLeverage req
    \/ CreateTraderRequest.AltcoinLeverage req < 0
    \/ 20 < CreateTraderRequest.AltcoinLeverage req
    \/ (CreateTraderRequest.TradingSymbols req <> ""
        /\ exists symbol,
             symbol ∈ auth.Split "," (CreateTraderRequest.TradingSymbols req)
             /\ TrimSpace symbol <> ""
             /\ ~ exists p, ToUpper (TrimSpace symbol) = p ++ "USDT") in
  ((exists error, out.1 = ErrorJSON 400 error) <-> refused)
  /\ (refused -> out.2 = [])
  /\ (~ refused ->
      exists rest,
        out.2
        = CreateTrader
            (createdRecord Atoi GetSystemConfig Trader NewFuturesTrader
               NewHyperliquidTrader NewAsterTrader GetBalance userID req uuid
               exchanges) :: rest).
Proof.
  cbv zeta. unfold handleCreateTrader. cbv zeta.
  destruct ((CreateTraderRequest.BTCETHLeverage req <? 0)
            || (50 <? CreateTraderRequest.BTCETHLeverage req)) eqn:Hbtc.
  { apply orb_true_iff in Hbtc. rewrite Z.ltb_lt, Z.ltb_lt in Hbtc. cbn [fst snd].
    split; [|split; [done|]].
    - split; [intros _; tauto|]. intros _. by eexists.
    - intros Hn. destruct Hn. tauto. }
  apply orb_false_iff in Hbtc as [Hb1 Hb2]. apply Z.ltb_ge in Hb1, Hb2.
  destruct ((CreateTraderRequest.AltcoinLeverage req <? 0)
            || (20 <? CreateTraderRequest.AltcoinLeverage req)) eqn:Halt.
  { apply orb_true_iff in Halt. rewrite Z.ltb_lt, Z.ltb_lt in Halt. cbn [fst snd].
    split; [|split; [done|]].
    - split; [intros _; tauto|]. intros _. by eexists.
    - intros Hn. destruct Hn. tauto. }
  apply orb_false_iff in Halt as [Ha1 Ha2]. apply Z.ltb_ge in Ha1, Ha2.
  assert (Hsym :
    (exists bad,
       (if negb (String.eqb (CreateTraderRequest.TradingSymbols req) "")
        then checkSymbols TrimSpace ToUpper
               (auth.Split "," (CreateTraderRequest.TradingSymbols req))
        else None) = Some bad)
    <-> (CreateTraderRequest.TradingSymbols req <> ""
         /\ exists symbol,
              symbol ∈ auth.Split "," (CreateTraderRequest.TradingSymbols req)
              /\ TrimSpace symbol <> ""
              /\ ~ exists p, ToUpper (TrimSpace symbol) = p ++ "USDT")).
  { destruct (String.eqb (CreateTraderRequest.TradingSymbols req) "") eqn:He;
      cbn [negb].
    - apply String.eqb_eq in He. split; [by intros [bad ?]|]. by intros [Hne _].
    - apply String.eqb_neq in He.
      destruct (checkSymbols TrimSpace ToUpper _) as [bad|] eqn:Hc.
      + split; [|intros _; by exists bad]. intros _. split; [done|].
        destruct (checkSymbols_Some _ _ Hc) as (symbol & Hin & _ & Hne & Hns).
        by exists symbol.
      + split; [by intros [bad ?]|]. intros (_ & symbol & Hin & Hne & Hns).
        rewrite checkSymbols_None in Hc. by destruct (Hc symbol Hin). }
  destruct (if negb _ then _ else None) as [bad|] eqn:Hcheck; cbn [fst snd].
  - assert (Hbad : exists b : string, Some bad = Some b) by (by exists bad).
    apply Hsym in Hbad. split; [|split; [done|]].
    + split; [intros _; tauto|]. intros _. by eexists.
    + intros Hn. destruct Hn. tauto.
  - assert (Hok : ~ (CreateTraderRequest.TradingSymbols req <> ""
                     /\ exists symbol,
                          symbol ∈ auth.Split ","
                                     (CreateTraderRequest.TradingSymbols req)
                          /\ TrimSpace symbol <> ""
                          /\ ~ exists p, ToUpper (TrimSpace symbol) = p ++ "USDT")).
    { intros H. apply Hsym in H as [b Hb]. discriminate Hb. }
    assert (Hnot : ~ (CreateTraderRequest.BTCETHLeverage req < 0
                      \/ 50 < CreateTraderRequest.BTCETHLeverage req
                      \/ CreateTraderRequest.AltcoinLeverage req < 0
                      \/ 20 < CreateTraderRequest.AltcoinLeverage req
                      \/ (CreateTraderRequest.TradingSymbols req <> ""
                          /\ exists symbol,
                               symbol ∈ auth.Split ","
                                          (CreateTraderRequest.TradingSymbols req)
                               /\ TrimSpace symbol <> ""
                               /\ ~ exists p,
                                      ToUpper (TrimSpace symbol) = p ++ "USDT"))).
    { intros [?|[?|[?|[?|?]]]]; [lia..|done]. }
    destruct (CreateTraderDB _) as [err|]; cbn [fst snd].
    + split; [|split; [done|]].
      * split; [by intros [e ?]|done].
      * intros _. by eexists.
    + split; [|split; [done|]].
      * split; [by intros [e ?]|done].
      * intros _. by eexists.
Qed.

End CreateTrader.

Section UpdateTrader.
Import go traders.
#[local] Open Scope string_scope.
#[local] Open Scope Z_scope.

(** X25. For a trader that exists, [handleUpdateTrader] checks neither
    the leverages nor the symbols of the request: the record it hands
    to [database.UpdateTrader] holds a positive leverage of the request
    as it is, however large, and the trader's own for a leverage of 0 or
    less; its scan interval is the trader's own for a request of 0 or
    less and at least 3 otherwise; its [UseCoinPool] and [UseOITop] are
    false whatever the trader had. The answer is 200 exactly when that
    call succeeds; the initial balance is then updated, by a call of its
    own, only if the requested one is positive and more than 0.1 away
    from the trader's, and the trader is removed and loaded again. *)
Theorem handleUpdateTrader_record (userID traderID : string)
  (req : UpdateTraderRequest.t) (traders : list TraderRecord.t)
  (existingTrader : TraderRecord.t)
  (UpdateTraderDB : TraderRecord.t -> option string) :
  find (fun trader => String.eqb (TraderRecord.ID trader) traderID) traders
  = Some existingTrader ->
  let out := handleUpdateTrader userID traderID (inr req) (inr traders) UpdateTraderDB in
  exists trader rest,
    out.2 = UpdateTrader trader :: rest
    /\ (0 < UpdateTraderRequest.BTCETHLeverage req ->
        TraderRecord.BTCETHLeverage trader = UpdateTraderRequest.BTCETHLeverage req)
    /\ (UpdateTraderRequest.BTCETHLeverage req <= 0 ->
        TraderRecord.BTCETHLeverage trader = TraderRecord.BTCETHLeverage existingTrader)
    /\ (0 < UpdateTraderRequest.AltcoinLeverage req ->
        TraderRecord.AltcoinLeverage trader = UpdateTraderRequest.AltcoinLeverage req)
    /\ (UpdateTraderRequest.AltcoinLeverage req <= 0 ->
        TraderRecord.AltcoinLeverage trader = TraderRecord.AltcoinLeverage existingTrader)
    /\ TraderRecord.TradingSymbols trader = UpdateTraderRequest.TradingSymbols req
    /\ (0 < UpdateTraderRequest.ScanIntervalMinutes req ->
        TraderRecord.ScanIntervalMinutes trader
        = Z.max 3 (UpdateTraderRequest.ScanIntervalMinutes req))
    /\ (UpdateTraderRequest.ScanIntervalMinutes req <= 0 ->
        TraderRecord.ScanIntervalMinutes trader
        = TraderRecord.ScanIntervalMinutes existingTrader)
    /\ TraderRecord.UseCoinPool trader = false
    /\ TraderRecord.UseOITop trader = false
    /\ TraderRecord.IsRunning trader = TraderRecord.IsRunning existingTrader
    /\ ((exists id name model, out.1 = TraderJSON 200 id name model)
        <-> UpdateTraderDB trader = None)
    /\ (forall err, UpdateTraderDB trader = Some err ->
          out.1 = ErrorJSON 500 ("更新交易员失败: " ++ err) /\ rest = [])
    /\ (UpdateTraderDB trader = None ->
        let requested := UpdateTraderRequest.InitialBalance req in
        rest
        = (if (0 <? requested)%float
              && (0.1 <? abs (requested - TraderRecord.InitialBalance existingTrader))%float
           then [UpdateTraderInitialBalance userID traderID requested]
           else [])
          ++ [RemoveTrader traderID; LoadTraderByID userID traderID])%list.
Proof.
  intros Hfind. cbv zeta. unfold handleUpdateTrader. rewrite Hfind. cbv zeta.
  set (trader := updatedRecord userID traderID req existingTrader).
  assert (Hfields :
    (0 < UpdateTraderRequest.BTCETHLeverage req ->
     TraderRecord.BTCETHLeverage trader = UpdateTraderRequest.BTCETHLeverage req)
    /\ (UpdateTraderRequest.BTCETHLeverage req <= 0 ->
        TraderRecord.BTCETHLeverage trader = TraderRecord.BTCETHLeverage existingTrader)
    /\ (0 < UpdateTraderRequest.AltcoinLeverage req ->
        TraderRecord.AltcoinLeverage trader = UpdateTraderRequest.AltcoinLeverage req)
    /\ (UpdateTraderRequest.AltcoinLeverage req <= 0 ->
        TraderRecord.AltcoinLeverage trader = TraderRecord.AltcoinLeverage existingTrader)
    /\ TraderRecord.TradingSymbols trader = UpdateTraderRequest.TradingSymbols req
    /\ (0 < UpdateTraderRequest.ScanIntervalMinutes req ->
        TraderRecord.ScanIntervalMinutes trader
        = Z.max 3 (UpdateTraderRequest.ScanIntervalMinutes req))
    /\ (UpdateTraderRequest.ScanIntervalMinutes req <= 0 ->
        TraderRecord.ScanIntervalMinutes trader
        = TraderRecord.ScanIntervalMinutes existingTrader)
    /\ TraderRecord.UseCoinPool trader = false
    /\ TraderRecord.UseOITop trader = false
    /\ TraderRecord.IsRunning trader = TraderRecord.IsRunning existingTrader).
  { subst trader. unfold updatedRecord.
    cbn [TraderRecord.BTCETHLeverage TraderRecord.AltcoinLeverage
         TraderRecord.ScanIntervalMinutes TraderRecord.TradingSymbols
         TraderRecord.UseCoinPool TraderRecord.UseOITop TraderRecord.IsRunning].
    destruct (UpdateTraderRequest.BTCETHLeverage req <=? 0) eqn:Hb;
      [apply Z.leb_le in Hb|apply Z.leb_gt in Hb];
      (destruct (UpdateTraderRequest.AltcoinLeverage req <=? 0) eqn:Ha;
       [apply Z.leb_le in Ha|apply Z.leb_gt in Ha]);
      (destruct (UpdateTraderRequest.ScanIntervalMinutes req <=? 0) eqn:Hs;
       [apply Z.leb_le in Hs|apply Z.leb_gt in Hs]);
      try (destruct (UpdateTraderRequest.ScanIntervalMinutes req <? 3) eqn:Hs3;
           [apply Z.ltb_lt in Hs3|apply Z.ltb_ge in Hs3]);
      repeat split; intros; try done; lia. }
  destruct (UpdateTraderDB trader) as [err|] eqn:Hdb; cbn [fst snd].
  - exists trader, []. split; [done|].
    destruct Hfields as (?&?&?&?&?&?&?&?&?&?). repeat (split; [assumption|]).
    split; [|split].
    + split; [by intros (?&?&?&?)|]. intros Hnone. by rewrite Hdb in Hnone.
    + intros err' Herr. rewrite Hdb in Herr. by injection Herr as <-.
    + intros Hnone. by rewrite Hdb in Hnone.
  - eexists trader, _. split; [reflexivity|].
    destruct Hfields as (?&?&?&?&?&?&?&?&?&?). repeat (split; [assumption|]).
    split; [|split].
    + split; [done|]. intros _. by eexists _, _, _.
    + intros err Herr. by rewrite Hdb in Herr.
    + intros _. reflexivity.
Qed.

End UpdateTrader.

Section TradersScenario.
Import go traders.
#[local] Open Scope string_scope.
#[local] Open Scope Z_scope.


(** A leverage of 500 for a trader that has 5: the record is stored
    with 500, and an initial balance that moves by 0.05 is not updated. *)
Lemma handleUpdateTrader_record_witness :
  let existingTrader :=
    TraderRecord.mk "t1" "user" "t" "deepseek" "binance" 1000 5 5 "" true true ""
      false "default" true 3 true in
  let req :=
    UpdateTraderRequest.mk "t" "deepseek" "binance" 1000.05 1 500 0 "DOGE" "" false ""
      None in
  let out := handleUpdateTrader "user" "t1" (inr req) (inr [existingTrader])
               (fun _ => None) in
  exists trader,
    out.2 = [UpdateTrader trader; RemoveTrader "t1"; LoadTraderByID "user" "t1"]
    /\ TraderRecord.BTCETHLeverage trader = 500
    /\ TraderRecord.AltcoinLeverage trader = 5
    /\ TraderRecord.UseCoinPool trader = false.
Proof.
  intros existingTrader req out.
  destruct (handleUpdateTrader_record "user" "t1" req [existingTrader] existingTrader
              (fun _ => None) eq_refl)
    as (trader & rest & Hout & Hbtc & _ & _ & Halt & _ & _ & _ & Hpool & _ & _ & _ & _
        & Hrest).
  exists trader. fold out in Hout. rewrite Hout, (Hrest eq_refl).
  split; [reflexivity|]. split; [apply Hbtc; reflexivity|].
  split; [apply Halt; reflexivity|exact Hpool].
Defined.

End TradersScenario.

(** ** Replacing API keys in the database *)

Section HotKeys.
Import go hotkeys.
#[local] Open Scope string_scope.
#[local] Open Scope Z_scope.

Lemma exchange_fold (exchangeID : string) (traders : list TraderRecord.t) :
  forall st,
    fold_left (exchangeStep exchangeID) traders st
    = ((st.1
        ++ map TraderRecord.ID
             (List.filter
                (fun trader => String.eqb (TraderRecord.ExchangeID trader) exchangeID)
                traders))%list,
       (st.2
        ++ map TraderRecord.ID
             (List.filter
                (fun trader =>
                   String.eqb (TraderRecord.ExchangeID trader) exchangeID
                   && TraderRecord.IsRunning trader)
                traders))%list).
Proof.
  induction traders as [|trader traders IH]; intros [affected running].
  { cbn. by rewrite !app_nil_r. }
  cbn [fold_left List.filter]. rewrite IH. unfold exchangeStep. cbn [fst snd].
  destruct (String.eqb (TraderRecord.ExchangeID trader) exchangeID); cbn [andb fst snd].
  - destruct (TraderRecord.IsRunning trader); cbn [map fst snd];
      by rewrite <- ?app_assoc.
  - done.
Qed.

Lemma filter_and_length {A : Type} (p q : A -> bool) (l : list A) :
  (length (List.filter (fun x => p x && q x) l) <= length (List.filter p l))%nat.
Proof.
  induction l as [|x l IH]; [done|]. cbn [List.filter].
  destruct (p x), (q x); cbn [andb length]; lia.
Qed.

Lemma find_split {A : Type} (p : A -> bool) (l : list A) (x : A) :
  find p l = Some x ->
  exists before after,
    l = (before ++ x :: after)%list /\ p x = true
    /\ forall y, y ∈ before -> p y = false.
Proof.
  induction l as [|a l IH]; [done|]. cbn [find]. destruct (p a) eqn:Hp.
  - intros [= ->]. exists [], l. repeat split; try done.
    intros y H. by apply elem_of_nil in H.
  - intros Hfind. destruct (IH Hfind) as (before & after & -> & Hx & Hb).
    exists (a :: before), after. repeat split; try done.
    intros y [->|Hin]%elem_of_cons; [done|by apply Hb].
Qed.

(** X26. [handleUpdateExchangeKeysOnly] makes at most one write: the
    first of the user's exchanges with the id of the request gets the
    two keys of the request, and every other field of the write is the
    one the exchange has. It answers 200 exactly when that write is made
    and succeeds; [trader_ids] then lists, in order, the user's traders
    on that exchange, [affected_traders] is their number and
    [running_traders] the number of those that are running. *)
Theorem handleUpdateExchangeKeysOnly_write (userID exchangeID : string)
  (bind : string + string * string)
  (GetExchanges : string + list ExchangeConfig.t)
  (GetTraders : string + list TraderRecord.t) (DB : call -> option string) :
  let out :=
    handleUpdateExchangeKeysOnly userID exchangeID bind GetExchanges GetTraders DB in
  (forall c, c ∈ out.2 ->
     out.2 = [c]
     /\ exists apiKey secretKey exchanges before existingExchange after,
          bind = inr (apiKey, secretKey)
          /\ GetExchanges = inr exchanges
          /\ exchanges = (before ++ existingExchange :: after)%list
          /\ ExchangeConfig.ID existingExchange = exchangeID
          /\ (forall ex, ex ∈ before -> ExchangeConfig.ID ex <> exchangeID)
          /\ c = exchangeKeys userID exchangeID apiKey secretKey existingExchange)
  /\ (forall affected running ids,
        out.1 = ExchangeKeysJSON affected running ids
        <-> exists c traders,
              out.2 = [c] /\ DB c = None /\ GetTraders = inr traders
              /\ ids
                 = map TraderRecord.ID
                     (List.filter
                        (fun trader =>
                           String.eqb (TraderRecord.ExchangeID trader) exchangeID)
                        traders)
              /\ affected = len ids
              /\ running
                 = len (List.filter
                          (fun trader =>
                             String.eqb (TraderRecord.ExchangeID trader) exchangeID
                             && TraderRecord.IsRunning trader)
                          traders)
              /\ 0 <= running <= affected).
Proof.
  cbv zeta. unfold handleUpdateExchangeKeysOnly.
  destruct bind as [err|[apiKey secretKey]]; cbn [fst snd].
  { split; [intros c H; by apply elem_of_nil in H|].
    intros a r ids. split; [done|]. by intros (c & traders & H & _). }
  destruct GetExchanges as [err|exchanges]; cbn [fst snd].
  { split; [intros c H; by apply elem_of_nil in H|].
    intros a r ids. split; [done|]. by intros (c & traders & H & _). }
  destruct (find _ exchanges) as [existingExchange|] eqn:Hfind; cbn [fst snd].
  2: { split; [intros c H; by apply elem_of_nil in H|].
       intros a r ids. split; [done|]. by intros (c & traders & H & _). }
  destruct GetTraders as [err|traders]; cbn [fst snd].
  { split; [intros c H; by apply elem_of_nil in H|].
    intros a r ids. split; [done|]. by intros (c & traders & H & _). }
  cbv zeta. rewrite exchange_fold. cbn [fst snd app].
  set (write := exchangeKeys userID exchangeID apiKey secretKey existingExchange).
  assert (Hwrite : forall c, c ∈ [write] ->
    [write] = [c]
    /\ exists apiKey' secretKey' exchanges' before existingExchange' after,
         (inr (apiKey, secretKey) : string + string * string)
         = inr (apiKey', secretKey')
         /\ (inr exchanges : string + list ExchangeConfig.t) = inr exchanges'
         /\ exchanges' = (before ++ existingExchange' :: after)%list
         /\ ExchangeConfig.ID existingExchange' = exchangeID
         /\ (forall ex, ex ∈ before -> ExchangeConfig.ID ex <> exchangeID)
         /\ c = exchangeKeys userID exchangeID apiKey' secretKey' existingExchange').
  { intros c Hc. apply list_elem_of_singleton in Hc as ->. split; [done|].
    destruct (find_split _ _ _ Hfind) as (before & after & -> & Hid & Hb).
    apply String.eqb_eq in Hid.
    exists apiKey, secretKey, (before ++ existingExchange :: after)%list, before,
      existingExchange, after.
    repeat split; try done. intros ex Hin. apply String.eqb_neq. by apply Hb. }
  assert (Hcount :
    0 <= len (List.filter
                (fun trader =>
                   String.eqb (TraderRecord.ExchangeID trader) exchangeID
                   && TraderRecord.IsRunning trader) traders)
      <= len (map TraderRecord.ID
                (List.filter
                   (fun trader => String.eqb (TraderRecord.ExchangeID trader) exchangeID)
                   traders))).
  { unfold len. rewrite length_map.
    pose proof (filter_and_length
                  (fun trader => String.eqb (TraderRecord.ExchangeID trader) exchangeID)
                  TraderRecord.IsRunning traders) as Hle.
    cbv beta in Hle. lia. }
  destruct (DB write) as [err|] eqn:Hdb; cbn [fst snd].
  - split; [exact Hwrite|]. intros a r ids. split; [done|].
    intros (c & traders' & [= <-] & Hnone & _). by rewrite Hdb in Hnone.
  - split; [exact Hwrite|]. intros a r ids. split.
    + intros [= <- <- <-]. exists write, traders.
      unfold len in *. rewrite !length_map in *. repeat split; try done; lia.
    + intros (c & traders' & _ & _ & [= <-] & -> & -> & -> & _).
      f_equal. unfold len. by rewrite length_map.
Qed.

End HotKeys.

Section ModelKeys.
Import go hotkeys.
#[local] Open Scope string_scope.
#[local] Open Scope Z_scope.

(** The loop over the models keeps the last model of each provider. *)
Lemma model_fold (aiModels : list AIModelConfig.t) :
  forall st,
    fold_left modelStep aiModels st
    = (match
         last (List.filter
                 (fun m => String.eqb (AIModelConfig.Provider m) "deepseek") aiModels)
       with
       | Some m => Some m
       | None => st.1
       end,
       match
         last (List.filter
                 (fun m => String.eqb (AIModelConfig.Provider m) "qwen") aiModels)
       with
       | Some m => Some m
       | None => st.2
       end).
Proof.
  induction aiModels as [|model aiModels IH]; intros [d q]; [done|].
  cbn [fold_left List.filter]. rewrite IH. unfold modelStep. cbn [fst snd].
  destruct (String.eqb (AIModelConfig.Provider model) "deepseek") eqn:Hd.
  - apply String.eqb_eq in Hd. rewrite Hd.
    change (String.eqb "deepseek" "qwen") with false. cbn [fst snd].
    rewrite last_cons. by destruct (last (List.filter _ aiModels)).
  - destruct (String.eqb (AIModelConfig.Provider model) "qwen") eqn:Hq; cbn [fst snd].
    + rewrite last_cons.
      by destruct (last (List.filter
                          (fun m => String.eqb (AIModelConfig.Provider m) "qwen")
                          aiModels)).
    + done.
Qed.

Lemma last_filter_elem {A : Type} (p : A -> bool) (l : list A) (x : A) :
  last (List.filter p l) = Some x -> x ∈ l /\ p x = true.
Proof.
  intros H. apply last_Some in H as [l' Hl].
  assert (Hin : In x (List.filter p l)).
  { rewrite Hl. apply in_or_app. right. by left. }
  apply filter_In in Hin as [Hin Hp]. split; [by apply list_elem_of_In|done].
Qed.

Lemma modelTrader_fold (deepseekModel qwenModel : option AIModelConfig.t)
  (traders : list TraderRecord.t) :
  forall st,
    (length st.2 <= length st.1)%nat ->
    let st' := fold_left (modelTraderStep deepseekModel qwenModel) traders st in
    (length st'.2 <= length st'.1)%nat.
Proof.
  induction traders as [|trader traders IH]; intros st Hst; [done|].
  cbn [fold_left]. apply IH. unfold modelTraderStep.
  assert (Hcount : forall (model : option AIModelConfig.t) (s : list string * list string),
    (length s.2 <= length s.1)%nat ->
    (length (match model with
             | Some m =>
               if String.eqb (TraderRecord.AIModelID trader) (AIModelConfig.ID m)
               then ((s.1 ++ [TraderRecord.ID trader])%list,
                     if TraderRecord.IsRunning trader
                     then (s.2 ++ [TraderRecord.ID trader])%list else s.2)
               else s
             | None => s
             end).2
     <= length (match model with
                | Some m =>
                  if String.eqb (TraderRecord.AIModelID trader) (AIModelConfig.ID m)
                  then ((s.1 ++ [TraderRecord.ID trader])%list,
                        if TraderRecord.IsRunning trader
                        then (s.2 ++ [TraderRecord.ID trader])%list else s.2)
                  else s
                | None => s
                end).1)%nat).
  { intros [m|] s Hs; [|done].
    destruct (String.eqb _ _); [|done]. cbn [fst snd].
    destruct (TraderRecord.IsRunning trader); rewrite ?length_app; cbn [length]; lia. }
  apply Hcount. by apply Hcount.
Qed.

(** X27. [handleUpdateAIModelKeysOnly] writes at most twice, and only
    to models of the user whose provider is deepseek or qwen: a write
    replaces the key of the model by the one of the request and keeps
    its other fields. It answers 404 only without having written, and
    200 only when it has written at least once and every write
    succeeded; it then names one provider per write, and
    [running_traders] is at most [affected_traders], the number of ids
    listed. *)
Theorem handleUpdateAIModelKeysOnly_writes (userID : string) (bind : string + string)
  (GetAIModels : string + list AIModelConfig.t)
  (GetTraders : string + list TraderRecord.t) (DB : call -> option string) :
  let out := handleUpdateAIModelKeysOnly userID bind GetAIModels GetTraders DB in
  (forall c, c ∈ out.2 ->
     exists apiKey aiModels model,
       bind = inr apiKey /\ GetAIModels = inr aiModels /\ model ∈ aiModels
       /\ (AIModelConfig.Provider model = "deepseek"
           \/ AIModelConfig.Provider model = "qwen")
       /\ c = modelKey userID apiKey model)
  /\ (length out.2 <= 2)%nat
  /\ (forall error, out.1 = ErrorJSON 404 error -> out.2 = [])
  /\ (forall updated affected running ids,
        out.1 = ModelKeysJSON updated affected running ids ->
        out.2 <> [] /\ (forall c, c ∈ out.2 -> DB c = None)
        /\ length updated = length out.2
        /\ affected = len ids /\ 0 <= running <= affected).
Proof.
  cbv zeta. unfold handleUpdateAIModelKeysOnly.
  destruct bind as [err|apiKey]; cbn [fst snd].
  { split; [intros c H; by apply elem_of_nil in H|]. split; [cbn; lia|]. done. }
  destruct GetAIModels as [err|aiModels]; cbn [fst snd].
  { split; [intros c H; by apply elem_of_nil in H|]. split; [cbn; lia|]. done. }
  cbv zeta. rewrite model_fold. cbn [fst snd].
  assert (Hmodel : forall p m,
    (p = "deepseek" \/ p = "qwen") ->
    last (List.filter (fun m => String.eqb (AIModelConfig.Provider m) p) aiModels)
    = Some m ->
    exists apiKey' aiModels' model,
      (inr apiKey : string + string) = inr apiKey'
      /\ (inr aiModels : string + list AIModelConfig.t) = inr aiModels'
      /\ model ∈ aiModels'
      /\ (AIModelConfig.Provider model = "deepseek"
          \/ AIModelConfig.Provider model = "qwen")
      /\ modelKey userID apiKey m = modelKey userID apiKey' model).
  { intros p m Hp Hlast. apply last_filter_elem in Hlast as [Hin Hprov].
    apply String.eqb_eq in Hprov. exists apiKey, aiModels, m.
    repeat split; try done. by rewrite Hprov. }
  assert (Hcount : forall d q,
    let st := match GetTraders with
              | inl _ => ([], [])
              | inr traders => fold_left (modelTraderStep d q) traders ([], [])
              end in
    0 <= len st.2 <= len st.1).
  { intros d q. cbv zeta. destruct GetTraders as [err|traders]; [done|].
    pose proof (modelTrader_fold d q traders ([], [])) as H. cbv zeta in H.
    unfold len. cbn [fst snd length] in H. lia. }
  destruct (last (List.filter
                    (fun m => String.eqb (AIModelConfig.Provider m) "deepseek")
                    aiModels)) as [d|] eqn:Hd;
    destruct (last (List.filter
                      (fun m => String.eqb (AIModelConfig.Provider m) "qwen")
                      aiModels)) as [q|] eqn:Hq.
  - destruct (DB (modelKey userID apiKey d)) as [err|] eqn:Hdb1; cbn [fst snd].
    { split; [|split; [cbn; lia|done]].
      intros c ->%list_elem_of_singleton. by apply (Hmodel "deepseek"); [left|]. }
    destruct (DB (modelKey userID apiKey q)) as [err|] eqn:Hdb2; cbn [fst snd app].
    { split; [|split; [cbn; lia|done]].
      intros c [->| ->%list_elem_of_singleton]%elem_of_cons;
        [by apply (Hmodel "deepseek"); [left|]|by apply (Hmodel "qwen"); [right|]]. }
    match goal with |- context [len ?l =? 0] => change (len l =? 0) with false end. cbn [fst snd].
    split; [|split; [cbn; lia|split; [done|]]].
    + intros c [->| ->%list_elem_of_singleton]%elem_of_cons;
        [by apply (Hmodel "deepseek"); [left|]|by apply (Hmodel "qwen"); [right|]].
    + intros updated affected running ids [= <- <- <- <-].
      split; [done|]. split; [|split; [done|split; [done|apply Hcount]]].
      intros c [->| ->%list_elem_of_singleton]%elem_of_cons; done.
  - destruct (DB (modelKey userID apiKey d)) as [err|] eqn:Hdb1; cbn [fst snd].
    { split; [|split; [cbn; lia|done]].
      intros c ->%list_elem_of_singleton. by apply (Hmodel "deepseek"); [left|]. }
    match goal with |- context [len ?l =? 0] => change (len l =? 0) with false end. cbn [fst snd].
    split; [|split; [cbn; lia|split; [done|]]].
    + intros c ->%list_elem_of_singleton. by apply (Hmodel "deepseek"); [left|].
    + intros updated affected running ids [= <- <- <- <-].
      split; [done|]. split; [|split; [done|split; [done|apply Hcount]]].
      by intros c ->%list_elem_of_singleton.
  - cbn [fst snd app].
    destruct (DB (modelKey userID apiKey q)) as [err|] eqn:Hdb2; cbn [fst snd app].
    { split; [|split; [cbn; lia|done]].
      intros c ->%list_elem_of_singleton. by apply (Hmodel "qwen"); [right|]. }
    match goal with |- context [len ?l =? 0] => change (len l =? 0) with false end. cbn [fst snd].
    split; [|split; [cbn; lia|split; [done|]]].
    + intros c ->%list_elem_of_singleton. by apply (Hmodel "qwen"); [right|].
    + intros updated affected running ids [= <- <- <- <-].
      split; [done|]. split; [|split; [done|split; [done|apply Hcount]]].
      by intros c ->%list_elem_of_singleton.
  - cbn [fst snd]. match goal with |- context [len ?l =? 0] => change (len l =? 0) with true end. cbn [fst snd].
    split; [intros c H; by apply elem_of_nil in H|]. split; [cbn; lia|]. done.
Qed.

(** X28. The two writes of [handleUpdateAIModelKeysOnly] are not
    atomic: when the user has a deepseek and a qwen model, the write to
    the deepseek model succeeds and the write to the qwen model fails,
    the answer is 500 and the deepseek write has been made. The models
    written are the last deepseek and the last qwen model of the
    user's list. *)
Theorem handleUpdateAIModelKeysOnly_partial (userID apiKey : string)
  (aiModels : list AIModelConfig.t) (deepseekModel qwenModel : AIModelConfig.t)
  (GetTraders : string + list TraderRecord.t) (DB : call -> option string)
  (err : string) :
  last (List.filter (fun m => String.eqb (AIModelConfig.Provider m) "deepseek") aiModels)
  = Some deepseekModel ->
  last (List.filter (fun m => String.eqb (AIModelConfig.Provider m) "qwen") aiModels)
  = Some qwenModel ->
  DB (modelKey userID apiKey deepseekModel) = None ->
  DB (modelKey userID apiKey qwenModel) = Some err ->
  handleUpdateAIModelKeysOnly userID (inr apiKey) (inr aiModels) GetTraders DB
  = (ErrorJSON 500 ("更新Qwen模型密钥失败: " ++ err),
     [modelKey userID apiKey deepseekModel; modelKey userID apiKey qwenModel]).
Proof.
  intros Hd Hq Hdb1 Hdb2. unfold handleUpdateAIModelKeysOnly. cbv zeta.
  rewrite model_fold. cbn [fst snd]. rewrite Hd, Hq, Hdb1. cbn [fst snd].
  by rewrite Hdb2.
Qed.

End ModelKeys.

Section ModelKeysScenario.
Import go hotkeys.
#[local] Open Scope string_scope.
#[local] Open Scope Z_scope.

(** Two deepseek models and a qwen model whose write fails. *)
Lemma handleUpdateAIModelKeysOnly_partial_witness :
  let old := AIModelConfig.mk "m0" "deepseek" false "" "" in
  let deepseekModel := AIModelConfig.mk "m1" "deepseek" true "" "" in
  let qwenModel := AIModelConfig.mk "m2" "qwen" true "" "" in
  let DB := fun c => match c with
                     | UpdateAIModel _ "m2" _ _ _ _ => Some "locked"
                     | _ => None
                     end in
  handleUpdateAIModelKeysOnly "user" (inr "key") (inr [old; qwenModel; deepseekModel])
    (inr []) DB
  = (ErrorJSON 500 "更新Qwen模型密钥失败: locked",
     [UpdateAIModel "user" "m1" true "key" "" ""; UpdateAIModel "user" "m2" true "key" "" ""]).
Proof.
  intros old deepseekModel qwenModel DB.
  exact (handleUpdateAIModelKeysOnly_partial "user" "key" [old; qwenModel; deepseekModel]
           deepseekModel qwenModel (inr []) DB "locked"
           eq_refl eq_refl eq_refl eq_refl).
Defined.

End ModelKeysScenario.

(** ** Registration *)

Section Register.
Import go register.
#[local] Open Scope string_scope.
#[local] Open Scope Z_scope.
Variable ToLower : string -> string.
Variable GetOTPQRCodeURL : string -> string -> string.
Variable HashPassword : string -> string + string.
Variable ValidateBetaCode : string -> string + bool.
Variable GetUserByEmail : string -> option User.t.

(** X29. [handleRegister] creates a user only when registration is not
    switched off, the request binds, the beta code is present and valid
    if the beta mode is on, and no user has the email; the user created
    has the email of the request, the hash of its password, a fresh OTP
    secret, and is not verified. A beta code is marked as used only
    after the user was created. For an email that a user already has,
    nothing is written, and an answer 200 means that this user is not
    verified and gives the user's id and OTP secret, whatever the
    password of the request. *)
Theorem handleRegister_creates (registration : string * option string)
  (bind : string + request) (betaModeStr betaModeStr2 : string)
  (otp : string + string) (uuid : string)
  (CreateUserDB : User.t -> option string) :
  let out :=
    handleRegister ToLower GetOTPQRCodeURL HashPassword ValidateBetaCode
      GetUserByEmail registration bind betaModeStr betaModeStr2 otp uuid
      CreateUserDB in
  (forall user, CreateUser user ∈ out.2 ->
     ~ (registration.2 = None /\ ToLower registration.1 = "false")
     /\ exists req,
          bind = inr req
          /\ (betaModeStr = "true" ->
              BetaCode req <> "" /\ ValidateBetaCode (BetaCode req) = inr true)
          /\ GetUserByEmail (Email req) = None
          /\ HashPassword (Password req) = inr (User.PasswordHash user)
          /\ otp = inr (User.OTPSecret user)
          /\ User.ID user = uuid
          /\ User.Email user = Email req
          /\ User.OTPVerified user = false)
  /\ (forall code email, UseBetaCode code email ∈ out.2 ->
        betaModeStr2 = "true" /\ code <> ""
        /\ exists user req,
             out.2 = [CreateUser user; UseBetaCode code email]
             /\ CreateUserDB user = None
             /\ bind = inr req /\ code = BetaCode req /\ email = Email req)
  /\ (forall req existingUser,
        bind = inr req -> GetUserByEmail (Email req) = Some existingUser ->
        out.2 = []
        /\ forall id email secret url message,
             out.1 = OTPSetupJSON id email secret url message ->
             User.OTPVerified existingUser = false
             /\ id = User.ID existingUser
             /\ secret = User.OTPSecret existingUser).
Proof.
  cbv zeta. unfold handleRegister. cbv zeta.
  assert (Hnil : forall (r : response),
    (forall user, CreateUser user ∈ (r, @nil call).2 ->
       ~ (registration.2 = None /\ ToLower registration.1 = "false")
       /\ exists req,
            bind = inr req
            /\ (betaModeStr = "true" ->
                BetaCode req <> "" /\ ValidateBetaCode (BetaCode req) = inr true)
            /\ GetUserByEmail (Email req) = None
            /\ HashPassword (Password req) = inr (User.PasswordHash user)
            /\ otp = inr (User.OTPSecret user)
            /\ User.ID user = uuid
            /\ User.Email user = Email req
            /\ User.OTPVerified user = false)
    /\ (forall code email, UseBetaCode code email ∈ (r, @nil call).2 ->
          betaModeStr2 = "true" /\ code <> ""
          /\ exists user req,
               (r, @nil call).2 = [CreateUser user; UseBetaCode code email]
               /\ CreateUserDB user = None
               /\ bind = inr req /\ code = BetaCode req /\ email = Email req)).
  { intros r. cbn [snd]. split.
    - intros user H. by apply elem_of_nil in H.
    - intros code email H. by apply elem_of_nil in H. }
  destruct (negb match registration.2 with
                 | Some _ => true
                 | None => negb (String.eqb (ToLower registration.1) "false")
                 end) eqn:Hreg.
  { destruct (Hnil (ErrorJSON 403 "注册已关闭")) as [H1 H2].
    split; [exact H1|]. split; [exact H2|].
    intros req existingUser _ _. cbn [fst snd]. split; [done|]. intros. discriminate. }
  assert (Henabled : ~ (registration.2 = None /\ ToLower registration.1 = "false")).
  { intros [Hnone Hfalse]. rewrite Hnone, Hfalse in Hreg. discriminate Hreg. }
  clear Hreg.
  destruct bind as [err|req].
  { destruct (Hnil (ErrorJSON 400 err)) as [H1 H2].
    split; [exact H1|]. split; [exact H2|]. intros req existingUser H. discriminate H. }
  assert (Hexisting : forall (r : response) (calls : list call),
    calls = [] ->
    (forall id email secret url message,
       r = OTPSetupJSON id email secret url message ->
       exists existingUser,
         GetUserByEmail (Email req) = Some existingUser
         /\ User.OTPVerified existingUser = false
         /\ id = User.ID existingUser /\ secret = User.OTPSecret existingUser) ->
    forall req' existingUser,
      (inr req : string + request) = inr req' ->
      GetUserByEmail (Email req') = Some existingUser ->
      (r, calls).2 = []
      /\ forall id email secret url message,
           (r, calls).1 = OTPSetupJSON id email secret url message ->
           User.OTPVerified existingUser = false
           /\ id = User.ID existingUser
           /\ secret = User.OTPSecret existingUser).
  { intros r calls -> Hr req' existingUser [= <-] Hget. cbn [fst snd].
    split; [done|]. intros id email secret url message Hjson.
    destruct (Hr _ _ _ _ _ Hjson) as (u & Hu & Hv & -> & ->).
    rewrite Hget in Hu. by injection Hu as <-. }
  set (beta :=
         if String.eqb betaModeStr "true" then
           if String.eqb (BetaCode req) "" then
             Some (ErrorJSON 400 "内测期间，注册需要提供内测码")
           else
             match ValidateBetaCode (BetaCode req) with
             | inl _ => Some (ErrorJSON 500 "验证内测码失败")
             | inr isValid =>
               if negb isValid then Some (ErrorJSON 400 "内测码无效或已被使用")
               else None
             end
         else None).
  assert (Hbeta : (exists status error, beta = Some (ErrorJSON status error))
                  \/ (beta = None
                      /\ (betaModeStr = "true" ->
                          BetaCode req <> ""
                          /\ ValidateBetaCode (BetaCode req) = inr true))).
  { subst beta. destruct (String.eqb betaModeStr "true") eqn:Hmode.
    - destruct (String.eqb (BetaCode req) "") eqn:Hcode; [left; by eexists _, _|].
      apply String.eqb_neq in Hcode.
      destruct (ValidateBetaCode (BetaCode req)) as [e|[|]];
        [left; by eexists _, _| |left; by eexists _, _].
      right. by split.
    - right. split; [done|]. intros ->. discriminate Hmode. }
  destruct Hbeta as [(status & error & ->)|[-> Hcode]].
  { destruct (Hnil (ErrorJSON status error)) as [H1 H2].
    split; [exact H1|]. split; [exact H2|].
    apply Hexisting; [done|]. intros. discriminate. }
  destruct (GetUserByEmail (Email req)) as [existingUser|] eqn:Hget.
  { destruct (negb (User.OTPVerified existingUser)) eqn:Hv.
    - match goal with |- context [(?r, @nil call)] => destruct (Hnil r) as [H1 H2] end.
      split; [exact H1|]. split; [exact H2|].
      apply Hexisting; [done|]. intros id email secret url message [= <- _ <- _ _].
      exists existingUser. apply negb_true_iff in Hv. rewrite <- Hget. done.
    - destruct (Hnil (ErrorJSON 409 "邮箱已被注册")) as [H1 H2].
      split; [exact H1|]. split; [exact H2|].
      apply Hexisting; [done|]. intros. discriminate. }
  destruct (HashPassword (Password req)) as [e|passwordHash] eqn:Hhash.
  { destruct (Hnil (ErrorJSON 500 "密码处理失败")) as [H1 H2].
    split; [exact H1|]. split; [exact H2|].
    intros req' u [= <-] Hu. rewrite Hget in Hu. discriminate Hu. }
  destruct otp as [e|otpSecret].
  { destruct (Hnil (ErrorJSON 500 "OTP密钥生成失败")) as [H1 H2].
    split; [exact H1|]. split; [exact H2|].
    intros req' u [= <-] Hu. rewrite Hget in Hu. discriminate Hu. }
  set (user := User.mk uuid (Email req) passwordHash otpSecret false).
  assert (Hcreated :
    ~ (registration.2 = None /\ ToLower registration.1 = "false")
    /\ exists req',
         (inr req : string + request) = inr req'
         /\ (betaModeStr = "true" ->
             BetaCode req' <> "" /\ ValidateBetaCode (BetaCode req') = inr true)
         /\ GetUserByEmail (Email req') = None
         /\ HashPassword (Password req') = inr (User.PasswordHash user)
         /\ (inr otpSecret : string + string) = inr (User.OTPSecret user)
         /\ User.ID user = uuid
         /\ User.Email user = Email req'
         /\ User.OTPVerified user = false).
  { split; [exact Henabled|]. exists req. by rewrite Hget. }
  destruct (CreateUserDB user) as [err|] eqn:Hdb; cbn [fst snd].
  - split; [|split].
    + by intros u [= ->]%list_elem_of_singleton.
    + intros code email H%list_elem_of_singleton. discriminate H.
    + intros req' u [= <-] Hu. rewrite Hget in Hu. discriminate Hu.
  - split; [|split].
    + intros u [[= ->]|Hin]%elem_of_cons; [exact Hcreated|].
      destruct (_ && _); [|by apply elem_of_nil in Hin].
      apply list_elem_of_singleton in Hin. discriminate Hin.
    + intros code email [H|Hin]%elem_of_cons; [discriminate H|].
      destruct (String.eqb betaModeStr2 "true" && negb (String.eqb (BetaCode req) ""))
        eqn:Huse; [|by apply elem_of_nil in Hin].
      apply list_elem_of_singleton in Hin. injection Hin as -> ->.
      apply andb_true_iff in Huse as [Hmode Hne].
      apply String.eqb_eq in Hmode. apply negb_true_iff, String.eqb_neq in Hne.
      split; [done|]. split; [done|]. by exists user, req.
    + intros req' u [= <-] Hu. rewrite Hget in Hu. discriminate Hu.
Qed.

End Register.
